(* ===== verification/_CoqProject ===== *)
-Q . S2P
Prelude.v
GoStd.v
GoNet.v
GoEncoding.v
Protocol.v
Admission.v
Compress.v
Relay.v
Joining.v
Acl.v
Tunnel.v
UdpNat.v
NatSpec.v
Server.v
ServerConns.v
Client.v
ClientState.v
Socks.v
Proxy.v
HttpProxy.v
Config.v
Safefile.v
Commands.v
Cover.v
Probing.v
Provision.v
Mains.v
Metrics.v
Registry.v
Conns.v
HttpServe.v
Serving.v
Bench.v
BenchRun.v
BenchMain.v
EndToEnd.v
ProxyChain.v
