(* ===== verification/Prelude.v ===== *)
(** * wanopt-proxy, verified

    wanopt-proxy carries TCP connections and UDP datagrams of local applications through
    one authenticated HTTP/3 tunnel to a remote server.  This library models the program
    in Rocq, one file per component, and proves what makes each component correct and
    what the two ends achieve together.

    ** The program

    The client process ([cmd/client]) listens for SOCKS5 and HTTP proxy requests
    ([internal/proxy]), keeps one tunnel to the server ([internal/client]) and opens one
    HTTP/3 stream per TCP connection; UDP goes in QUIC datagrams.  The server process
    ([cmd/server], [internal/server]) authenticates the tunnel with a pre-shared key bound
    to the TLS session ([internal/tunnel]), checks every destination against an access
    list ([internal/acl]), and relays; UDP flows live in a NAT per connection.  Streams may
    be compressed block by block ([internal/compress]); every resource is bounded by budgets
    ([internal/admission]); the wire format is [internal/protocol]; settings come from
    [internal/config], counters go to [internal/metrics], and requests that are not for the
    tunnel see a cover site ([internal/decoy]).

    ** Files

    - [Prelude], [GoStd], [GoNet], [GoEncoding]: bytes, Go's errors, readers and writers,
      and executable models of the parts of strings, strconv, encoding/binary, net,
      net/netip, encoding/base64 and path/filepath that the sources call.
    - [Protocol]: address.go and frame.go of internal/protocol.
    - [Admission]: internal/admission, as an interface class with its laws, a sequential
      implementation and its interleaved atomic actions, both of which refine an abstract
      pool of leases.
    - [Compress], [Relay]: compress.go, and the copying code of both relays.
    - [Joining]: the goroutines, result channel and cancellation of the proxy's relay, the
      server's pipe and the UDP association, as one step relation with the numbers and
      choices of each of the three.
    - [Acl]: acl.go, with the race of the two address families as a step relation.
    - [Tunnel]: auth.go, credentials.go, quicconf.go, congestion.go, stream.go and the pins
      of tls.go.
    - [UdpNat], [NatSpec]: server/udp.go, a step relation over the shared state of the NAT,
      and the abstract datagram service it implements.
    - [Server], [ServerConns]: the handlers of server/server.go, and its connection table
      with authentication, limits and revocation as a step relation.
    - [Client], [ClientState]: the sequential code of client/client.go and the life of one
      stream as interleaved actions, and the client's shared state (tunnel publication, UDP
      sessions, dispatcher) as a step relation.
    - [Socks], [Proxy], [HttpProxy]: the files of internal/proxy; [HttpServe]: the HTTP
      proxy's transport, dialling and forwarding.
    - [Conns]: the connection wrappers of internal/proxy (idle timeout, metering,
      tracking) and the timing of a relay over two of them.
    - [Serving]: the accept loops of proxy and server with their shutdown, and the request
      gate of the HTTP proxy.
    - [Config], [Safefile], [Commands]: internal/config and internal/safefile; the options
      the commands derive, credential reload, the key generator and the decoy choice.
    - [Cover], [Probing]: internal/decoy, the built-in site with its answers; and
      handleControl of server.go with what a peer without a key can see of the server.
    - [Provision]: certificate generation, PEM and the TLS configurations of tls.go, from
      the key generator to the handshake.
    - [Mains]: server.New, client.New and the two main functions: start-up, workers,
      signals and exit status.
    - [Metrics], [Registry]: the counters of internal/metrics, and their registration.
    - [Bench], [BenchRun], [BenchMain]: tools/wanbench: the checks of a transfer; fixtures,
      origin, workers, measurement and report; slow readers and main.
    - [EndToEnd], [ProxyChain]: client and server composed, and with the two proxies in
      front of them.

    ** How the code is modelled

    Sequential functions are Rocq functions with the branches and early returns of the
    source; a fallible one returns [res] or an [option error].  A stream is a [reader]
    (the bytes it holds and the error it ends with) and a [writer] (what was written, and a
    plan of short or failing writes), so theorems quantify over every failure.  Code that
    runs concurrently is an inductive step relation whose steps are the critical sections,
    channel operations and system calls; invariants are proved by induction on reachability,
    so they hold in every interleaving.  Goroutine program counters, and a few ghost fields
    that record what the network has seen, are part of the states.  Times are nanoseconds
    in [Z]; machine integers are [Z] with the wrap-around written out where it matters.

    Code outside the repository is a parameter with named laws: DEFLATE ([FlateLaws]),
    HMAC and SHA-256 ([CryptoLaws]: digest lengths only), the unicode tables, DNS answers,
    diallers, the answers of quic-go and net/http, the YAML decoder, [url.Parse],
    crypto/x509 ([X509Laws]), the Prometheus registry ([RegistryLaws]), random draws and the
    file system.  Concrete instances evaluate the theorems.

    ** What is proved

    - End to end ([EndToEnd]): opening a stream, establishing the tunnel, the bytes of a
      stream in both directions and modes, the heartbeat, and a UDP packet and its reply.
      With the proxies ([ProxyChain]): whole SOCKS5 and HTTP CONNECT sessions, and how every
      kind of failure is reported to the application.
    - Access control ([Acl], [Tunnel], [ServerConns]): the policy holds for every address
      dialled whatever DNS answers; only holders of an active key are authenticated; a stream
      starts only on an authenticated connection whose key is still accepted; a revocation
      pass closes exactly the connections of removed keys; rotation lasts at most a week.
    - Indistinguishability ([Probing], [Cover]): a peer that cannot prove a key is turned away
      at accept exactly when the connection limit is reached, and otherwise sees the same
      answers from any two servers with the same cover site, whatever their keys, users and
      load; the built-in site always exists and answers every request.
    - Isolation ([UdpNat], [NatSpec], [ClientState], [Socks]): UDP sessions, flows and
      associations never mix, before and after authentication and close; the NAT refines an
      abstract service in which every datagram is forwarded at most once.
    - Limits ([Admission], [ServerConns], [Client], [Proxy], [UdpNat], [Metrics]): every
      budget, queue, table and label set stays within its bound in every interleaving, and
      every lease is returned exactly once; a pending request always gives its slot back.
    - HTTP forwarding ([HttpServe]): what a plain request may dial, send upstream and be
      answered with, on every branch; idle connections keep half of the streams free.
    - Progress ([ClientState], [Serving], [Joining], [Conns], [Mains], [Acl], [Compress],
      [Proxy], [HttpProxy]): no wake-up is lost, handlers join their goroutines, idle
      relays can be cut and busy ones cannot, shutdown and process exit always complete,
      the dial race and the decoder terminate.
    - Formats ([Protocol], [Compress], [Socks], [GoEncoding]): round trips with arbitrary
      trailing bytes, agreement of the two address decoders, and what truncation gives.
    - Configuration ([Config], [Commands]): the loaders accept exactly the valid settings
      and fill in the defaults, nothing downstream changes a loaded setting, a reload is
      all or nothing.  Provisioning ([Provision], [Mains]): what the key generator writes
      the server loads and the client's pin accepts, rotation has no gap, and a loaded
      configuration starts except for the named reasons.  Reading a file ([Safefile])
      never waits for a special file on Unix.
    - Measurement ([Metrics], [Registry], [Conns], [Bench], [BenchRun], [BenchMain]): counters
      are exact, registration cannot panic, the benchmark counts only intact transfers,
      reports quantiles within range and ends with the status of its integrity check.

    ** Fuel and bounds

    Recursion is structural except in the decimal printer (20 digits suffice for 64 bits),
    the varint codec (ten bytes), the printer of IPv6 addresses (eight groups) and [Decopy],
    whose fuel is the length of the stream plus one: every block takes at least six bytes,
    and its theorem states that it always returns.  The text generator of the benchmark has
    the wanted length as fuel: every line has a byte; its slow copy the length of the body
    plus one: every read delivers a byte.

    ** Not modelled

    TLS, QUIC and HTTP/3 themselves; net/http's server, transport and reverse proxy beyond
    the calls the sources make; deadlines and timers, except the times that decide
    credentials, NAT expiry, rate limits, retry delays and the idle timeout of a relay;
    flag parsing and logging; the execution of the decoy's templates, its file server and
    upstream proxy; the profiler and the JSON encoder of the benchmark tool, and those
    figures of its report that are only clock readings.  What the operating system answers
    (files, sockets, clocks) is an argument.  Timing and traffic analysis are outside the
    statement on probing peers: it speaks of answers, not of when they come. *)
From stdpp Require Export base list gmap strings.
From Stdlib Require Export ZArith Lia.
From Stdlib Require Init.Byte Strings.Byte.

#[global] Open Scope Z_scope.
#[global] Set Default Goal Selector "!".

(** ** Bytes

    Go's [byte], [[]byte] and [string] are all sequences of 8-bit values: both
    are modelled by lists of [Byte.byte], and a byte read as an integer is a [Z]
    between 0 and 255. *)
Abbreviation byte := Init.Byte.byte.
Abbreviation bytes := (list Init.Byte.byte).

(** A Go string literal. *)
Definition bs (s : string) : bytes := String.list_byte_of_string s.

(** The integer value of a byte, and Go's conversion [byte(z)], which keeps the
    low eight bits. *)
Definition b2z (b : byte) : Z := Z.of_N (Byte.to_N b).
Definition z2b (z : Z) : byte :=
  match Byte.of_N (Z.to_N (z mod 256)) with
  | Some b => b
  | None => Byte.x00
  end.

(** A single ASCII character constant of the sources. *)
Definition ch (s : string) : byte := default Byte.x00 (head (bs s)).

#[export] Instance byte_eq_dec : EqDecision byte.
Proof. refine Byte.byte_eq_dec. Defined.

#[export] Instance byte_countable : Countable byte.
Proof.
  refine (inj_countable Byte.to_N Byte.of_N _). exact Byte.of_to_N.
Defined.

Lemma b2z_range b : 0 <= b2z b < 256.
Proof.
  unfold b2z. pose proof (Byte.to_N_bounded b). lia.
Qed.

Lemma b2z_z2b z : b2z (z2b z) = z mod 256.
Proof.
  unfold b2z, z2b. pose proof (Z.mod_pos_bound z 256 ltac:(lia)) as Hr.
  destruct (Byte.of_N _) as [b|] eqn:E.
  - apply Byte.to_of_N in E. rewrite E. lia.
  - apply Byte.of_N_None_iff in E. lia.
Qed.

Lemma z2b_b2z b : z2b (b2z b) = b.
Proof.
  unfold b2z, z2b. pose proof (Byte.to_N_bounded b).
  rewrite Z.mod_small by lia. by rewrite N2Z.id, Byte.of_to_N.
Qed.

Lemma b2z_z2b_small z : 0 <= z < 256 -> b2z (z2b z) = z.
Proof. intros. by rewrite b2z_z2b, Z.mod_small. Qed.

Lemma b2z_inj b c : b2z b = b2z c -> b = c.
Proof. intros E. by rewrite <-(z2b_b2z b), <-(z2b_b2z c), E. Qed.

(** ** encoding/binary: big-endian 16-bit integers *)

(** [binary.BigEndian.AppendUint16] / [PutUint16] of the low 16 bits of [z]. *)
Definition be16 (z : Z) : bytes := [z2b (Z.shiftr z 8); z2b z].

(** [binary.BigEndian.Uint16] of a two-byte slice. *)
Definition get_be16 (b : bytes) : Z :=
  match b with
  | hi :: lo :: _ => Z.lor (Z.shiftl (b2z hi) 8) (b2z lo)
  | _ => 0
  end.

(** Shifting by [s] and or-ing a value of [s] bits is an addition. *)
Lemma lor_mul_add s hi lo : 0 <= s -> 0 <= lo < 2 ^ s ->
  Z.lor (hi * 2 ^ s) lo = hi * 2 ^ s + lo.
Proof.
  intros Hs Hlo. rewrite <-Z.add_lor_land.
  assert (Z.land (hi * 2 ^ s) lo = 0) as ->; [|lia].
  apply Z.bits_inj'. intros n Hn. rewrite Z.land_spec, Z.bits_0.
  destruct (decide (n < s)).
  - by rewrite Z.mul_pow2_bits_low by lia.
  - destruct (decide (lo = 0)) as [->|]; [by rewrite Z.bits_0, andb_false_r|].
    rewrite (Z.bits_above_log2 lo); [apply andb_false_r|lia|].
    apply Z.log2_lt_pow2; [lia|]. apply Z.lt_le_trans with (2 ^ s); [lia|].
    apply Z.pow_le_mono_r; lia.
Qed.

Lemma shift_lor_add hi lo : 0 <= hi -> 0 <= lo < 256 ->
  Z.lor (Z.shiftl hi 8) lo = hi * 256 + lo.
Proof.
  intros. rewrite Z.shiftl_mul_pow2 by lia. by apply (lor_mul_add 8).
Qed.

Lemma get_be16_be16 z rest : 0 <= z < 65536 -> get_be16 (be16 z ++ rest) = z.
Proof.
  intros Hz. unfold get_be16, be16. simpl.
  rewrite !b2z_z2b, Z.shiftr_div_pow2 by lia. change (2 ^ 8) with 256.
  pose proof (Z.div_lt_upper_bound z 256 256 ltac:(lia) ltac:(lia)).
  pose proof (Z.div_pos z 256 ltac:(lia) ltac:(lia)).
  rewrite shift_lor_add; [|apply Z.mod_pos_bound; lia..].
  rewrite (Z.mod_small (z / 256)) by lia.
  pose proof (Z.div_mod z 256 ltac:(lia)). lia.
Qed.

Lemma get_be16_range b : 0 <= get_be16 b < 65536.
Proof.
  destruct b as [|hi [|lo b]]; simpl; [lia..|].
  pose proof (b2z_range hi). pose proof (b2z_range lo).
  rewrite shift_lor_add; lia.
Qed.

Lemma be16_get_be16 hi lo : be16 (get_be16 [hi; lo]) = [hi; lo].
Proof.
  pose proof (b2z_range hi). pose proof (b2z_range lo).
  unfold be16. simpl. rewrite shift_lor_add by lia.
  rewrite Z.shiftr_div_pow2 by lia. change (2 ^ 8) with 256.
  f_equal; [|f_equal]; apply b2z_inj; rewrite b2z_z2b.
  - rewrite Z.div_add_l, Z.div_small, Z.add_0_r by lia. by apply Z.mod_small.
  - rewrite Z.add_comm, Z.mod_add by lia. by apply Z.mod_small.
Qed.

#[global] Arguments get_be16 : simpl never.
#[global] Arguments be16 : simpl never.

Lemma length_be16 z : length (be16 z) = 2%nat.
Proof. done. Qed.

(** ** Go errors

    One type for every error value the sources create, compare or inspect.
    [errors.New] and the errors of the operating system or of a library are
    identified by a text; [%w] wrapping and [errors.Join] are kept, because the
    sources look through them with [errors.Is] and [errors.As]. *)
Inductive error :=
| EOF | ErrUnexpectedEOF | ErrShortWrite | ErrNoProgress | ErrClosedPipe
| Canceled | DeadlineExceeded
| ErrNetClosed                      (* net.ErrClosed *)
| NetError (timeout : bool)         (* any net.Error, with its Timeout() *)
| ErrDenied | ErrBusy | ErrAddress  (* package acl *)
| ErrCapacity                       (* admission.ErrCapacity *)
| ErrClosed                         (* client.ErrClosed *)
| DialError (status : Z)            (* client.DialError *)
| ErrSize                           (* safefile.ErrSize *)
| ErrBodyReadAfterClose             (* net/http *)
| errBadAddress                     (* package protocol *)
| errUDPPayloadTooLarge             (* package proxy *)
| ErrNew (msg : string)
| Wrapped (msg : string) (e : error)
| Joined (e1 e2 : error).

#[export] Instance error_eq_dec : EqDecision error.
Proof. solve_decision. Defined.

(** [errors.Is]: the target occurs in the wrapping tree. *)
Fixpoint errors_Is (e target : error) : bool :=
  bool_decide (e = target) ||
  match e with
  | Wrapped _ e' => errors_Is e' target
  | Joined e1 e2 => errors_Is e1 target || errors_Is e2 target
  | _ => false
  end.

(** [errors.As] to [net.Error]: the [Timeout()] of the first net.Error of the
    tree. [context.DeadlineExceeded] implements that interface. *)
Fixpoint errors_As_net (e : error) : option bool :=
  match e with
  | NetError t => Some t
  | DeadlineExceeded => Some true
  | Wrapped _ e' => errors_As_net e'
  | Joined e1 e2 =>
      match errors_As_net e1 with Some t => Some t | None => errors_As_net e2 end
  | _ => None
  end.

(** [errors.As] to [*client.DialError]. *)
Fixpoint errors_As_dial (e : error) : option Z :=
  match e with
  | DialError s => Some s
  | Wrapped _ e' => errors_As_dial e'
  | Joined e1 e2 =>
      match errors_As_dial e1 with Some t => Some t | None => errors_As_dial e2 end
  | _ => None
  end.

(** The [errors.As(err, &ne) && ne.Timeout()] idiom of the sources. *)
Definition is_timeout (e : error) : bool := default false (errors_As_net e).

(** ** Fallible code: a value or an error *)
Inductive res (A : Type) :=
| Ok (a : A)
| Err (e : error).
Arguments Ok {A} a.
Arguments Err {A} e.

#[export] Instance res_eq_dec {A} `{EqDecision A} : EqDecision (res A).
Proof. solve_decision. Defined.

#[export] Instance res_ret : MRet res := fun A a => Ok a.
#[export] Instance res_bind : MBind res := fun A B f m =>
  match m with Ok a => f a | Err e => Err e end.

Definition is_ok {A} (r : res A) : bool :=
  match r with Ok _ => true | Err _ => false end.

(** [if err := ...; err != nil] on an error-only result. *)
Definition err_of {A} (r : res A) : option error :=
  match r with Ok _ => None | Err e => Some e end.

Lemma bind_Ok {A B} (f : A -> res B) m b :
  mbind f m = Ok b <-> exists a, m = Ok a /\ f a = Ok b.
Proof. destruct m; simpl; split; naive_solver. Qed.

(** ** io.Reader: the bytes a stream still holds, and the error it ends with *)
Record reader := Reader { rd_data : bytes; rd_end : error }.

(** Code that reads from a stream and may fail, leaving the stream advanced. *)
Definition rd (A : Type) : Type := reader -> res A * reader.

#[export] Instance rd_ret : MRet rd := fun A a r => (Ok a, r).
#[export] Instance rd_bind : MBind rd := fun A B f m r =>
  match m r with
  | (Ok a, r') => f a r'
  | (Err e, r') => (Err e, r')
  end.

Definition rd_fail {A} (e : error) : rd A := fun r => (Err e, r).
(** Continue with a computation that does not read. *)
Definition rd_lift {A} (m : res A) : rd A := fun r => (m, r).

(** [io.ReadFull] into a buffer of [n] bytes. *)
Definition ReadFull (n : nat) : rd bytes := fun r =>
  if decide (n <= length (rd_data r))%nat
  then (Ok (take n (rd_data r)), Reader (drop n (rd_data r)) (rd_end r))
  else (Err (match rd_data r, rd_end r with
             | _ :: _, EOF => ErrUnexpectedEOF
             | _, e => e
             end), Reader [] (rd_end r)).

Lemma ReadFull_app p rest e n : length p = n ->
  ReadFull n (Reader (p ++ rest) e) = (Ok p, Reader rest e).
Proof.
  intros <-. unfold ReadFull. simpl. rewrite decide_True by (rewrite length_app; lia).
  by rewrite take_app_length, drop_app_length.
Qed.

(** Reading exactly the front of a stream and continuing. *)
Lemma ReadFull_bind {B} p rest e n (k : bytes -> rd B) : length p = n ->
  (ReadFull n ≫= k) (Reader (p ++ rest) e) = k p (Reader rest e).
Proof. intros. unfold mbind, rd_bind. by rewrite ReadFull_app. Qed.

Lemma rd_bind_eq {A B} (m : rd A) (k : A -> rd B) r a r1 : m r = (Ok a, r1) ->
  (m ≫= k) r = k a r1.
Proof. intros E. unfold mbind, rd_bind. by rewrite E. Qed.

Lemma rd_bind_Ok {A B} (m : rd A) (k : A -> rd B) r b r' : (m ≫= k) r = (Ok b, r') ->
  exists a r1, m r = (Ok a, r1) /\ k a r1 = (Ok b, r').
Proof. unfold mbind, rd_bind. destruct (m r) as [[a|e] r1]; naive_solver. Qed.

Lemma ReadFull_Ok n r p r' : ReadFull n r = (Ok p, r') ->
  length p = n /\ rd_data r = p ++ rd_data r' /\ rd_end r' = rd_end r.
Proof.
  unfold ReadFull. case_decide; intros [= <- <-]. simpl.
  rewrite take_drop, length_take. split; [lia|done].
Qed.

Lemma ReadFull_short n r : (length (rd_data r) < n)%nat ->
  ReadFull n r = (Err (match rd_data r, rd_end r with
                       | _ :: _, EOF => ErrUnexpectedEOF
                       | _, e => e
                       end), Reader [] (rd_end r)).
Proof. intros. unfold ReadFull. rewrite decide_False by lia. done. Qed.

(** ** io.Writer: the bytes accepted so far, and what the next writes do

    An entry [Some (n, e)] of the plan makes one [Write] accept [n] bytes at most
    and return the error [e] (a short write without an error when [e] is [None]);
    [None], or an exhausted plan, is a successful write. *)
Record writer := Writer { wr_out : bytes; wr_plan : list (option (nat * option error)) }.

Definition Write (w : writer) (b : bytes) : nat * option error * writer :=
  match wr_plan w with
  | Some (n, e) :: plan => let m := min n (length b) in
                           (m, e, Writer (wr_out w ++ take m b) plan)
  | None :: plan => (length b, None, Writer (wr_out w ++ b) plan)
  | [] => (length b, None, Writer (wr_out w ++ b) [])
  end.

(** The "[n, err := w.Write(b)]; a short count without an error becomes
    [io.ErrShortWrite]" idiom of [WriteTo], [WriteReply], [writeProof] and
    [writeFull]. *)
Definition write_checked (w : writer) (b : bytes) : nat * option error * writer :=
  let '(n, err, w') := Write w b in
  (n, match err with
      | None => if bool_decide (n <> length b) then Some ErrShortWrite else None
      | Some e => Some e
      end, w').

Lemma write_checked_ok w b n w' : write_checked w b = (n, None, w') ->
  n = length b /\ wr_out w' = wr_out w ++ b.
Proof.
  unfold write_checked, Write. destruct (wr_plan w) as [|[[m [e|]]|] plan];
    try case_bool_decide; try done; intros [= <- <-]; simpl; try done.
  split; [done|]. rewrite take_ge; [done|]. lia.
Qed.

Lemma write_checked_good out b : write_checked (Writer out []) b = (length b, None, Writer (out ++ b) []).
Proof. unfold write_checked. simpl. by rewrite bool_decide_eq_false_2 by auto. Qed.

(** Whatever the outcome, a write appends a prefix of its argument. *)
Lemma write_checked_prefix w b n err w' : write_checked w b = (n, err, w') ->
  (n <= length b)%nat /\ wr_out w' = wr_out w ++ take n b.
Proof.
  unfold write_checked, Write. destruct (wr_plan w) as [|[[m e]|] plan];
    intros [= <- _ <-]; simpl; rewrite ?firstn_all; auto. split; [lia|done].
Qed.

(** ** Shared lemmas on lists *)

Lemma length_1 {A} (l : list A) : length l = 1%nat -> exists a, l = [a].
Proof. destruct l as [|a [|]]; naive_solver. Qed.

Lemma length_2 {A} (l : list A) : length l = 2%nat -> exists a b, l = [a; b].
Proof. destruct l as [|a [|b [|]]]; naive_solver. Qed.

Lemma length_3 {A} (l : list A) : length l = 3%nat -> exists a b c, l = [a; b; c].
Proof. destruct l as [|a [|b [|c [|]]]]; naive_solver. Qed.

Lemma app_split {A} (l : list A) n : (n <= length l)%nat ->
  exists p q, l = p ++ q /\ length p = n.
Proof.
  intros. exists (take n l), (drop n l). rewrite take_drop, length_take.
  split; [done|lia].
Qed.

(** A prefix of a concatenation ends in the first or in the second part. *)
Lemma prefix_app_or {A} (p l1 l2 : list A) : p `prefix_of` l1 ++ l2 ->
  p `prefix_of` l1 \/ exists q, p = l1 ++ q /\ q `prefix_of` l2.
Proof.
  intros Hp. destruct (prefix_weak_total p l1 (l1 ++ l2) Hp) as [?|[q ->]]; [by apply prefix_app_r|by left|].
  right. exists q. split; [done|]. by apply prefix_app_inv in Hp.
Qed.

(** ** Counting the entries of a finite map *)
Definition mcount {K V} `{Countable K} (f : V -> bool) (m : gmap K V) : nat :=
  size (filter (fun kv => f kv.2 = true) m).

Section mcount.
Context {K V : Type} `{Countable K}.
Implicit Types (m : gmap K V) (f : V -> bool).

Lemma mcount_empty f : mcount f (∅ : gmap K V) = 0%nat.
Proof. unfold mcount. by rewrite map_filter_empty, map_size_empty. Qed.

Lemma mcount_insert_new f m k v : m !! k = None ->
  mcount f (<[k := v]> m) = ((if f v then 1 else 0) + mcount f m)%nat.
Proof.
  intros Hk. unfold mcount. rewrite map_filter_insert. cbn.
  destruct (f v) eqn:E; [rewrite decide_True by done|rewrite decide_False by done].
  - rewrite map_size_insert_None; [done|]. apply map_lookup_filter_None. by left.
  - rewrite delete_id by done. done.
Qed.

Lemma mcount_insert_old f m k v w : m !! k = Some w ->
  (mcount f (<[k := v]> m) + (if f w then 1 else 0) = (if f v then 1 else 0) + mcount f m)%nat.
Proof.
  intros Hk. rewrite <-(insert_delete_id m k w Hk) at 2. rewrite <-(insert_delete_eq m k v).
  rewrite !mcount_insert_new by apply lookup_delete_eq. lia.
Qed.

Lemma mcount_delete f m k w : m !! k = Some w ->
  (mcount f m = (if f w then 1 else 0) + mcount f (delete k m))%nat.
Proof.
  intros Hk. rewrite <-(insert_delete_id m k w Hk) at 1.
  by rewrite mcount_insert_new by apply lookup_delete_eq.
Qed.

Lemma mcount_pos f m k w : m !! k = Some w -> f w = true -> (0 < mcount f m)%nat.
Proof. intros Hk Hf. rewrite (mcount_delete f m k w Hk), Hf. lia. Qed.

Lemma mcount_mono f g m : (forall k v, m !! k = Some v -> f v = true -> g v = true) ->
  (mcount f m <= mcount g m)%nat.
Proof.
  intros Hfg. unfold mcount. apply map_subseteq_size, map_filter_subseteq_ext.
  intros k v Hk. cbn. eauto.
Qed.

Lemma mcount_all f m : (forall v, f v = true) -> mcount f m = size m.
Proof. intros Hf. unfold mcount. f_equal. apply map_filter_id. intros k v _. apply Hf. Qed.

Lemma mcount_ext f g m : (forall k v, m !! k = Some v -> f v = g v) -> mcount f m = mcount g m.
Proof.
  intros Hfg. apply Nat.le_antisymm; apply mcount_mono; intros k v Hk;
    rewrite (Hfg k v Hk); done.
Qed.
End mcount.

(** ** Durations, in nanoseconds *)
Definition second : Z := 10 ^ 9.

(** ** Automation *)

Create HintDb wanopt.
Create Rewrite HintDb wanopt.
Create Rewrite HintDb lens.
#[export] Hint Resolve write_checked_good : wanopt.
#[export] Hint Resolve b2z_range get_be16_range : wanopt.
#[export] Hint Rewrite b2z_z2b z2b_b2z : wanopt.
#[export] Hint Rewrite @length_app @length_take @length_drop @length_cons
  @length_nil @length_replicate length_be16 : lens.

(** Normalise the lengths of the lists in a goal and close it with [lia]. *)
Ltac len := repeat autorewrite with lens in *; first [lia | cbn [length] in *; lia | simpl in *; lia].

(** Case analysis on the scrutinee of a [match] or [if] of the goal, or of a
    given hypothesis, keeping the equation. *)
Ltac case_goal :=
  match goal with
  | |- context [match ?x with _ => _ end] =>
      lazymatch x with context [match _ with _ => _ end] => fail | _ => idtac end;
      let E := fresh "E" in destruct x eqn:E
  end.
Ltac case_hyp H :=
  match type of H with
  | context [match ?x with _ => _ end] =>
      lazymatch x with context [match _ with _ => _ end] => fail | _ => idtac end;
      let E := fresh "E" in destruct x eqn:E
  end.

(** Split boolean conjunctions and disjunctions and turn the integer and
    decision tests of a context into propositions. *)
Ltac bool_props :=
  repeat match goal with
  | H : _ && _ = true |- _ => apply andb_true_iff in H; destruct H
  | H : _ || _ = false |- _ => apply orb_false_iff in H; destruct H
  | H : negb _ = true |- _ => apply negb_true_iff in H
  | H : negb _ = false |- _ => apply negb_false_iff in H
  | H : bool_decide _ = true |- _ => apply bool_decide_eq_true in H
  | H : bool_decide _ = false |- _ => apply bool_decide_eq_false in H
  | H : (_ =? _) = true |- _ => apply Z.eqb_eq in H
  | H : (_ =? _) = false |- _ => apply Z.eqb_neq in H
  | H : (_ <? _) = true |- _ => apply Z.ltb_lt in H
  | H : (_ <? _) = false |- _ => apply Z.ltb_ge in H
  | H : (_ <=? _) = true |- _ => apply Z.leb_le in H
  | H : (_ <=? _) = false |- _ => apply Z.leb_gt in H
  end.
