(* ===== verification/GoStd.v ===== *)
(** * The parts of Go's standard library that the sources rely on

    Executable models of the functions of [strings], [strconv],
    [encoding/binary] and [net] (with [net/netip]) that the modelled packages
    call.  Each follows the algorithm of the library, so that the wire codec,
    the access lists and the configuration checks can be evaluated on concrete
    inputs. *)
From S2P Require Import Prelude.

(** ** Characters *)
Definition in_range (c lo hi : byte) : bool := (b2z lo <=? b2z c) && (b2z c <=? b2z hi).
Definition is_digit (c : byte) : bool := in_range c (ch "0") (ch "9").
Definition is_lower (c : byte) : bool := in_range c (ch "a") (ch "z").
Definition is_upper (c : byte) : bool := in_range c (ch "A") (ch "Z").
Definition is_ascii (c : byte) : bool := b2z c <? 128.
Definition beq (a b : byte) : bool := bool_decide (a = b).

Definition digit_val (c : byte) : Z := b2z c - 48.
(** The value of a hexadecimal digit, [None] for any other character. *)
Definition hex_val (c : byte) : option Z :=
  if is_digit c then Some (b2z c - 48)
  else if in_range c (ch "a") (ch "f") then Some (b2z c - 97 + 10)
  else if in_range c (ch "A") (ch "F") then Some (b2z c - 65 + 10)
  else None.

(** ** Package strings *)

(** [strings.IndexByte]: the position of the first [c]. *)
Fixpoint IndexByte (s : bytes) (c : byte) : option nat :=
  match s with
  | [] => None
  | x :: s' => if beq x c then Some 0%nat else S <$> IndexByte s' c
  end.

(** [strings.LastIndexByte]. *)
Fixpoint LastIndexByte (s : bytes) (c : byte) : option nat :=
  match s with
  | [] => None
  | x :: s' =>
      match LastIndexByte s' c with
      | Some i => Some (S i)
      | None => if beq x c then Some 0%nat else None
      end
  end.

Definition ContainsByte (s : bytes) (c : byte) : bool := bool_decide (c ∈ s).

(** Quoted text in the JSON the sources write: a field name with its colon, and a value. *)
Definition quote : byte := Byte.x22.
Definition field (name : string) : bytes := quote :: bs name ++ [quote; Byte.x3a].
Definition quoted (s : bytes) : bytes := quote :: s ++ [quote].

Definition HasPrefix (s p : bytes) : bool := bool_decide (take (length p) s = p).
Definition HasSuffix (s p : bytes) : bool :=
  bool_decide (length p <= length s)%nat &&
  bool_decide (drop (length s - length p) s = p).
Definition TrimPrefix (s p : bytes) : bytes := if HasPrefix s p then drop (length p) s else s.
Definition TrimSuffix (s p : bytes) : bytes :=
  if HasSuffix s p then take (length s - length p) s else s.

(** [strings.Split(s, sep)] for a one-byte separator: always at least one piece. *)
Fixpoint Split (s : bytes) (sep : byte) : list bytes :=
  match s with
  | [] => [[]]
  | c :: s' =>
      if beq c sep then [] :: Split s' sep
      else match Split s' sep with
           | piece :: rest => (c :: piece) :: rest
           | [] => [[c]]
           end
  end.

(** [strings.ToLower] and [strings.TrimSpace] handle ASCII text themselves and
    fall back to the tables of package unicode when a byte of 0x80 or more
    occurs; the fallback is a parameter of the model. *)
Class Unicode := {
  map_to_lower : bytes -> bytes;      (* strings.Map(unicode.ToLower, s) *)
  trim_space_func : bytes -> bytes;   (* strings.TrimFunc(s, unicode.IsSpace) *)
}.

Definition lower_byte (c : byte) : byte := if is_upper c then z2b (b2z c + 32) else c.

Definition ToLower `{Unicode} (s : bytes) : bytes :=
  if forallb is_ascii s then map lower_byte s else map_to_lower s.

Definition is_space (c : byte) : bool :=
  bool_decide (b2z c ∈ [9; 10; 11; 12; 13; 32]).

Fixpoint trim_left (s : bytes) : bytes :=
  match s with
  | c :: s' => if is_space c then trim_left s' else s
  | [] => []
  end.

(** The scan from each end stops at the first byte that is not an ASCII space;
    when that byte is not ASCII the rest is trimmed by the unicode tables. *)
Definition TrimSpace `{Unicode} (s : bytes) : bytes :=
  let l := trim_left s in
  match l with
  | c :: _ =>
      if negb (is_ascii c) then trim_space_func l
      else let r := reverse (trim_left (reverse l)) in
           match reverse r with
           | d :: _ => if negb (is_ascii d) then trim_space_func r else r
           | [] => r
           end
  | [] => []
  end.

(** ** Package strconv *)

Fixpoint digits_value (acc : Z) (s : bytes) : option Z :=
  match s with
  | [] => Some acc
  | c :: s' => if is_digit c then digits_value (acc * 10 + digit_val c) s' else None
  end.

(** [strconv.ParseUint(s, 10, bits)]. *)
Definition ParseUint (s : bytes) (bits : Z) : res Z :=
  match s with
  | [] => Err (ErrNew "strconv.ParseUint: invalid syntax")
  | _ => match digits_value 0 s with
         | None => Err (ErrNew "strconv.ParseUint: invalid syntax")
         | Some v => if v <? 2 ^ bits then Ok v
                     else Err (ErrNew "strconv.ParseUint: value out of range")
         end
  end.

(** [strconv.Atoi]: an optional sign, then decimal digits in the range of int. *)
Definition Atoi (s : bytes) : res Z :=
  let '(neg, digits) :=
    match s with
    | c :: s' => if beq c (ch "-") then (true, s')
                 else if beq c (ch "+") then (false, s') else (false, s)
    | [] => (false, s)
    end in
  match digits with
  | [] => Err (ErrNew "strconv.Atoi: invalid syntax")
  | _ => match digits_value 0 digits with
         | None => Err (ErrNew "strconv.Atoi: invalid syntax")
         | Some v => let v' := if neg then - v else v in
                     if (- 2 ^ 63 <=? v') && (v' <? 2 ^ 63) then Ok v'
                     else Err (ErrNew "strconv.Atoi: value out of range")
         end
  end.

(** Decimal digits of a nonnegative integer, most significant first; [fuel]
    bounds the number of digits. *)
Fixpoint dec_digits (fuel : nat) (z : Z) (acc : bytes) : bytes :=
  let acc' := z2b (48 + z mod 10) :: acc in
  match fuel with
  | O => acc'
  | S f => if z <? 10 then acc' else dec_digits f (z / 10) acc'
  end.

(** [strconv.Itoa] / the [%d] verb on a nonnegative 64-bit integer, which has at
    most twenty digits. *)
Definition Itoa (z : Z) : bytes := dec_digits 19 z [].

(** ** encoding/binary: unsigned varints *)

(** [binary.AppendUvarint]: seven bits per byte, least significant group first;
    a uint64 takes at most ten bytes, so nine continuation steps suffice. *)
Fixpoint uvarint_bytes (fuel : nat) (x : Z) : bytes :=
  match fuel with
  | S f => if 128 <=? x
           then z2b (Z.lor (x mod 256) 128) :: uvarint_bytes f (Z.shiftr x 7)
           else [z2b x]
  | O => [z2b x]
  end.
Definition AppendUvarint (b : bytes) (x : Z) : bytes := b ++ uvarint_bytes 9 x.

(** [binary.Uvarint]: the value and the number of bytes read; zero bytes when
    the buffer ends too early, a negative count on a value of more than 64 bits.
    [i] and [s] are the loop's byte index and shift. *)
Fixpoint uvarint_loop (buf : bytes) (i : Z) (x s : Z) : Z * Z :=
  match buf with
  | [] => (0, 0)
  | b :: buf' =>
      if i =? 10 then (0, - (i + 1))
      else if b2z b <? 128 then
        if (i =? 9) && (1 <? b2z b) then (0, - (i + 1))
        else (Z.lor x (Z.shiftl (b2z b) s mod 2 ^ 64), i + 1)
      else uvarint_loop buf' (i + 1)
             (Z.lor x (Z.shiftl (Z.land (b2z b) 127) s mod 2 ^ 64)) (s + 7)
  end.
Definition Uvarint (buf : bytes) : Z * Z := uvarint_loop buf 0 0 0.

(** ** Facts about varints *)

Lemma pow7_split i : 0 <= i <= 9 -> 2 ^ 64 = 2 ^ (64 - 7 * i) * 2 ^ (7 * i).
Proof. intros. rewrite <-Z.pow_add_r by lia. f_equal. lia. Qed.

(** One accumulation step of [binary.Uvarint]: no bit of the group is lost. *)
Lemma uvarint_acc x low s : 0 <= s -> 0 <= x < 2 ^ s -> 0 <= low -> low * 2 ^ s < 2 ^ 64 ->
  Z.lor x (Z.shiftl low s mod 2 ^ 64) = low * 2 ^ s + x.
Proof.
  intros. rewrite Z.shiftl_mul_pow2 by lia.
  rewrite (Z.mod_small (low * 2 ^ s)) by lia. rewrite Z.lor_comm. by apply lor_mul_add.
Qed.

Lemma continuation_byte x : 0 <= x ->
  b2z (z2b (Z.lor (x mod 256) 128)) = x mod 128 + 128.
Proof.
  intros. rewrite b2z_z2b.
  assert (Z.lor (x mod 256) 128 = x mod 128 + 128) as ->.
  { pose proof (Z.mod_pos_bound x 128 ltac:(lia)).
    replace (x mod 256) with ((x / 128) mod 2 * 2 ^ 7 + x mod 128).
    2:{ change 256 with (128 * 2). rewrite Z.rem_mul_r by lia. lia. }
    rewrite <-lor_mul_add by lia. rewrite <-Z.lor_assoc, (Z.lor_comm _ 128), Z.lor_assoc.
    assert (Z.lor ((x / 128) mod 2 * 2 ^ 7) 128 = 1 * 2 ^ 7) as ->.
    { pose proof (Z.mod_pos_bound (x / 128) 2 ltac:(lia)).
      assert ((x / 128) mod 2 = 0 \/ (x / 128) mod 2 = 1) as [-> | ->] by lia; reflexivity. }
    rewrite lor_mul_add by lia. lia. }
  apply Z.mod_small. pose proof (Z.mod_pos_bound x 128 ltac:(lia)). lia.
Qed.

Lemma land_127 z : Z.land z 127 = z mod 128.
Proof. apply (Z.land_ones z 7). lia. Qed.

Lemma uvarint_bytes_length f x : (1 <= length (uvarint_bytes f x) <= S f)%nat.
Proof. revert x. induction f as [|f IH]; intros x; simpl; [lia|]. case_match; simpl; [specialize (IH (Z.shiftr x 7))|]; lia. Qed.

Lemma uvarint_loop_bytes f i x acc rest :
  Z.of_nat f = 9 - i -> 0 <= i -> 0 <= acc < 2 ^ (7 * i) -> 0 <= x < 2 ^ (64 - 7 * i) ->
  uvarint_loop (uvarint_bytes f x ++ rest) i acc (7 * i) =
    (x * 2 ^ (7 * i) + acc, i + Z.of_nat (length (uvarint_bytes f x))).
Proof.
  revert i x acc. induction f as [|f IH]; intros i x acc Hf Hi Hacc Hx.
  - assert (i = 9) as -> by lia. change (2 ^ (64 - 7 * 9)) with 2 in Hx.
    simpl. rewrite b2z_z2b, Z.mod_small by lia.
    rewrite (proj2 (Z.ltb_lt x 128)) by lia. rewrite (proj2 (Z.ltb_ge 1 x)) by lia.
    simpl. rewrite uvarint_acc by lia. f_equal; lia.
  - assert (i <= 8) by lia.
    assert (x * 2 ^ (7 * i) < 2 ^ 64).
    { rewrite (pow7_split i) by lia. apply Z.mul_lt_mono_pos_r; lia. }
    cbn [uvarint_bytes]. destruct (Z.leb_spec 128 x) as [Hge|Hlt].
    + cbn [app uvarint_loop length]. rewrite (proj2 (Z.eqb_neq i 10)) by lia.
      rewrite continuation_byte by lia. pose proof (Z.mod_pos_bound x 128 ltac:(lia)).
      rewrite (proj2 (Z.ltb_ge _ 128)) by lia. rewrite land_127.
      rewrite Z.add_mod, Z_mod_same_full, Z.add_0_r, !Z.mod_mod by lia.
      pose proof (Z.mod_le x 128 ltac:(lia) ltac:(lia)).
      assert (x mod 128 * 2 ^ (7 * i) <= x * 2 ^ (7 * i)) by (apply Z.mul_le_mono_nonneg_r; lia).
      rewrite uvarint_acc by lia.
      replace (7 * i + 7) with (7 * (i + 1)) by lia. rewrite Z.shiftr_div_pow2 by lia.
      change (2 ^ 7) with 128.
      assert (E7 : 2 ^ (7 * (i + 1)) = 128 * 2 ^ (7 * i)).
      { change 128 with (2 ^ 7). rewrite <-Z.pow_add_r by lia. f_equal. lia. }
      assert (E64 : 2 ^ (64 - 7 * i) = 2 ^ (64 - 7 * (i + 1)) * 128).
      { change 128 with (2 ^ 7). rewrite <-Z.pow_add_r by lia. f_equal. lia. }
      rewrite IH; [| lia | lia | | split; [apply Z.div_pos; lia|] ].
      * rewrite E7. f_equal; [|lia]. rewrite (Z.div_mod x 128) at 3 by lia. ring.
      * rewrite E7. split; [lia|].
        assert (x mod 128 * 2 ^ (7 * i) <= 127 * 2 ^ (7 * i)) by (apply Z.mul_le_mono_nonneg_r; lia).
        lia.
      * apply Z.div_lt_upper_bound; lia.
    + cbn [app uvarint_loop length]. rewrite (proj2 (Z.eqb_neq i 10)) by lia.
      rewrite b2z_z2b, Z.mod_small by lia. rewrite (proj2 (Z.ltb_lt x 128)) by lia.
      rewrite (proj2 (Z.eqb_neq i 9)) by lia. cbn [andb].
      rewrite uvarint_acc by lia. f_equal; lia.
Qed.

(** Decoding an encoded uint64 gives it back and consumes its bytes only. *)
Lemma Uvarint_AppendUvarint x rest : 0 <= x < 2 ^ 64 ->
  Uvarint (AppendUvarint [] x ++ rest) = (x, Z.of_nat (length (AppendUvarint [] x))).
Proof.
  intros. unfold Uvarint, AppendUvarint. rewrite app_nil_l.
  pose proof (uvarint_loop_bytes 9 0 x 0 rest) as E. change (7 * 0) with 0 in E.
  rewrite E by lia. f_equal; lia.
Qed.

(** A successful decode reads at most ten bytes and yields a uint64 that fits
    the number of groups read. *)
Lemma uvarint_loop_bound buf i x s v n :
  uvarint_loop buf i x s = (v, n) -> s = 7 * i -> 0 <= i <= 10 -> 0 <= x < 2 ^ (7 * i) -> 0 < n ->
  i < n <= 10 /\ 0 <= v < 2 ^ 64 /\ v < 2 ^ (7 * n) /\ n - i <= Z.of_nat (length buf).
Proof.
  revert i x s. induction buf as [|b buf IH]; intros i x s E -> Hi Hx Hn.
  { simpl in E. injection E as <- <-. lia. }
  cbn [uvarint_loop] in E. pose proof (b2z_range b).
  destruct (Z.eqb_spec i 10); [injection E as <- <-; lia|].
  destruct (Z.ltb_spec (b2z b) 128) as [Hb|Hb].
  - destruct ((i =? 9) && (1 <? b2z b)) eqn:E9; [injection E as <- <-; lia|].
    injection E as <- <-. apply andb_false_iff in E9.
    assert (i <= 9) by lia.
    assert (b2z b * 2 ^ (7 * i) <= 127 * 2 ^ (7 * i)) by (apply Z.mul_le_mono_nonneg_r; lia).
    assert (b2z b * 2 ^ (7 * i) + x < 2 ^ 64) as Hlt.
    { destruct (decide (i = 9)) as [->|].
      - destruct E9 as [E9|E9]; [done|]. apply Z.ltb_ge in E9. lia.
      - assert (2 ^ (7 * i) <= 2 ^ 56) by (apply Z.pow_le_mono_r; lia). lia. }
    rewrite uvarint_acc by lia.
    assert (2 ^ (7 * (i + 1)) = 128 * 2 ^ (7 * i)) as ->.
    { change 128 with (2 ^ 7). rewrite <-Z.pow_add_r by lia. f_equal. lia. }
    cbn [length]. lia.
  - destruct (decide (i = 9)) as [->|].
    { destruct buf; simpl in E; injection E as <- <-; lia. }
    assert (0 <= Z.land (b2z b) 127 < 128) as Hl.
    { rewrite land_127. apply Z.mod_pos_bound. lia. }
    assert (2 ^ (7 * i) <= 2 ^ 56) by (apply Z.pow_le_mono_r; lia).
    assert (Z.land (b2z b) 127 * 2 ^ (7 * i) <= 127 * 2 ^ (7 * i)) by (apply Z.mul_le_mono_nonneg_r; lia).
    rewrite uvarint_acc in E by lia.
    replace (7 * i + 7) with (7 * (i + 1)) in E by lia.
    apply IH in E; [cbn [length]; lia|done|lia| |done].
    replace (7 * (i + 1)) with (7 + 7 * i) by lia. rewrite Z.pow_add_r by lia.
    change (2 ^ 7) with 128. lia.
Qed.

Lemma Uvarint_bound buf v n : Uvarint buf = (v, n) -> 0 < n ->
  n <= 10 /\ 0 <= v < 2 ^ 64 /\ v < 2 ^ (7 * n) /\ n <= Z.of_nat (length buf).
Proof. intros E Hn. apply uvarint_loop_bound in E; [lia|done|lia|simpl; lia|done]. Qed.

Lemma uvarint_bytes_short f x k : 0 < k -> 0 <= x < 2 ^ (7 * k) ->
  Z.of_nat (length (uvarint_bytes f x)) <= k.
Proof.
  revert x k. induction f as [|f IH]; intros x k Hk Hx; cbn [uvarint_bytes]; [simpl; lia|].
  destruct (Z.leb_spec 128 x); [|simpl; lia].
  destruct (decide (k = 1)) as [->|]; [simpl in Hx; lia|].
  cbn [length]. cut (Z.of_nat (length (uvarint_bytes f (Z.shiftr x 7))) <= k - 1); [lia|].
  apply IH; [lia|]. rewrite Z.shiftr_div_pow2 by lia. change (2 ^ 7) with 128.
  split; [apply Z.div_pos; lia|]. apply Z.div_lt_upper_bound; [lia|].
  change 128 with (2 ^ 7). rewrite <-Z.pow_add_r by lia.
  replace (7 + 7 * (k - 1)) with (7 * k) by lia. lia.
Qed.

(** The encoder never needs more bytes than any encoding that decodes to the
    same value: overlong varints shrink when they are encoded again. *)
Lemma AppendUvarint_minimal buf v n : Uvarint buf = (v, n) -> 0 < n ->
  Z.of_nat (length (AppendUvarint [] v)) <= n.
Proof.
  intros E Hn. apply Uvarint_bound in E as (?&?&?&?); [|done].
  unfold AppendUvarint. rewrite app_nil_l. apply uvarint_bytes_short; lia.
Qed.

Lemma AppendUvarint_length v : (1 <= length (AppendUvarint [] v) <= 10)%nat.
Proof. unfold AppendUvarint. rewrite app_nil_l. apply uvarint_bytes_length. Qed.

(** ** Facts about decimal numbers *)

Lemma is_digit_spec c : is_digit c = true <-> 48 <= b2z c <= 57.
Proof.
  unfold is_digit, in_range. change (b2z (ch "0")) with 48. change (b2z (ch "9")) with 57.
  rewrite andb_true_iff, !Z.leb_le. lia.
Qed.

Lemma digit_byte d : 0 <= d < 10 ->
  is_digit (z2b (48 + d)) = true /\ digit_val (z2b (48 + d)) = d.
Proof.
  intros. rewrite is_digit_spec. unfold digit_val. rewrite b2z_z2b_small by lia. lia.
Qed.

Lemma digits_value_app a s t :
  digits_value a (s ++ t) = digits_value a s ≫= (fun v => digits_value v t).
Proof. revert a. induction s as [|c s IH]; intros a; simpl; [done|]. by case_match. Qed.

Lemma dec_digits_spec f z acc : 0 <= z < 10 ^ (Z.of_nat f + 1) ->
  exists ds, dec_digits f z acc = ds ++ acc /\ ds <> [] /\ forallb is_digit ds = true /\
    digits_value 0 ds = Some z.
Proof.
  revert z acc. induction f as [|f IH]; intros z acc Hz.
  - assert (z < 10) by (simpl in Hz; lia). simpl. exists [z2b (48 + z mod 10)].
    rewrite Z.mod_small by lia. destruct (digit_byte z) as [Hd Hv]; [lia|].
    simpl. rewrite Hd, Hv. done.
  - cbn [dec_digits]. pose proof (Z.mod_pos_bound z 10 ltac:(lia)) as Hm.
    destruct (digit_byte (z mod 10)) as [Hd Hv]; [lia|].
    destruct (Z.ltb_spec z 10).
    + exists [z2b (48 + z mod 10)]. simpl. rewrite Hd, Hv.
      rewrite Z.mod_small by lia. done.
    + destruct (IH (z / 10) (z2b (48 + z mod 10) :: acc)) as (ds & E & Hne & Hds & Hval).
      { split; [apply Z.div_pos; lia|]. apply Z.div_lt_upper_bound; [lia|].
        rewrite <-Z.pow_succ_r by lia. replace (Z.succ (Z.of_nat f + 1)) with (Z.of_nat (S f) + 1) by lia. lia. }
      exists (ds ++ [z2b (48 + z mod 10)]). rewrite E, <-app_assoc. simpl. split; [done|].
      split; [by destruct ds|]. rewrite forallb_app, Hds. simpl. rewrite Hd.
      split; [done|]. rewrite digits_value_app, Hval. simpl. rewrite Hd, Hv.
      f_equal. pose proof (Z.div_mod z 10 ltac:(lia)). lia.
Qed.

Lemma Itoa_spec z : 0 <= z < 2 ^ 64 ->
  Itoa z <> [] /\ forallb is_digit (Itoa z) = true /\ digits_value 0 (Itoa z) = Some z.
Proof.
  intros. unfold Itoa. destruct (dec_digits_spec 19 z []) as (ds & -> & H'); [lia|].
  by rewrite app_nil_r.
Qed.

Lemma Itoa_inj x y : 0 <= x < 2 ^ 64 -> 0 <= y < 2 ^ 64 -> Itoa x = Itoa y -> x = y.
Proof.
  intros Hx Hy E. apply Itoa_spec in Hx as (_ & _ & Hx). apply Itoa_spec in Hy as (_ & _ & Hy).
  congruence.
Qed.

Lemma ParseUint_Itoa z bits : 0 <= bits <= 64 -> 0 <= z < 2 ^ bits ->
  ParseUint (Itoa z) bits = Ok z.
Proof.
  intros Hb Hz. assert (2 ^ bits <= 2 ^ 64) by (apply Z.pow_le_mono_r; lia).
  destruct (Itoa_spec z) as (Hne & _ & Hv); [lia|]. unfold ParseUint.
  destruct (Itoa z) eqn:E; [done|]. rewrite Hv. by rewrite (proj2 (Z.ltb_lt _ _)) by lia.
Qed.

Lemma digits_value_nonneg s a v : 0 <= a -> digits_value a s = Some v -> 0 <= v.
Proof.
  revert a. induction s as [|c s IH]; intros a Ha; simpl; [intros [= <-]; lia|].
  destruct (is_digit c) eqn:Ec; [|done]. apply is_digit_spec in Ec.
  apply IH. unfold digit_val. lia.
Qed.

Lemma ParseUint_range s bits v : ParseUint s bits = Ok v -> 0 <= v < 2 ^ bits.
Proof.
  unfold ParseUint. destruct s; [done|]. destruct (digits_value 0 _) eqn:E; [|done].
  destruct (Z.ltb_spec z (2 ^ bits)); [|done]. intros [= <-].
  apply digits_value_nonneg in E; lia.
Qed.

(** ** Facts about strings *)

Lemma beq_true a b : beq a b = true <-> a = b.
Proof. apply bool_decide_eq_true. Qed.

Lemma beq_refl a : beq a a = true.
Proof. by apply beq_true. Qed.

Lemma ContainsByte_app s t c : ContainsByte (s ++ t) c = ContainsByte s c || ContainsByte t c.
Proof.
  unfold ContainsByte. apply eq_true_iff_eq.
  rewrite orb_true_iff, !bool_decide_eq_true, elem_of_app. done.
Qed.

Lemma ContainsByte_cons x s c : ContainsByte (x :: s) c = beq x c || ContainsByte s c.
Proof.
  unfold ContainsByte, beq. apply eq_true_iff_eq.
  rewrite orb_true_iff, !bool_decide_eq_true, elem_of_cons. naive_solver.
Qed.

(** A text whose characters all pass a test does not contain one that fails it. *)
Lemma forallb_not_contains p s c : forallb p s = true -> p c = false -> ContainsByte s c = false.
Proof.
  intros Hs Hc. induction s as [|x s IH]; [done|]. rewrite ContainsByte_cons.
  simpl in Hs. apply andb_true_iff in Hs as [Hx Hs]. rewrite IH by done.
  apply orb_false_iff. split; [|done]. apply bool_decide_eq_false. intros ->. congruence.
Qed.

Lemma IndexByte_None s c : ContainsByte s c = false -> IndexByte s c = None.
Proof.
  induction s as [|x s IH]; [done|]. rewrite ContainsByte_cons. intros [E H]%orb_false_iff.
  simpl. rewrite E, IH by done. done.
Qed.

Lemma IndexByte_app s c t : ContainsByte s c = false -> IndexByte (s ++ c :: t) c = Some (length s).
Proof.
  induction s as [|x s IH]; [simpl; by rewrite beq_refl|].
  rewrite ContainsByte_cons. intros [E H]%orb_false_iff. simpl. rewrite E, IH by done. done.
Qed.

Lemma LastIndexByte_None s c : ContainsByte s c = false -> LastIndexByte s c = None.
Proof.
  induction s as [|x s IH]; [done|]. rewrite ContainsByte_cons. intros [E H]%orb_false_iff.
  simpl. by rewrite E, IH.
Qed.

Lemma LastIndexByte_app s c t : ContainsByte t c = false -> LastIndexByte (s ++ c :: t) c = Some (length s).
Proof.
  intros Ht. induction s as [|x s IH]; simpl; [|by rewrite IH].
  by rewrite LastIndexByte_None, beq_refl.
Qed.

(** The first occurrence of a separator determines both sides. *)
Lemma sep_inj s s' c t t' : ContainsByte s c = false -> ContainsByte s' c = false ->
  s ++ c :: t = s' ++ c :: t' -> s = s' /\ t = t'.
Proof.
  intros Hs Hs' E. assert (length s = length s') as Hl.
  { pose proof (IndexByte_app s c t Hs) as H1. rewrite E, IndexByte_app in H1 by done. congruence. }
  apply app_inj_1 in E as [-> E]; [|done]. split; congruence.
Qed.

Lemma HasSuffix_app s p : HasSuffix (s ++ p) p = true.
Proof.
  unfold HasSuffix. rewrite !bool_decide_eq_true_2; [done| |len].
  rewrite length_app. replace (length s + length p - length p)%nat with (length s) by lia.
  by rewrite drop_app_length.
Qed.

Lemma HasSuffix_spec s p : HasSuffix s p = true <-> exists t, s = t ++ p.
Proof.
  split; [|intros [t ->]; apply HasSuffix_app].
  unfold HasSuffix. intros [H1 H2]%andb_true_iff. apply bool_decide_eq_true in H1, H2.
  exists (take (length s - length p) s). by rewrite <-H2 at 2; rewrite take_drop.
Qed.

Lemma TrimSuffix_length s p : (length (TrimSuffix s p) <= length s)%nat.
Proof. unfold TrimSuffix. case_match; [|lia]. rewrite length_take. lia. Qed.

Lemma TrimSuffix_length_ge s p : (length s <= length (TrimSuffix s p) + length p)%nat.
Proof.
  unfold TrimSuffix. destruct (HasSuffix s p) eqn:E; [|lia].
  rewrite length_take. lia.
Qed.

(** A text whose pieces pass a character test consists of such characters and
    separators. *)
Lemma Split_chars p s sep : (forall piece, piece ∈ Split s sep -> forallb p piece = true) ->
  forallb (fun c => p c || beq c sep) s = true.
Proof.
  induction s as [|c s IH]; [done|]. cbn [Split forallb]. destruct (beq c sep) eqn:E.
  - intros H. rewrite orb_true_r. apply IH. intros piece Hin. apply H. by right.
  - intros H. rewrite orb_false_r. destruct (Split s sep) as [|piece rest] eqn:Es.
    { destruct s as [|x s]; [done|]. cbn in Es. case_match; [done|]. by case_match. }
    pose proof (H (c :: piece) ltac:(left)) as Hc. cbn in Hc. apply andb_true_iff in Hc as [-> Hc].
    apply IH. intros q [->|Hq]%elem_of_cons; [done|]. apply H. by right.
Qed.

Lemma TrimSuffix_cases s p : s = TrimSuffix s p \/ s = TrimSuffix s p ++ p.
Proof.
  unfold TrimSuffix. destruct (HasSuffix s p) eqn:E; [|by left]. right.
  apply HasSuffix_spec in E as [t ->]. rewrite length_app.
  replace (length t + length p - length p)%nat with (length t) by lia. by rewrite take_app_length.
Qed.

(** [Split] and joining with the separator. *)
Fixpoint Join (pieces : list bytes) (sep : byte) : bytes :=
  match pieces with
  | [] => []
  | [p] => p
  | p :: ps => p ++ sep :: Join ps sep
  end.

Lemma Split_nonempty s sep : Split s sep <> [].
Proof. destruct s as [|c s]; [done|]. cbn. case_match; [done|]. by case_match. Qed.

Lemma Split_app s t sep : Split (s ++ sep :: t) sep = Split s sep ++ Split t sep.
Proof.
  induction s as [|c s IH]; cbn; [by rewrite beq_refl|]. rewrite IH.
  destruct (beq c sep); [done|]. destruct (Split s sep) eqn:E; [by apply Split_nonempty in E|done].
Qed.

Lemma Join_Split s sep : Join (Split s sep) sep = s.
Proof.
  induction s as [|c s IH]; [done|]. cbn. pose proof (Split_nonempty s sep).
  destruct (Split s sep) as [|p ps] eqn:E; [done|]. destruct (beq c sep) eqn:Ec.
  - apply beq_true in Ec as ->. cbn. by destruct ps; rewrite <-IH.
  - rewrite <-IH. by destruct ps.
Qed.

Lemma Split_inj s t sep : Split s sep = Split t sep -> s = t.
Proof. intros E. by rewrite <-(Join_Split s sep), <-(Join_Split t sep), E. Qed.

Lemma Join_app ps qs sep : ps <> [] -> qs <> [] -> Join (ps ++ qs) sep = Join ps sep ++ sep :: Join qs sep.
Proof.
  intros Hp Hq. induction ps as [|p ps IH]; [done|]. destruct ps as [|p' ps].
  - cbn. by destruct qs.
  - change ((p :: p' :: ps) ++ qs) with (p :: ((p' :: ps) ++ qs)).
    transitivity (p ++ sep :: Join ((p' :: ps) ++ qs) sep); [done|]. rewrite IH by done.
    transitivity ((p ++ sep :: Join (p' :: ps) sep) ++ sep :: Join qs sep); [by rewrite <-app_assoc|done].
Qed.
