(* ===== verification/GoNet.v ===== *)
(** * Package net: addresses, endpoints and networks

    Executable models of [net.ParseIP] (through [netip.ParseAddr]), the methods
    of [net.IP] and [net.IPNet] the sources call, and the endpoint functions
    [net.SplitHostPort] and [net.JoinHostPort].  A [net.IP] is a byte slice, of
    length four or sixteen when valid; nil is the empty slice. *)
From S2P Require Import Prelude GoStd.

Definition v4InV6Prefix : bytes := replicate 10 Byte.x00 ++ [Byte.xff; Byte.xff].
Definition IPv6unspecified : bytes := replicate 16 Byte.x00.
Definition IPv6loopback : bytes := replicate 15 Byte.x00 ++ [Byte.x01].
(** [net.IPv4(a, b, c, d)] is the sixteen-byte form. *)
Definition IPv4zero : bytes := v4InV6Prefix ++ replicate 4 Byte.x00.

(** ** Parsing addresses *)

(** [netip.parseIPv4Fields]: [prev] is the preceding character ([None] at the
    start), [val] and [digLen] the octet being read, [fields] the octets done. *)
Fixpoint ipv4_fields (s : bytes) (prev : option byte) (val : Z) (digLen : nat)
    (fields : bytes) : option bytes :=
  match s with
  | [] => if bool_decide (length fields < 3)%nat then None else Some (fields ++ [z2b val])
  | c :: s' =>
      if is_digit c then
        if bool_decide (digLen = 1%nat) && (val =? 0) then None
        else let val' := val * 10 + digit_val c in
             if 255 <? val' then None
             else ipv4_fields s' (Some c) val' (S digLen) fields
      else if beq c (ch ".") then
        if bool_decide (prev = None) || bool_decide (s' = []) ||
           bool_decide (prev = Some (ch "."))
        then None
        else if bool_decide (length fields = 3%nat) then None
        else ipv4_fields s' (Some c) 0 0 (fields ++ [z2b val])
      else None
  end.
Definition parseIPv4Fields (s : bytes) : option bytes := ipv4_fields s None 0 0 [].

(** The digits of one colon-separated group of [netip.parseIPv6]: its value, the
    number of digits and the rest of the text; [None] after a fifth digit. *)
Fixpoint hex_group (s : bytes) (off : nat) (acc : Z) : option (Z * nat * bytes) :=
  match s with
  | c :: s' =>
      match hex_val c with
      | Some d =>
          let acc' := Z.shiftl acc 4 + d in
          if bool_decide (3 < off)%nat then None
          else if 65535 <? acc' then None
          else hex_group s' (S off) acc'
      | None => Some (acc, off, s)
      end
  | [] => Some (acc, off, [])
  end.

(** The loop of [netip.parseIPv6]: [k] groups of two bytes are still free
    ([i = 16 - 2k] bytes are written to [ip]), and [ell] is the position of the
    ellipsis.  The result is the text left when the loop ends, the bytes written
    and the ellipsis. *)
Fixpoint ipv6_loop (k : nat) (s : bytes) (ip : bytes) (ell : option nat)
    : option (bytes * bytes * option nat) :=
  match k with
  | O => Some (s, ip, ell)
  | S k' =>
      match hex_group s 0 0 with
      | None => None
      | Some (acc, off, rest) =>
          if bool_decide (off = 0%nat) then None
          else
            match rest with
            | c :: rest' =>
                if beq c (ch ".") then
                  if bool_decide (ell = None) && bool_decide (length ip <> 12%nat) then None
                  else if bool_decide (12 < length ip)%nat then None
                  else match parseIPv4Fields s with
                       | Some f => Some ([], ip ++ f, ell)
                       | None => None
                       end
                else
                  let ip' := ip ++ be16 acc in
                  if negb (beq c (ch ":")) then None
                  else
                    match rest' with
                    | [] => None
                    | d :: rest'' =>
                        if beq d (ch ":") then
                          match ell with
                          | Some _ => None
                          | None =>
                              match rest'' with
                              | [] => Some ([], ip', Some (length ip'))
                              | _ => ipv6_loop k' rest'' ip' (Some (length ip'))
                              end
                          end
                        else ipv6_loop k' rest' ip' ell
                    end
            | [] => Some ([], ip ++ be16 acc, ell)
            end
      end
  end.

(** After the loop: all text must be used, and an ellipsis stands for at least
    one group of zeros. *)
Definition ipv6_finish (r : option (bytes * bytes * option nat)) : option bytes :=
  match r with
  | Some (s, ip, ell) =>
      if bool_decide (s <> []) then None
      else if bool_decide (length ip < 16)%nat then
        match ell with
        | None => None
        | Some e => Some (take e ip ++ replicate (16 - length ip) Byte.x00 ++ drop e ip)
        end
      else match ell with Some _ => None | None => Some ip end
  | None => None
  end.

(** [netip.parseIPv6] on a text without a zone. *)
Definition parseIPv6 (s : bytes) : option bytes :=
  match s with
  | c :: d :: s' =>
      if beq c (ch ":") && beq d (ch ":") then
        match s' with
        | [] => Some IPv6unspecified
        | _ => ipv6_finish (ipv6_loop 8 s' [] (Some 0%nat))
        end
      else ipv6_finish (ipv6_loop 8 s [] None)
  | _ => ipv6_finish (ipv6_loop 8 s [] None)
  end.

(** What [netip.ParseAddr] recognises: an IPv4 address of four bytes, or an IPv6
    address of sixteen bytes with its zone (empty when there is none). *)
Inductive netaddr :=
| Addr4 (b : bytes)
| Addr6 (b : bytes) (zone : bytes).

#[export] Instance netaddr_eq_dec : EqDecision netaddr.
Proof. solve_decision. Defined.

(** The scan for the first of '.', ':' and '%' that selects the parser. *)
Fixpoint addr_kind (s : bytes) : option byte :=
  match s with
  | [] => None
  | c :: s' => if beq c (ch ".") || beq c (ch ":") || beq c (ch "%") then Some c else addr_kind s'
  end.

Definition ParseAddr (s : bytes) : option netaddr :=
  match addr_kind s with
  | Some c =>
      if beq c (ch ".") then Addr4 <$> parseIPv4Fields s
      else if beq c (ch ":") then
        match IndexByte s (ch "%") with
        | None => (fun b => Addr6 b []) <$> parseIPv6 s
        | Some i =>
            let zone := drop (S i) s in
            if bool_decide (zone = []) then None
            else (fun b => Addr6 b zone) <$> parseIPv6 (take i s)
        end
      else None
  | None => None
  end.

(** [netip.Addr.As16]. *)
Definition As16 (a : netaddr) : bytes :=
  match a with Addr4 b => v4InV6Prefix ++ b | Addr6 b _ => b end.

(** [net.ParseIP]: no zone, always the sixteen-byte form. *)
Definition ParseIP (s : bytes) : option bytes :=
  match ParseAddr s with
  | Some (Addr6 b zone) => if bool_decide (zone = []) then Some b else None
  | Some a => Some (As16 a)
  | None => None
  end.

(** ** net.IP *)

Definition To4 (ip : bytes) : option bytes :=
  if bool_decide (length ip = 4%nat) then Some ip
  else if bool_decide (length ip = 16%nat) && bool_decide (take 12 ip = v4InV6Prefix)
  then Some (drop 12 ip)
  else None.

Definition To16 (ip : bytes) : option bytes :=
  if bool_decide (length ip = 4%nat) then Some (v4InV6Prefix ++ ip)
  else if bool_decide (length ip = 16%nat) then Some ip
  else None.

Definition IP_Equal (ip x : bytes) : bool :=
  if bool_decide (length ip = length x) then bool_decide (ip = x)
  else if bool_decide (length ip = 4%nat) && bool_decide (length x = 16%nat)
  then bool_decide (take 12 x = v4InV6Prefix) && bool_decide (ip = drop 12 x)
  else if bool_decide (length ip = 16%nat) && bool_decide (length x = 4%nat)
  then bool_decide (take 12 ip = v4InV6Prefix) && bool_decide (drop 12 ip = x)
  else false.

Definition IsUnspecified (ip : bytes) : bool := IP_Equal ip IPv4zero || IP_Equal ip IPv6unspecified.
Definition IsLoopback (ip : bytes) : bool :=
  match To4 ip with
  | Some ip4 => match ip4 with c :: _ => b2z c =? 127 | [] => false end
  | None => IP_Equal ip IPv6loopback
  end.

(** ** net.IPNet *)
Record IPNet := { net_ip : bytes; net_mask : bytes }.

#[export] Instance IPNet_eq_dec : EqDecision IPNet.
Proof. solve_decision. Defined.

(** [net.CIDRMask(ones, bits)] for [0 <= ones <= bits] and [bits = 8 * n]. *)
Fixpoint cidr_bytes (n : nat) (ones : Z) : bytes :=
  match n with
  | O => []
  | S n' =>
      if 8 <=? ones then Byte.xff :: cidr_bytes n' (ones - 8)
      else z2b (255 - Z.shiftr 255 ones) :: cidr_bytes n' 0
  end.
Definition CIDRMask (ones bits : Z) : bytes := cidr_bytes (Z.to_nat (bits / 8)) ones.

Definition band (a b : byte) : byte := z2b (Z.land (b2z a) (b2z b)).

(** [net.IP.Mask]; [None] is the nil IP. *)
Definition IP_Mask (ip mask : bytes) : option bytes :=
  let mask := if bool_decide (length mask = 16%nat) && bool_decide (length ip = 4%nat) &&
                 bool_decide (take 12 mask = replicate 12 Byte.xff)
              then drop 12 mask else mask in
  let ip := if bool_decide (length mask = 4%nat) && bool_decide (length ip = 16%nat) &&
               bool_decide (take 12 ip = v4InV6Prefix)
            then drop 12 ip else ip in
  if bool_decide (length ip = length mask) then Some (zip_with band ip mask) else None.

(** [net.networkNumberAndMask]. *)
Definition networkNumberAndMask (n : IPNet) : option (bytes * bytes) :=
  let num := match To4 (net_ip n) with
             | Some v4 => Some v4
             | None => if bool_decide (length (net_ip n) = 16%nat) then Some (net_ip n) else None
             end in
  match num with
  | None => None
  | Some ip =>
      if bool_decide (length (net_mask n) = 4%nat) then
        if bool_decide (length ip = 4%nat) then Some (ip, net_mask n) else None
      else if bool_decide (length (net_mask n) = 16%nat) then
        if bool_decide (length ip = 4%nat) then Some (ip, drop 12 (net_mask n))
        else Some (ip, net_mask n)
      else None
  end.

(** [net.IPNet.Contains]. A nil network number has length zero. *)
Definition Contains (n : IPNet) (ip : bytes) : bool :=
  let '(nn, m) := default ([], []) (networkNumberAndMask n) in
  let ip := default ip (To4 ip) in
  if negb (bool_decide (length ip = length nn)) then false
  else bool_decide (zip_with band nn m = zip_with band ip m).

(** [net.dtoi]: the leading decimal digits of a text, as a value below 0xFFFFFF
    and the text after them. *)
Fixpoint dtoi_loop (s : bytes) (n : Z) (i : nat) : option (Z * nat * bytes) :=
  match s with
  | c :: s' =>
      if is_digit c then
        let n' := n * 10 + digit_val c in
        if 16777215 <=? n' then None else dtoi_loop s' n' (S i)
      else Some (n, i, s)
  | [] => Some (n, i, [])
  end.

(** [net.ParseCIDR]: the network only, which is what the access lists keep. *)
Definition ParseCIDR (s : bytes) : option IPNet :=
  match IndexByte s (ch "/") with
  | None => None
  | Some i =>
      match ParseAddr (take i s) with
      | None => None
      | Some a =>
          let '(bits, zone) := match a with Addr4 _ => (32, []) | Addr6 _ z => (128, z) end in
          if bool_decide (zone <> []) then None
          else match dtoi_loop (drop (S i) s) 0 0 with
               | Some (n, digits, rest) =>
                   if bool_decide (digits = 0%nat) || bool_decide (rest <> []) || (bits <? n)
                   then None
                   else let m := CIDRMask n bits in
                        (fun ip => {| net_ip := ip; net_mask := m |}) <$> IP_Mask (As16 a) m
               | None => None
               end
      end
  end.

(** ** Printing addresses *)

Definition hex_char (d : Z) : byte := if d <? 10 then z2b (48 + d) else z2b (87 + d).

(** [netip.appendHex]: at most four lower-case digits, no leading zeros. *)
Definition append_hex (x : Z) : bytes :=
  (if 4096 <=? x then [hex_char (x / 4096)] else []) ++
  (if 256 <=? x then [hex_char ((x / 256) mod 16)] else []) ++
  (if 16 <=? x then [hex_char ((x / 16) mod 16)] else []) ++
  [hex_char (x mod 16)].

Definition v6u16 (ip : bytes) (i : nat) : Z := get_be16 (drop (2 * i) ip).

(** Length of the run of zero groups that starts at group [i]. *)
Fixpoint zero_run (fuel : nat) (ip : bytes) (i : nat) : nat :=
  match fuel with
  | S f => if bool_decide (i < 8)%nat && (v6u16 ip i =? 0) then S (zero_run f ip (S i)) else 0%nat
  | O => 0%nat
  end.

(** The first longest run of at least two zero groups, as (start, length). *)
Definition longest_zero_run (ip : bytes) : option (nat * nat) :=
  foldl (fun best i =>
           let l := zero_run 8 ip i in
           if bool_decide (2 <= l)%nat &&
              bool_decide (from_option snd 0%nat best < l)%nat
           then Some (i, l) else best)
        None (seq 0 8).

(** The loop of [netip.Addr.appendTo6]; [i] is the group about to be printed. *)
Fixpoint append_groups (fuel : nat) (ip : bytes) (run : option (nat * nat)) (i : nat) : bytes :=
  match fuel with
  | O => []
  | S f =>
      if bool_decide (8 <= i)%nat then []
      else
        match run with
        | Some (st, l) =>
            if bool_decide (i = st) then
              bs "::" ++
              (let i' := (st + l)%nat in
               if bool_decide (8 <= i')%nat then []
               else append_hex (v6u16 ip i') ++ append_groups f ip run (S i'))
            else (if bool_decide (0 < i)%nat then bs ":" else []) ++
                 append_hex (v6u16 ip i) ++ append_groups f ip run (S i)
        | None => (if bool_decide (0 < i)%nat then bs ":" else []) ++
                  append_hex (v6u16 ip i) ++ append_groups f ip run (S i)
        end
  end.

Definition ipv4_string (ip : bytes) : bytes :=
  match ip with
  | [a; b; c; d] =>
      Itoa (b2z a) ++ bs "." ++ Itoa (b2z b) ++ bs "." ++ Itoa (b2z c) ++ bs "." ++ Itoa (b2z d)
  | _ => []
  end.

Definition hex_string (ip : bytes) : bytes :=
  ip ≫= (fun c => [hex_char (b2z c / 16); hex_char (b2z c mod 16)]).

(** [net.IP.String]. *)
Definition IP_String (ip : bytes) : bytes :=
  if bool_decide (ip = []) then bs "<nil>"
  else if negb (bool_decide (length ip = 4%nat)) && negb (bool_decide (length ip = 16%nat))
  then bs "?" ++ hex_string ip
  else match To4 ip with
       | Some p4 => ipv4_string p4
       | None => append_groups 8 ip (longest_zero_run ip) 0
       end.

(** ** Endpoints *)

(** [net.JoinHostPort]. *)
Definition JoinHostPort (host port : bytes) : bytes :=
  if ContainsByte host (ch ":")
  then bs "[" ++ host ++ bs "]:" ++ port
  else host ++ bs ":" ++ port.

(** [net.SplitHostPort]. *)
Definition SplitHostPort (hostport : bytes) : res (bytes * bytes) :=
  let addrErr (why : string) : res (bytes * bytes) := Err (ErrNew why) in
  match LastIndexByte hostport (ch ":") with
  | None => addrErr "missing port in address"
  | Some i =>
      let check (host : bytes) (j k : nat) :=
        if ContainsByte (drop j hostport) (ch "[") then addrErr "unexpected '[' in address"
        else if ContainsByte (drop k hostport) (ch "]") then addrErr "unexpected ']' in address"
        else Ok (host, drop (S i) hostport) in
      if bool_decide (head hostport = Some (ch "[")) then
        match IndexByte hostport (ch "]") with
        | None => addrErr "missing ']' in address"
        | Some e =>
            if bool_decide (S e = length hostport) then addrErr "missing port in address"
            else if bool_decide (S e = i) then check (take (e - 1) (drop 1 hostport)) 1%nat (S e)
            else if bool_decide (hostport !! S e = Some (ch ":"))
            then addrErr "too many colons in address"
            else addrErr "missing port in address"
        end
      else
        let host := take i hostport in
        if ContainsByte host (ch ":") then addrErr "too many colons in address"
        else check host 0%nat 0%nat
  end.

(** ** Facts about parsing *)

(** The octet being read: its digit count fixes the range of its value. *)
Definition octet_inv (digLen : nat) (val : Z) : Prop :=
  (digLen = 0%nat /\ val = 0) \/ (digLen = 1%nat /\ 0 <= val <= 9) \/
  (digLen = 2%nat /\ 10 <= val <= 99) \/ (digLen = 3%nat /\ 100 <= val <= 255).

Lemma octet_inv_step digLen val d : octet_inv digLen val -> 0 <= d <= 9 ->
  ~ (digLen = 1%nat /\ val = 0) -> val * 10 + d <= 255 -> octet_inv (S digLen) (val * 10 + d).
Proof. unfold octet_inv. lia. Qed.

(** An accepted dotted quad has four octets and at most fifteen characters. *)
Lemma ipv4_fields_spec s prev val digLen fields f :
  ipv4_fields s prev val digLen fields = Some f ->
  octet_inv digLen val -> (length fields <= 3)%nat ->
  length f = 4%nat /\ (length s <= (3 - digLen) + 4 * (3 - length fields))%nat.
Proof.
  revert prev val digLen fields. induction s as [|c s IH]; intros prev val digLen fields; simpl.
  { case_bool_decide; [done|]. intros [= <-] _ ?. rewrite length_app. simpl. lia. }
  intros E Hinv Hf. destruct (is_digit c) eqn:Hd.
  - case_hyp E; [done|]. case_hyp E; [done|].
    apply is_digit_spec in Hd. apply Z.ltb_ge in E1. unfold digit_val in *.
    apply andb_false_iff in E0.
    assert (octet_inv (S digLen) (val * 10 + (b2z c - 48))) as Hinv'.
    { apply octet_inv_step; [done|lia| |lia].
      intros [-> ->]. destruct E0 as [E0|E0]; [by apply bool_decide_eq_false in E0|done]. }
    apply IH in E; [|done..]. unfold octet_inv in *. lia.
  - repeat (case_hyp E; [|done]). case_hyp E; [done|]. case_hyp E; [done|].
    apply bool_decide_eq_false in E2.
    apply IH in E; [|by left|rewrite length_app; simpl; lia].
    rewrite length_app in E. simpl in E. unfold octet_inv in Hinv. lia.
Qed.

Lemma parseIPv4Fields_spec s f : parseIPv4Fields s = Some f ->
  length f = 4%nat /\ (length s <= 15)%nat.
Proof. intros E. apply ipv4_fields_spec in E as [? ?]; [|by left|simpl; lia]. simpl in *. lia. Qed.

Lemma hex_group_spec s off acc v off' rest : hex_group s off acc = Some (v, off', rest) ->
  (off <= 4 -> off' <= 4)%nat /\ (length s + off = off' + length rest)%nat.
Proof.
  revert off acc. induction s as [|c s IH]; intros off acc; simpl.
  { intros [= <- <- <-]. simpl. lia. }
  destruct (hex_val c); [|intros [= <- <- <-]; simpl; lia].
  case_bool_decide; [done|]. case_match; [done|]. intros E. apply IH in E. simpl. lia.
Qed.

(** The loop never writes more than sixteen bytes, and consumes at most six
    characters per group and fifteen for an embedded dotted quad. *)
Lemma ipv6_loop_spec k s ip ell s' ip' ell' :
  ipv6_loop k s ip ell = Some (s', ip', ell') -> (length ip + 2 * k = 16)%nat ->
  (length ip' <= 16)%nat /\ (length s <= 6 * k + 15 + length s')%nat.
Proof.
  revert s ip ell. induction k as [|k IH]; intros s ip ell; simpl.
  { intros [= <- <- <-] ?. lia. }
  intros E Hk. case_hyp E; [|done]. destruct p as [[acc off] rest].
  apply hex_group_spec in E0 as [Hoff Hlen].
  case_hyp E; [done|]. destruct rest as [|c rest].
  { injection E as <- <- <-. rewrite length_app. simpl in *. lia. }
  case_hyp E.
  { case_hyp E; [done|]. case_hyp E; [done|]. case_hyp E; [|done]. injection E as <- <- <-.
    apply parseIPv4Fields_spec in E4 as [? ?]. apply bool_decide_eq_false in E3.
    rewrite length_app. lia. }
  case_hyp E; [done|]. destruct rest as [|d rest]; [done|].
  assert (length (ip ++ be16 acc) + 2 * k = 16)%nat as Hk' by (rewrite length_app; simpl; lia).
  case_hyp E.
  - destruct ell; [done|]. destruct rest as [|e rest].
    + injection E as <- <- <-. simpl in *. lia.
    + apply IH in E; [|done]. simpl in *. lia.
  - apply IH in E; [|done]. simpl in *. lia.
Qed.

Lemma ipv6_finish_spec r b : ipv6_finish r = Some b ->
  exists ip ell, r = Some ([], ip, ell) /\ ((length ip <= 16)%nat -> length b = 16%nat).
Proof.
  unfold ipv6_finish. destruct r as [[[s ip] ell]|]; [|done].
  case_bool_decide as Hs; [done|]. subst s.
  case_bool_decide.
  - destruct ell as [e|]; [|done]. intros [= <-]. exists ip, (Some e). split; [done|].
    intros _. rewrite !length_app, length_replicate, length_take, length_drop. lia.
  - destruct ell; [done|]. intros [= <-]. exists ip, None. split; [done|]. lia.
Qed.

Lemma parseIPv6_spec s b : parseIPv6 s = Some b -> length b = 16%nat /\ (length s <= 65)%nat.
Proof.
  assert (forall t ell, ipv6_finish (ipv6_loop 8 t [] ell) = Some b ->
            length b = 16%nat /\ (length t <= 63)%nat) as Hmain.
  { intros t ell (ip & ell' & E & Hb)%ipv6_finish_spec.
    apply ipv6_loop_spec in E as [? ?]; [|done]. simpl in *. split; [auto|lia]. }
  unfold parseIPv6. intros E. destruct s as [|c [|d s]]; [apply Hmain in E; simpl; lia..|].
  case_hyp E; [|apply Hmain in E; lia].
  destruct s; [injection E as <-; simpl; lia|]. apply Hmain in E. simpl in *. lia.
Qed.

Lemma ParseAddr_spec s a : ParseAddr s = Some a ->
  match a with
  | Addr4 b => length b = 4%nat /\ (length s <= 15)%nat
  | Addr6 b zone => length b = 16%nat /\ (zone = [] -> length s <= 65)%nat
  end.
Proof.
  unfold ParseAddr. destruct (addr_kind s); [|done]. intros E. case_hyp E.
  { apply fmap_Some in E as (f & Hf & ->). by apply parseIPv4Fields_spec. }
  case_hyp E; [|done]. case_hyp E.
  - case_hyp E; [done|]. apply fmap_Some in E as (f & Hf & ->).
    apply parseIPv6_spec in Hf as [? _]. split; [done|].
    apply bool_decide_eq_false in E3. done.
  - apply fmap_Some in E as (f & Hf & ->). apply parseIPv6_spec in Hf as [? ?]. auto.
Qed.

(** [net.ParseIP] yields sixteen bytes, and only for texts of at most 65 bytes. *)
Lemma ParseIP_spec s b : ParseIP s = Some b -> length b = 16%nat /\ (length s <= 65)%nat.
Proof.
  unfold ParseIP. destruct (ParseAddr s) as [[f|f zone]|] eqn:E; [| |done];
    apply ParseAddr_spec in E.
  - intros [= <-]. destruct E. simpl. lia.
  - case_bool_decide; [|done]. intros [= <-]. destruct E. auto.
Qed.

Lemma To4_length ip v : To4 ip = Some v -> length v = 4%nat.
Proof.
  unfold To4. intros E. case_hyp E; [injection E as <-; by apply bool_decide_eq_true in E0|].
  case_hyp E; [|done]. injection E as <-. apply andb_true_iff in E1 as [H1 _].
  apply bool_decide_eq_true in H1. rewrite length_drop. lia.
Qed.

Lemma To4_four ip : length ip = 4%nat -> To4 ip = Some ip.
Proof. intros. unfold To4. by rewrite bool_decide_eq_true_2. Qed.

Lemma To16_sixteen ip : length ip = 16%nat -> To16 ip = Some ip.
Proof. intros H. unfold To16. rewrite bool_decide_eq_false_2, bool_decide_eq_true_2; [done..|lia]. Qed.

Lemma To16_length ip v : To16 ip = Some v -> length v = 16%nat.
Proof.
  unfold To16. intros E. case_hyp E.
  - injection E as <-. apply bool_decide_eq_true in E0. simpl. lia.
  - case_hyp E; [|done]. injection E as <-. by apply bool_decide_eq_true in E1.
Qed.

(** Printing only looks at the IPv4 form of an address when it has one. *)
Lemma IP_String_v4 ip v : To4 ip = Some v -> IP_String ip = ipv4_string v.
Proof.
  intros E. unfold IP_String. rewrite E. unfold To4 in E.
  destruct ip as [|c ip]; [done|]. rewrite (bool_decide_eq_false_2 (c :: ip = [])) by done.
  case_bool_decide; [done|]. case_bool_decide; [done|]. done.
Qed.

Lemma IP_String_To4 ip v : To4 ip = Some v -> IP_String v = IP_String ip.
Proof.
  intros E. rewrite (IP_String_v4 _ _ E). apply IP_String_v4, To4_four. by eapply To4_length.
Qed.

Lemma IP_String_To16 ip v : To16 ip = Some v -> IP_String v = IP_String ip.
Proof.
  unfold To16. intros E. case_bool_decide as H4.
  - injection E as <-. rewrite (IP_String_v4 _ ip); [symmetry; by apply IP_String_v4, To4_four|].
    unfold To4. rewrite bool_decide_eq_false_2 by len. rewrite !bool_decide_eq_true_2; [done|..].
    + done.
    + len.
  - case_bool_decide; congruence.
Qed.

(** The digit branch of the octet scanner alone. *)
Fixpoint octet_scan (s : bytes) (val : Z) (digLen : nat) : option (Z * nat) :=
  match s with
  | [] => Some (val, digLen)
  | c :: s' =>
      if is_digit c && negb (bool_decide (digLen = 1%nat) && (val =? 0)) &&
         (val * 10 + digit_val c <=? 255)
      then octet_scan s' (val * 10 + digit_val c) (S digLen) else None
  end.

Lemma ipv4_fields_digits ds rest prev val digLen fields v n :
  octet_scan ds val digLen = Some (v, n) ->
  ipv4_fields (ds ++ rest) prev val digLen fields =
  ipv4_fields rest (match last ds with Some c => Some c | None => prev end) v n fields.
Proof.
  revert prev val digLen. induction ds as [|c ds IH]; intros prev val digLen E; cbn [octet_scan] in E.
  { by injection E as <- <-. }
  case_hyp E; [|done]. bool_props. cbn [app ipv4_fields]. rewrite H, H1.
  rewrite (proj2 (Z.ltb_ge 255 _)) by lia. rewrite (IH _ _ _ E). rewrite last_cons.
  by destruct (last ds).
Qed.

(** A printed byte scans to itself and ends with a digit. *)
Lemma octet_scan_Itoa x : exists n c, octet_scan (Itoa (b2z x)) 0 0 = Some (b2z x, n) /\
  last (Itoa (b2z x)) = Some c /\ c <> ch ".".
Proof. destruct x; (eexists _, _; split; [vm_compute; reflexivity|split; [vm_compute; reflexivity|done]]). Qed.

(** Reading one decimal octet followed by a dot, or ending the text. *)
Lemma ipv4_octet_dot x rest prev fields : rest <> [] -> (length fields < 3)%nat ->
  ipv4_fields (Itoa (b2z x) ++ ch "." :: rest) prev 0 0 fields =
  ipv4_fields rest (Some (ch ".")) 0 0 (fields ++ [x]).
Proof.
  intros Hr Hf. destruct (octet_scan_Itoa x) as (n & c & Hs & Hl & Hc).
  rewrite (ipv4_fields_digits _ _ _ _ _ _ _ _ Hs), Hl. cbn [ipv4_fields].
  change (is_digit (ch ".")) with false. rewrite beq_refl. cbv iota.
  rewrite !bool_decide_eq_false_2 by (congruence || lia). by rewrite z2b_b2z.
Qed.

Lemma ipv4_octet_end x prev fields : length fields = 3%nat ->
  ipv4_fields (Itoa (b2z x)) prev 0 0 fields = Some (fields ++ [x]).
Proof.
  intros Hf. destruct (octet_scan_Itoa x) as (n & c & Hs & Hl & Hc).
  rewrite <-(app_nil_r (Itoa _)), (ipv4_fields_digits _ _ _ _ _ _ _ _ Hs), Hl. cbn [ipv4_fields].
  rewrite bool_decide_eq_false_2 by lia. by rewrite z2b_b2z.
Qed.

Lemma Itoa_byte_nonempty x rest : Itoa (b2z x) ++ rest <> [].
Proof.
  pose proof (b2z_range x). destruct (Itoa_spec (b2z x)) as (Hne & _); [lia|].
  by destruct (Itoa (b2z x)).
Qed.

(** Parsing a printed IPv4 address gives back its sixteen-byte form. *)
Lemma parseIPv4_string v : length v = 4%nat -> parseIPv4Fields (ipv4_string v) = Some v.
Proof.
  intros Hl. destruct v as [|a [|b [|c [|d [|]]]]]; try done. unfold parseIPv4Fields, ipv4_string.
  do 3 (change (bs "." ++ ?r) with (ch "." :: r) at 1; rewrite ipv4_octet_dot;
        [|first [apply Itoa_byte_nonempty | rewrite <-(app_nil_r (Itoa _)); apply Itoa_byte_nonempty]
         |simpl; lia]).
  by rewrite ipv4_octet_end.
Qed.
Lemma addr_kind_digits ds r : forallb is_digit ds = true ->
  addr_kind (ds ++ ch "." :: r) = Some (ch ".").
Proof.
  induction ds as [|c ds IH]; [done|]. intros [Hc Hds]%andb_true_iff. cbn [app addr_kind].
  assert (forall d, is_digit d = false -> beq c d = false) as Hne
    by (intros d Hd; apply bool_decide_eq_false; congruence).
  rewrite !Hne by done. by apply IH.
Qed.

Lemma ipv4_string_chars v : length v = 4%nat ->
  forallb (fun c => is_digit c || beq c (ch ".")) (ipv4_string v) = true.
Proof.
  intros Hl. destruct v as [|a [|b [|c [|d [|]]]]]; try done. unfold ipv4_string.
  assert (forall x, forallb (fun c => is_digit c || beq c (ch ".")) (Itoa (b2z x)) = true) as H.
  { intros x. pose proof (b2z_range x). destruct (Itoa_spec (b2z x)) as (_ & Hd & _); [lia|].
    rewrite forallb_forall in *. intros y Hy. by rewrite Hd. }
  rewrite !forallb_app, !H. done.
Qed.

Lemma ParseIP_v4_string v : length v = 4%nat ->
  ParseIP (ipv4_string v) = Some (v4InV6Prefix ++ v).
Proof.
  intros Hl. unfold ParseIP, ParseAddr.
  assert (addr_kind (ipv4_string v) = Some (ch ".")) as ->.
  { destruct v as [|a [|b [|c [|d [|]]]]]; try done. unfold ipv4_string.
    pose proof (b2z_range a). apply addr_kind_digits, Itoa_spec. lia. }
  rewrite beq_refl, parseIPv4_string by done. done.
Qed.

Lemma To4_mapped v : length v = 4%nat -> To4 (v4InV6Prefix ++ v) = Some v.
Proof.
  intros Hl. unfold To4. rewrite bool_decide_eq_false_2 by len.
  rewrite bool_decide_eq_true_2 by len. by rewrite bool_decide_eq_true_2 by done.
Qed.

(** ** Facts about endpoints *)

(** Joining and splitting an endpoint are inverse on hosts without brackets. *)
Lemma SplitHostPort_JoinHostPort host port :
  ContainsByte host (ch "[") = false -> ContainsByte host (ch "]") = false ->
  forallb is_digit port = true ->
  SplitHostPort (JoinHostPort host port) = Ok (host, port).
Proof.
  intros Hl Hr Hp.
  assert (ContainsByte port (ch ":") = false) as Hc by (eapply forallb_not_contains; done).
  assert (ContainsByte port (ch "[") = false) as Hpl by (eapply forallb_not_contains; done).
  assert (ContainsByte port (ch "]") = false) as Hpr by (eapply forallb_not_contains; done).
  unfold JoinHostPort. destruct (ContainsByte host (ch ":")) eqn:Hcol; unfold SplitHostPort.
  - set (hp := bs "[" ++ host ++ bs "]:" ++ port).
    assert (hp = (bs "[" ++ host ++ bs "]") ++ ch ":" :: port) as E1
      by (unfold hp; by rewrite <-!app_assoc).
    assert (hp = (bs "[" ++ host) ++ ch "]" :: bs ":" ++ port) as E2
      by (unfold hp; by rewrite <-!app_assoc).
    assert (LastIndexByte hp (ch ":") = Some (length host + 2)%nat) as ->
      by (rewrite E1, LastIndexByte_app by done; f_equal; len).
    assert (IndexByte hp (ch "]") = Some (length host + 1)%nat) as ->.
    { rewrite E2, IndexByte_app; [f_equal; len|]. by rewrite ContainsByte_app, Hr. }
    rewrite (bool_decide_eq_true_2 (head hp = _)) by done.
    rewrite bool_decide_eq_false_2 by (unfold hp; len). rewrite bool_decide_eq_true_2 by lia.
    assert (drop 1 hp = host ++ bs "]:" ++ port) as -> by done.
    assert (drop (S (length host + 1)) hp = bs ":" ++ port) as ->.
    { rewrite E2. rewrite (cons_middle (ch "]")), app_assoc.
      apply drop_app_length'. len. }
    assert (drop (S (length host + 2)) hp = port) as ->.
    { rewrite E1. rewrite (cons_middle (ch ":")), app_assoc. apply drop_app_length'. len. }
    rewrite !ContainsByte_app, Hl, Hpl, Hpr. cbn -[bs].
    do 2 f_equal. apply take_app_length'. lia.
  - change (bs ":" ++ port) with (ch ":" :: port). rewrite LastIndexByte_app by done.
    rewrite (bool_decide_eq_false_2 (head _ = _)).
    2:{ destruct host as [|c h]; [done|]. cbn. intros [= ->].
        rewrite ContainsByte_cons, beq_refl in Hl. done. }
    rewrite take_app_length, Hcol, !drop_0, !ContainsByte_app, Hl, Hr.
    rewrite !ContainsByte_cons, Hpl, Hpr. cbn -[bs].
    do 2 f_equal. rewrite (cons_middle (ch ":")), app_assoc. apply drop_app_length'. len.
Qed.

(** Spot checks against the documented behaviour of the library. *)
Example parse_v4 : ParseIP (bs "127.0.0.1") = Some (v4InV6Prefix ++ [Byte.x7f; Byte.x00; Byte.x00; Byte.x01]).
Proof. vm_compute. reflexivity. Qed.
Example parse_v4_bad : map (fun s => ParseIP (bs s)) ["127.0.0.01"; "1.2.3"; "1.2.3.4."; "256.1.1.1"; "1..2.3"; "a"; ""]%string = replicate 7 None.
Proof. vm_compute. reflexivity. Qed.
Example parse_v6 : ParseIP (bs "fe80::1:ffff") =
  Some ([Byte.xfe; Byte.x80] ++ replicate 11 Byte.x00 ++ [Byte.x01; Byte.xff; Byte.xff]).
Proof. vm_compute. reflexivity. Qed.
Example parse_v6_mapped : ParseIP (bs "::ffff:10.0.0.1") = ParseIP (bs "10.0.0.1").
Proof. vm_compute. reflexivity. Qed.
Example parse_v6_bad : map (fun s => ParseIP (bs s)) ["::1%eth0"; "1::2::3"; ":1"; "1:2:3:4:5:6:7"; "1:2:3:4:5:6:7:8:9"; "12345::"; "1:2:3:4:5:6:7::8"]%string = replicate 7 None.
Proof. vm_compute. reflexivity. Qed.
Example print_v6 : map (fun s => from_option IP_String [] (ParseIP (bs s)))
    ["2001:db8:0:0:1:0:0:1"; "::1"; "::"; "1:0:0:2::"; "::ffff:1.2.3.4"; "ABCD::00F0"]%string
  = map bs ["2001:db8::1:0:0:1"; "::1"; "::"; "1:0:0:2::"; "1.2.3.4"; "abcd::f0"]%string.
Proof. vm_compute. reflexivity. Qed.
Example split_ok : map (fun s => SplitHostPort (bs s)) ["[::1]:443"; "h:80"; ":80"]%string
  = [Ok (bs "::1", bs "443"); Ok (bs "h", bs "80"); Ok (bs "", bs "80")].
Proof. vm_compute. reflexivity. Qed.
Example split_bad : map (fun s => is_ok (SplitHostPort (bs s)))
    ["::1"; "h"; "[::1]"; "[::1]80"; "a:b:80"; "[::1]:80]"; "[[::1]:80"]%string = replicate 7 false.
Proof. vm_compute. reflexivity. Qed.
Example cidr_contains :
  map (fun '(n, a) => match ParseCIDR (bs n), ParseIP (bs a) with
                      | Some n, Some a => Some (Contains n a) | _, _ => None end)
    [("10.0.0.0/8", "10.9.8.7"); ("10.0.0.0/8", "11.0.0.1"); ("::ffff:10.0.0.0/104", "10.1.1.1");
     ("fe80::/10", "febf::1"); ("::/0", "1.2.3.4"); ("0.0.0.0/0", "::1")]%string
  = [Some true; Some false; Some true; Some true; Some false; Some false].
Proof. vm_compute. reflexivity. Qed.

(** ** Networks as numeric prefixes *)

(** The big-endian value of an address. *)
Fixpoint ip_value (b : bytes) : Z :=
  match b with
  | [] => 0
  | x :: b' => b2z x * 2 ^ (8 * Z.of_nat (length b')) + ip_value b'
  end.

(** The first [ones] bits agree. *)
Definition same_prefix (ones : Z) (a b : bytes) : Prop :=
  length a = length b /\
  Z.shiftr (ip_value a) (8 * Z.of_nat (length a) - ones) =
  Z.shiftr (ip_value b) (8 * Z.of_nat (length b) - ones).

(** Whether [ip] belongs to the network of address [a] with prefix length [ones]: an
    IPv4-mapped network of at least 96 bits is an IPv4 network, and an IPv4-mapped
    address is an IPv4 address. *)
Definition in_network (a : netaddr) (ones : Z) (ip : bytes) : Prop :=
  let ip := default ip (To4 ip) in
  match a with
  | Addr4 b => same_prefix ones b ip
  | Addr6 b _ =>
      if bool_decide (take 12 b = v4InV6Prefix) && (96 <=? ones)
      then same_prefix (ones - 96) (drop 12 b) ip
      else same_prefix ones b ip
  end.

Definition addr_bits (a : netaddr) : Z := match a with Addr4 _ => 32 | Addr6 _ _ => 128 end.

Lemma ip_value_range b : 0 <= ip_value b < 2 ^ (8 * Z.of_nat (length b)).
Proof.
  induction b as [|x b IH]; simpl ip_value; [done|]. pose proof (b2z_range x).
  replace (8 * Z.of_nat (length (x :: b))) with (8 + 8 * Z.of_nat (length b)) by (cbn [length]; lia).
  rewrite Z.pow_add_r by lia. change (2 ^ 8) with 256. nia.
Qed.

Lemma ip_value_cons_div x b s : 0 <= s <= 8 * Z.of_nat (length b) ->
  Z.shiftr (ip_value (x :: b)) s = b2z x * 2 ^ (8 * Z.of_nat (length b) - s) + Z.shiftr (ip_value b) s.
Proof.
  intros Hs. rewrite !Z.shiftr_div_pow2 by lia. cbn [ip_value].
  replace (2 ^ (8 * Z.of_nat (length b))) with (2 ^ (8 * Z.of_nat (length b) - s) * 2 ^ s)
    by (rewrite <-Z.pow_add_r by lia; f_equal; lia).
  rewrite Z.mul_assoc, Z.div_add_l by (apply Z.pow_nonzero; lia). done.
Qed.

Lemma shiftr_value_range b s : 0 <= s <= 8 * Z.of_nat (length b) ->
  0 <= Z.shiftr (ip_value b) s < 2 ^ (8 * Z.of_nat (length b) - s).
Proof.
  intros Hs. pose proof (ip_value_range b). rewrite Z.shiftr_div_pow2 by lia. split.
  - apply Z.div_pos; [lia|]. apply Z.pow_pos_nonneg; lia.
  - apply Z.div_lt_upper_bound; [apply Z.pow_pos_nonneg; lia|].
    rewrite <-Z.pow_add_r by lia. replace (s + _) with (8 * Z.of_nat (length b)) by lia. lia.
Qed.

Lemma band_ff x : band x Byte.xff = x.
Proof. by destruct x; vm_compute. Qed.
Lemma band_00 x : band x Byte.x00 = Byte.x00.
Proof. by destruct x; vm_compute. Qed.
Lemma band_idem x m : band (band x m) m = band x m.
Proof.
  unfold band. apply b2z_inj. rewrite !b2z_z2b. pose proof (b2z_range m).
  assert (0 <= Z.land (b2z x) (b2z m) < 256) as Hl.
  { pose proof (b2z_range x). split; [apply Z.land_nonneg; lia|].
    destruct (decide (Z.land (b2z x) (b2z m) = 0)); [lia|].
    apply Z.log2_lt_cancel. change (Z.log2 256) with 8.
    assert (Z.log2 (b2z x) <= 7) by (apply (Z.log2_le_mono _ 255); lia).
    pose proof (Z.log2_land (b2z x) (b2z m)). lia. }
  rewrite (Z.mod_small (Z.land (b2z x) (b2z m))) by lia.
  rewrite <-Z.land_assoc, Z.land_diag. by apply Z.mod_small.
Qed.

Lemma band_high x o : 0 <= o < 8 ->
  b2z (band x (z2b (255 - Z.shiftr 255 o))) = Z.shiftr (b2z x) (8 - o) * 2 ^ (8 - o).
Proof.
  intros Ho. assert (o ∈ [0;1;2;3;4;5;6;7]) as Hin by (rewrite !elem_of_cons; lia).
  repeat (apply elem_of_cons in Hin as [->|Hin]; [by destruct x; vm_compute|]).
  by apply elem_of_nil in Hin.
Qed.

Lemma cidr_bytes_0 n : cidr_bytes n 0 = replicate n Byte.x00.
Proof. induction n as [|n IH]; [done|]. simpl. by rewrite IH. Qed.
Lemma cidr_bytes_length n o : length (cidr_bytes n o) = n.
Proof. revert o. induction n as [|n IH]; intros o; simpl; [done|]. case_match; simpl; by rewrite IH. Qed.

Lemma zip_band_zero n a b : length a = n -> length b = n ->
  zip_with band a (replicate n Byte.x00) = zip_with band b (replicate n Byte.x00).
Proof.
  revert a b. induction n as [|n IH]; intros [|x a] [|y b] Ha Hb; try done.
  injection Ha as Ha. injection Hb as Hb. cbn [replicate zip_with].
  by rewrite !band_00, (IH a b Ha Hb).
Qed.

Lemma digit_split P x y u v : 0 <= u < P -> 0 <= v < P -> x * P + u = y * P + v -> x = y /\ u = v.
Proof.
  intros Hu Hv E. assert (x = y) as ->; [|lia].
  destruct (Z.lt_trichotomy x y) as [?|[?|?]]; [nia|done|nia].
Qed.

(** Masking two addresses gives the same bytes exactly when they share the prefix. *)
Lemma mask_prefix n a b o : length a = n -> length b = n -> 0 <= o <= 8 * Z.of_nat n ->
  zip_with band a (cidr_bytes n o) = zip_with band b (cidr_bytes n o) <-> same_prefix o a b.
Proof.
  revert a b o. induction n as [|n IH]; intros a b o Ha Hb Ho.
  { destruct a, b; try done. }
  destruct a as [|x a], b as [|y b]; try done. injection Ha as Ha. injection Hb as Hb.
  unfold same_prefix. cbn [length]. rewrite Ha, Hb. cbn [cidr_bytes].
  pose proof (b2z_range x). pose proof (b2z_range y).
  destruct (Z.leb_spec 8 o) as [H8|H8]; cbn [zip_with].
  - rewrite !band_ff.
    replace (8 * Z.of_nat (S n) - o) with (8 * Z.of_nat n - (o - 8)) by lia.
    set (s := 8 * Z.of_nat n - (o - 8)).
    rewrite !ip_value_cons_div by (rewrite ?Ha, ?Hb; lia). rewrite Ha, Hb.
    pose proof (shiftr_value_range a s ltac:(lia)) as Ra. rewrite Ha in Ra.
    pose proof (shiftr_value_range b s ltac:(lia)) as Rb. rewrite Hb in Rb.
    specialize (IH a b (o - 8) Ha Hb ltac:(lia)). unfold same_prefix in IH. rewrite Ha, Hb in IH. fold s in IH.
    split.
    + intros E. injection E as -> E. split; [done|]. apply IH in E as [_ ->]. done.
    + intros [_ E]. assert (b2z x = b2z y /\ Z.shiftr (ip_value a) s = Z.shiftr (ip_value b) s) as [Ex Ev]
        by (eapply digit_split; [exact Ra|exact Rb|exact E]).
      f_equal; [by apply b2z_inj|]. apply IH. done.
  - rewrite cidr_bytes_0, (zip_band_zero n a b) by done.
    assert (forall z c, length c = n -> Z.shiftr (ip_value (z :: c)) (8 * Z.of_nat (S n) - o) = Z.shiftr (b2z z) (8 - o)) as Hv.
    { intros z c Hc. replace (8 * Z.of_nat (S n) - o) with (8 * Z.of_nat n + (8 - o)) by lia.
      rewrite <-Z.shiftr_shiftr by lia. rewrite ip_value_cons_div by (rewrite Hc; lia).
      rewrite Hc, Z.sub_diag, Z.mul_1_r. f_equal.
      pose proof (shiftr_value_range c (8 * Z.of_nat n)) as R. rewrite Hc, Z.sub_diag in R.
      specialize (R ltac:(lia)). change (2 ^ 0) with 1 in R. lia. }
    rewrite (Hv x a Ha), (Hv y b Hb). split.
    + intros [= E]. split; [done|]. apply (f_equal b2z) in E. rewrite !band_high in E by lia.
      apply Z.mul_reg_r in E; [done|]. apply Z.pow_nonzero; lia.
    + intros [_ E]. f_equal. apply b2z_inj. rewrite !band_high by lia. by rewrite E.
Qed.

Lemma zip_band_idem a m : zip_with band (zip_with band a m) m = zip_with band a m.
Proof.
  revert m. induction a as [|x a IH]; intros [|y m]; try done. cbn [zip_with]. by rewrite band_idem, IH.
Qed.

Lemma take_cidr_bytes j n o : (j <= n)%nat -> take j (cidr_bytes n o) = cidr_bytes j o.
Proof.
  revert n o. induction j as [|j IH]; intros [|n] o Hj; try done; [lia|]. cbn [cidr_bytes].
  case_match; cbn [take]; by rewrite IH by lia.
Qed.

Lemma drop_cidr_bytes j n o : (j <= n)%nat -> 8 * Z.of_nat j <= o ->
  drop j (cidr_bytes n o) = cidr_bytes (n - j) (o - 8 * Z.of_nat j).
Proof.
  revert n o. induction j as [|j IH]; intros n o Hj Ho.
  { rewrite drop_0. f_equal; lia. }
  destruct n as [|n]; [lia|]. cbn [cidr_bytes]. rewrite (proj2 (Z.leb_le 8 o)) by lia. cbn [drop].
  rewrite IH by lia. f_equal; lia.
Qed.

Lemma cidr_bytes_full n o : 8 * Z.of_nat n <= o -> cidr_bytes n o = replicate n Byte.xff.
Proof.
  revert o. induction n as [|n IH]; intros o Ho; [done|]. cbn [cidr_bytes replicate].
  rewrite (proj2 (Z.leb_le 8 o)) by lia. by rewrite IH by lia.
Qed.

Lemma zip_band_ff a n : length a = n -> zip_with band a (replicate n Byte.xff) = a.
Proof. intros <-. induction a as [|x a IH]; [done|]. cbn [length replicate zip_with]. by rewrite band_ff, IH. Qed.

(** A mask of fewer than 96 bits destroys the IPv4-mapped prefix. *)
Lemma short_mask_not_mapped b o : length b = 12%nat -> 0 <= o < 96 ->
  zip_with band b (cidr_bytes 12 o) <> v4InV6Prefix.
Proof.
  intros Hb Ho E. set (c := replicate 10 Byte.x00 ++ [Byte.xff; Byte.xfe]).
  pose proof (zip_band_idem b (cidr_bytes 12 o)) as E2. rewrite E in E2.
  assert (zip_with band v4InV6Prefix (cidr_bytes 12 o) = zip_with band c (cidr_bytes 12 o)) as E3.
  { apply mask_prefix; [done..|lia|]. split; [done|].
    change (8 * Z.of_nat (length v4InV6Prefix)) with 96. change (8 * Z.of_nat (length c)) with 96.
    replace (96 - o) with (1 + (95 - o)) by lia. rewrite <-!Z.shiftr_shiftr by lia. f_equal. }
  rewrite E2 in E3. apply (f_equal (fun l => l !! 11%nat)) in E3.
  destruct (lookup_lt_is_Some_2 (cidr_bytes 12 o) 11) as [y Hy]; [rewrite cidr_bytes_length; lia|].
  rewrite lookup_zip_with, Hy in E3. injection E3 as E3. by destruct y.
Qed.

Lemma Contains_masked n ip k o b : networkNumberAndMask n = Some (zip_with band b (cidr_bytes k o), cidr_bytes k o) ->
  length b = k -> 0 <= o <= 8 * Z.of_nat k ->
  Contains n ip = true <-> same_prefix o b (default ip (To4 ip)).
Proof.
  intros E Hb Ho. unfold Contains. rewrite E. simpl. set (ip' := default ip (To4 ip)).
  rewrite length_zip_with, cidr_bytes_length, Hb, Nat.min_id, zip_band_idem.
  case_bool_decide as Hl; cbn [negb].
  - rewrite bool_decide_eq_true. by apply mask_prefix.
  - split; [done|]. intros [Hl' _]. congruence.
Qed.

Lemma dtoi_digits s : forall n i v, digits_value n s = Some v -> 0 <= n -> v < 16777215 ->
  dtoi_loop s n i = Some (v, (i + length s)%nat, []).
Proof.
  induction s as [|c s IH]; intros n i v Hd Hn Hv; cbn in *.
  { injection Hd as ->. do 3 f_equal. lia. }
  destruct (is_digit c) eqn:Ec; [|done]. apply is_digit_spec in Ec. unfold digit_val in *.
  assert (n * 10 + (b2z c - 48) <= v).
  { clear -Hd Hn Ec. revert Hd. generalize (n * 10 + (b2z c - 48)), (ltac:(lia) : 0 <= n * 10 + (b2z c - 48)).
    clear. induction s as [|d s IH]; intros m Hm; cbn; [intros [= ->]; lia|].
    destruct (is_digit d) eqn:Ed; [|done]. apply is_digit_spec in Ed. unfold digit_val. intros Hd.
    apply IH in Hd; lia. }
  rewrite (proj2 (Z.leb_gt _ _)) by lia. rewrite (IH _ _ v) by (done || lia). do 3 f_equal. lia.
Qed.

Definition zone_free (a : netaddr) : Prop := match a with Addr4 _ => True | Addr6 _ z => z = [] end.
Definition addr_wf (a : netaddr) : Prop :=
  match a with Addr4 b => length b = 4%nat | Addr6 b _ => length b = 16%nat end.

(** The network that [net.ParseCIDR] builds from an address and a prefix length. *)
Definition mk_network (a : netaddr) (o : Z) : option IPNet :=
  let m := CIDRMask o (addr_bits a) in
  (fun ip => {| net_ip := ip; net_mask := m |}) <$> IP_Mask (As16 a) m.

Lemma IP_Mask_v4 b m : length b = 4%nat -> length m = 4%nat ->
  IP_Mask (v4InV6Prefix ++ b) m = Some (zip_with band b m).
Proof.
  intros Hb Hm. destruct b as [|? [|? [|? [|? [|]]]]], m as [|? [|? [|? [|? [|]]]]]; done.
Qed.

Lemma IP_Mask_v6 b m : length b = 16%nat -> length m = 16%nat ->
  IP_Mask b m = Some (zip_with band b m).
Proof.
  intros Hb Hm. unfold IP_Mask. rewrite Hb, Hm. cbn [bool_decide andb].
  rewrite (bool_decide_eq_false_2 (16 = 4)%nat) by done. rewrite !andb_false_r. cbn [andb].
  rewrite Hm, (bool_decide_eq_false_2 (16 = 4)%nat) by done. cbn [andb].
  by rewrite Hb, bool_decide_eq_true_2.
Qed.

Lemma network_v6 n : length (net_ip n) = 16%nat -> length (net_mask n) = 16%nat ->
  take 12 (net_ip n) <> v4InV6Prefix -> networkNumberAndMask n = Some (net_ip n, net_mask n).
Proof.
  intros H1 H2 H3. unfold networkNumberAndMask, To4. rewrite H1, H2.
  rewrite (bool_decide_eq_false_2 (_ = v4InV6Prefix)) by done.
  change (bool_decide (16 = 4)%nat) with false. change (bool_decide (16 = 16)%nat) with true. cbn [andb].
  rewrite H1. done.
Qed.

Lemma mk_network_spec a o : addr_wf a -> 0 <= o <= addr_bits a ->
  exists n, mk_network a o = Some n /\ forall ip, Contains n ip = true <-> in_network a o ip.
Proof.
  intros Hw Ho. unfold mk_network, in_network. destruct a as [b|b z]; cbn [addr_bits As16 addr_wf] in *;
    unfold CIDRMask.
  - change (Z.to_nat (32 / 8)) with 4%nat. rewrite IP_Mask_v4 by auto using cidr_bytes_length.
    eexists. split; [reflexivity|]. intros ip.
    apply (Contains_masked _ ip 4 o b); [|done|lia]. unfold networkNumberAndMask. cbn [net_ip net_mask].
    rewrite To4_four by (rewrite length_zip_with, cidr_bytes_length, Hw; done).
    rewrite length_zip_with, !cidr_bytes_length, Hw. done.
  - change (Z.to_nat (128 / 8)) with 16%nat. rewrite IP_Mask_v6 by auto using cidr_bytes_length.
    eexists. split; [reflexivity|]. intros ip. set (m := cidr_bytes 16 o).
    assert (take 12 (zip_with band b m) = zip_with band (take 12 b) (cidr_bytes 12 o)) as Ht
      by (unfold m; by rewrite zip_with_take, take_cidr_bytes by lia).
    assert (length (zip_with band b m) = 16%nat) as Hz
      by (unfold m; by rewrite length_zip_with, cidr_bytes_length, Hw).
    destruct (Z.leb_spec 96 o) as [H96|H96].
    + rewrite cidr_bytes_full, zip_band_ff in Ht by (rewrite ?length_take; lia).
      destruct (bool_decide_reflect (take 12 b = v4InV6Prefix)) as [Hp|Hp]; cbn [andb].
      * apply (Contains_masked _ ip 4); [|rewrite length_drop; lia|lia].
        unfold networkNumberAndMask. cbn [net_ip net_mask].
        unfold To4. rewrite Hz, Ht, bool_decide_eq_false_2 by done.
        rewrite !bool_decide_eq_true_2 by done. cbn [andb].
        rewrite length_drop, Hz. unfold m. rewrite cidr_bytes_length.
        rewrite zip_with_drop, drop_cidr_bytes by lia. done.
      * apply (Contains_masked _ ip 16); [|done|lia].
        apply network_v6; [done|apply cidr_bytes_length|]. cbn [net_ip]. by rewrite Ht.
    + rewrite andb_false_r. apply (Contains_masked _ ip 16); [|done|lia].
      apply network_v6; [done|apply cidr_bytes_length|]. cbn [net_ip]. rewrite Ht.
      apply short_mask_not_mapped; [rewrite length_take|]; lia.
Qed.

Lemma ParseCIDR_join text a o : ParseAddr text = Some a -> zone_free a ->
  ContainsByte text (ch "/") = false -> 0 <= o <= addr_bits a ->
  ParseCIDR (text ++ bs "/" ++ Itoa o) = mk_network a o.
Proof.
  intros Ha Hz Hs Ho. unfold ParseCIDR. change (bs "/" ++ Itoa o) with (ch "/" :: Itoa o).
  rewrite IndexByte_app by done. rewrite take_app_length, Ha.
  assert (drop (S (length text)) (text ++ ch "/" :: Itoa o) = Itoa o) as ->.
  { rewrite (cons_middle (ch "/")), app_assoc. apply drop_app_length'. len. }
  assert (addr_bits a <= 128) by (destruct a; simpl; lia).
  destruct (Itoa_spec o) as (Hn & _ & Hd); [lia|].
  rewrite (dtoi_digits _ 0 0 o) by (done || lia). unfold mk_network.
  assert (match a with Addr4 _ => (32, []) | Addr6 _ z => (128, z) end = (addr_bits a, @nil byte)) as ->
    by (destruct a; simpl in *; by subst).
  rewrite !bool_decide_eq_false_2 by (destruct (Itoa o); simpl; first [done|lia|by intros []]).
  cbn [orb]. rewrite (proj2 (Z.ltb_ge _ _)) by lia. done.
Qed.

Lemma dtoi_value s : forall n i v k, dtoi_loop s n i = Some (v, k, []) -> 0 <= n ->
  digits_value n s = Some v /\ 0 <= v.
Proof.
  induction s as [|c s IH]; intros n i v k; cbn; [intros [= <- _] Hn; auto|].
  destruct (is_digit c) eqn:Ec; [|done]. case_match; [done|]. intros E Hn. apply is_digit_spec in Ec.
  unfold digit_val in *. apply IH in E; [done|lia].
Qed.

Lemma IndexByte_Some s c i : IndexByte s c = Some i ->
  s = take i s ++ c :: drop (S i) s /\ ContainsByte (take i s) c = false.
Proof.
  revert i. induction s as [|x s IH]; intros i; cbn [IndexByte]; [done|].
  destruct (beq x c) eqn:E.
  - intros [= <-]. by apply beq_true in E as ->.
  - destruct (IndexByte s c) as [j|]; [|done]. intros [= <-]. destruct (IH j eq_refl) as [E1 E2].
    cbn [take drop]. split; [by rewrite E1 at 1|]. by rewrite ContainsByte_cons, E, E2.
Qed.

(** What a text accepted by [net.ParseCIDR] is made of. *)
Lemma ParseCIDR_inv s n : ParseCIDR s = Some n -> exists text len a o,
  s = text ++ bs "/" ++ len /\ ContainsByte text (ch "/") = false /\ ParseAddr text = Some a /\
  zone_free a /\ digits_value 0 len = Some o /\ 0 <= o <= addr_bits a /\ mk_network a o = Some n.
Proof.
  unfold ParseCIDR. destruct (IndexByte s (ch "/")) as [i|] eqn:Ei; [|done].
  apply IndexByte_Some in Ei as [Es Ec]. destruct (ParseAddr (take i s)) as [a|] eqn:Ea; [|done].
  set (bz := match a with Addr4 _ => (32, []) | Addr6 _ z => (128, z) end).
  destruct bz as [bits zone] eqn:Eb. case_bool_decide as Hz; [done|].
  destruct (dtoi_loop _ 0 0) as [[[o k] rest]|] eqn:Ed; [|done].
  destruct (_ || _) eqn:Eo; [done|]. apply orb_false_iff in Eo as [Eo Hb%Z.ltb_ge].
  apply orb_false_iff in Eo as [_ Hr]. apply bool_decide_eq_false in Hr. apply dec_stable in Hr as ->.
  subst zone. apply dtoi_value in Ed as [Ed Ho]; [|lia]. intros Hn.
  exists (take i s), (drop (S i) s), a, o. unfold mk_network.
  assert (bits = addr_bits a /\ zone_free a) as [-> ?] by (destruct a; cbn in *; simplify_eq; done).
  split_and!; try done.
Qed.

(** A full-length mask compares whole addresses. *)
Lemma same_prefix_full a b n : length a = n -> n = 4%nat \/ n = 16%nat ->
  same_prefix (8 * Z.of_nat n) a b <-> a = b.
Proof.
  intros Ha _. split; [|intros ->; done]. intros Hp. assert (length b = n) as Hb by (destruct Hp; congruence).
  apply (mask_prefix n) in Hp; [|done|done|lia]. rewrite cidr_bytes_full in Hp by lia.
  by rewrite !zip_band_ff in Hp.
Qed.

Lemma Contains_exact b ip n : length b = n -> n = 4%nat \/ n = 16%nat /\ To4 b = None ->
  Contains {| net_ip := b; net_mask := CIDRMask (8 * Z.of_nat n) (8 * Z.of_nat n) |} ip = true <->
  b = default ip (To4 ip).
Proof.
  intros Hb Hn. rewrite <-(same_prefix_full b (default ip (To4 ip)) n) by (done || naive_solver).
  unfold CIDRMask. replace (8 * Z.of_nat n / 8) with (Z.of_nat n) by (by rewrite Z.mul_comm, Z.div_mul).
  rewrite Nat2Z.id. apply (Contains_masked _ ip n); [|done|lia]. rewrite cidr_bytes_full, zip_band_ff by (done || lia).
  unfold networkNumberAndMask. cbn [net_ip net_mask]. rewrite length_replicate.
  destruct Hn as [->|[-> H4]].
  - by rewrite To4_four, Hb.
  - rewrite H4, Hb. change (bool_decide (16 = 16)%nat) with true. change (bool_decide (16 = 4)%nat) with false.
    cbv beta iota. by rewrite Hb.
Qed.
