(* ===== verification/GoEncoding.v ===== *)
(** * More of Go's standard library: encoding/base64 and path/filepath

    [base64.StdEncoding] in both directions and the functions of [path/filepath] (on a
    system with slash-separated paths) that the configuration code calls, executable. *)
From S2P Require Import Prelude GoStd.

(** ** encoding/base64 *)

(** The character of a 6-bit value in the standard alphabet, and back. *)
Definition enc6 (v : Z) : byte :=
  if v <? 26 then z2b (65 + v)
  else if v <? 52 then z2b (97 + (v - 26))
  else if v <? 62 then z2b (48 + (v - 52))
  else if v =? 62 then ch "+" else ch "/".

Definition dec6 (c : byte) : option Z :=
  if is_upper c then Some (b2z c - 65)
  else if is_lower c then Some (b2z c - 97 + 26)
  else if is_digit c then Some (b2z c - 48 + 52)
  else if beq c (ch "+") then Some 62
  else if beq c (ch "/") then Some 63
  else None.

Definition padChar : byte := ch "=".

(** Three source bytes as one 24-bit value, and its four 6-bit groups. *)
Definition val24 (a b c : Z) : Z := Z.lor (Z.lor (Z.shiftl a 16) (Z.shiftl b 8)) c.
Definition six (v : Z) (shift : Z) : byte := enc6 (Z.land (Z.shiftr v shift) 63).

(** [StdEncoding.EncodeToString]. *)
Fixpoint EncodeToString (s : bytes) : bytes :=
  match s with
  | [] => []
  | [a] => let v := val24 (b2z a) 0 0 in [six v 18; six v 12; padChar; padChar]
  | [a; b] => let v := val24 (b2z a) (b2z b) 0 in [six v 18; six v 12; six v 6; padChar]
  | a :: b :: c :: rest =>
      let v := val24 (b2z a) (b2z b) (b2z c) in
      six v 18 :: six v 12 :: six v 6 :: six v 0 :: EncodeToString rest
  end.

(** Four 6-bit groups as one 24-bit value, and its bytes. *)
Definition val4 (x y z w : Z) : Z :=
  Z.lor (Z.lor (Z.lor (Z.shiftl x 18) (Z.shiftl y 12)) (Z.shiftl z 6)) w.
Definition octet (v : Z) (shift : Z) : byte := z2b (Z.shiftr v shift).

(** The quanta of [Decode]: padding may only end the input, and bits that padding
    leaves over are not checked (the encoding is not strict). *)
Fixpoint decode_quanta (s : bytes) : option bytes :=
  match s with
  | [] => Some []
  | a :: b :: c :: d :: rest =>
      x ← dec6 a; y ← dec6 b;
      if beq c padChar then
        if beq d padChar && bool_decide (rest = []) then Some [octet (val4 x y 0 0) 16] else None
      else
        z ← dec6 c;
        if beq d padChar then
          if bool_decide (rest = []) then let v := val4 x y z 0 in Some [octet v 16; octet v 8] else None
        else
          w ← dec6 d;
          let v := val4 x y z w in
          more ← decode_quanta rest;
          Some (octet v 16 :: octet v 8 :: octet v 0 :: more)
  | _ => None
  end.

(** [StdEncoding.DecodeString], which skips line breaks. *)
Definition line_break (c : byte) : bool := beq c Byte.x0a || beq c Byte.x0d.
Definition CorruptInputError : error := ErrNew "illegal base64 data".
Definition DecodeString (s : bytes) : res bytes :=
  match decode_quanta (List.filter (fun c => negb (line_break c)) s) with
  | Some b => Ok b
  | None => Err CorruptInputError
  end.

(** ** path/filepath *)
Definition slash : byte := ch "/".
Definition IsAbs (p : bytes) : bool := HasPrefix p [slash].

(** One element of a path on the stack of the elements before it (the last one first):
    empty elements and dots go, dot-dot removes an element that is not itself dot-dot,
    and stays only at the front of a relative path. *)
Definition clean_element (rooted : bool) (e : bytes) (stack : list bytes) : list bytes :=
  if bool_decide (e = []) || bool_decide (e = bs ".") then stack
  else if bool_decide (e = bs "..") then
    match stack with
    | [] => if rooted then [] else [e]
    | t :: stack' => if bool_decide (t = bs "..") then e :: stack else stack'
    end
  else e :: stack.

Fixpoint clean_elements (rooted : bool) (es : list bytes) (stack : list bytes) : list bytes :=
  match es with
  | [] => stack
  | e :: es' => clean_elements rooted es' (clean_element rooted e stack)
  end.

Fixpoint join_slash (es : list bytes) : bytes :=
  match es with
  | [] => []
  | [e] => e
  | e :: es' => e ++ [slash] ++ join_slash es'
  end.

Definition Clean (p : bytes) : bytes :=
  let rooted := IsAbs p in
  let body := join_slash (reverse (clean_elements rooted (Split p slash) [])) in
  if rooted then slash :: body
  else if bool_decide (body = []) then bs "." else body.

(** [filepath.Dir] and [filepath.Join] of two elements, the second not empty. *)
Definition Dir (p : bytes) : bytes :=
  Clean (match LastIndexByte p slash with Some i => take (S i) p | None => [] end).
Definition Join2 (a b : bytes) : bytes :=
  if bool_decide (a = []) then Clean b else Clean (a ++ [slash] ++ b).

(** ** Facts *)

Lemma dec6_enc6 v : 0 <= v < 64 -> dec6 (enc6 v) = Some v /\ enc6 v <> padChar /\ line_break (enc6 v) = false.
Proof.
  intros Hv.
  assert (Forall (fun v => dec6 (enc6 v) = Some v /\ enc6 v <> padChar /\ line_break (enc6 v) = false) (seqZ 0 64)) as HF.
  { repeat (constructor; [vm_compute; repeat split; discriminate|]). constructor. }
  rewrite Forall_forall in HF. apply HF, elem_of_seqZ. lia.
Qed.

Lemma val24_eq a b c : 0 <= b < 256 -> 0 <= c < 256 -> val24 a b c = a * 65536 + b * 256 + c.
Proof.
  intros Hb Hc. unfold val24. rewrite !Z.shiftl_mul_pow2 by lia.
  rewrite (lor_mul_add 16) by (change (2 ^ 8) with 256; change (2 ^ 16) with 65536; lia).
  replace (a * 2 ^ 16 + b * 2 ^ 8) with ((a * 256 + b) * 2 ^ 8) by (change (2 ^ 16) with (256 * 256); change (2 ^ 8) with 256; ring).
  rewrite lor_mul_add by (change (2 ^ 8) with 256; lia). change (2 ^ 8) with 256. ring.
Qed.

Lemma val4_eq x y z w : 0 <= y < 64 -> 0 <= z < 64 -> 0 <= w < 64 ->
  val4 x y z w = x * 262144 + y * 4096 + z * 64 + w.
Proof.
  intros Hy Hz Hw. unfold val4. rewrite !Z.shiftl_mul_pow2 by lia.
  rewrite (lor_mul_add 18) by (change (2 ^ 12) with 4096; change (2 ^ 18) with 262144; lia).
  replace (x * 2 ^ 18 + y * 2 ^ 12) with ((x * 64 + y) * 2 ^ 12) by (change (2 ^ 18) with (64 * 4096); change (2 ^ 12) with 4096; ring).
  rewrite (lor_mul_add 12) by (change (2 ^ 6) with 64; change (2 ^ 12) with 4096; lia).
  replace ((x * 64 + y) * 2 ^ 12 + z * 2 ^ 6) with ((x * 4096 + y * 64 + z) * 2 ^ 6) by (change (2 ^ 12) with (64 * 64); change (2 ^ 6) with 64; ring).
  rewrite lor_mul_add by (change (2 ^ 6) with 64; lia). change (2 ^ 6) with 64. ring.
Qed.

(** The group of a value at a shift. *)
Definition group (v shift : Z) : Z := (v / 2 ^ shift) mod 64.

Lemma six_eq v s : 0 <= s -> six v s = enc6 (group v s).
Proof.
  intros. unfold six, group. rewrite Z.shiftr_div_pow2 by lia. f_equal. apply (Z.land_ones _ 6). lia.
Qed.

Lemma group_range v s : 0 <= group v s < 64.
Proof. apply Z.mod_pos_bound. lia. Qed.

(** The four groups of a 24-bit value put together again. *)
Lemma val4_groups v : 0 <= v < 16777216 -> val4 (group v 18) (group v 12) (group v 6) (group v 0) = v.
Proof.
  intros Hv. rewrite val4_eq by apply group_range. unfold group.
  change (2 ^ 18) with 262144. change (2 ^ 12) with 4096. change (2 ^ 6) with 64. change (2 ^ 0) with 1.
  Z.to_euclidean_division_equations. lia.
Qed.

Lemma octet_val24 a b c :
  let v := val24 (b2z a) (b2z b) (b2z c) in
  0 <= v < 16777216 /\ octet v 16 = a /\ octet v 8 = b /\ octet v 0 = c.
Proof.
  pose proof (b2z_range a). pose proof (b2z_range b). pose proof (b2z_range c). cbv zeta.
  rewrite val24_eq by done. split; [lia|]. unfold octet.
  split; [|split]; apply b2z_inj; rewrite b2z_z2b, Z.shiftr_div_pow2 by lia;
    [change (2 ^ 16) with 65536|change (2 ^ 8) with 256|change (2 ^ 0) with 1];
    Z.to_euclidean_division_equations; lia.
Qed.

(** A list of bytes is taken apart three at a time. *)
Lemma triple_ind (P : bytes -> Prop) : P [] -> (forall a, P [a]) -> (forall a b, P [a; b]) ->
  (forall a b c s, P s -> P (a :: b :: c :: s)) -> forall s, P s.
Proof.
  intros H0 H1 H2 H3 s. enough (forall n s, (length s <= n)%nat -> P s) by eauto.
  clear s. induction n as [|n IH]; intros [|a [|b [|c s]]] Hn; cbn in Hn; auto; try lia.
  apply H3, IH. lia.
Qed.

Lemma encoded_chars s : Forall (fun c => line_break c = false) (EncodeToString s).
Proof.
  induction s using triple_ind; cbn [EncodeToString]; rewrite ?six_eq by lia;
    repeat constructor; try done; apply dec6_enc6, group_range.
Qed.

Lemma filter_id {A} (f : A -> bool) l : Forall (fun x => f x = true) l -> List.filter f l = l.
Proof. induction 1 as [|x l Hx _ IH]; cbn; [done|]. by rewrite Hx, IH. Qed.

Lemma beq_false a b : a <> b -> beq a b = false.
Proof. apply bool_decide_eq_false_2. Qed.

Lemma decode_quanta_encode s : decode_quanta (EncodeToString s) = Some s.
Proof.
  induction s as [|a|a b|a b c s IH] using triple_ind; [done|..]; cbn [EncodeToString].
  - pose proof (octet_val24 a Byte.x00 Byte.x00) as (Hv & Ha & _). pose proof (val4_groups _ Hv) as Hg.
    change (b2z Byte.x00) with 0 in *.
    set (v := val24 (b2z a) 0 0) in *. rewrite !six_eq by lia.
    destruct (dec6_enc6 _ (group_range v 18)) as (E1 & _). destruct (dec6_enc6 _ (group_range v 12)) as (E2 & _).
    cbn [decode_quanta]. rewrite E1. cbn [mbind option_bind]. rewrite E2. cbn.
    assert (group v 6 = 0 /\ group v 0 = 0) as [G1 G2].
    { subst v. unfold group. rewrite val24_eq by lia. change (2 ^ 6) with 64. change (2 ^ 0) with 1.
      Z.to_euclidean_division_equations. lia. }
    rewrite G1, G2 in Hg. by rewrite Hg, Ha.
  - pose proof (octet_val24 a b Byte.x00) as (Hv & Ha & Hb & _). pose proof (val4_groups _ Hv) as Hg.
    change (b2z Byte.x00) with 0 in *. set (v := val24 (b2z a) (b2z b) 0) in *. rewrite !six_eq by lia.
    destruct (dec6_enc6 _ (group_range v 18)) as (E1 & _). destruct (dec6_enc6 _ (group_range v 12)) as (E2 & _).
    destruct (dec6_enc6 _ (group_range v 6)) as (E3 & P3 & _).
    cbn [decode_quanta]. rewrite E1. cbn [mbind option_bind]. rewrite E2. cbn [mbind option_bind].
    rewrite (beq_false _ _ P3), E3. cbn -[Z.mul Z.div Z.modulo].
    assert (group v 0 = 0) as G.
    { subst v. unfold group. pose proof (b2z_range b). rewrite val24_eq by lia. change (2 ^ 0) with 1.
      Z.to_euclidean_division_equations. lia. }
    rewrite G in Hg. by rewrite Hg, Ha, Hb.
  - pose proof (octet_val24 a b c) as (Hv & Ha & Hb & Hc). pose proof (val4_groups _ Hv) as Hg.
    set (v := val24 (b2z a) (b2z b) (b2z c)) in *. rewrite !six_eq by lia.
    destruct (dec6_enc6 _ (group_range v 18)) as (E1 & _). destruct (dec6_enc6 _ (group_range v 12)) as (E2 & _).
    destruct (dec6_enc6 _ (group_range v 6)) as (E3 & P3 & _). destruct (dec6_enc6 _ (group_range v 0)) as (E4 & P4 & _).
    cbn [decode_quanta]. rewrite E1. cbn [mbind option_bind]. rewrite E2. cbn [mbind option_bind].
    rewrite (beq_false _ _ P3), E3. cbn [mbind option_bind]. rewrite (beq_false _ _ P4), E4. cbn [mbind option_bind].
    rewrite IH. cbn [mbind option_bind]. by rewrite Hg, Ha, Hb, Hc.
Qed.

(** Decoding inverts encoding. *)
Lemma DecodeString_EncodeToString s : DecodeString (EncodeToString s) = Ok s.
Proof.
  unfold DecodeString. rewrite filter_id, decode_quanta_encode; [done|].
  eapply Forall_impl; [apply encoded_chars|]. by intros c ->.
Qed.

Lemma EncodeToString_inj a b : EncodeToString a = EncodeToString b -> a = b.
Proof. intros E. pose proof (DecodeString_EncodeToString a) as Ha. rewrite E, DecodeString_EncodeToString in Ha. congruence. Qed.

Lemma IsAbs_Clean p : IsAbs p = true -> IsAbs (Clean p) = true.
Proof. intros Hp. unfold Clean. by rewrite Hp. Qed.

Lemma IsAbs_cons p : IsAbs p = true <-> exists q, p = slash :: q.
Proof.
  unfold IsAbs, HasPrefix. rewrite bool_decide_eq_true. split.
  - destruct p as [|c p]; [done|]. cbn. intros [= ->]. eauto.
  - intros [q ->]. done.
Qed.

(** The directory of an absolute path is absolute, and so is what is joined to it. *)
Lemma IsAbs_Dir p : IsAbs p = true -> IsAbs (Dir p) = true.
Proof.
  intros [q ->]%IsAbs_cons. unfold Dir. cbn [LastIndexByte].
  destruct (LastIndexByte q slash) as [i|]; [|by apply IsAbs_Clean]. by apply IsAbs_Clean.
Qed.

Lemma IsAbs_Join2 a b : IsAbs a = true -> IsAbs (Join2 a b) = true.
Proof. intros [q ->]%IsAbs_cons. unfold Join2. by apply IsAbs_Clean. Qed.

(** A plain last element stays the last element. *)
Definition plain_element (e : bytes) : Prop := e <> [] /\ e <> bs "." /\ e <> bs ".." /\ Split e slash = [e].

Lemma clean_elements_app rooted es fs stack :
  clean_elements rooted (es ++ fs) stack = clean_elements rooted fs (clean_elements rooted es stack).
Proof. revert stack. induction es as [|e es IH]; intros stack; cbn; [done|apply IH]. Qed.

Lemma clean_element_plain rooted e stack : plain_element e -> clean_element rooted e stack = e :: stack.
Proof.
  intros (H1 & H2 & H3 & _). unfold clean_element.
  by rewrite (bool_decide_eq_false_2 _ H1), (bool_decide_eq_false_2 _ H2), (bool_decide_eq_false_2 _ H3).
Qed.

Lemma join_slash_snoc es e : exists q, join_slash (es ++ [e]) = q ++ e.
Proof.
  induction es as [|x es [q IH]]; [by exists []|]. cbn [app join_slash].
  destruct (es ++ [e]) eqn:E; [by destruct es|]. rewrite IH. exists (x ++ [slash] ++ q). by rewrite <- !app_assoc.
Qed.

Lemma Join2_suffix dir e : plain_element e -> exists q, Join2 dir e = q ++ e.
Proof.
  intros He. assert (forall p stack, exists q, (let body := join_slash (reverse (e :: stack)) in
    if IsAbs p then slash :: body else if bool_decide (body = []) then bs "." else body) = q ++ e) as HC.
  { intros p stack. rewrite reverse_cons. destruct (join_slash_snoc (reverse stack) e) as [q ->]. cbv zeta.
    destruct (IsAbs p); [by exists (slash :: q)|]. rewrite bool_decide_eq_false_2; [by exists q|].
    intros [_ ?]%app_eq_nil. by destruct He. }
  pose proof He as (_ & _ & _ & Hs). unfold Join2, Clean. case_match.
  - rewrite Hs. cbn [clean_elements]. rewrite clean_element_plain by done. apply HC.
  - change (dir ++ [slash] ++ e) with (dir ++ slash :: e). rewrite Split_app, Hs, clean_elements_app. cbn [clean_elements]. rewrite clean_element_plain by done. apply HC.
Qed.

Example clean_examples :
  map Clean [bs ""; bs "/"; bs "a//b/./c/.."; bs "../a/.."; bs "/../a"; bs "a/../.."] =
  [bs "."; bs "/"; bs "a/b"; bs ".."; bs "/a"; bs ".."].
Proof. reflexivity. Qed.

Example dir_join_examples :
  [Dir (bs "server.yaml"); Dir (bs "/etc/wanopt/server.yaml"); Join2 (Dir (bs "/etc/wanopt/s.yaml")) (bs "../key.pem")] =
  [bs "."; bs "/etc/wanopt"; bs "/etc/key.pem"].
Proof. reflexivity. Qed.

Example base64_examples :
  (EncodeToString (bs "Man"), EncodeToString (bs "Ma"), EncodeToString (bs "M"), DecodeString (bs "TWE="), is_ok (DecodeString (bs "TWE")))
  = (bs "TWFu", bs "TWE=", bs "TQ==", Ok (bs "Ma"), false).
Proof. reflexivity. Qed.
