(* ===== verification/Protocol.v ===== *)
(** * Package protocol: addresses, the stream request and the UDP envelope

    Models [internal/protocol/address.go] and [internal/protocol/frame.go]: the
    SOCKS5-like address codec with its two decoders, the request header and the
    reply of a proxy stream, and the datagram envelope. *)
From S2P Require Import Prelude GoStd GoNet.

(** ** address.go *)

Definition AtypIPv4 : byte := Byte.x01.
Definition AtypDomain : byte := Byte.x03.
Definition AtypIPv6 : byte := Byte.x04.

Record Address := mkAddress { Atyp : byte; Host : bytes; IP : bytes; Port : Z }.

#[export] Instance Address_eq_dec : EqDecision Address.
Proof. solve_decision. Defined.

(** [Address{}]. *)
Definition zeroAddress : Address := mkAddress Byte.x00 [] [] 0.

Definition Address_String (a : Address) : bytes :=
  if beq (Atyp a) AtypDomain then JoinHostPort (Host a) (Itoa (Port a))
  else JoinHostPort (IP_String (IP a)) (Itoa (Port a)).

(** The character test of a label.  The source ranges over runes; a byte of 0x80
    or more always decodes to a rune outside these ranges, so testing the bytes
    is the same. *)
Definition label_char (c : byte) : bool :=
  is_lower c || is_upper c || is_digit c || beq c (ch "-") || beq c (ch "_").

Definition bad_label (label : bytes) : bool :=
  bool_decide (length label = 0%nat) || bool_decide (63 < length label)%nat ||
  bool_decide (head label = Some (ch "-")) || bool_decide (last label = Some (ch "-")) ||
  negb (forallb label_char label).

(** [Address.Validate]; [None] is the nil error. *)
Definition Validate (a : Address) : option error :=
  if beq (Atyp a) AtypIPv4 then
    match To4 (IP a) with None => Some errBadAddress | Some _ => None end
  else if beq (Atyp a) AtypIPv6 then
    match To16 (IP a) with None => Some errBadAddress | Some _ => None end
  else if beq (Atyp a) AtypDomain then
    match ParseIP (Host a) with
    | Some _ => None
    | None =>
        let host := TrimSuffix (Host a) (bs ".") in
        if bool_decide (length host = 0%nat) || bool_decide (253 < length host)%nat
        then Some errBadAddress
        else if existsb bad_label (Split host (ch ".")) then Some errBadAddress
        else None
    end
  else Some errBadAddress.

(** [return a, a.Validate()]. *)
Definition validated (a : Address) : res Address :=
  match Validate a with None => Ok a | Some e => Err e end.

Definition ParseAddress (hostport : bytes) : res Address :=
  '(host, portStr) ← SplitHostPort hostport;
  match ParseUint portStr 16 with
  | Err e => Err (Wrapped "protocol: bad port" e)
  | Ok port =>
      match ParseIP host with
      | Some ip =>
          match To4 ip with
          | Some v4 => validated (mkAddress AtypIPv4 [] v4 port)
          | None => validated (mkAddress AtypIPv6 [] (default [] (To16 ip)) port)
          end
      | None =>
          if bool_decide (255 < length host)%nat
          then Err (ErrNew "protocol: domain name too long")
          else validated (mkAddress AtypDomain host [] port)
      end
  end.

Definition Encode (a : Address) (b : bytes) : bytes :=
  b ++
  (if beq (Atyp a) AtypIPv4 then AtypIPv4 :: default [] (To4 (IP a))
   else if beq (Atyp a) AtypIPv6 then AtypIPv6 :: default [] (To16 (IP a))
   else if beq (Atyp a) AtypDomain then
     AtypDomain :: z2b (Z.of_nat (length (Host a))) :: Host a
   else []) ++
  be16 (Port a).

(** The single byte of a one-byte [io.ReadFull]. *)
Definition byte0 (b : bytes) : byte := default Byte.x00 (head b).

(** [a.Port = p]. *)
Definition with_port (a : Address) (p : Z) : Address := mkAddress (Atyp a) (Host a) (IP a) p.

Definition ReadAddress : rd Address :=
  atyp ← ReadFull 1;
  a ← (if beq (byte0 atyp) AtypIPv4 then
         buf ← ReadFull 4; mret (mkAddress (byte0 atyp) [] buf 0)
       else if beq (byte0 atyp) AtypIPv6 then
         buf ← ReadFull 16; mret (mkAddress (byte0 atyp) [] buf 0)
       else if beq (byte0 atyp) AtypDomain then
         l ← ReadFull 1;
         buf ← ReadFull (Z.to_nat (b2z (byte0 l)));
         mret (mkAddress (byte0 atyp) buf [] 0)
       else rd_fail errBadAddress : rd Address);
  port ← ReadFull 2;
  rd_lift (validated (with_port a (get_be16 port))).

(** [decodeAddress]: the same format from a buffer, with the bytes consumed. *)
Definition decodeAddress (buf : bytes) : res (Address * nat) :=
  let finish (a : Address) (off : nat) : res (Address * nat) :=
    let a' := with_port a (get_be16 (take 2 (drop off buf))) in
    match Validate a' with None => Ok (a', (off + 2)%nat) | Some e => Err e end in
  match buf with
  | [] => Err errBadAddress
  | t :: _ =>
      if beq t AtypIPv4 then
        if bool_decide (length buf < 1 + 4 + 2)%nat then Err errBadAddress
        else finish (mkAddress t [] (take 4 (drop 1 buf)) 0) 5%nat
      else if beq t AtypIPv6 then
        if bool_decide (length buf < 1 + 16 + 2)%nat then Err errBadAddress
        else finish (mkAddress t [] (take 16 (drop 1 buf)) 0) 17%nat
      else if beq t AtypDomain then
        if bool_decide (length buf < 1 + 1)%nat then Err errBadAddress
        else
          let dl := Z.to_nat (b2z (byte0 (drop 1 buf))) in
          if bool_decide (length buf < 2 + dl + 2)%nat then Err errBadAddress
          else finish (mkAddress t (take dl (drop 2 buf)) [] 0) (2 + dl)%nat
      else Err errBadAddress
  end.

(** ** frame.go *)

Definition Version : byte := Byte.x02.
Definition CmdTCPConnect : byte := Byte.x01.
Definition FlagCompress : byte := Byte.x01.
Definition CtrlPing : byte := Byte.x01.
Definition CtrlPong : byte := Byte.x02.
Definition StatusOK : byte := Byte.x00.
Definition StatusGeneralErr : byte := Byte.x01.
Definition StatusConnRefused : byte := Byte.x02.
Definition StatusHostUnreach : byte := Byte.x03.
Definition StatusNotAllowed : byte := Byte.x04.

Record StreamRequest := mkStreamRequest { Cmd : byte; Flags : byte; Addr : Address }.

#[export] Instance StreamRequest_eq_dec : EqDecision StreamRequest.
Proof. solve_decision. Defined.

(** The bytes one request occupies on the stream. *)
Definition request_bytes (rq : StreamRequest) : bytes :=
  Encode (Addr rq) [Version; Cmd rq; Flags rq].

Definition WriteTo (rq : StreamRequest) (w : writer) : nat * option error * writer :=
  match Validate (Addr rq) with
  | Some e => (0%nat, Some e, w)
  | None => write_checked w (request_bytes rq)
  end.

Definition ReadStreamRequest : rd StreamRequest :=
  hdr ← ReadFull 3;
  if negb (beq (default Byte.x00 (hdr !! 0%nat)) Version)
  then rd_fail (ErrNew "protocol: unsupported version")
  else addr ← ReadAddress;
       mret (mkStreamRequest (default Byte.x00 (hdr !! 1%nat)) (default Byte.x00 (hdr !! 2%nat)) addr).

Definition WriteReply (w : writer) (status flags : byte) : option error * writer :=
  let '(_, err, w') := write_checked w [status; flags] in (err, w').

Definition ReadReply : rd (byte * byte) :=
  b ← ReadFull 2;
  mret (default Byte.x00 (b !! 0%nat), default Byte.x00 (b !! 1%nat)).

Definition MaxUDPPayload : nat := 850.
Definition MaxUDPDatagramSize : nat := 1120.

Definition EncodeDatagram (sessionID : Z) (addr : Address) (payload : bytes) : bytes :=
  Encode addr (AppendUvarint [Version] sessionID) ++ payload.

Record Datagram := mkDatagram { SessionID : Z; DgAddr : Address; Payload : bytes }.

#[export] Instance Datagram_eq_dec : EqDecision Datagram.
Proof. solve_decision. Defined.

Definition DecodeDatagram (buf : bytes) : res Datagram :=
  if bool_decide (length buf < 2)%nat || bool_decide (MaxUDPDatagramSize < length buf)%nat ||
     negb (beq (byte0 buf) Version)
  then Err (ErrNew "protocol: bad datagram header")
  else
    let '(sid, n) := Uvarint (drop 1 buf) in
    if n <=? 0 then Err (ErrNew "protocol: bad datagram session id")
    else
      let off := (1 + Z.to_nat n)%nat in
      '(addr, used) ← decodeAddress (drop off buf);
      let off := (off + used)%nat in
      if bool_decide (MaxUDPPayload < length buf - off)%nat
      then Err (ErrNew "protocol: UDP payload too large")
      else Ok (mkDatagram sid addr (drop off buf)).

(** ** Specification-level notions *)

(** The form in which an address arrives at the other end of the wire. *)
Definition wire_form (a : Address) : Address :=
  if beq (Atyp a) AtypIPv4 then mkAddress AtypIPv4 [] (default [] (To4 (IP a))) (Port a)
  else if beq (Atyp a) AtypIPv6 then mkAddress AtypIPv6 [] (default [] (To16 (IP a))) (Port a)
  else mkAddress (Atyp a) (Host a) [] (Port a).

(** A Go value of type [Address] that passes [Validate]. *)
Record valid_address (a : Address) : Prop := {
  va_valid : Validate a = None;
  va_port : 0 <= Port a < 65536;
}.

(** ** Validated addresses *)

(** The three shapes of an address that passes [Validate]. *)
Lemma Validate_cases a : Validate a = None ->
  (Atyp a = AtypIPv4 /\ exists v4, To4 (IP a) = Some v4 /\ length v4 = 4%nat) \/
  (Atyp a = AtypIPv6 /\ exists v6, To16 (IP a) = Some v6 /\ length v6 = 16%nat) \/
  (Atyp a = AtypDomain /\ (1 <= length (Host a) <= 254)%nat).
Proof.
  unfold Validate. destruct (beq _ AtypIPv4) eqn:E1.
  { apply beq_true in E1. destruct (To4 (IP a)) eqn:E; [|done]. intros _. left.
    eauto using To4_length. }
  destruct (beq _ AtypIPv6) eqn:E2.
  { apply beq_true in E2. destruct (To16 (IP a)) eqn:E; [|done]. intros _. right; left.
    eauto using To16_length. }
  destruct (beq _ AtypDomain) eqn:E3; [|done]. apply beq_true in E3. intros H. right; right.
  split; [done|]. destruct (ParseIP (Host a)) eqn:E.
  { destruct (Host a) as [|c h] eqn:Eh; [done|]. rewrite <-Eh in *.
    apply ParseIP_spec in E as [_ ?]. rewrite Eh in *. simpl in *. lia. }
  case_hyp H; [done|]. apply orb_false_iff in E0 as [Hlo Hhi].
  apply bool_decide_eq_false in Hlo, Hhi.
  pose proof (TrimSuffix_length_ge (Host a) (bs ".")) as H1.
  pose proof (TrimSuffix_length (Host a) (bs ".")) as H2.
  change (length (bs ".")) with 1%nat in H1. lia.
Qed.

Lemma wire_form_valid a : valid_address a -> valid_address (wire_form a).
Proof.
  intros [Hv Hp]. split; [|unfold wire_form; by repeat case_match].
  destruct (Validate_cases a Hv) as [(E & v & H4 & Hl)|[(E & v & H6 & Hl)|(E & _)]];
    unfold wire_form, Validate in *; rewrite E in *; cbn -[ParseIP] in *.
  - by rewrite H4; cbn; rewrite To4_four.
  - by rewrite H6; cbn; rewrite To16_sixteen.
  - done.
Qed.

(** What an encoded address looks like, in each of the three shapes. *)
Lemma Encode_cases a b : valid_address a ->
  (exists v4, wire_form a = mkAddress AtypIPv4 [] v4 (Port a) /\ length v4 = 4%nat /\
     Encode a b = b ++ [AtypIPv4] ++ v4 ++ be16 (Port a)) \/
  (exists v6, wire_form a = mkAddress AtypIPv6 [] v6 (Port a) /\ length v6 = 16%nat /\
     Encode a b = b ++ [AtypIPv6] ++ v6 ++ be16 (Port a)) \/
  (exists h n, wire_form a = mkAddress AtypDomain h [] (Port a) /\ (length h <= 254)%nat /\
     Z.to_nat (b2z n) = length h /\
     Encode a b = b ++ [AtypDomain] ++ [n] ++ h ++ be16 (Port a)).
Proof.
  intros [Hv _]. destruct (Validate_cases a Hv) as [(E & v & H4 & Hl)|[(E & v & H6 & Hl)|(E & Hl)]];
    unfold wire_form, Encode; rewrite E; cbn.
  - left. exists v. by rewrite H4.
  - right; left. exists v. by rewrite H6.
  - right; right. exists (Host a), (z2b (Z.of_nat (length (Host a)))).
    rewrite b2z_z2b_small by lia. split; [done|]. split; [lia|]. split; [lia|done].
Qed.

(** An address takes at most 258 bytes on the wire. *)
Lemma Encode_length a b : valid_address a ->
  (length b + 6 <= length (Encode a b) + 2 /\ length (Encode a b) <= length b + 258)%nat.
Proof.
  intros Ha. destruct (Encode_cases a b Ha)
    as [(v & _ & Hl & ->)|[(v & _ & Hl & ->)|(h & n & _ & Hl & _ & ->)]];
    rewrite ?length_app; simpl; lia.
Qed.

Lemma validated_wire_form a : valid_address a -> validated (wire_form a) = Ok (wire_form a).
Proof. intros Ha. unfold validated. by rewrite (va_valid _ (wire_form_valid _ Ha)). Qed.

Lemma Port_roundtrip a rest : valid_address a -> get_be16 (be16 (Port a) ++ rest) = Port a.
Proof. intros [_ Hp]. by apply get_be16_be16. Qed.

(** Decide the address-type tests of a decoder applied to a known type byte. *)
Ltac atyp_cases :=
  repeat match goal with
  | |- context [byte0 [?b]] => change (byte0 [b]) with b
  | |- context [beq AtypIPv6 AtypIPv4] => change (beq AtypIPv6 AtypIPv4) with false
  | |- context [beq AtypDomain AtypIPv4] => change (beq AtypDomain AtypIPv4) with false
  | |- context [beq AtypDomain AtypIPv6] => change (beq AtypDomain AtypIPv6) with false
  | |- context [beq AtypIPv4 AtypDomain] => change (beq AtypIPv4 AtypDomain) with false
  | |- context [beq AtypIPv6 AtypDomain] => change (beq AtypIPv6 AtypDomain) with false
  | |- context [beq ?a ?a] => rewrite (beq_refl a)
  end; cbv iota.

(** Reading back an encoded address, whatever follows it on the stream. *)
Lemma ReadAddress_Encode a rest e : valid_address a ->
  ReadAddress (Reader (Encode a [] ++ rest) e) = (Ok (wire_form a), Reader rest e).
Proof.
  intros Ha. pose proof (validated_wire_form a Ha) as Hval.
  pose proof (Port_roundtrip a [] Ha) as Hport. rewrite app_nil_r in Hport.
  unfold ReadAddress.
  destruct (Encode_cases a [] Ha)
    as [(v & Ew & Hl & ->)|[(v & Ew & Hl & ->)|(h & n & Ew & Hl & Hn & ->)]];
    rewrite Ew in *; rewrite app_nil_l, <-!app_assoc;
    rewrite ReadFull_bind by done; atyp_cases.
  - erewrite rd_bind_eq by (rewrite ReadFull_bind by done; reflexivity).
    rewrite ReadFull_bind by done. unfold rd_lift, with_port. cbn [Atyp Host IP]. by rewrite Hport, Hval.
  - erewrite rd_bind_eq by (rewrite ReadFull_bind by done; reflexivity).
    rewrite ReadFull_bind by done. unfold rd_lift, with_port. cbn [Atyp Host IP]. by rewrite Hport, Hval.
  - erewrite rd_bind_eq by (do 2 rewrite ReadFull_bind by done; reflexivity).
    rewrite ReadFull_bind by done. unfold rd_lift, with_port. cbn [Atyp Host IP]. by rewrite Hport, Hval.
Qed.

(** ** The two decoders agree *)

(** Reading [n] body bytes and the port from a stream: both are there, or the
    read fails. *)
Lemma read_body_port n (mk : bytes -> Address) l e :
  let m := (a ← (buf ← ReadFull n; mret (mk buf) : rd Address);
            port ← ReadFull 2; rd_lift (validated (with_port a (get_be16 port)))) : rd Address in
  ((n + 2 <= length l)%nat ->
     m (Reader l e) = (validated (with_port (mk (take n l)) (get_be16 (take 2 (drop n l)))),
                       Reader (drop (n + 2) l) e)) /\
  ((length l < n + 2)%nat -> exists e' r, m (Reader l e) = (Err e', r)).
Proof.
  intros m. split; intros Hl.
  - rewrite <-(take_drop n l) at 1. rewrite <-(take_drop 2 (drop n l)) at 1. unfold m.
    erewrite rd_bind_eq by (rewrite ReadFull_bind by len; reflexivity).
    rewrite ReadFull_bind by len. unfold rd_lift. by rewrite drop_drop.
  - unfold m. destruct (decide (n <= length l)%nat) as [Hn|Hn].
    + rewrite <-(take_drop n l).
      erewrite rd_bind_eq by (rewrite ReadFull_bind by len; reflexivity).
      unfold mbind, rd_bind. rewrite ReadFull_short by (cbn [rd_data]; len). eauto.
    + unfold mbind, rd_bind. rewrite ReadFull_short by (simpl; lia). eauto.
Qed.

Lemma validated_Ok a a' : validated a = Ok a' <-> Validate a = None /\ a' = a.
Proof. unfold validated. destruct (Validate a); naive_solver. Qed.

(** Both decoders end with the port and the validity check. *)
Ltac decode_finish Hok :=
  rewrite Hok by (simpl in *; lia); unfold validated; cbn [drop Nat.add take];
  destruct (Validate _); [eauto | split; [simpl in *; lia | done]].

(** The buffer decoder [decodeAddress] accepts exactly what the stream decoder
    [ReadAddress] accepts, yields the same address, and reports as consumed
    exactly the bytes the stream decoder takes. *)
Lemma decode_read_agree buf e :
  match decodeAddress buf with
  | Ok (a, n) => (n <= length buf)%nat /\
                 ReadAddress (Reader buf e) = (Ok a, Reader (drop n buf) e)
  | Err _ => exists e' r, ReadAddress (Reader buf e) = (Err e', r)
  end.
Proof.
  destruct buf as [|t l].
  { unfold decodeAddress, ReadAddress, mbind, rd_bind, ReadFull. simpl. eauto. }
  unfold decodeAddress.
  pose proof (ReadFull_bind (B:=Address) [t] l e 1) as Hhd. cbn [app] in Hhd.
  unfold ReadAddress. rewrite Hhd by done. change (byte0 [t]) with t. clear Hhd.
  destruct (beq t AtypIPv4) eqn:E4.
  { destruct (read_body_port 4 (fun b => mkAddress t [] b 0) l e) as [Hok Hbad].
    case_bool_decide; [apply Hbad; simpl in *; lia|]. decode_finish Hok. }
  destruct (beq t AtypIPv6) eqn:E6.
  { destruct (read_body_port 16 (fun b => mkAddress t [] b 0) l e) as [Hok Hbad].
    case_bool_decide; [apply Hbad; simpl in *; lia|]. decode_finish Hok. }
  destruct (beq t AtypDomain) eqn:E3; [|unfold mbind, rd_bind, rd_fail; eauto].
  destruct l as [|dl l].
  { rewrite bool_decide_eq_true_2 by (simpl; lia). unfold mbind, rd_bind. rewrite ReadFull_short by (simpl; lia). eauto. }
  rewrite bool_decide_eq_false_2 by (simpl; lia). change (byte0 (drop 1 (t :: dl :: l))) with dl.
  destruct (read_body_port (Z.to_nat (b2z dl)) (fun b => mkAddress t b [] 0) l e) as [Hok Hbad].
  assert (forall k : Address -> rd Address,
    ((l0 ← ReadFull 1; buf ← ReadFull (Z.to_nat (b2z (byte0 l0))); mret (mkAddress t buf [] 0) : rd Address) ≫= k)
      (Reader (dl :: l) e) =
    ((buf ← ReadFull (Z.to_nat (b2z dl)); mret (mkAddress t buf [] 0) : rd Address) ≫= k) (Reader l e)) as Hdl.
  { intros k. unfold mbind, rd_bind. change (dl :: l) with ([dl] ++ l).
    by rewrite ReadFull_app by done. }
  rewrite Hdl. case_bool_decide; [apply Hbad; simpl in *; lia|]. decode_finish Hok.
Qed.

(** ** Decoded addresses are valid, in wire form, and re-encode to their bytes *)

Lemma Encode_app a b : Encode a b = b ++ Encode a [].
Proof. done. Qed.

Lemma ReadFull_1 r p r' : ReadFull 1 r = (Ok p, r') ->
  exists b, p = [b] /\ rd_data r = b :: rd_data r' /\ rd_end r' = rd_end r.
Proof. intros (Hl & Hd & He)%ReadFull_Ok. apply length_1 in Hl as [b ->]. eauto. Qed.

Lemma ReadFull_2 r p r' : ReadFull 2 r = (Ok p, r') ->
  exists b c, p = [b; c] /\ rd_data r = b :: c :: rd_data r' /\ rd_end r' = rd_end r.
Proof. intros (Hl & Hd & He)%ReadFull_Ok. apply length_2 in Hl as (b & c & ->). eauto. Qed.

(** A successful stream read consumed exactly the canonical encoding of the
    address it returned. *)
Lemma ReadAddress_sound r a r' : ReadAddress r = (Ok a, r') ->
  valid_address a /\ wire_form a = a /\ rd_data r = Encode a [] ++ rd_data r' /\ rd_end r' = rd_end r.
Proof.
  intros (t & r1 & H1 & H)%rd_bind_Ok. apply ReadFull_1 in H1 as (b & -> & Hd1 & He1).
  change (byte0 [b]) with b in H.
  apply rd_bind_Ok in H as (a0 & r2 & Hbody & H).
  apply rd_bind_Ok in H as (port & r3 & H2 & H). apply ReadFull_2 in H2 as (hi & lo & -> & Hd2 & He2).
  unfold rd_lift in H. injection H as H <-. apply validated_Ok in H as [Hval ->].
  pose proof (get_be16_range [hi; lo]) as Hport. pose proof (be16_get_be16 hi lo) as Hbe.
  remember (get_be16 [hi; lo]) as p eqn:Ep. clear Ep.
  rewrite Hd1. assert (rd_end r3 = rd_end r2) by done.
  destruct (beq b AtypIPv4) eqn:E4; [|destruct (beq b AtypIPv6) eqn:E6; [|destruct (beq b AtypDomain) eqn:E3]].
  - apply beq_true in E4 as ->. apply rd_bind_Ok in Hbody as (v & r4 & Hv & [= <- <-]).
    apply ReadFull_Ok in Hv as (Hl & Hd4 & He4). split; [constructor; [exact Hval|exact Hport]|].
    unfold wire_form, Encode, with_port. cbn [Atyp IP Host Port]. atyp_cases.
    rewrite To4_four by done. cbn [default app]. rewrite Hbe, Hd4, Hd2, <-app_assoc. repeat split; congruence.
  - apply beq_true in E6 as ->. apply rd_bind_Ok in Hbody as (v & r4 & Hv & [= <- <-]).
    apply ReadFull_Ok in Hv as (Hl & Hd4 & He4). split; [constructor; [exact Hval|exact Hport]|].
    unfold wire_form, Encode, with_port. cbn [Atyp IP Host Port]. atyp_cases.
    rewrite To16_sixteen by done. cbn [default app]. rewrite Hbe, Hd4, Hd2, <-app_assoc. repeat split; congruence.
  - apply beq_true in E3 as ->. apply rd_bind_Ok in Hbody as (l & r4 & Hl & Hbody).
    apply ReadFull_1 in Hl as (n & -> & Hd4 & He4). change (byte0 [n]) with n in Hbody.
    apply rd_bind_Ok in Hbody as (v & r5 & Hv & [= <- <-]).
    apply ReadFull_Ok in Hv as (Hl & Hd5 & He5). split; [constructor; [exact Hval|exact Hport]|].
    unfold wire_form, Encode, with_port. cbn [Atyp IP Host Port]. atyp_cases. cbn [app].
    rewrite Hbe, Hd4, Hd5, Hd2, <-app_assoc, Hl. pose proof (b2z_range n).
    rewrite Z2Nat.id, z2b_b2z by lia. repeat split; congruence.
  - done.
Qed.

Lemma decodeAddress_sound buf a n : decodeAddress buf = Ok (a, n) ->
  valid_address a /\ wire_form a = a /\ buf = Encode a [] ++ drop n buf /\ n = length (Encode a []).
Proof.
  intros E. pose proof (decode_read_agree buf EOF) as H. rewrite E in H. destruct H as [Hn H].
  apply ReadAddress_sound in H as (Hv & Hw & Hd & _). cbn [rd_data] in Hd.
  split; [done|]. split; [done|]. split; [done|].
  apply (f_equal length) in Hd. len.
Qed.

Lemma decodeAddress_Encode a rest : valid_address a ->
  decodeAddress (Encode a [] ++ rest) = Ok (wire_form a, length (Encode a [])).
Proof.
  intros Ha. pose proof (decode_read_agree (Encode a [] ++ rest) EOF) as H.
  rewrite ReadAddress_Encode in H by done.
  destruct (decodeAddress _) as [[a' n]|e]; [|naive_solver].
  destruct H as [Hn H]. injection H as <- Hd. f_equal. f_equal.
  apply (f_equal length) in Hd. len.
Qed.

(** The address printed for dialling and for flow keys does not depend on the
    trip over the wire. *)
Lemma wire_form_String a : valid_address a -> Address_String (wire_form a) = Address_String a.
Proof.
  intros [Hv _]. unfold Address_String.
  destruct (Validate_cases a Hv) as [(E & v & Hx & _)|[(E & v & Hx & _)|(E & _)]];
    unfold wire_form; rewrite E; atyp_cases; cbn [Atyp Host IP Port]; rewrite ?E; atyp_cases; try done;
    rewrite Hx; cbn [default from_option id].
  - by rewrite (IP_String_To4 _ _ Hx).
  - by rewrite (IP_String_To16 _ _ Hx).
Qed.

(** ** The datagram envelope *)

Lemma EncodeDatagram_eq sid a payload :
  EncodeDatagram sid a payload = [Version] ++ AppendUvarint [] sid ++ Encode a [] ++ payload.
Proof.
  unfold EncodeDatagram. rewrite Encode_app. unfold AppendUvarint.
  by rewrite app_nil_l, <-!app_assoc.
Qed.

(** The envelope of a validated address adds at most 269 bytes: a payload within
    the limit always fits [MaxUDPDatagramSize]. *)
Lemma EncodeDatagram_length sid a payload : valid_address a ->
  (length payload + 6 <= length (EncodeDatagram sid a payload) <= length payload + 269)%nat.
Proof.
  intros Ha. rewrite EncodeDatagram_eq. pose proof (Encode_length a [] Ha).
  pose proof (AppendUvarint_length sid). len.
Qed.

(** Everything after the size checks of [DecodeDatagram], on a well-formed
    envelope. *)
Lemma DecodeDatagram_body sid a payload : 0 <= sid < 2 ^ 64 -> valid_address a ->
  (length (EncodeDatagram sid a payload) <= MaxUDPDatagramSize)%nat ->
  DecodeDatagram (EncodeDatagram sid a payload) =
    if bool_decide (MaxUDPPayload < length payload)%nat
    then Err (ErrNew "protocol: UDP payload too large")
    else Ok (mkDatagram sid (wire_form a) payload).
Proof.
  intros Hsid Ha Hsize. pose proof (EncodeDatagram_length sid a payload Ha) as Hlen.
  unfold DecodeDatagram. rewrite (bool_decide_eq_false_2 (length _ < 2)%nat) by lia.
  rewrite (bool_decide_eq_false_2 (MaxUDPDatagramSize < _)%nat) by lia.
  clear Hsize Hlen. rewrite EncodeDatagram_eq.
  change (byte0 ([Version] ++ ?l)) with Version. rewrite beq_refl. cbn [orb negb].
  change (drop 1 ([Version] ++ ?l)) with l at 1. rewrite Uvarint_AppendUvarint by done.
  pose proof (AppendUvarint_length sid) as Hu.
  rewrite (proj2 (Z.leb_gt _ 0)) by lia. rewrite Nat2Z.id.
  set (hdr := [Version] ++ AppendUvarint [] sid).
  assert (length hdr = 1 + length (AppendUvarint [] sid))%nat as Hhdr by done.
  rewrite <-Hhdr. rewrite app_assoc. fold hdr. rewrite drop_app_length.
  rewrite decodeAddress_Encode by done. cbn [mbind res_bind].
  rewrite app_assoc, drop_app_length' by len.
  replace (length ((hdr ++ Encode a []) ++ payload) - (length hdr + length (Encode a [])))%nat
    with (length payload) by len. done.
Qed.

Lemma EncodeDatagram_sound buf d : DecodeDatagram buf = Ok d ->
  0 <= SessionID d < 2 ^ 64 /\ valid_address (DgAddr d) /\ wire_form (DgAddr d) = DgAddr d /\
  (length (Payload d) <= MaxUDPPayload)%nat /\ (length buf <= MaxUDPDatagramSize)%nat /\
  (length (EncodeDatagram (SessionID d) (DgAddr d) (Payload d)) <= length buf)%nat.
Proof.
  unfold DecodeDatagram. case_match eqn:Ehdr; [done|]. bool_props.
  destruct (Uvarint (drop 1 buf)) as [sid n] eqn:Eu. destruct (Z.leb_spec n 0); [done|].
  intros ([a used] & Ea & E)%bind_Ok. case_bool_decide as Hp; [done|]. injection E as <-.
  cbn [SessionID DgAddr Payload].
  pose proof (AppendUvarint_minimal _ _ _ Eu ltac:(lia)) as Hmin.
  apply Uvarint_bound in Eu as (? & ? & ? & Hn); [|lia]. rewrite length_drop in Hn.
  apply decodeAddress_sound in Ea as (Hv & Hw & Hd & ->).
  apply (f_equal length) in Hd. rewrite length_app, !length_drop in Hd.
  pose proof (Encode_length a [] Hv).
  split; [lia|]. split; [done|]. split; [done|]. rewrite length_drop.
  split; [lia|]. split; [unfold MaxUDPDatagramSize in *; lia|].
  rewrite EncodeDatagram_eq. len.
Qed.

(** ** Streams *)

Lemma ReadStreamRequest_bytes rq rest e : valid_address (Addr rq) ->
  ReadStreamRequest (Reader (request_bytes rq ++ rest) e) =
    (Ok (mkStreamRequest (Cmd rq) (Flags rq) (wire_form (Addr rq))), Reader rest e).
Proof.
  intros Ha. unfold ReadStreamRequest, request_bytes. rewrite Encode_app, <-app_assoc.
  rewrite ReadFull_bind by done. cbn [lookup list_lookup default from_option id].
  rewrite beq_refl. cbn [negb]. erewrite rd_bind_eq by (by apply ReadAddress_Encode). done.
Qed.

Lemma ReadStreamRequest_sound r rq r' : ReadStreamRequest r = (Ok rq, r') ->
  valid_address (Addr rq) /\ wire_form (Addr rq) = Addr rq /\
  rd_data r = request_bytes rq ++ rd_data r' /\ rd_end r' = rd_end r.
Proof.
  intros (hdr & r1 & H1 & H)%rd_bind_Ok. apply ReadFull_Ok in H1 as (Hl & Hd & He).
  apply length_3 in Hl as (v & c & f & ->). cbn [lookup list_lookup default from_option id] in H.
  case_hyp H; [done|]. bool_props. apply beq_true in E as ->.
  apply rd_bind_Ok in H as (a & r2 & H2 & [= <- <-]).
  apply ReadAddress_sound in H2 as (Hv & Hw & Hd2 & He2). cbn [Addr].
  split; [done|]. split; [done|]. unfold request_bytes. cbn [Addr Cmd Flags].
  rewrite Encode_app, <-app_assoc, <-Hd2. split; congruence.
Qed.

(** ** Text *)

Lemma ParseAddress_sound s a : ParseAddress s = Ok a -> valid_address a /\ wire_form a = a.
Proof.
  unfold ParseAddress. intros ([host port] & _ & H)%bind_Ok.
  destruct (ParseUint port 16) as [p|] eqn:Ep; [|done]. apply ParseUint_range in Ep.
  destruct (ParseIP host) as [ip|] eqn:Eip.
  - apply ParseIP_spec in Eip as [Hip _]. destruct (To4 ip) as [v|] eqn:E4.
    + apply To4_length in E4. apply validated_Ok in H as [Hv ->]. split; [by split|].
      unfold wire_form. cbn [Atyp IP Port]. atyp_cases. by rewrite To4_four.
    + rewrite To16_sixteen in H by done. apply validated_Ok in H as [Hv ->]. split; [by split|].
      unfold wire_form. cbn [Atyp IP Port]. atyp_cases. cbn [default from_option id].
      by rewrite To16_sixteen.
  - case_bool_decide; [done|]. apply validated_Ok in H as [Hv ->]. split; [by split|done].
Qed.

(** Splitting a printed endpoint and reading its port back. *)
Lemma ParseAddress_join host p : 0 <= p < 65536 ->
  ContainsByte host (ch "[") = false -> ContainsByte host (ch "]") = false ->
  ParseAddress (JoinHostPort host (Itoa p)) =
    match ParseIP host with
    | Some ip =>
        match To4 ip with
        | Some v4 => validated (mkAddress AtypIPv4 [] v4 p)
        | None => validated (mkAddress AtypIPv6 [] (default [] (To16 ip)) p)
        end
    | None =>
        if bool_decide (255 < length host)%nat
        then Err (ErrNew "protocol: domain name too long")
        else validated (mkAddress AtypDomain host [] p)
    end.
Proof.
  intros Hp Hl Hr. unfold ParseAddress. destruct (Itoa_spec p) as (_ & Hd & _); [lia|].
  rewrite SplitHostPort_JoinHostPort by done. cbn [mbind res_bind].
  by rewrite ParseUint_Itoa by lia.
Qed.

(** A validated IPv4 address in wire form holds its four bytes. *)
Lemma wire_v4 a : valid_address a -> wire_form a = a -> Atyp a = AtypIPv4 ->
  exists v, IP a = v /\ length v = 4%nat /\ a = mkAddress AtypIPv4 [] v (Port a).
Proof.
  intros [Hv Hp] Hw E. unfold wire_form in Hw. rewrite E in Hw. revert Hw. atyp_cases. intros Hw.
  unfold Validate in Hv. rewrite E in Hv. revert Hv. atyp_cases. intros Hv.
  destruct (To4 (IP a)) as [v|] eqn:E4; [|done]. apply To4_length in E4.
  cbn in Hw. exists v. rewrite <-Hw. done.
Qed.

Lemma ParseAddress_String_v4 a : valid_address a -> wire_form a = a -> Atyp a = AtypIPv4 ->
  ParseAddress (Address_String a) = Ok a.
Proof.
  intros [Hv Hp] Hw E. unfold Address_String. rewrite E. atyp_cases.
  destruct (wire_v4 a) as (v & -> & Hl & Ea); [done..|].
  rewrite (IP_String_v4 v v) by (by apply To4_four).
  pose proof (ipv4_string_chars v Hl) as Hc.
  rewrite ParseAddress_join by (lia || by eapply forallb_not_contains).
  rewrite ParseIP_v4_string, To4_mapped, <-Ea by done. unfold validated. by rewrite Hv.
Qed.

(** The characters of a validated name that is not an IP literal. *)
Lemma domain_chars a : Validate a = None -> Atyp a = AtypDomain -> ParseIP (Host a) = None ->
  forallb (fun c => label_char c || beq c (ch ".")) (Host a) = true.
Proof.
  unfold Validate. intros H E Hip. rewrite E, Hip in H. revert H. atyp_cases.
  case_match; [done|]. destruct (existsb _ _) eqn:Eb; [done|]. intros _.
  assert (forallb (fun c => label_char c || beq c (ch ".")) (TrimSuffix (Host a) (bs ".")) = true) as Ht.
  { apply Split_chars. intros piece Hin. rewrite <-not_true_iff_false, existsb_exists in Eb.
    destruct (forallb label_char piece) eqn:Ef; [done|]. exfalso. apply Eb. exists piece.
    split; [by apply list_elem_of_In|]. unfold bad_label. by rewrite Ef, !orb_true_r. }
  destruct (TrimSuffix_cases (Host a) (bs ".")) as [-> | ->]; [done|].
  by rewrite forallb_app, Ht.
Qed.

Lemma ParseAddress_String_domain a : valid_address a -> wire_form a = a -> Atyp a = AtypDomain ->
  ParseIP (Host a) = None -> ParseAddress (Address_String a) = Ok a.
Proof.
  intros [Hv Hp] Hw E Hip. unfold Address_String. rewrite E. atyp_cases.
  pose proof (domain_chars a Hv E Hip) as Hc.
  rewrite ParseAddress_join by (lia || by eapply forallb_not_contains). rewrite Hip.
  destruct (Validate_cases a Hv) as [(E' & _)|[(E' & _)|(_ & Hl)]]; [by rewrite E in E'..|].
  rewrite bool_decide_eq_false_2 by lia.
  assert (mkAddress AtypDomain (Host a) [] (Port a) = a) as ->.
  { unfold wire_form in Hw. rewrite E in Hw. revert Hw. by atyp_cases. }
  unfold validated. by rewrite Hv.
Qed.

(** * Properties *)

(** C36: an address that passes [Validate] survives the wire: whatever follows it
    on the stream, [ReadAddress] reads back its wire form (IPv4 as four bytes,
    IPv6 as sixteen, a name unchanged), leaves the rest of the stream untouched,
    and the decoded address prints the same [host:port]. *)
Theorem address_roundtrip a rest e : valid_address a ->
  ReadAddress (Reader (Encode a [] ++ rest) e) = (Ok (wire_form a), Reader rest e) /\
  Address_String (wire_form a) = Address_String a.
Proof. intros Ha. split; [by apply ReadAddress_Encode|by apply wire_form_String]. Qed.

(** The buffer decoder used for datagrams and the stream decoder are the same
    function: [decodeAddress] succeeds with [n] bytes consumed exactly when
    [ReadAddress] succeeds with the same address and leaves the bytes after [n]. *)
Theorem decoders_agree buf a n :
  decodeAddress buf = Ok (a, n) <->
  (n <= length buf)%nat /\ ReadAddress (Reader buf EOF) = (Ok a, Reader (drop n buf) EOF).
Proof.
  pose proof (decode_read_agree buf EOF) as H. split.
  - intros E. by rewrite E in H.
  - intros [Hn E]. rewrite E in H. destruct (decodeAddress buf) as [[a' n']|]; [|naive_solver].
    destruct H as [Hn' H]. injection H as <- Hd. do 2 f_equal.
    apply (f_equal length) in Hd. len.
Qed.

(** A stream request is written in full or not at all when its address is
    invalid, and reads back with the same command, flags and (wire form of the)
    address; no strict prefix of its bytes reads as a request. *)
Theorem request_roundtrip rq n err w' : WriteTo rq (Writer [] []) = (n, err, w') ->
  0 <= Port (Addr rq) < 65536 ->
  match Validate (Addr rq) with
  | Some e => err = Some e /\ n = 0%nat /\ wr_out w' = []
  | None =>
      err = None /\
      ReadStreamRequest (Reader (wr_out w') EOF) =
        (Ok (mkStreamRequest (Cmd rq) (Flags rq) (wire_form (Addr rq))), Reader [] EOF) /\
      forall p q r, wr_out w' = p ++ q -> q <> [] ->
        is_ok (fst (ReadStreamRequest (Reader p r))) = false
  end.
Proof.
  unfold WriteTo. destruct (Validate (Addr rq)) eqn:E; intros H Hp; [naive_solver|].
  assert (valid_address (Addr rq)) as Ha by done.
  rewrite write_checked_good in H. injection H as <- <- <-. split; [done|].
  cbn [wr_out app]. split; [by rewrite <-(app_nil_r (request_bytes rq)), ReadStreamRequest_bytes|].
  intros p q r Epq Hq. destruct (ReadStreamRequest (Reader p r)) as [[rq'|] r'] eqn:Er; [|done].
  exfalso. apply ReadStreamRequest_sound in Er as (Hv & Hw & Hd & _). cbn [rd_data] in Hd.
  pose proof (ReadStreamRequest_bytes rq [] EOF Ha) as H1. rewrite app_nil_r, Epq, Hd, <-app_assoc in H1.
  rewrite ReadStreamRequest_bytes in H1 by done. injection H1 as _ _ _ H1.
  apply app_eq_nil in H1 as [_ ?]. done.
Qed.

(** The UDP envelope.  For a uint64 session and a validated address, the
    datagram decodes to what was encoded exactly when the payload is within
    [MaxUDPPayload]; such a payload never exceeds [MaxUDPDatagramSize]. *)
Theorem datagram_roundtrip sid a payload : 0 <= sid < 2 ^ 64 -> valid_address a ->
  if bool_decide (length payload <= MaxUDPPayload)%nat
  then DecodeDatagram (EncodeDatagram sid a payload) = Ok (mkDatagram sid (wire_form a) payload) /\
       (length (EncodeDatagram sid a payload) <= MaxUDPDatagramSize)%nat
  else is_ok (DecodeDatagram (EncodeDatagram sid a payload)) = false.
Proof.
  intros Hs Ha. pose proof (EncodeDatagram_length sid a payload Ha) as Hlen.
  case_bool_decide as Hp; unfold MaxUDPPayload in Hp.
  - assert (length (EncodeDatagram sid a payload) <= MaxUDPDatagramSize)%nat as Hsz
      by (unfold MaxUDPDatagramSize; lia).
    rewrite DecodeDatagram_body, bool_decide_eq_false_2 by (unfold MaxUDPPayload; lia || done). done.
  - destruct (decide (length (EncodeDatagram sid a payload) <= MaxUDPDatagramSize)%nat) as [Hsz|Hsz].
    + by rewrite DecodeDatagram_body, bool_decide_eq_true_2 by (unfold MaxUDPPayload; lia || done).
    + unfold DecodeDatagram.
      rewrite (bool_decide_eq_true_2 (MaxUDPDatagramSize < _)%nat), orb_true_r by lia. done.
Qed.

(** Every accepted datagram, overlong session varints included, re-encodes to
    a datagram of at most the same size that is accepted with the same content. *)
Theorem datagram_reencode buf d : DecodeDatagram buf = Ok d ->
  DecodeDatagram (EncodeDatagram (SessionID d) (DgAddr d) (Payload d)) = Ok d /\
  (length (EncodeDatagram (SessionID d) (DgAddr d) (Payload d)) <= length buf)%nat.
Proof.
  intros (Hs & Ha & Hw & Hp & Hb & Hl)%EncodeDatagram_sound. split; [|done].
  rewrite DecodeDatagram_body, bool_decide_eq_false_2, Hw; [by destruct d|lia|done|done|lia].
Qed.

(** The textual form.  Every address [ParseAddress] returns is valid and
    already in wire form; and parsing the [host:port] text of an address in wire
    form gives the address back, for IPv4 and for names that are not IP literals. *)
Theorem parse_print_address :
  (forall s a, ParseAddress s = Ok a -> valid_address a /\ wire_form a = a) /\
  (forall a, valid_address a -> wire_form a = a ->
     Atyp a = AtypIPv4 \/ (Atyp a = AtypDomain /\ ParseIP (Host a) = None) ->
     ParseAddress (Address_String a) = Ok a).
Proof.
  split; [exact ParseAddress_sound|]. intros a Ha Hw [E|[E Hip]].
  - by apply ParseAddress_String_v4.
  - by apply ParseAddress_String_domain.
Qed.

(** ** The properties at concrete inputs *)

Definition example_v4 : Address :=
  mkAddress AtypIPv4 [] (v4InV6Prefix ++ [Byte.x7f; Byte.x00; Byte.x00; Byte.x01]) 53.
Definition example_name : Address := mkAddress AtypDomain (bs "example.com.") [] 443.

Lemma example_v4_valid : valid_address example_v4.
Proof. split; [vm_compute; reflexivity|cbn; lia]. Qed.
Lemma example_name_valid : valid_address example_name.
Proof. split; [vm_compute; reflexivity|cbn; lia]. Qed.

Lemma address_roundtrip_witness :
  ReadAddress (Reader (Encode example_v4 [] ++ [Byte.x2a]) EOF) =
    (Ok (wire_form example_v4), Reader [Byte.x2a] EOF) /\
  Address_String (wire_form example_v4) = Address_String example_v4.
Proof. apply (address_roundtrip example_v4 [Byte.x2a] EOF). exact example_v4_valid. Defined.

Lemma request_roundtrip_witness :
  ReadStreamRequest (Reader (request_bytes (mkStreamRequest CmdTCPConnect FlagCompress example_name)) EOF) =
    (Ok (mkStreamRequest CmdTCPConnect FlagCompress example_name), Reader [] EOF).
Proof.
  pose proof (request_roundtrip (mkStreamRequest CmdTCPConnect FlagCompress example_name) _ _ _ eq_refl) as H.
  destruct H as (_ & H & _); [cbn; lia|exact H].
Defined.

Lemma datagram_roundtrip_witness :
  DecodeDatagram (EncodeDatagram 300 example_name [Byte.x2a]) = Ok (mkDatagram 300 example_name [Byte.x2a]) /\
  (length (EncodeDatagram 300 example_name [Byte.x2a]) <= MaxUDPDatagramSize)%nat.
Proof.
  apply (datagram_roundtrip 300 example_name [Byte.x2a]); [lia|exact example_name_valid].
Defined.

(** A session varint with a redundant group is accepted and shrinks. *)
Lemma datagram_reencode_witness :
  let buf := [Version; Byte.x81; Byte.x00; AtypIPv4; Byte.x7f; Byte.x00; Byte.x00; Byte.x01; Byte.x00; Byte.x35; Byte.x2a] in
  let d := mkDatagram 1 (wire_form example_v4) [Byte.x2a] in
  DecodeDatagram (EncodeDatagram (SessionID d) (DgAddr d) (Payload d)) = Ok d /\
  (length (EncodeDatagram (SessionID d) (DgAddr d) (Payload d)) <= length buf)%nat.
Proof. intros buf d. apply (datagram_reencode buf d). vm_compute. reflexivity. Defined.

(** What the sources' tests exercise: rejected texts and a version-1 request. *)
Example invalid_texts : map (fun s => is_ok (ParseAddress (bs s)))
  [":80"; "bad host:80"; "foo/bar:80"; "-foo.example:80"; "foo..bar:80"; "host:65536"]%string
  = replicate 6 false.
Proof. vm_compute. reflexivity. Qed.
Example valid_texts : map (fun s => is_ok (ParseAddress (bs s)))
  ["127.0.0.1:80"; "[::1]:443"; "example.com:53"; "example.com.:53"]%string = replicate 4 true.
Proof. vm_compute. reflexivity. Qed.
