(* ===== verification/Admission.v ===== *)
(** * Package admission: nonblocking resource budgets

    Models [internal/admission/budget.go].  [Budget] is the sequential view used
    by the callers, an interface [AdmissionLaws] states what it promises to them,
    and [Concurrent] refines it to the interleaved atomic actions of the code
    (channel send, observer callback, [sync.Once], channel receive). *)
From S2P Require Import Prelude.

(** ** The interface of a budget *)

(** A budget with its outstanding leases.  Leases are named by natural numbers,
    so a caller can hold one, release it, or release it again. *)
Class AdmissionOps (B : Type) := {
  ad_try : B -> option nat * B;          (* TryAcquire *)
  ad_release : option nat -> B -> B;     (* (l *Lease) Release, nil included *)
  ad_limit : B -> nat;
  ad_held : B -> gset nat;               (* leases not yet released *)
  ad_wf : B -> Prop;
}.

(** What the users of a budget rely on. *)
Class AdmissionLaws (B : Type) `{AdmissionOps B} := {
  ad_bound : forall b, ad_wf b -> (size (ad_held b) <= ad_limit b)%nat;
  ad_try_ok : forall b, ad_wf b -> (size (ad_held b) < ad_limit b)%nat ->
    exists l b', ad_try b = (Some l, b') /\ ad_wf b' /\ l ∉ ad_held b /\
      ad_held b' = {[l]} ∪ ad_held b /\ ad_limit b' = ad_limit b;
  ad_try_full : forall b, ad_wf b -> (ad_limit b <= size (ad_held b))%nat -> ad_try b = (None, b);
  ad_release_held : forall b l, ad_wf b -> l ∈ ad_held b ->
    ad_wf (ad_release (Some l) b) /\ ad_held (ad_release (Some l) b) = ad_held b ∖ {[l]} /\
    ad_limit (ad_release (Some l) b) = ad_limit b;
  ad_release_nil : forall b, ad_release None b = b;
  ad_release_gone : forall b l, ad_wf b -> l ∉ ad_held b -> ad_release (Some l) b = b;
}.

Section interface.
Context {B : Type} `{AdmissionLaws B}.

(** Either a fresh lease is granted, or the budget is full and unchanged. *)
Lemma ad_try_cases b r b' : ad_wf b -> ad_try b = (r, b') ->
  (exists l, r = Some l /\ ad_wf b' /\ l ∉ ad_held b /\ ad_held b' = {[l]} ∪ ad_held b /\
     ad_limit b' = ad_limit b /\ (size (ad_held b) < ad_limit b)%nat) \/
  (r = None /\ b' = b /\ size (ad_held b) = ad_limit b).
Proof.
  intros Hwf E. destruct (decide (size (ad_held b) < ad_limit b)%nat) as [Hlt|Hge].
  - destruct (ad_try_ok b Hwf Hlt) as (l & b1 & E1 & ?). left. exists l.
    rewrite E1 in E. injection E as <- <-. naive_solver.
  - right. rewrite ad_try_full in E by (done || lia). injection E as <- <-.
    pose proof (ad_bound b Hwf). repeat split; lia.
Qed.

(** Releasing the lease just granted gives back the same set of holders. *)
Lemma ad_release_granted b l b' : ad_wf b' -> l ∉ ad_held b -> ad_held b' = {[l]} ∪ ad_held b ->
  ad_wf (ad_release (Some l) b') /\ ad_held (ad_release (Some l) b') = ad_held b /\
  ad_limit (ad_release (Some l) b') = ad_limit b'.
Proof.
  intros Hwf Hl Hh. destruct (ad_release_held b' l Hwf ltac:(set_solver)) as (? & -> & ?).
  split; [done|]. split; [|done]. rewrite Hh. set_solver.
Qed.
(** An optional attempt: the budget stays well formed, the lease it gives is new, and
    releasing what was given restores the holders. *)
Lemma codec_try b wanted lease b1 : ad_wf b -> (if wanted : bool then ad_try b else (None, b)) = (lease, b1) ->
  ad_wf b1 /\ ad_limit b1 = ad_limit b /\
  match lease with
  | Some l => wanted = true /\ l ∉ ad_held b /\ ad_held b1 = {[l]} ∪ ad_held b
  | None => b1 = b /\ (wanted = true -> size (ad_held b) = ad_limit b)
  end /\
  ad_wf (ad_release lease b1) /\ ad_held (ad_release lease b1) = ad_held b.
Proof.
  intros Hwf. destruct wanted.
  - intros E. destruct (ad_try_cases b lease b1 Hwf E) as [(l & -> & Hw & Hl & Hh & Hlim & Hlt)|(-> & -> & Hf)].
    + destruct (ad_release_granted b l b1 Hw Hl Hh) as (? & ? & ?). split_and!; done.
    + rewrite ad_release_nil. split_and!; done.
  - intros [= <- <-]. rewrite ad_release_nil. split_and!; done.
Qed.
End interface.

(** ** budget.go, sequentially *)

(** [slots] is the buffered channel, of which only the capacity and the length
    matter; [observed] is the sum of the observer's arguments ([None] when the
    observer is nil); [leases] maps every lease handed out to its [once] flag. *)
Record Budget := mkBudget {
  limit : nat;
  slots : nat;
  observed : option Z;
  leases : gmap nat bool;
}.

Definition InUse (b : Budget) : nat := slots b.

(** [New]; a limit below one panics ([None]). *)
Definition New (lim : Z) (observe : bool) : option Budget :=
  if lim <? 1 then None
  else Some (mkBudget (Z.to_nat lim) 0 (if observe then Some 0 else None) ∅).

Definition observe (b : Budget) (d : Z) : option Z := (fun x => x + d) <$> observed b.

(** A name for the next lease. *)
Definition fresh_lease (b : Budget) : nat := fresh (dom (leases b)).

Definition TryAcquire (b : Budget) : option nat * Budget :=
  if bool_decide (slots b < limit b)%nat then
    let l := fresh_lease b in
    (Some l, mkBudget (limit b) (S (slots b)) (observe b 1) (<[l := false]> (leases b)))
  else (None, b).

(** [Release]: a nil lease does nothing, and [once] runs the body once. *)
Definition Release (l : option nat) (b : Budget) : Budget :=
  match l with
  | None => b
  | Some l =>
      match leases b !! l with
      | Some false =>
          mkBudget (limit b) (slots b - 1) (observe b (-1)) (<[l := true]> (leases b))
      | _ => b
      end
  end.

Definition held (b : Budget) : gset nat := dom (filter (fun kv => kv.2 = false) (leases b)).

(** Every slot belongs to one unreleased lease, and the gauge counts them. *)
Record budget_wf (b : Budget) : Prop := {
  bw_slots : slots b = size (held b);
  bw_limit : (slots b <= limit b)%nat;
  bw_gauge : forall g, observed b = Some g -> g = Z.of_nat (slots b);
}.

#[export] Instance Budget_ops : AdmissionOps Budget := {|
  ad_try := TryAcquire;
  ad_release := Release;
  ad_limit := limit;
  ad_held := held;
  ad_wf := budget_wf;
|}.

(** ** budget.go, interleaved

    A lease goes through the atomic actions of the code: the channel send of
    [TryAcquire], its observer call, then in [Release] the entry into [once], the
    channel receive and the second observer call. *)
Module Concurrent.

Inductive status := Sent | Held | Draining | Drained | Released.

Record state := mkState {
  cap : nat; chan : nat; gauge : Z; owners : gmap nat status;
}.

Definition init (lim : nat) : state := mkState lim 0 0 ∅.
Definition set_status (s : state) (l : nat) (st : status) : gmap nat status := <[l := st]> (owners s).

Inductive step : state -> state -> Prop :=
| step_send s l : owners s !! l = None -> (chan s < cap s)%nat ->
    step s (mkState (cap s) (S (chan s)) (gauge s) (set_status s l Sent))
| step_full s : (cap s <= chan s)%nat -> step s s
| step_observe s l : owners s !! l = Some Sent ->
    step s (mkState (cap s) (chan s) (gauge s + 1) (set_status s l Held))
| step_once s l : owners s !! l = Some Held ->
    step s (mkState (cap s) (chan s) (gauge s) (set_status s l Draining))
| step_receive s l n : owners s !! l = Some Draining -> chan s = S n ->
    step s (mkState (cap s) n (gauge s) (set_status s l Drained))
| step_unobserve s l : owners s !! l = Some Drained ->
    step s (mkState (cap s) (chan s) (gauge s - 1) (set_status s l Released))
| step_again s l st : owners s !! l = Some st -> st <> Sent -> st <> Held -> step s s.

(** Does a lease occupy a slot, and is it counted by the gauge? *)
Definition occupies (st : status) : bool :=
  match st with Sent | Held | Draining => true | _ => false end.
Definition counted (st : status) : bool :=
  match st with Held | Draining | Drained => true | _ => false end.
Definition is_held (st : status) : bool := match st with Held => true | _ => false end.

Record inv (s : state) : Prop := {
  inv_chan : chan s = mcount occupies (owners s);
  inv_cap : (chan s <= cap s)%nat;
  inv_gauge : gauge s = Z.of_nat (mcount counted (owners s));
}.

(** No call is in progress: every lease is held or fully released. *)
Definition quiescent (s : state) : Prop :=
  forall l st, owners s !! l = Some st -> st = Held \/ st = Released.

Lemma inv_init lim : inv (init lim).
Proof. split; cbn; rewrite ?mcount_empty; lia. Qed.

Lemma inv_step s s' : step s s' -> inv s -> inv s'.
Proof.
  intros Hs [H1 H2 H3]. destruct Hs; try done; split; cbn; unfold set_status;
    try (rewrite mcount_insert_new by done; cbn; lia); try lia;
    match goal with
    | H : owners _ !! _ = Some ?w |- context [mcount ?f (<[?l := ?v]> ?m)] =>
        pose proof (mcount_insert_old f m l v w H) as Hc; cbn in Hc; lia
    end.
Qed.

Lemma inv_reachable lim s : rtc step (init lim) s -> inv s.
Proof.
  intros Hr. remember (init lim) as s0. assert (inv s0) by (subst; apply inv_init). clear Heqs0.
  induction Hr; eauto using inv_step.
Qed.
End Concurrent.

(** ** The budget keeps its invariant and implements the interface *)

Lemma held_fresh b : fresh_lease b ∉ held b.
Proof.
  unfold held, fresh_lease. intros H. apply elem_of_dom in H as [v Hv].
  apply map_lookup_filter_Some in Hv as [Hv _].
  apply (is_fresh (dom (leases b))). apply elem_of_dom. eauto.
Qed.

Lemma elem_of_held b l : l ∈ held b <-> leases b !! l = Some false.
Proof.
  unfold held. rewrite elem_of_dom. split.
  - intros [v [Hv Hf]%map_lookup_filter_Some]. cbn in Hf. by subst.
  - intros Hl. exists false. by apply map_lookup_filter_Some.
Qed.

Lemma held_TryAcquire b : (slots b < limit b)%nat ->
  held (snd (TryAcquire b)) = {[fresh_lease b]} ∪ held b.
Proof.
  intros H. unfold TryAcquire. rewrite bool_decide_eq_true_2 by done. cbn.
  apply set_eq. intros l. rewrite elem_of_union, elem_of_singleton, !elem_of_held. cbn.
  destruct (decide (l = fresh_lease b)) as [->|Hne].
  - rewrite lookup_insert_eq. naive_solver.
  - rewrite lookup_insert_ne by done. naive_solver.
Qed.

Lemma held_Release b l : held (Release (Some l) b) = held b ∖ {[l]}.
Proof.
  apply set_eq. intros k. rewrite elem_of_difference, elem_of_singleton, !elem_of_held.
  unfold Release. destruct (leases b !! l) as [[]|] eqn:E; cbn.
  - split; [|naive_solver]. intros Hk. split; [done|]. congruence.
  - destruct (decide (k = l)) as [->|Hne].
    + rewrite lookup_insert_eq. naive_solver.
    + rewrite lookup_insert_ne by done. naive_solver.
  - split; [|naive_solver]. intros Hk. split; [done|]. congruence.
Qed.

Lemma New_wf lim o b : New lim o = Some b -> budget_wf b /\ held b = ∅ /\ limit b = Z.to_nat lim.
Proof.
  unfold New. destruct (Z.ltb_spec lim 1); [done|]. intros [= <-].
  assert (held (mkBudget (Z.to_nat lim) 0 (if o then Some 0 else None) ∅) = ∅) as Hh.
  { apply set_eq. intros l. rewrite elem_of_held. cbn. set_solver. }
  split; [|done]. split; rewrite ?Hh; cbn; [by rewrite size_empty|lia|].
  destruct o; naive_solver.
Qed.

Lemma TryAcquire_wf b : budget_wf b -> budget_wf (snd (TryAcquire b)).
Proof.
  intros [Hs Hl Hg]. destruct (decide (slots b < limit b)%nat) as [Hlt|Hge].
  - pose proof (held_TryAcquire b Hlt) as Hh. pose proof (held_fresh b).
    unfold TryAcquire in *. rewrite bool_decide_eq_true_2 in * by done. cbn in *. split; cbn.
    + rewrite Hh, size_union, size_singleton by set_solver. lia.
    + lia.
    + unfold observe. destruct (observed b) as [g|]; [|done]. cbn. intros ? [= <-].
      rewrite (Hg g) by done. lia.
  - unfold TryAcquire. by rewrite bool_decide_eq_false_2 by lia.
Qed.

Lemma Release_wf b l : budget_wf b -> budget_wf (Release l b).
Proof.
  intros [Hs Hl Hg]. destruct l as [l|]; [|done].
  destruct (leases b !! l) as [[]|] eqn:E; [unfold Release; rewrite E; done| |unfold Release; rewrite E; done].
  assert (l ∈ held b) as Hin by by apply elem_of_held.
  pose proof (held_Release b l) as Hh.
  assert (size (held b) = S (size (held b ∖ {[l]}))) as Hsz.
  { rewrite size_difference by set_solver. rewrite size_singleton.
    assert (size (held b) <> 0%nat); [|lia].
    intros Hz%size_empty_inv. set_solver. }
  unfold Release in *. rewrite E in *. split; cbn in *.
  - rewrite Hh. lia.
  - lia.
  - unfold observe. destruct (observed b) as [g|]; [|done]. cbn. intros ? [= <-].
    rewrite (Hg g) by done. lia.
Qed.

#[export] Instance Budget_laws : AdmissionLaws Budget.
Proof.
  split; cbn [ad_try ad_release ad_limit ad_held ad_wf Budget_ops].
  - intros b [Hs Hl _]. lia.
  - intros b Hwf Hlt. pose proof Hwf as [Hs _ _]. rewrite <-Hs in Hlt.
    pose proof (TryAcquire_wf b Hwf) as Hwf'. pose proof (held_TryAcquire b Hlt) as Hh.
    pose proof (held_fresh b). unfold TryAcquire in *. rewrite bool_decide_eq_true_2 in * by done.
    cbn in *. eauto 10.
  - intros b [Hs _ _] Hge. unfold TryAcquire. by rewrite bool_decide_eq_false_2 by lia.
  - intros b l Hwf Hin. split; [by apply Release_wf|]. split; [apply held_Release|].
    apply elem_of_held in Hin. unfold Release. by rewrite Hin.
  - done.
  - intros b l Hwf Hin. rewrite elem_of_held in Hin. unfold Release.
    destruct (leases b !! l) as [[]|]; naive_solver.
Qed.

(** * Properties *)

(** At every point of every interleaving of acquisitions and releases, the
    channel holds one slot per unfinished lease and never more than the limit, so
    at most [limit] leases are held; the receive in [Release] never blocks; and
    when no call is in progress the observer's gauge equals the leases held. *)
Theorem budget_interleaved lim s : rtc Concurrent.step (Concurrent.init lim) s ->
  (mcount Concurrent.is_held (Concurrent.owners s) <= lim)%nat /\
  (forall l, Concurrent.owners s !! l = Some Concurrent.Draining -> (0 < Concurrent.chan s)%nat) /\
  (Concurrent.quiescent s ->
     Concurrent.gauge s = Z.of_nat (mcount Concurrent.is_held (Concurrent.owners s)) /\
     Concurrent.chan s = mcount Concurrent.is_held (Concurrent.owners s)).
Proof.
  intros Hr. pose proof (Concurrent.inv_reachable _ _ Hr) as [H1 H2 H3].
  assert (Concurrent.cap s = lim) as Hcap.
  { clear -Hr. remember (Concurrent.init lim) as s0. assert (Concurrent.cap s0 = lim) by by subst.
    clear Heqs0. induction Hr as [|x y z Hs _ IH]; [done|]. apply IH. by destruct Hs. }
  split; [|split].
  - transitivity (Concurrent.chan s); [|lia]. rewrite H1. apply mcount_mono.
    intros k [] _; done.
  - intros l Hl. rewrite H1. by eapply mcount_pos.
  - intros Hq. rewrite H3, H1. split; [f_equal|]; apply mcount_ext;
      intros k v Hk; by destruct (Hq k v Hk) as [-> | ->].
Qed.

(** ** The specification: a bounded set of leases *)

(** The leases held, and all leases ever granted. *)
Record spec := mkSpec { sp_held : gset nat; sp_ever : gset nat }.
Inductive spec_op := Granted (l : nat) | Refused | Freed (l : option nat).

(** A grant gives a lease nobody ever had, and only below the limit; a refusal means that
    the limit is reached; a release frees the lease if it is held, and nothing else. *)
Inductive spec_step (lim : nat) : spec -> spec_op -> spec -> Prop :=
| sp_grant v l : (size (sp_held v) < lim)%nat -> l ∉ sp_ever v ->
    spec_step lim v (Granted l) (mkSpec ({[l]} ∪ sp_held v) ({[l]} ∪ sp_ever v))
| sp_refuse v : size (sp_held v) = lim -> spec_step lim v Refused v
| sp_free v l : spec_step lim v (Freed (Some l)) (mkSpec (sp_held v ∖ {[l]}) (sp_ever v))
| sp_free_nil v : spec_step lim v (Freed None) v.

Inductive spec_run (lim : nat) : spec -> list spec_op -> spec -> Prop :=
| sr_nil v : spec_run lim v [] v
| sr_snoc v v1 v2 ops o : spec_run lim v ops v1 -> spec_step lim v1 o v2 -> spec_run lim v (ops ++ [o]) v2.

(** The sequential budget: any calls, and what the specification calls them. *)
Inductive budget_call := CallTry | CallRelease (l : option nat).
Definition budget_do (ob : list spec_op * Budget) (c : budget_call) : list spec_op * Budget :=
  match c with
  | CallTry => let '(l, b) := TryAcquire ob.2 in (ob.1 ++ [match l with Some l => Granted l | None => Refused end], b)
  | CallRelease l => (ob.1 ++ [Freed l], Release l ob.2)
  end.
Definition budget_run (calls : list budget_call) (b : Budget) : list spec_op * Budget := fold_left budget_do calls ([], b).
Definition budget_abs (b : Budget) : spec := mkSpec (held b) (dom (leases b)).

(** The interleaved budget: a lease is held from the send to the receive. *)
Definition owners_abs (s : Concurrent.state) : spec :=
  mkSpec (dom (filter (fun kv => Concurrent.occupies kv.2 = true) (Concurrent.owners s))) (dom (Concurrent.owners s)).

Lemma budget_abs_try b l b' : budget_wf b -> TryAcquire b = (l, b') ->
  spec_step (limit b) (budget_abs b) (match l with Some l => Granted l | None => Refused end) (budget_abs b') /\ limit b' = limit b.
Proof.
  intros [Hs Hl _] E. destruct (decide (slots b < limit b)%nat) as [Hlt|Hge].
  - pose proof (held_TryAcquire b Hlt) as Hh. rewrite E in Hh. unfold TryAcquire in E. rewrite bool_decide_eq_true_2 in E by done.
    injection E as <- <-. cbn [snd] in Hh. split; [|done]. unfold budget_abs. rewrite Hh. cbn [leases]. rewrite dom_insert_L.
    apply (sp_grant _ (budget_abs b)); cbn; [lia|apply (is_fresh (dom (leases b)))].
  - unfold TryAcquire in E. rewrite bool_decide_eq_false_2 in E by done. injection E as <- <-. split; [|done]. apply sp_refuse. cbn. lia.
Qed.

Lemma budget_abs_release b l : spec_step (limit b) (budget_abs b) (Freed l) (budget_abs (Release l b)) /\ limit (Release l b) = limit b.
Proof.
  destruct l as [l|]; [|split; [apply sp_free_nil|done]].
  assert (dom (leases (Release (Some l) b)) = dom (leases b) /\ limit (Release (Some l) b) = limit b) as [Hd Hl].
  { unfold Release. destruct (leases b !! l) as [[]|] eqn:E; [done| |done]. cbn. split; [|done]. rewrite dom_insert_L.
    apply elem_of_dom_2 in E. set_solver. }
  split; [|done]. unfold budget_abs. rewrite held_Release, Hd. apply (sp_free _ (budget_abs b)).
Qed.

Lemma budget_run_spec calls b ops b' : budget_wf b -> budget_run calls b = (ops, b') ->
  spec_run (limit b) (budget_abs b) ops (budget_abs b') /\ budget_wf b' /\ limit b' = limit b.
Proof.
  intros Hwf. revert ops b'. induction calls as [|c calls IH] using rev_ind; intros ops b'.
  - intros [= <- <-]. split_and!; [apply sr_nil|done|done].
  - unfold budget_run. rewrite fold_left_app. fold (budget_run calls b). destruct (budget_run calls b) as [ops1 b1] eqn:E1.
    destruct (IH _ _ eq_refl) as (Hr & Hw & Hl). cbn. destruct c as [|l]; cbn.
    + destruct (TryAcquire b1) as [l b2] eqn:Et. intros [= <- <-]. destruct (budget_abs_try _ _ _ Hw Et) as [Hs Hl2].
      split_and!; [|by rewrite <- (f_equal snd Et : _ = b2); apply TryAcquire_wf|congruence]. eapply sr_snoc; [done|]. by rewrite <- Hl.
    + intros [= <- <-]. destruct (budget_abs_release b1 l) as [Hs Hl2].
      split_and!; [|by apply Release_wf|congruence]. eapply sr_snoc; [done|]. by rewrite <- Hl.
Qed.

(** A new status of a lease, and what it does to the leases held. *)
Lemma owners_abs_insert s l st n g : let s' := Concurrent.mkState (Concurrent.cap s) n g (Concurrent.set_status s l st) in
  sp_held (owners_abs s') = (if Concurrent.occupies st then {[l]} ∪ sp_held (owners_abs s) else sp_held (owners_abs s) ∖ {[l]}) /\
  sp_ever (owners_abs s') = {[l]} ∪ sp_ever (owners_abs s).
Proof.
  cbn. unfold Concurrent.set_status. rewrite dom_insert_L. split; [|done]. apply set_eq. intros k.
  rewrite elem_of_dom. destruct (decide (k = l)) as [->|Hne].
  - destruct (Concurrent.occupies st) eqn:E.
    + split; [set_solver|]. intros _. exists st. apply map_lookup_filter_Some. by rewrite lookup_insert_eq.
    + split; [|set_solver]. intros [w [Hw Ho]%map_lookup_filter_Some]. rewrite lookup_insert_eq in Hw. cbn in Ho. congruence.
  - assert (is_Some (filter (fun kv => Concurrent.occupies kv.2 = true) (<[l := st]> (Concurrent.owners s)) !! k) <->
      k ∈ dom (filter (fun kv => Concurrent.occupies kv.2 = true) (Concurrent.owners s))) as ->.
    { rewrite elem_of_dom. split; intros [w [Hw Ho]%map_lookup_filter_Some]; exists w; apply map_lookup_filter_Some;
        rewrite lookup_insert_ne in * by done; done. }
    destruct (Concurrent.occupies st); set_solver.
Qed.

Lemma owners_abs_step s s' : Concurrent.inv s -> Concurrent.step s s' -> Concurrent.cap s' = Concurrent.cap s /\
  (owners_abs s' = owners_abs s \/ exists o, spec_step (Concurrent.cap s) (owners_abs s) o (owners_abs s')).
Proof.
  intros [H1 H2 _] Hst.
  assert (size (sp_held (owners_abs s)) = Concurrent.chan s) as Hsz by (rewrite H1; cbn; apply size_dom).
  assert (forall l st, Concurrent.owners s !! l = Some st -> (l ∈ sp_held (owners_abs s) <-> Concurrent.occupies st = true) /\ l ∈ sp_ever (owners_abs s)) as Hin.
  { intros l st Hl. cbn. split; [|by eapply elem_of_dom_2]. rewrite elem_of_dom. split.
    - intros [w [Hw Ho]%map_lookup_filter_Some]. cbn in Ho. congruence.
    - intros Ho. exists st. by apply map_lookup_filter_Some. }
  assert (forall a b, sp_held a = sp_held b -> sp_ever a = sp_ever b -> a = b) as Hext by (intros [] []; cbn; congruence).
  destruct Hst as [s l Hl Hc|s Hc|s l Hl|s l Hl|s l n Hl Hc|s l Hl|s l st Hl _ _]; (split; [done|]); try (by left).
  - right. exists (Granted l). match goal with |- spec_step _ _ _ ?v => replace v with (mkSpec ({[l]} ∪ sp_held (owners_abs s)) ({[l]} ∪ sp_ever (owners_abs s))) end.
    + apply sp_grant; [lia|]. cbn. by apply not_elem_of_dom.
    + destruct (owners_abs_insert s l Concurrent.Sent (S (Concurrent.chan s)) (Concurrent.gauge s)) as [E1 E2]. by apply Hext; rewrite ?E1, ?E2.
  - left. destruct (owners_abs_insert s l Concurrent.Held (Concurrent.chan s) (Concurrent.gauge s + 1)) as [E1 E2]. destruct (Hin l _ Hl) as [[_ Ho] He].
    apply Hext; rewrite ?E1, ?E2; cbn [Concurrent.occupies]; [specialize (Ho eq_refl)|]; set_solver.
  - left. destruct (owners_abs_insert s l Concurrent.Draining (Concurrent.chan s) (Concurrent.gauge s)) as [E1 E2]. destruct (Hin l _ Hl) as [[_ Ho] He].
    apply Hext; rewrite ?E1, ?E2; cbn [Concurrent.occupies]; [specialize (Ho eq_refl)|]; set_solver.
  - right. exists (Freed (Some l)). match goal with |- spec_step _ _ _ ?v => replace v with (mkSpec (sp_held (owners_abs s) ∖ {[l]}) (sp_ever (owners_abs s))) end.
    + apply sp_free.
    + destruct (owners_abs_insert s l Concurrent.Drained n (Concurrent.gauge s)) as [E1 E2]. destruct (Hin l _ Hl) as [_ He].
      apply Hext; rewrite ?E1, ?E2; cbn [Concurrent.occupies sp_held sp_ever]; [done|]. cbn in He. set_solver.
  - left. destruct (owners_abs_insert s l Concurrent.Released (Concurrent.chan s) (Concurrent.gauge s - 1)) as [E1 E2]. destruct (Hin l _ Hl) as [[Ho _] He].
    apply Hext; rewrite ?E1, ?E2; cbn [Concurrent.occupies]; [|set_solver]. apply set_eq. intros k. rewrite elem_of_difference, elem_of_singleton.
    split; [by intros []|]. intros Hk. split; [done|]. intros ->. apply Ho in Hk. done.
Qed.

Lemma owners_run lim s : rtc Concurrent.step (Concurrent.init lim) s ->
  Concurrent.cap s = lim /\ exists ops, spec_run lim (mkSpec ∅ ∅) ops (owners_abs s).
Proof.
  revert s. apply (rtc_ind_r (fun s => Concurrent.cap s = lim /\ exists ops, spec_run lim (mkSpec ∅ ∅) ops (owners_abs s)));
    [|intros s s' Hr Hst [Hc [ops IH]]].
  - split; [done|]. exists []. unfold owners_abs. cbn. rewrite map_filter_empty, !dom_empty_L. apply sr_nil.
  - destruct (owners_abs_step s s' (Concurrent.inv_reachable _ _ Hr) Hst) as [Hc' [->|[o Ho]]]; (split; [congruence|]); [by exists ops|].
    exists (ops ++ [o]). rewrite Hc in Ho. by eapply sr_snoc.
Qed.


Lemma budget_interleaved_witness : exists s,
  rtc Concurrent.step (Concurrent.init 1) s /\
  (mcount Concurrent.is_held (Concurrent.owners s) <= 1)%nat.
Proof.
  exists (Concurrent.mkState 1 1 1 (<[0%nat := Concurrent.Held]> (<[0%nat := Concurrent.Sent]> ∅))).
  assert (rtc Concurrent.step (Concurrent.init 1)
    (Concurrent.mkState 1 1 1 (<[0%nat := Concurrent.Held]> (<[0%nat := Concurrent.Sent]> ∅)))) as Hr.
  { eapply rtc_l; [apply (Concurrent.step_send _ 0%nat); [done|cbn; lia]|].
    eapply rtc_l; [apply (Concurrent.step_observe _ 0%nat); done|]. apply rtc_refl. }
  split; [exact Hr|]. exact (proj1 (budget_interleaved 1 _ Hr)).
Defined.

Definition example_budget : Budget := mkBudget 1 0 (Some 0) ∅.

