(* ===== verification/Compress.v ===== *)
(** * Package compress: bounded block compression

    Models [internal/compress/compress.go]: the adaptive block encoder
    [CopyObserved] (with [Copy] and [CopyCounted]), the checking decoder [Decopy]
    and the pool of idle encoders.  DEFLATE itself (package [compress/flate]) is a
    parameter: a function from a block to its compressed form and the reader that
    decompresses it. *)
From S2P Require Import Prelude.

(** ** The DEFLATE codec *)

(** [deflate b]: what a [flate.Writer] reset to an empty buffer has written after
    [Write(b)] and [Close()], or their error.  [inflate c]: the bytes a
    [flate.Reader] over [c] produces, the error it ends with, and how many bytes
    of [c] it has left unread then. *)
Class Flate := {
  deflate : bytes -> res bytes;
  inflate : bytes -> bytes * error * nat;
}.

(** The documented contract of the package: decompressing a closed stream gives
    the data back, ends with EOF and reads the whole stream; an input that ends
    before its stream does, as the empty one, is an unexpected EOF. *)
Class FlateLaws `{Flate} := {
  flate_roundtrip : forall b c, deflate b = Ok c -> inflate c = (b, EOF, 0%nat);
  flate_empty : inflate [] = ([], ErrUnexpectedEOF, 0%nat);
}.

Definition blockSize : nat := Z.to_nat (32 * 1024).
Definition markerRaw : byte := Byte.x00.
Definition markerFlate : byte := Byte.x01.

Lemma blockSize_Z : Z.of_nat blockSize = 32768.
Proof. unfold blockSize. by rewrite Z2Nat.id. Qed.
#[global] Opaque blockSize.

(** ** The pool of idle encoders: a channel of capacity two *)
Definition pool_cap : nat := 2.

(** [encoder]: an idle encoder, or a new one when the pool is empty. *)
Definition encoder (pool : nat) : nat := (pool - 1)%nat.

(** [release]: kept only when the pool has room. *)
Definition release (pool : nat) : nat :=
  if bool_decide (pool < pool_cap)%nat then S pool else pool.

(** ** The encoder *)

Record Stats := mkStats {
  InputBytes : Z; OutputBytes : Z; Attempted : Z; Skipped : Z; Compressed : Z; EncodeTime : Z;
}.
Definition zeroStats : Stats := mkStats 0 0 0 0 0 0.

(** One [Read] of the source: the bytes and the error it returns, and the time
    the encoder will have spent on the block should it be attempted. *)
Record read_event := mkRead { ev_data : bytes; ev_err : option error; ev_elapsed : Z }.

(** The local variables of [CopyObserved], with the writer, the calls made to
    [onPayload] and [observe], whether an encoder is held, and the pool. *)
Record copy_state := mkCopy {
  dst : writer; misses : Z; skipBytes : Z; total : Z; emptyReads : Z; stats : Stats;
  payloads : list Z; reports : list Stats; has_encoder : bool; pool : nat;
}.

Definition copy_init (w : writer) (pool : nat) : copy_state :=
  mkCopy w 0 0 0 0 zeroStats [] [] false pool.

Definition header (mode : byte) (rawLen encLen : nat) : bytes :=
  mode :: be16 (Z.of_nat rawLen) ++ be16 (Z.of_nat encLen).

(** The closure [flush]. *)
Definition flush (observing : bool) (st : copy_state) : copy_state :=
  if observing && (0 <? InputBytes (stats st)) then
    mkCopy (dst st) (misses st) (skipBytes st) (total st) (emptyReads st) zeroStats
           (payloads st) (reports st ++ [stats st]) (has_encoder st) (pool st)
  else st.

Section codec.
Context `{Flate}.

(** The choice of the block's mode: the marker and the data of the frame, with
    the adaptive state updated, or the encoder's error. *)
Definition choose (observing : bool) (ev : read_event) (st : copy_state)
    : res (byte * bytes) * copy_state :=
  let buf := ev_data ev in
  let n := Z.of_nat (length buf) in
  let s := stats st in
  if (n <? 256) || (0 <? skipBytes st) then
    (Ok (markerRaw, buf),
     mkCopy (dst st) (misses st) (Z.max 0 (skipBytes st - n)) (total st) (emptyReads st)
            (mkStats (InputBytes s) (OutputBytes s) (Attempted s) (Skipped s + 1) (Compressed s) (EncodeTime s))
            (payloads st) (reports st) (has_encoder st) (pool st))
  else
    let pool' := if has_encoder st then pool st else encoder (pool st) in
    match deflate buf with
    | Err e => (Err e, mkCopy (dst st) (misses st) (skipBytes st) (total st) (emptyReads st) s
                              (payloads st) (reports st) true pool')
    | Ok c =>
        let time := if observing then EncodeTime s + ev_elapsed ev else EncodeTime s in
        if Z.of_nat (length c) * 100 <? n * 90 then
          (Ok (markerFlate, c),
           mkCopy (dst st) 0 (skipBytes st) (total st) (emptyReads st)
                  (mkStats (InputBytes s) (OutputBytes s) (Attempted s + 1) (Skipped s) (Compressed s + 1) time)
                  (payloads st) (reports st) true pool')
        else
          let misses' := misses st + 1 in
          (Ok (markerRaw, buf),
           mkCopy (dst st) misses' (if 3 <=? misses' then 256 * 1024 else skipBytes st)
                  (total st) (emptyReads st)
                  (mkStats (InputBytes s) (OutputBytes s) (Attempted s + 1) (Skipped s) (Compressed s) time)
                  (payloads st) (reports st) true pool')
    end.

(** The bookkeeping after a block has been written. *)
Definition account (observing : bool) (n enc : nat) (st : copy_state) : copy_state :=
  let s := stats st in
  let st' := mkCopy (dst st) (misses st) (skipBytes st) (total st + Z.of_nat n) (emptyReads st)
    (mkStats (InputBytes s + Z.of_nat n) (OutputBytes s + (5 + Z.of_nat enc))
             (Attempted s) (Skipped s) (Compressed s) (EncodeTime s))
    (payloads st) (reports st) (has_encoder st) (pool st) in
  let st'' := if 2 ^ 20 <=? InputBytes (stats st') then flush observing st' else st' in
  mkCopy (dst st'') (misses st'') (skipBytes st'') (total st'') (emptyReads st'') (stats st'')
         (payloads st'' ++ [Z.of_nat n]) (reports st'') (has_encoder st'') (pool st'').

Definition with_dst (st : copy_state) (w : writer) : copy_state :=
  mkCopy w (misses st) (skipBytes st) (total st) (emptyReads st) (stats st)
         (payloads st) (reports st) (has_encoder st) (pool st).
Definition with_empty (st : copy_state) (k : Z) : copy_state :=
  mkCopy (dst st) (misses st) (skipBytes st) (total st) k (stats st)
         (payloads st) (reports st) (has_encoder st) (pool st).

(** What [readErr] makes of the loop: [None] goes on, [Some e] returns [e]. *)
Definition after_read (e : option error) : option (option error) :=
  match e with
  | None => None
  | Some EOF => Some None
  | Some e => Some (Some e)
  end.

(** One iteration of the loop: the new state, and the error returned if any. *)
Definition copy_step (observing : bool) (ev : read_event) (st : copy_state)
    : copy_state * option (option error) :=
  match ev_data ev with
  | [] =>
      match ev_err ev with
      | None =>
          let st' := with_empty st (emptyReads st + 1) in
          (st', if 100 <=? emptyReads st' then Some (Some ErrNoProgress) else None)
      | e => (st, after_read e)
      end
  | _ =>
      match choose observing ev (with_empty st 0) with
      | (Err e, st') => (st', Some (Some e))
      | (Ok (mode, data), st') =>
          let frame := header mode (length (ev_data ev)) (length data) ++ data in
          match write_checked (dst st') frame with
          | (_, Some e, w') => (with_dst st' w', Some (Some e))
          | (_, None, w') =>
              (account observing (length (ev_data ev)) (length data) (with_dst st' w'),
               after_read (ev_err ev))
          end
      end
  end.

(** The loop over the reads of the source; a script that ends stands for a source
    at EOF. *)
Fixpoint copy_loop (observing : bool) (evs : list read_event) (st : copy_state)
    : copy_state * option error :=
  match evs with
  | [] => (st, None)
  | ev :: evs' =>
      match copy_step observing ev st with
      | (st', Some e) => (st', e)
      | (st', None) => copy_loop observing evs' st'
      end
  end.

(** The deferred calls of [CopyObserved]: report, then give the encoder back. *)
Definition finish (observing : bool) (st : copy_state) : copy_state :=
  let st' := flush observing st in
  mkCopy (dst st') (misses st') (skipBytes st') (total st') (emptyReads st') (stats st')
         (payloads st') (reports st') false
         (if has_encoder st' then release (pool st') else pool st').

Definition CopyObserved (w : writer) (src : list read_event) (observing : bool) (pool : nat)
    : copy_state * option error :=
  let '(st, e) := copy_loop observing src (copy_init w pool) in (finish observing st, e).

Definition CopyCounted (w : writer) (src : list read_event) (pool : nat) : copy_state * option error :=
  CopyObserved w src false pool.
Definition Copy (w : writer) (src : list read_event) (pool : nat) : Z * option error :=
  let '(st, e) := CopyCounted w src pool in (total st, e).

(** ** The decoder *)

(** The checks on a DEFLATE block: read [rawLen] bytes, then one more, which must
    hit EOF, with no input left. *)
Definition inflate_block (data : bytes) (rawLen : nat) : res bytes :=
  let '(out, end_err, unread) := inflate data in
  match ReadFull rawLen (Reader out end_err) with
  | (Ok b, r) =>
      match rd_data r, rd_end r with
      | [], EOF => if bool_decide (unread = 0%nat) then Ok b
                   else Err (ErrNew "compress: invalid compressed block")
      | _, _ => Err (ErrNew "compress: invalid compressed block")
      end
  | (Err _, _) => Err (ErrNew "compress: invalid compressed block")
  end.

(** The switch on the block's mode. *)
Definition decode_block (mode : byte) (rawLen : nat) (data : bytes) : res bytes :=
  if bool_decide (mode = markerRaw) then
    if bool_decide (rawLen <> length data) then Err (ErrNew "compress: raw length mismatch")
    else Ok data
  else if bool_decide (mode = markerFlate) then inflate_block data rawLen
  else Err (ErrNew "compress: unknown block mode").

(** The loop of [Decopy]; [None] only when [fuel] runs out.  A block takes at
    least six bytes of the source, so its length plus one is enough fuel. *)
Fixpoint decopy_loop (fuel : nat) (r : reader) (w : writer) (total : Z)
    : option (Z * option error * writer) :=
  match fuel with
  | O => None
  | S f =>
      match ReadFull 5 r with
      | (Err EOF, _) => Some (total, None, w)
      | (Err e, _) => Some (total, Some e, w)
      | (Ok h, r1) =>
          let rawLen := Z.to_nat (get_be16 (take 2 (drop 1 h))) in
          let encLen := Z.to_nat (get_be16 (take 2 (drop 3 h))) in
          if bool_decide (rawLen = 0%nat) || bool_decide (blockSize < rawLen)%nat ||
             bool_decide (encLen = 0%nat) || bool_decide (blockSize < encLen)%nat
          then Some (total, Some (ErrNew "compress: invalid block length"), w)
          else
            match ReadFull encLen r1 with
            | (Err e, _) => Some (total, Some e, w)
            | (Ok data, r2) =>
                match decode_block (default markerRaw (head h)) rawLen data with
                | Err e => Some (total, Some e, w)
                | Ok b =>
                    match write_checked w b with
                    | (_, Some e, w') => Some (total, Some e, w')
                    | (_, None, w') => decopy_loop f r2 w' (total + Z.of_nat (length b))
                    end
                end
            end
      end
  end.

Definition Decopy (w : writer) (r : reader) : option (Z * option error * writer) :=
  decopy_loop (S (length (rd_data r))) r w 0.

(** ** Specification: the grammar of an encoded stream *)

(** A frame: its bytes and the data it stands for. *)
Inductive frame : bytes -> bytes -> Prop :=
| frame_raw b : (0 < length b <= blockSize)%nat ->
    frame (header markerRaw (length b) (length b) ++ b) b
| frame_flate b c : inflate c = (b, EOF, 0%nat) ->
    (0 < length b <= blockSize)%nat -> (0 < length c <= blockSize)%nat ->
    frame (header markerFlate (length b) (length c) ++ c) b.

Inductive frames : bytes -> bytes -> Prop :=
| frames_nil : frames [] []
| frames_cons f b enc dec : frame f b -> frames enc dec -> frames (f ++ enc) (b ++ dec).

(** What a failed write leaves behind: a strict prefix of a frame. *)
Definition torn (part : bytes) : Prop :=
  part = [] \/ exists f b, frame f b /\ part `prefix_of` f /\ part <> f.

(** A source that never reads more than its buffer, as [io.Reader] demands. *)
Definition reads_ok (evs : list read_event) : Prop :=
  Forall (fun ev => (length (ev_data ev) <= blockSize)%nat) evs.

(** The bytes a script delivers before its first error. *)
Fixpoint delivered (evs : list read_event) : bytes :=
  match evs with
  | [] => []
  | ev :: evs' => ev_data ev ++ match ev_err ev with None => delivered evs' | Some _ => [] end
  end.

(** ** The decoder against the grammar *)

Lemma length_header m r e : length (header m r e) = 5%nat.
Proof. done. Qed.

Lemma header_fields m r e rest x : (r <= blockSize)%nat -> (e <= blockSize)%nat ->
  ReadFull 5 (Reader (header m r e ++ rest) x) = (Ok (header m r e), Reader rest x) /\
  head (header m r e) = Some m /\
  Z.to_nat (get_be16 (take 2 (drop 1 (header m r e)))) = r /\
  Z.to_nat (get_be16 (take 2 (drop 3 (header m r e)))) = e.
Proof.
  intros Hr He. pose proof blockSize_Z. split; [by apply ReadFull_app|]. split; [done|].
  assert (forall z, be16 z = be16 z ++ []) as Hnil by (intros; by rewrite app_nil_r).
  unfold header. split.
  - change (drop 1 _) with (be16 (Z.of_nat r) ++ be16 (Z.of_nat e)).
    rewrite take_app_length' by done. rewrite Hnil, get_be16_be16; lia.
  - change (drop 3 _) with (be16 (Z.of_nat e)).
    rewrite take_ge by done. rewrite Hnil, get_be16_be16; lia.
Qed.

Lemma frame_inv f b : frame f b ->
  exists m c, f = header m (length b) (length c) ++ c /\ decode_block m (length b) c = Ok b /\
    (0 < length b <= blockSize)%nat /\ (0 < length c <= blockSize)%nat.
Proof.
  intros [b' Hb|b' c Hi Hb Hc].
  - exists markerRaw, b'. split_and!; try done; try lia. unfold decode_block.
    by rewrite bool_decide_eq_true_2, bool_decide_eq_false_2 by auto.
  - exists markerFlate, c. split_and!; try done; try lia.
    unfold decode_block, inflate_block. rewrite Hi.
    rewrite bool_decide_eq_false_2 by done. rewrite bool_decide_eq_true_2 by done.
    rewrite <-(app_nil_r b') at 2. by rewrite ReadFull_app.
Qed.

Lemma decode_block_frame m raw c b : decode_block m raw c = Ok b ->
  (0 < raw <= blockSize)%nat -> (0 < length c <= blockSize)%nat ->
  length b = raw /\ frame (header m raw (length c) ++ c) b.
Proof.
  unfold decode_block, inflate_block. intros HE Hr Hc. case_bool_decide as Hm; [|clear Hm; case_bool_decide as Hm; [|done]].
  - subst. case_bool_decide as Hl; [done|]. injection HE as <-.
    split; [done|]. rewrite Hl. by constructor.
  - subst. destruct (inflate c) as [[out e] u] eqn:Ei.
    destruct (ReadFull raw (Reader out e)) as [[p|] r] eqn:Er; [|done].
    apply ReadFull_Ok in Er as (Hp & Hd & Hx). simpl in Hd, Hx.
    destruct (rd_data r) as [|]; [|done]. destruct (rd_end r); try done. case_bool_decide; [|done].
    injection HE as <-. rewrite app_nil_r in Hd. subst. split; [done|]. by constructor.
Qed.

(** The decoder on a stream that starts with a frame. *)
Lemma decopy_frame f b rest e fuel w t : frame f b ->
  decopy_loop (S fuel) (Reader (f ++ rest) e) w t =
  match write_checked w b with
  | (_, Some err, w') => Some (t, Some err, w')
  | (_, None, w') => decopy_loop fuel (Reader rest e) w' (t + Z.of_nat (length b))
  end.
Proof.
  intros (m & c & -> & Hd & Hb & Hc)%frame_inv.
  destruct (header_fields m (length b) (length c) (c ++ rest) e) as (Hh & Hm & Hr & He); [lia..|].
  cbn [decopy_loop]. rewrite <-app_assoc, Hh, Hr, He, Hm. change (default markerRaw (Some m)) with m.
  rewrite !bool_decide_eq_false_2 by lia. cbn [orb]. rewrite ReadFull_app by done. by rewrite Hd.
Qed.

(** What the decoder does with whatever follows the frames it has accepted: stop at
    the end of the stream, or refuse. *)
Lemma decopy_step r w t fuel : exists res,
  decopy_loop (S fuel) r w t = res /\
  (res = Some (t, None, w) /\ r = Reader [] EOF \/
   (exists err, res = Some (t, Some err, w)) \/
   exists f b rest x, frame f b /\ r = Reader (f ++ rest) x).
Proof.
  eexists. split; [reflexivity|]. cbn [decopy_loop].
  destruct (ReadFull 5 r) as [[h|e] r1] eqn:E5.
  2:{ destruct (decide (e = EOF)) as [->|]; [left|right; left; exists e; by destruct e].
      split; [done|]. unfold ReadFull in E5. case_decide; [done|]. destruct r as [[|] []]; naive_solver. }
  apply ReadFull_Ok in E5 as (Hh & Hd & He).
  set (raw := Z.to_nat (get_be16 (take 2 (drop 1 h)))). set (enc := Z.to_nat (get_be16 (take 2 (drop 3 h)))).
  repeat (case_bool_decide; cbn [orb]; [right; left; by eexists|]).
  destruct (ReadFull enc r1) as [[c|e] r2] eqn:E2; [|right; left; by eexists].
  apply ReadFull_Ok in E2 as (Hc & Hd2 & He2).
  destruct (decode_block _ _ _) as [b|e] eqn:Eb; [|right; left; by eexists].
  right; right. apply decode_block_frame in Eb as [Hb Hf]; [|lia..].
  do 2 eexists. exists (rd_data r2), (rd_end r). split; [exact Hf|]. destruct r as [d x]. cbn [rd_data rd_end] in *. f_equal.
  rewrite Hd, Hd2, <-app_assoc. f_equal. rewrite Hc. unfold raw, enc, header.
  destruct h as [|h0 [|h1 [|h2 [|h3 [|h4 [|]]]]]]; try done.
  cbn [head default]. f_equal.
  rewrite !Z2Nat.id by apply get_be16_range. cbn [drop take]. by rewrite !be16_get_be16.
Qed.

Lemma frame_length f b : frame f b -> (5 < length f)%nat.
Proof. intros (m & c & -> & _ & _ & ?)%frame_inv. rewrite length_app, length_header. lia. Qed.

(** Enough fuel is the length of the stream plus one: the result is then defined,
    and it is a run over a sequence of frames. *)
Lemma decopy_run fuel r w t : (length (rd_data r) < fuel)%nat ->
  exists enc dec rest part t' err w',
    decopy_loop fuel r w t = Some (t', err, w') /\ rd_data r = enc ++ rest /\ frames enc dec /\
    t' = t + Z.of_nat (length dec) /\ wr_out w' = wr_out w ++ dec ++ part /\
    (err = None -> rest = [] /\ part = [] /\ rd_end r = EOF) /\
    (part = [] \/ exists f b rest', frame f b /\ rest = f ++ rest' /\ part `prefix_of` b) /\
    (wr_plan w = [] -> part = [] /\ w' = Writer (wr_out w ++ dec) []).
Proof.
  revert r w t. induction fuel as [|fuel IH]; intros r w t Hf; [lia|].
  destruct (decopy_step r w t fuel) as (res & Hres & [[-> ->]|[[err ->]|(f & b & rest & x & Hfr & ->)]]).
  - exists [], [], [], [], t, None, w. rewrite !app_nil_r, Z.add_0_r. split_and!; try done; [apply frames_nil|by left|].
    intros Hp. destruct w; simpl in *; by subst.
  - exists [], [], (rd_data r), [], t, (Some err), w. rewrite !app_nil_r, Z.add_0_r. split_and!; try done; [apply frames_nil|by left|].
    intros Hp. destruct w; simpl in *; by subst.
  - clear Hres. simpl in Hf. rewrite (decopy_frame f b rest _ fuel w t Hfr). pose proof (frame_length f b Hfr).
    destruct (write_checked w b) as [[n [err|]] w1] eqn:Ew.
    + apply write_checked_prefix in Ew as HP. destruct HP as [_ HP].
      exists [], [], (f ++ rest), (take n b), t, (Some err), w1. rewrite Z.add_0_r.
      split_and!; try done; [apply frames_nil|right; exists f, b, rest; eauto using prefix_take|].
      intros Hp. destruct w; simpl in *; subst. by rewrite write_checked_good in Ew.
    + rewrite length_app in Hf. destruct (IH (Reader rest x) w1 (t + Z.of_nat (length b)))
        as (enc & dec & rest' & part & t' & err & w' & E & Hd & Hfs & Ht & Ho & HN & Hpt & HP); [simpl; lia|].
      exists (f ++ enc), (b ++ dec), rest', part, t', err, w'. simpl in *.
      apply write_checked_ok in Ew as HO. destruct HO as [_ HO].
      split_and!; try done.
      * by rewrite Hd, app_assoc.
      * by constructor.
      * rewrite length_app. lia.
      * by rewrite Ho, HO, <-!app_assoc.
      * intros Hp. destruct w as [o pl]; simpl in *; subst pl. rewrite write_checked_good in Ew.
        injection Ew as <- <-. simpl in *. rewrite app_assoc. by apply HP.
Qed.

(** Decoding a sequence of frames followed by anything. *)
Lemma decopy_frames enc dec : frames enc dec -> forall rest e out t fuel,
  (length (enc ++ rest) < fuel)%nat -> exists fuel', (length rest < fuel')%nat /\
  decopy_loop fuel (Reader (enc ++ rest) e) (Writer out []) t =
  decopy_loop fuel' (Reader rest e) (Writer (out ++ dec) []) (t + Z.of_nat (length dec)).
Proof.
  induction 1 as [|f b enc dec Hf _ IH]; intros rest e out t fuel Hfuel.
  - exists fuel. by rewrite app_nil_r, Z.add_0_r.
  - destruct fuel as [|fuel]; [lia|]. pose proof (frame_length f b Hf).
    rewrite <-app_assoc, (decopy_frame f b) by done. rewrite write_checked_good.
    destruct (IH rest e (out ++ b) (t + Z.of_nat (length b)) fuel) as (f' & Hf' & E); [len|].
    exists f'. split; [done|]. rewrite E, <-app_assoc. f_equal. len.
Qed.

(** A frame carries its own length, so no frame extends another. *)
Lemma frame_size f b rest : frame f b ->
  Z.to_nat (get_be16 (take 2 (drop 3 (f ++ rest)))) = (length f - 5)%nat.
Proof.
  intros (m & c & -> & _ & Hb & Hc)%frame_inv.
  destruct (header_fields m (length b) (length c) [] EOF) as (_ & _ & _ & He); [lia..|].
  rewrite <-app_assoc, drop_app_le by (rewrite length_header; lia).
  rewrite take_app_le by (rewrite length_drop, length_header; lia).
  rewrite He, length_app, length_header. lia.
Qed.

Lemma torn_refused part w t fuel : torn part -> part <> [] ->
  exists err, decopy_loop (S fuel) (Reader part EOF) w t = Some (t, Some err, w).
Proof.
  intros [?|(f & b & Hf & [x Hx] & Hne)] Hnil; [done|].
  destruct (decopy_step (Reader part EOF) w t fuel) as (res & -> & [[_ [=]]|[[e ->]|H3]]);
    [done|by eexists|].
  destruct H3 as (f' & b' & rest & y & Hf' & [= Hp _]). subst part.
  pose proof (frame_size _ _ [] Hf) as H1. pose proof (frame_size _ _ (rest ++ x) Hf') as H2.
  rewrite app_nil_r, Hx, <-app_assoc, H2 in H1. rewrite !length_app in H1.
  pose proof (frame_length _ _ Hf'). destruct rest; [|simpl in H1; lia]. destruct x; [|simpl in H1; lia].
  by rewrite app_nil_r in Hx.
Qed.

Lemma frames_one f b : frame f b -> frames f b.
Proof.
  intros Hf. rewrite <-(app_nil_r f), <-(app_nil_r b). constructor; [done|constructor].
Qed.

Lemma frames_snoc enc dec f b : frames enc dec -> frame f b -> frames (enc ++ f) (dec ++ b).
Proof.
  induction 1 as [|f0 b0 enc dec Hf0 _ IH]; intros Hf.
  - by apply frames_one.
  - rewrite <-!app_assoc. constructor; auto.
Qed.

(** ** The encoder against the grammar *)

(** Everything reported so far, with what is pending. *)
Definition tally (f : Stats -> Z) (st : copy_state) : Z :=
  f (stats st) + foldr (fun s z => f s + z) 0 (reports st).

Definition sum (l : list Z) : Z := foldr Z.add 0 l.

Lemma sum_snoc l z : sum (l ++ [z]) = sum l + z.
Proof. induction l; simpl; lia. Qed.

Lemma tally_flush f obs st : f zeroStats = 0 -> tally f (flush obs st) = tally f st.
Proof.
  intros Hz. unfold flush, tally. destruct (obs && _); [|done]. simpl. rewrite Hz.
  rewrite foldr_app. simpl. induction (reports st) as [|s l IH]; simpl; lia.
Qed.

(** Nothing is pending without input. *)
Definition pending_ok (s : Stats) : Prop :=
  0 <= InputBytes s /\ (InputBytes s = 0 -> OutputBytes s = 0).

(** Where the encoder stands between two blocks: [enc] has been written, it stands
    for [dec], and every counter agrees with them. *)
Record enc_inv (w : writer) (enc dec : bytes) (st : copy_state) : Prop := {
  ei_frames : frames enc dec;
  ei_total : total st = Z.of_nat (length dec);
  ei_input : tally InputBytes st = Z.of_nat (length dec);
  ei_output : tally OutputBytes st = Z.of_nat (length enc);
  ei_payloads : sum (payloads st) = Z.of_nat (length dec);
  ei_overhead : (length enc <= length dec + 5 * length (payloads st))%nat;
  ei_pending : pending_ok (stats st);
}.

Lemma enc_inv_ext w enc dec st st' : total st' = total st ->
  tally InputBytes st' = tally InputBytes st -> tally OutputBytes st' = tally OutputBytes st ->
  payloads st' = payloads st -> pending_ok (stats st') ->
  enc_inv w enc dec st -> enc_inv w enc dec st'.
Proof. intros H1 H2 H3 H4 H5 []. constructor; congruence. Qed.

Lemma flush_pending obs st : pending_ok (stats st) -> pending_ok (stats (flush obs st)).
Proof. unfold flush. by case_match. Qed.

Context `{FL : !FlateLaws}.

Lemma choose_spec obs ev st r st' : choose obs ev st = (r, st') ->
  (0 < length (ev_data ev) <= blockSize)%nat ->
  dst st' = dst st /\ total st' = total st /\ payloads st' = payloads st /\
  tally InputBytes st' = tally InputBytes st /\ tally OutputBytes st' = tally OutputBytes st /\
  (pending_ok (stats st) -> pending_ok (stats st')) /\
  match r with
  | Err _ => True
  | Ok (m, data) => (length data <= length (ev_data ev))%nat /\
      frame (header m (length (ev_data ev)) (length data) ++ data) (ev_data ev)
  end.
Proof.
  unfold choose. intros HE Hn. destruct ev as [b e el]. simpl in *.
  case_hyp HE; [injection HE as <- <-; split_and!; try done; by constructor|].
  destruct (deflate b) as [c|err] eqn:Ed; [|injection HE as <- <-; split_and!; done].
  pose proof (flate_roundtrip b c Ed) as Hi.
  assert (0 < length c)%nat. { destruct c; [|simpl; lia]. rewrite flate_empty in Hi. congruence. }
  case_hyp HE; injection HE as <- <-; split_and!; try done; try lia; constructor; done || lia.
Qed.

Lemma account_inv w enc dec obs st b f : enc_inv w enc dec st -> frame (f : bytes) b ->
  (5 <= length f <= 5 + length b)%nat ->
  enc_inv w (enc ++ f) (dec ++ b) (account obs (length b) (length f - 5) st) /\
  dst (account obs (length b) (length f - 5) st) = dst st.
Proof.
  intros [] Hf Hl. unfold account.
  set (st1 := mkCopy _ _ _ _ _ (mkStats _ _ _ _ _ _) _ _ _ _).
  assert (exists st2, (if 2 ^ 20 <=? InputBytes (stats st1) then flush obs st1 else st1) = st2 /\
    total st2 = total st1 /\ payloads st2 = payloads st1 /\ dst st2 = dst st1 /\
    tally InputBytes st2 = tally InputBytes st1 /\ tally OutputBytes st2 = tally OutputBytes st1 /\
    (pending_ok (stats st1) -> pending_ok (stats st2)))
    as (st2 & -> & Ht & Hp & Hd & Hi & Ho & Hk).
  { eexists. split; [reflexivity|]. case_match; [|done]. rewrite !tally_flush by done.
    split_and!; auto using flush_pending; unfold flush; by case_match. }
  split; [|done].
  constructor; cbn [total payloads].
  - by apply frames_snoc.
  - rewrite Ht, length_app. simpl. lia.
  - transitivity (tally InputBytes st2); [done|].
    rewrite Hi, length_app. unfold tally in *. simpl. lia.
  - transitivity (tally OutputBytes st2); [done|].
    rewrite Ho, length_app. unfold tally in *. simpl. lia.
  - rewrite Hp, sum_snoc, length_app. simpl. lia.
  - rewrite Hp, !length_app. simpl. lia.
  - apply Hk. unfold pending_ok in *. simpl. pose proof (frame_inv f b Hf) as (? & ? & _ & _ & ? & _). lia.
Qed.

(** One iteration: a block more, or the end of the loop with the writer left
    inside the frame it could not write. *)
Lemma copy_step_inv w enc dec obs ev st st' r : copy_step obs ev st = (st', r) ->
  (length (ev_data ev) <= blockSize)%nat -> enc_inv w enc dec st ->
  wr_out (dst st) = wr_out w ++ enc ->
  (exists f, enc_inv w (enc ++ f) (dec ++ ev_data ev) st' /\
     wr_out (dst st') = wr_out w ++ enc ++ f /\
     (r = after_read (ev_err ev) \/ exists e, ev_err ev = None /\ r = Some (Some e))) \/
  (exists f part e, enc_inv w enc dec st' /\ frames f (ev_data ev) /\ part `prefix_of` f /\
     wr_out (dst st') = wr_out w ++ enc ++ part /\ r = Some (Some e)) \/
  (exists e, enc_inv w enc dec st' /\ wr_out (dst st') = wr_out w ++ enc /\ r = Some (Some e)).
Proof.
  unfold copy_step. intros HE Hn HI Ho. destruct (ev_data ev) as [|b0 bl] eqn:Eb.
  { left. exists []. rewrite !app_nil_r. destruct (ev_err ev); injection HE as <- <-; [by auto|].
    split; [by apply (enc_inv_ext w enc dec st); try apply HI|]. split; [done|].
    case_match; [right; by eexists|by left]. }
  rewrite <-Eb in *. assert (0 < length (ev_data ev))%nat by (rewrite Eb; simpl; lia). clear Eb.
  destruct (choose obs ev (with_empty st 0)) as [c st1] eqn:Ec.
  apply choose_spec in Ec as (Hd & Ht & Hp & Hi & Hu & Hk & Hc); [|done].
  specialize (Hk (ei_pending _ _ _ _ HI)).
  assert (forall w', enc_inv w enc dec (with_dst st1 w')) as HI1.
  { intros w'. by apply (enc_inv_ext w enc dec st). }
  destruct c as [[m data]|e].
  2:{ injection HE as <- <-. right; right. exists e. split_and!; [by apply (enc_inv_ext w enc dec st)|by rewrite Hd|done]. }
  destruct Hc as [Hl Hf]. set (f := header _ _ _ ++ data) in *.
  destruct (write_checked (dst st1) f) as [[n [e|]] w'] eqn:Ew; injection HE as <- <-.
  - right; left. apply write_checked_prefix in Ew as [_ Ew].
    exists f, (take n f), e. split_and!; try done.
    + by apply frames_one.
    + apply prefix_take.
    + simpl. rewrite Ew, Hd. simpl. by rewrite Ho, <-app_assoc.
  - left. exists f. apply write_checked_ok in Ew as [_ Ew].
    assert (length f = 5 + length data)%nat as Hlf by (unfold f; by rewrite length_app).
    assert (length data = length f - 5)%nat as -> by lia.
    destruct (account_inv w enc dec obs (with_dst st1 w') (ev_data ev) f) as [HA HD]; [done|done|lia|].
    split; [done|]. rewrite HD. simpl. rewrite Ew, Hd. simpl. rewrite Ho, <-app_assoc. auto.
Qed.

Lemma copy_loop_inv w obs evs : forall enc dec st st' err,
  copy_loop obs evs st = (st', err) -> reads_ok evs -> enc_inv w enc dec st ->
  wr_out (dst st) = wr_out w ++ enc ->
  exists enc' dec' f b part, enc_inv w enc' dec' st' /\ frames f b /\ part `prefix_of` f /\
    wr_out (dst st') = wr_out w ++ enc' ++ part /\ dec' ++ b `prefix_of` dec ++ delivered evs /\
    (err = None -> part = [] /\ dec' = dec ++ delivered evs).
Proof.
  induction evs as [|ev evs IH]; intros enc dec st st' err HE Hok HI Ho.
  { injection HE as <- <-. exists enc, dec, [], [], []. rewrite !app_nil_r.
    split_and!; try done. constructor. }
  apply Forall_cons in Hok as [Hev Hok]. cbn [copy_loop] in HE.
  destruct (copy_step obs ev st) as [st1 r] eqn:Es. cbn [delivered].
  destruct (copy_step_inv w enc dec obs ev st st1 r Es Hev HI Ho)
    as [(f & HI1 & Ho1 & Hr)|[(f & part & e & HI1 & Hf & Hp & Ho1 & ->)|(e & HI1 & Ho1 & ->)]].
  - destruct r as [e|].
    + injection HE as <- <-. exists (enc ++ f), (dec ++ ev_data ev), [], [], [].
      rewrite !app_nil_r. split_and!; try done; [constructor|rewrite app_assoc; by apply prefix_app_r|].
      intros ->. split; [done|]. destruct Hr as [Hr|(? & _ & ?)]; [|congruence].
      unfold after_read in Hr. destruct (ev_err ev); by rewrite ?app_nil_r.
    + assert (ev_err ev = None) as ->.
      { destruct Hr as [Hr|(? & _ & ?)]; [|done]. unfold after_read in Hr. by destruct (ev_err ev) as [[]|]. }
      rewrite app_assoc. by apply (IH _ _ _ _ _ HE Hok HI1).
  - injection HE as <- <-. exists enc, dec, f, (ev_data ev), part.
    split_and!; try done. rewrite app_assoc. by apply prefix_app_r.
  - injection HE as <- <-. exists enc, dec, [], [], []. rewrite !app_nil_r.
    split_and!; try done; [constructor|]. by apply prefix_app_r.
Qed.

Lemma finish_inv w enc dec obs st : enc_inv w enc dec st ->
  enc_inv w enc dec (finish obs st) /\ dst (finish obs st) = dst st.
Proof.
  intros HI. assert (dst (finish obs st) = dst st) by (unfold finish, flush; by case_match).
  split; [|done]. apply (enc_inv_ext w enc dec (flush obs st)); try done; [apply flush_pending, HI|].
  apply (enc_inv_ext w enc dec st); try done; try by apply tally_flush.
  - unfold flush; by case_match.
  - unfold flush; by case_match.
  - apply flush_pending, HI.
Qed.

(** The whole of [CopyObserved]. *)
Lemma CopyObserved_inv w src obs pl st err : CopyObserved w src obs pl = (st, err) -> reads_ok src ->
  exists enc dec f b part, enc_inv w enc dec st /\ frames f b /\ part `prefix_of` f /\
    wr_out (dst st) = wr_out w ++ enc ++ part /\ dec ++ b `prefix_of` delivered src /\
    (err = None -> part = [] /\ dec = delivered src).
Proof.
  unfold CopyObserved. destruct (copy_loop _ _ _) as [st1 e] eqn:El. intros [= <- <-] Hok.
  destruct (copy_loop_inv w obs src [] [] _ st1 e El Hok) as (enc & dec & f & b & part & HI & HR).
  - constructor; try done. constructor.
  - by rewrite app_nil_r.
  - destruct (finish_inv w enc dec obs st1 HI) as [HI' Hd].
    exists enc, dec, f, b, part. by rewrite Hd.
Qed.

(** A prefix of a stream is a stream followed by a torn frame. *)
Lemma frames_app e1 d1 e2 d2 : frames e1 d1 -> frames e2 d2 -> frames (e1 ++ e2) (d1 ++ d2).
Proof.
  induction 1 as [|f b enc dec Hf _ IH]; intros H2; [done|].
  rewrite <-!app_assoc. constructor; auto.
Qed.

Lemma frames_prefix enc dec : frames enc dec -> forall p, p `prefix_of` enc ->
  exists e1 d1 part, p = e1 ++ part /\ frames e1 d1 /\ d1 `prefix_of` dec /\ torn part /\
    (p = enc -> part = [] /\ d1 = dec).
Proof.
  induction 1 as [|f b enc dec Hf Hfs IH]; intros p Hp.
  { apply prefix_nil_inv in Hp as ->. exists [], [], []. split_and!; try done; [constructor|by left]. }
  destruct (prefix_app_or p f enc Hp) as [Hpf|(q & -> & Hq)].
  - destruct (decide (p = f)) as [->|Hne].
    + exists f, b, []. rewrite app_nil_r. split_and!; try done.
      * by apply frames_one.
      * by apply prefix_app_r.
      * by left.
      * intros E. rewrite <-(app_nil_r f) in E at 1. apply app_inv_head in E. subst.
        inversion Hfs as [|f' b' enc' dec' Hf' _ Ee]; [by rewrite app_nil_r|].
        apply frame_length in Hf'. destruct f'; [simpl in Hf'; lia|done].
    + exists [], [], p. split_and!; try done; [constructor|apply prefix_nil|right; eauto|].
      intros ->. exfalso. destruct Hpf as [x Hx]. rewrite <-app_assoc in Hx.
      rewrite <-(app_nil_r f) in Hx at 1. apply app_inv_head in Hx. symmetry in Hx.
      apply app_nil in Hx as [-> _]. by rewrite app_nil_r in Hne.
  - destruct (IH q Hq) as (e1 & d1 & part & -> & H1 & H2 & H3 & H4).
    exists (f ++ e1), (b ++ d1), part. rewrite app_assoc. split_and!; try done.
    + by constructor.
    + by apply prefix_app.
    + intros E. rewrite <-app_assoc in E. apply app_inv_head in E. destruct (H4 E). by subst.
Qed.

(** Decoding any prefix of a stream. *)
Lemma decopy_prefix enc dec p out t fuel : frames enc dec -> p `prefix_of` enc -> (length p < fuel)%nat ->
  exists d err, decopy_loop fuel (Reader p EOF) (Writer out []) t =
      Some (t + Z.of_nat (length d), err, Writer (out ++ d) []) /\
    d `prefix_of` dec /\ (err = None <-> frames p d) /\ (p = enc -> err = None /\ d = dec).
Proof.
  intros Hfs Hp Hfuel.
  destruct (frames_prefix enc dec Hfs p Hp) as (e1 & d1 & part & -> & H1 & H2 & H3 & H4).
  destruct (decopy_frames e1 d1 H1 part EOF out t fuel) as (f' & Hf' & E); [lia|].
  rewrite E. destruct f' as [|f']; [lia|]. destruct (decide (part = [])) as [->|Hne].
  - exists d1, None. rewrite app_nil_r in *. split_and!; try done. intros Hpe. by destruct (H4 Hpe) as [_ ->].
  - destruct (torn_refused part (Writer (out ++ d1) []) (t + Z.of_nat (length d1)) f' H3 Hne) as [err E'].
    rewrite E'. exists d1, (Some err). split_and!; try done; [|intros Hpe; by destruct (H4 Hpe)].
    split; [done|]. intros Hfr. exfalso.
    destruct (decopy_frames (e1 ++ part) d1 Hfr [] EOF out t fuel) as (g & Hg & E2); [by rewrite app_nil_r|].
    rewrite app_nil_r in E2. rewrite E, E' in E2. by destruct g; [simpl in Hg; lia|].
Qed.

(** Decoding a whole stream into a good writer. *)
Lemma Decopy_frames enc dec out : frames enc dec ->
  Decopy (Writer out []) (Reader enc EOF) = Some (Z.of_nat (length dec), None, Writer (out ++ dec) []).
Proof.
  intros Hf. unfold Decopy. cbn [rd_data].
  destruct (decopy_prefix enc dec enc out 0 (S (length enc)) Hf) as (d & err & E & _ & _ & He); [done|lia|].
  destruct (He eq_refl) as [-> ->]. by rewrite E.
Qed.

(** ** The back-off of the encoder *)

(** A read that no encoding makes ten percent smaller. *)
Definition incompressible (ev : read_event) : Prop :=
  forall c, deflate (ev_data ev) = Ok c ->
    Z.of_nat (length (ev_data ev)) * 90 <= Z.of_nat (length c) * 100.

Definition probe_interval : Z := 256 * 1024.

(** The third miss, and every later one, is paid for by a skipped interval. *)
Record backoff_inv (st : copy_state) : Prop := {
  bi_misses : tally Attempted st = misses st;
  bi_skip : 0 <= skipBytes st <= probe_interval;
  bi_paid : 3 <= misses st -> (misses st - 2) * probe_interval <= total st + skipBytes st;
  bi_total : 0 <= total st;
}.

Definition probes_bounded (st : copy_state) : Prop :=
  (tally Attempted st - 3) * probe_interval <= total st /\ 0 <= total st.

Lemma backoff_bounded st : backoff_inv st -> probes_bounded st.
Proof. intros []. split; [|done]. unfold probe_interval in *. destruct (decide (3 <= misses st)); lia. Qed.

Lemma account_keeps obs n enc st : let st' := account obs n enc st in
  tally Attempted st' = tally Attempted st /\ misses st' = misses st /\
  skipBytes st' = skipBytes st /\ total st' = total st + Z.of_nat n.
Proof.
  cbv zeta. unfold account. set (st1 := mkCopy _ _ _ _ _ (mkStats _ _ _ _ _ _) _ _ _ _).
  split.
  - transitivity (tally Attempted (if 2 ^ 20 <=? InputBytes (stats st1) then flush obs st1 else st1)); [done|].
    case_match; by rewrite ?tally_flush.
  - unfold flush. by repeat case_match.
Qed.

Lemma choose_backoff obs ev st r st' : choose obs ev st = (r, st') -> incompressible ev ->
  backoff_inv st -> probes_bounded st' /\ (is_ok r = true -> forall w' enc,
    backoff_inv (account obs (length (ev_data ev)) enc (with_dst st' w'))).
Proof.
  intros HE Hinc HB.
  assert (forall st1, (exists o t, tally Attempted st1 = tally Attempted st + t /\
     misses st1 = misses st + t /\ total st1 = total st /\
     (t = 0 /\ skipBytes st1 = Z.max 0 (skipBytes st - o) /\ 0 <= o <= Z.of_nat (length (ev_data ev)) \/
      t = 1 /\ skipBytes st <= 0 /\ skipBytes st1 = if 3 <=? misses st1 then probe_interval else skipBytes st)) ->
     probes_bounded st1 /\ forall w' enc,
    backoff_inv (account obs (length (ev_data ev)) enc (with_dst st1 w'))) as Hacc.
  { intros st1 (o & t & Ht & Hm & Htot & Hc). destruct HB. split.
    { unfold probes_bounded, probe_interval in *. split; [|lia].
      destruct (decide (3 <= misses st)); destruct Hc as [(-> & ? & ?)|(-> & ? & ?)]; lia. }
    intros w' enc. set (n := length (ev_data ev)) in *.
    destruct (account_keeps obs n enc (with_dst st1 w')) as (E1 & E2 & E3 & E4).
    change (tally Attempted (with_dst st1 w')) with (tally Attempted st1) in E1.
    change (misses (with_dst st1 w')) with (misses st1) in E2.
    change (skipBytes (with_dst st1 w')) with (skipBytes st1) in E3.
    change (total (with_dst st1 w')) with (total st1) in E4.
    destruct Hc as [(-> & ? & ?)|(-> & ? & Hs)]; [|case_hyp Hs]; constructor; unfold probe_interval in *;
      rewrite ?E1, ?E2, ?E3, ?E4; lia. }
  unfold choose in HE. destruct (_ || _) eqn:Eb in HE.
  { injection HE as <- <-. refine (let K := Hacc _ _ in conj (proj1 K) (fun _ => proj2 K)).
    exists (Z.of_nat (length (ev_data ev))), 0. unfold tally. simpl. split_and!; lia. }
  apply orb_false_iff in Eb as [_ Hs%Z.ltb_ge]. destruct (deflate _) as [c|e] eqn:Ed.
  - specialize (Hinc c Ed). rewrite (proj2 (Z.ltb_ge _ _)) in HE by lia. injection HE as <- <-.
    refine (let K := Hacc _ _ in conj (proj1 K) (fun _ => proj2 K)).
    exists 0, 1. unfold tally. simpl. split_and!; try lia; right; done.
  - injection HE as <- <-. split; [|done]. by apply backoff_bounded in HB.
Qed.

Lemma copy_loop_backoff obs evs : forall st st' err, copy_loop obs evs st = (st', err) ->
  Forall incompressible evs -> backoff_inv st -> probes_bounded st'.
Proof.
  induction evs as [|ev evs IH]; intros st st' err HE HF HB.
  { injection HE as <- <-. by apply backoff_bounded. }
  apply Forall_cons in HF as [Hev HF]. cbn [copy_loop] in HE.
  destruct (copy_step obs ev st) as [st1 r] eqn:Es.
  assert (probes_bounded st1 /\ (r = None -> backoff_inv st1)) as [H1 H2].
  { unfold copy_step in Es. destruct (ev_data ev) eqn:Ed.
    { destruct (ev_err ev); injection Es as <- <-; (split; [by apply backoff_bounded|done]) ||
        (split; [apply backoff_bounded|intros _]; destruct HB; by constructor). }
    rewrite <-Ed in Es.
    assert (backoff_inv (with_empty st 0)) as HB0 by (destruct HB; by constructor).
    destruct (choose obs ev _) as [c st2] eqn:Ec.
    destruct (choose_backoff _ _ _ _ _ Ec Hev HB0) as [HP HA].
    destruct c as [[m data]|e]; [|injection Es as <- <-; done].
    destruct (write_checked _ _) as [[n [e|]] w'].
    - injection Es as <- <-. done.
    - injection Es as <- <-. specialize (HA eq_refl w' (length data)). auto using backoff_bounded. }
  destruct r; [injection HE as <- <-; done|]. eauto.
Qed.

(** The pool never holds more encoders than its channel's capacity. *)
Lemma pool_bounded_loop obs evs : forall st st' err, copy_loop obs evs st = (st', err) ->
  (pool st <= pool_cap)%nat -> (pool st' <= pool_cap)%nat.
Proof.
  assert (forall obs st, pool (flush obs st) = pool st) as Hfl by (intros; unfold flush; by case_match).
  assert (forall obs n e st, pool (account obs n e st) = pool st) as Hacc.
  { intros. unfold account. simpl. case_match; by rewrite ?Hfl. }
  induction evs as [|ev evs IH]; intros st st' err HE Hp; [by injection HE as <- <-|].
  cbn [copy_loop] in HE. destruct (copy_step obs ev st) as [st1 r] eqn:Es.
  assert (pool st1 <= pool_cap)%nat as Hp1; [|destruct r; [injection HE as <- <-; done|by eapply IH]].
  clear IH HE. unfold copy_step in Es. destruct (ev_data ev) eqn:Ed.
  { destruct (ev_err ev); by injection Es as <- <-. }
  rewrite <-Ed in Es. destruct (choose obs ev _) as [c st2] eqn:Ec.
  assert (pool st2 <= pool_cap)%nat.
  { unfold choose, encoder in Ec. repeat case_hyp Ec; injection Ec as <- <-; simpl; try done; try lia. }
  destruct c as [[m data]|e]; [|injection Es as <- <-; done].
  destruct (write_checked _ _) as [[n [e|]] w']; injection Es as <- <-; by rewrite ?Hacc.
Qed.

(** C15: the decoder always returns.  Whatever the bytes, the writer and the end of
    the source, what it has forwarded is the data of a sequence of well-formed
    frames at the front of the source, followed, only when a write failed, by a part
    of the next verified block; it reports success only for a source that is exactly
    such a sequence and ends in EOF, and on those it always succeeds. *)
Theorem decopy_exact :
  (forall w r, exists enc dec rest part t err w',
     Decopy w r = Some (t, err, w') /\ rd_data r = enc ++ rest /\ frames enc dec /\
     t = Z.of_nat (length dec) /\ wr_out w' = wr_out w ++ dec ++ part /\
     (part = [] \/ exists f b rest', frame f b /\ rest = f ++ rest' /\ part `prefix_of` b) /\
     (err = None -> rest = [] /\ part = [] /\ rd_end r = EOF)) /\
  (forall enc dec out, frames enc dec ->
     Decopy (Writer out []) (Reader enc EOF) =
     Some (Z.of_nat (length dec), None, Writer (out ++ dec) [])).
Proof.
  split.
  - intros w r. destruct (decopy_run (S (length (rd_data r))) r w 0)
      as (enc & dec & rest & part & t & err & w' & E & H1 & H2 & H3 & H4 & H5 & H6 & _); [lia|].
    exists enc, dec, rest, part, t, err, w'. split_and!; try done.
  - intros enc dec out Hf. by apply Decopy_frames.
Qed.

(** C14: end-to-end round trip.  Whatever the source delivers, however its reads are
    cut, whatever the writer does and whether or not statistics are observed,
    decoding what [CopyObserved] has written gives a prefix of the delivered data
    that covers at least the [total] bytes reported; when the encoder reports success
    the decoder succeeds too and gives exactly the delivered data. *)
Theorem copy_decopy_roundtrip plan src obs pl st err : reads_ok src ->
  CopyObserved (Writer [] plan) src obs pl = (st, err) ->
  exists out derr,
    Decopy (Writer [] []) (Reader (wr_out (dst st)) EOF) =
      Some (Z.of_nat (length out), derr, Writer out []) /\
    out `prefix_of` delivered src /\ total st <= Z.of_nat (length out) /\
    (err = None -> derr = None /\ out = delivered src).
Proof.
  intros Hok HE. destruct (CopyObserved_inv _ _ _ _ _ _ HE Hok)
    as (enc & dec & f & b & part & HI & Hf & [x ->] & Ho & Hd & HN). simpl in Ho.
  pose proof (ei_frames _ _ _ _ HI) as Hfs. rewrite Ho. unfold Decopy. cbn [rd_data].
  destruct (decopy_frames enc dec Hfs part EOF [] 0 (S (length (enc ++ part)))) as (fl & Hfl & ->); [lia|].
  assert (exists f' b', frames f' b' /\ part `prefix_of` f' /\ b' `prefix_of` b /\ (part = [] -> f' = []))
    as (f' & b' & Hf' & Hpf & Hb' & Hnil).
  { destruct (decide (part = [])) as [->|].
    - exists [], []. split_and!; try done; [constructor|apply prefix_nil].
    - exists (part ++ x), b. split_and!; try done. by apply prefix_app_r. }
  destruct (decopy_prefix f' b' part ([] ++ dec) (0 + Z.of_nat (length dec)) fl Hf' Hpf Hfl)
    as (d & derr & -> & H1 & _ & H3).
  exists (dec ++ d), derr. rewrite length_app. split_and!.
  - do 2 f_equal. f_equal. lia.
  - etrans; [|exact Hd]. apply prefix_app. by etrans.
  - rewrite (ei_total _ _ _ _ HI). lia.
  - intros He. destruct (HN He) as [-> ->]. rewrite (Hnil eq_refl) in *. destruct (H3 eq_refl) as [-> ->].
    split; [done|]. rewrite <-(app_nil_r (delivered src)) at 2. f_equal.
    inversion Hf' as [|? ? ? ? Hfr Hfs2 Ea]; [done|]. apply frame_length in Hfr. apply app_nil in Ea as [-> _].
    simpl in Hfr. lia.
Qed.

(** Truncation.  A stream cut anywhere decodes to a prefix of its data, and the
    decoder reports success exactly when the cut falls between two frames: a cut
    inside a frame is an error, never a clean end of stream. *)
Theorem decopy_truncated enc dec p out : frames enc dec -> p `prefix_of` enc ->
  exists d err,
    Decopy (Writer out []) (Reader p EOF) = Some (Z.of_nat (length d), err, Writer (out ++ d) []) /\
    d `prefix_of` dec /\ (err = None <-> frames p d).
Proof.
  intros Hf Hp. destruct (decopy_prefix enc dec p out 0 (S (length p)) Hf Hp)
    as (d & err & E & H1 & H2 & _); [lia|].
  exists d, err. unfold Decopy. cbn [rd_data]. by rewrite E.
Qed.

(** Accounting.  The reports handed to [observe] add up to the bytes accepted
    from the source, to the bytes of the complete frames written, the calls of
    [onPayload] add up to the same total, framing costs at most five bytes per
    block, and the pool of idle encoders stays within its two places. *)
Theorem copy_accounting w src pl st err : reads_ok src -> (pl <= pool_cap)%nat ->
  CopyObserved w src true pl = (st, err) ->
  exists frames_out part, wr_out (dst st) = wr_out w ++ frames_out ++ part /\
    (err = None -> part = []) /\
    foldr (fun s z => InputBytes s + z) 0 (reports st) = total st /\
    foldr (fun s z => OutputBytes s + z) 0 (reports st) = Z.of_nat (length frames_out) /\
    sum (payloads st) = total st /\
    Z.of_nat (length frames_out) <= total st + 5 * Z.of_nat (length (payloads st)) /\
    (pool st <= pool_cap)%nat.
Proof.
  intros Hok Hpl HE. destruct (CopyObserved_inv _ _ _ _ _ _ HE Hok)
    as (enc & dec & f & b & part & HI & _ & _ & Ho & _ & HN). exists enc, part.
  unfold CopyObserved in HE. destruct (copy_loop _ _ _) as [st1 e] eqn:El. injection HE as <- <-.
  apply pool_bounded_loop in El as Hp; [|done].
  assert (InputBytes (stats (finish true st1)) = 0 /\ OutputBytes (stats (finish true st1)) = 0) as [Z1 Z2].
  { pose proof (ei_pending _ _ _ _ HI) as HK. revert HK. unfold finish, flush, pending_ok. simpl.
    destruct (0 <? _) eqn:E0; simpl; [done|]. apply Z.ltb_ge in E0. lia. }
  destruct HI as [_ Ht Hi Hu Hs Hv _]. unfold tally in Hi, Hu. rewrite Z1 in Hi. rewrite Z2 in Hu.
  rewrite Ht. split_and!; try done; try lia; [by intros [? _]%HN|].
  unfold finish, flush, release. repeat (case_match; simpl); try case_bool_decide; unfold pool_cap in *; try lia.
Qed.

(** Back-off.  On input that does not compress by ten percent, the encoder is
    tried at most three times plus once for every 256 KiB sent, whatever the
    writer does. *)
Theorem copy_backoff w src obs pl st err : Forall incompressible src ->
  CopyObserved w src obs pl = (st, err) ->
  tally Attempted st <= 3 + total st / probe_interval.
Proof.
  intros HF HE. unfold CopyObserved in HE. destruct (copy_loop _ _ _) as [st1 e] eqn:El.
  injection HE as <- <-. apply copy_loop_backoff in El as [HB Ht]; [|done|].
  - assert (tally Attempted (finish obs st1) = tally Attempted st1) as -> by (by apply (tally_flush Attempted)).
    assert (total (finish obs st1) = total st1) as -> by (unfold finish, flush; by case_match).
    assert (tally Attempted st1 - 3 <= total st1 / probe_interval); [|lia].
    apply Z.div_le_lower_bound; [done|]. lia.
  - constructor; simpl; unfold probe_interval; lia || done.
Qed.
End codec.

(** ** A concrete codec: runs of one byte, and stored blocks *)
Definition run_deflate (b : bytes) : res bytes :=
  match b with
  | x :: _ => if bool_decide (b = replicate (length b) x) && (Z.of_nat (length b) <? 65536)
              then Ok (Byte.x01 :: x :: be16 (Z.of_nat (length b)))
              else Ok (Byte.x02 :: b)
  | [] => Ok [Byte.x02]
  end.
Definition run_inflate (c : bytes) : bytes * error * nat :=
  match c with
  | Byte.x01 :: x :: hi :: lo :: rest =>
      (replicate (Z.to_nat (get_be16 [hi; lo])) x, EOF, length rest)
  | Byte.x02 :: b => (b, EOF, 0%nat)
  | [] => ([], ErrUnexpectedEOF, 0%nat)
  | _ => ([], ErrNew "flate: corrupt input", 0%nat)
  end.
#[local] Instance run_flate : Flate := {| deflate := run_deflate; inflate := run_inflate |}.
#[local] Instance run_flate_laws : FlateLaws.
Proof.
  split; [|done]. intros b c. simpl. unfold run_deflate. destruct b as [|x b]; [by intros [= <-]|].
  destruct (_ && _) eqn:E; intros [= <-]; [|done]. apply andb_true_iff in E as [E1 E2].
  apply bool_decide_eq_true in E1. apply Z.ltb_lt in E2.
  assert (forall n, run_inflate (Byte.x01 :: x :: be16 n) =
    (replicate (Z.to_nat (get_be16 (be16 n))) x, EOF, 0%nat)) as -> by done.
  rewrite <-(app_nil_r (be16 _)), get_be16_be16 by (cbn [length] in *; lia). rewrite Nat2Z.id. do 2 f_equal. symmetry. exact E1.
Qed.

(** A source of a compressible block, a short one and an empty read before EOF. *)
Definition example_source : list read_event :=
  [mkRead (replicate 300 (ch "a")) None 7; mkRead (bs "hello") None 0;
   mkRead [] None 0; mkRead (bs "bye") (Some EOF) 0].

Lemma example_source_ok : reads_ok example_source.
Proof. repeat constructor; pose proof blockSize_Z; simpl; lia. Qed.

Lemma copy_decopy_roundtrip_witness : exists st,
  CopyObserved (Writer [] []) example_source true 1 = (st, None) /\ total st = 308 /\
  exists out derr, Decopy (Writer [] []) (Reader (wr_out (dst st)) EOF) =
      Some (Z.of_nat (length out), derr, Writer out []) /\
    out `prefix_of` delivered example_source /\ total st <= Z.of_nat (length out) /\
    (None = @None error -> derr = None /\ out = delivered example_source).
Proof.
  eexists. split; [vm_compute; reflexivity|]. split; [reflexivity|].
  apply (copy_decopy_roundtrip [] example_source true 1 _ None example_source_ok). vm_compute. reflexivity.
Defined.

Lemma copy_accounting_witness : exists st,
  CopyObserved (Writer [] [None; Some (3%nat, None)]) example_source true 1 =
    (st, Some ErrShortWrite) /\ total st = 300 /\
  exists frames_out part, wr_out (dst st) = [] ++ frames_out ++ part /\
    (Some ErrShortWrite = None -> part = []) /\
    foldr (fun s z => InputBytes s + z) 0 (reports st) = total st /\
    foldr (fun s z => OutputBytes s + z) 0 (reports st) = Z.of_nat (length frames_out) /\
    sum (payloads st) = total st /\
    Z.of_nat (length frames_out) <= total st + 5 * Z.of_nat (length (payloads st)) /\
    (pool st <= pool_cap)%nat.
Proof.
  eexists. split; [vm_compute; reflexivity|]. split; [reflexivity|].
  apply (copy_accounting (Writer [] [None; Some (3%nat, None)]) example_source 1 _ (Some ErrShortWrite)
    example_source_ok).
  - unfold pool_cap. lia.
  - vm_compute. reflexivity.
Defined.

(** Four distinct bytes repeated: the stored form is larger than its input. *)
Definition noise : bytes := concat (replicate 64 (bs "abcd")).

Lemma copy_backoff_witness : exists st,
  CopyObserved (Writer [] []) (replicate 5 (mkRead noise None 0)) false 0 = (st, None) /\
  tally Attempted st = 3 /\ tally Attempted st <= 3 + total st / probe_interval.
Proof.
  eexists. split; [vm_compute; reflexivity|]. split; [reflexivity|].
  apply (copy_backoff (Writer [] []) (replicate 5 (mkRead noise None 0)) false 0 _ None).
  - apply Forall_replicate. intros c Hc. vm_compute in Hc. injection Hc as <-. vm_compute. discriminate.
  - vm_compute. reflexivity.
Defined.

Lemma decopy_truncated_witness : exists enc, frames enc (bs "hello") /\
  exists d err, Decopy (Writer [] []) (Reader (take 7 enc) EOF) =
    Some (Z.of_nat (length d), err, Writer ([] ++ d) []) /\
  d `prefix_of` bs "hello" /\ (err = None <-> frames (take 7 enc) d).
Proof.
  pose proof blockSize_Z.
  assert (frames (header markerRaw 5 5 ++ bs "hello") (bs "hello")) as Hf.
  { apply frames_one, (frame_raw (bs "hello")). simpl. lia. }
  exists (header markerRaw 5 5 ++ bs "hello"). split; [exact Hf|].
  apply (decopy_truncated _ _ (take 7 (header markerRaw 5 5 ++ bs "hello")) [] Hf). apply prefix_take.
Defined.

Lemma decopy_exact_witness : Decopy (Writer [] []) (Reader (header markerRaw 5 5 ++ bs "hello") EOF) =
  Some (5, None, Writer (bs "hello") []).
Proof.
  pose proof blockSize_Z. refine (proj2 decopy_exact _ (bs "hello") [] _).
  apply frames_one, (frame_raw (bs "hello")). simpl. lia.
Defined.
