(* ===== verification/Relay.v ===== *)
(** * Relaying one direction of a connection

    The copying code shared by [pipe] of [internal/server/server.go] and [relay] of
    [internal/proxy/proxy.go]: [io.Copy], or the block codec of package compress, from a
    source given as a script of reads. *)
From S2P Require Import Prelude Compress.

(** ** io.Copy *)

(** [io.Copy]: each read is written out; the reads are a script as in [CopyObserved]. *)
Fixpoint io_Copy (w : writer) (src : list read_event) : writer * option error :=
  match src with
  | [] => (w, None)
  | ev :: src' =>
      match ev_data ev with
      | [] => match after_read (ev_err ev) with
              | Some e => (w, e)
              | None => io_Copy w src'
              end
      | _ =>
          match write_checked w (ev_data ev) with
          | (_, Some e, w') => (w', Some e)
          | (_, None, w') =>
              match after_read (ev_err ev) with
              | Some e => (w', e)
              | None => io_Copy w' src'
              end
          end
      end
  end.

(** A script as a stream: the bytes it delivers and the error it ends with. *)
Fixpoint script_end (src : list read_event) : error :=
  match src with
  | [] => EOF
  | ev :: src' => match ev_err ev with Some e => e | None => script_end src' end
  end.
Definition script_reader (src : list read_event) : reader := Reader (delivered src) (script_end src).

(** A script that ends cleanly. *)
Definition clean (src : list read_event) : Prop := forall ev, ev ∈ src -> ev_err ev = None \/ ev_err ev = Some EOF.

Section relay.
Context `{Flate}.

(** The side that puts application bytes on the tunnel stream. *)
Definition relay_send (compressed observing : bool) (w : writer) (src : list read_event) (pool : nat)
    : writer * option error :=
  if compressed then let '(st, e) := CopyObserved w src observing pool in (dst st, e)
  else io_Copy w src.

(** The side that takes them off it ([None] only if the decoder ran out of its fuel,
    which it never does). *)
Definition relay_recv (compressed : bool) (w : writer) (str : list read_event) : option (writer * option error) :=
  if compressed then (fun '(_, e, w') => (w', e)) <$> Decopy w (script_reader str)
  else Some (io_Copy w str).
End relay.

(** ** Transparency *)

Lemma io_Copy_good src out : clean src -> io_Copy (Writer out []) src = (Writer (out ++ delivered src) [], None).
Proof.
  revert out. induction src as [|ev src IH]; intros out Hev; [by rewrite app_nil_r|].
  assert (clean src) as Hsrc by (intros e He; apply Hev; by right).
  destruct (Hev ev ltac:(left)) as [He|He]; cbn [io_Copy delivered]; rewrite He; cbn [after_read].
  - destruct (ev_data ev) as [|b d] eqn:Ed; [by apply IH|]. rewrite write_checked_good, IH by done.
    by rewrite <-app_assoc.
  - destruct (ev_data ev) as [|b d] eqn:Ed; [by rewrite !app_nil_r|]. rewrite write_checked_good. by rewrite app_nil_r.
Qed.

Lemma script_end_EOF src : clean src -> script_end src = EOF.
Proof.
  induction src as [|ev src IH]; intros Hev; [done|]. cbn.
  destruct (Hev ev ltac:(left)) as [-> | ->]; [|done]. apply IH. intros e He. apply Hev. by right.
Qed.

(** What one side sends for a clean source the other turns back into its bytes, however
    the stream is cut into reads. *)
Lemma relay_chain `{FL : FlateLaws} compressed observing src cuts pool w :
  clean src -> clean cuts -> reads_ok src ->
  relay_send compressed observing (Writer [] []) src pool = (w, None) -> delivered cuts = wr_out w ->
  relay_recv compressed (Writer [] []) cuts = Some (Writer (delivered src) [], None).
Proof.
  intros Hsrc Hcuts Hok HD Hdel. unfold relay_recv, relay_send in *. destruct compressed.
  - destruct (CopyObserved _ _ _ _) as [st e] eqn:Ec. injection HD as <- ->.
    destruct (CopyObserved_inv _ _ _ _ _ _ Ec Hok) as (enc & dec & f & b & part & HI & _ & _ & Ho & _ & HN).
    destruct (HN eq_refl) as [-> ->]. rewrite app_nil_r in Ho. cbn in Ho.
    unfold script_reader. rewrite script_end_EOF by done. rewrite Hdel, Ho.
    by rewrite (Decopy_frames enc (delivered src) []) by apply HI.
  - rewrite io_Copy_good in HD by done. injection HD as <-. cbn in Hdel. rewrite io_Copy_good by done. by rewrite Hdel.
Qed.
