(* ===== verification/Joining.v ===== *)
(** * Handlers that join their copiers

    The concurrent skeleton of [relay] (internal/proxy/proxy.go), [pipe]
    (internal/server/server.go) and the UDP association (internal/proxy/socks_udp.go):
    each starts goroutines that copy between two endpoints and put one result on a buffered
    channel, collects results, closes both endpoints in the cases its code names, and has a
    context callback that closes them too.  What the copiers transfer is the matter of
    [Relay], [Proxy] and [Socks]; here it is that the handler always joins them and leaves
    nothing behind. *)
From S2P Require Import Prelude.

(** ** The three handlers *)

(** What the collector does next: the [select] of the association (the context or a first
    result), a loop that receives [n] more results, or nothing: it returned. *)
Inductive collector := Select | Loop (n : nat) | Returned.
#[export] Instance collector_eq_dec : EqDecision collector.
Proof. solve_decision. Defined.

(** The numbers and choices each source states: how many goroutines it starts, the capacity
    of the channel, how the collector starts, how many results are left to receive when the
    [select] took none, the results on which the loop closes both endpoints, whether they
    are closed on the way out, and which goroutines wait for the context. *)
Record join_policy := mkPolicy {
  jp_goroutines : nat; jp_capacity : nat; jp_start : collector; jp_remaining : nat;
  jp_abort : option error -> bool; jp_close_at_end : bool; jp_waits_ctx : nat -> bool;
}.
Definition relay_policy : join_policy :=
  mkPolicy 2 2 (Loop 2) 0 (fun err => bool_decide (is_Some err)) true (fun _ => false).
Definition pipe_policy : join_policy :=
  mkPolicy 2 2 (Loop 2) 0 (fun err => bool_decide (is_Some err)) false (fun _ => false).
Definition association_policy : join_policy :=
  mkPolicy 3 3 Select 3 (fun _ => false) true (fun i => bool_decide (i = 1%nat)).

(** A goroutine copies, puts its result on the channel, or is gone. *)
Inductive jworker := JRun | JSend (err : option error) | JEnd.
Record join := mkJoin {
  jn_ctx : bool; jn_closed : bool; jn_workers : gmap nat jworker; jn_results : list (option error);
  jn_got : list (option error); jn_collector : collector;
}.
Definition join_init (p : join_policy) : join :=
  mkJoin false false (map_seq 0 (replicate (jp_goroutines p) JRun)) [] [] (jp_start p).

Definition set_jworker (i : nat) (w : jworker) (s : join) : join :=
  mkJoin (jn_ctx s) (jn_closed s) (<[i := w]> (jn_workers s)) (jn_results s) (jn_got s) (jn_collector s).
Definition join_send (i : nat) (err : option error) (s : join) : join :=
  mkJoin (jn_ctx s) (jn_closed s) (<[i := JEnd]> (jn_workers s)) (jn_results s ++ [err]) (jn_got s) (jn_collector s).
Definition join_close (s : join) : join := mkJoin (jn_ctx s) true (jn_workers s) (jn_results s) (jn_got s) (jn_collector s).
Definition join_cancel (s : join) : join := mkJoin true (jn_closed s) (jn_workers s) (jn_results s) (jn_got s) (jn_collector s).

(** The [select] and what follows it up to the loop: the context, or a first result; then
    cancel, and close both. *)
Definition select_ctx (p : join_policy) (s : join) : join :=
  mkJoin true true (jn_workers s) (jn_results s) (jn_got s) (Loop (jp_remaining p)).
Definition select_done (p : join_policy) (err : option error) (rest : list (option error)) (s : join) : join :=
  mkJoin true true (jn_workers s) rest (jn_got s ++ [err]) (Loop (jp_remaining p - 1)).
(** The loop takes a result. *)
Definition join_collect (p : join_policy) (n : nat) (err : option error) (rest : list (option error)) (s : join) : join :=
  mkJoin (jn_ctx s) (jn_closed s || jp_abort p err) (jn_workers s) rest (jn_got s ++ [err]) (Loop n).
Definition join_return (p : join_policy) (s : join) : join :=
  mkJoin (jn_ctx s) (jn_closed s || jp_close_at_end p) (jn_workers s) (jn_results s) (jn_got s) Returned.

(** The steps a handler makes without anything arriving: a copy on closed endpoints (one
    that waits for the context, under a cancelled one) returns, a result is sent if the
    channel has room, the callback of a cancelled context closes the endpoints unless the
    handler has returned and stopped it, and the collector goes on. *)
Inductive join_own (p : join_policy) : join -> join -> Prop :=
| j_unblock s i err : jn_workers s !! i = Some JRun -> jn_closed s = true -> (jp_waits_ctx p i = true -> jn_ctx s = true) ->
    join_own p s (set_jworker i (JSend err) s)
| j_send s i err : jn_workers s !! i = Some (JSend err) -> (length (jn_results s) < jp_capacity p)%nat -> join_own p s (join_send i err s)
| j_callback s : jn_ctx s = true -> jn_closed s = false -> jn_collector s <> Returned -> join_own p s (join_close s)
| j_select_ctx s : jn_collector s = Select -> jn_ctx s = true -> join_own p s (select_ctx p s)
| j_select_done s err rest : jn_collector s = Select -> jn_results s = err :: rest -> join_own p s (select_done p err rest s)
| j_collect s n err rest : jn_collector s = Loop (S n) -> jn_results s = err :: rest -> join_own p s (join_collect p n err rest s)
| j_return s : jn_collector s = Loop 0 -> join_own p s (join_return p s).

(** And with the environment: a copy comes to its end, the context is cancelled. *)
Inductive join_step (p : join_policy) : join -> join -> Prop :=
| js_own s s' : join_own p s s' -> join_step p s s'
| js_copied s i err : jn_workers s !! i = Some JRun -> join_step p s (set_jworker i (JSend err) s)
| js_cancel s : join_step p s (join_cancel s).

(** ** Invariant *)
Definition unfinished (w : jworker) : bool := match w with JEnd => false | _ => true end.

(** The numbers of a policy fit: the channel has room for every goroutine, and all results
    are collected. *)
Record fits (p : join_policy) : Prop := {
  ft_room : (jp_goroutines p <= jp_capacity p)%nat;
  ft_start : jp_start p = Loop (jp_goroutines p) /\ (forall i, jp_waits_ctx p i = false) \/
             jp_start p = Select /\ jp_remaining p = jp_goroutines p /\ (1 <= jp_goroutines p)%nat /\ forall err, jp_abort p err = false;
}.

(** Results still to be received. *)
Definition to_receive (p : join_policy) (s : join) : nat :=
  match jn_collector s with Select => jp_remaining p | Loop n => n | Returned => 0 end.
Definition returned (s : join) : Prop := jn_collector s = Returned.

(** An error that the loop closes the endpoints for was received. *)
Definition aborted (p : join_policy) (s : join) : Prop := exists err, err ∈ jn_got s /\ jp_abort p err = true.

Record join_inv (p : join_policy) (s : join) : Prop := {
  ji_count : (length (jn_results s) + length (jn_got s) + mcount unfinished (jn_workers s) = jp_goroutines p)%nat;
  ji_left : (to_receive p s + length (jn_got s) = jp_goroutines p)%nat;
  ji_abort : forall err, err ∈ jn_got s -> jp_abort p err = true -> jn_closed s = true;
  ji_closed : jn_closed s = true -> jn_ctx s = true \/ aborted p s \/ returned s /\ jp_close_at_end p = true;
  ji_end : returned s -> jp_close_at_end p = true -> jn_closed s = true;
  ji_select : jp_start p = Select -> jn_collector s <> Select -> jn_ctx s = true /\ jn_closed s = true;
  ji_first : jp_start p = Select -> jn_collector s = Select -> jn_got s = [];
  ji_loop : jp_start p <> Select -> jn_collector s <> Select;
}.

Lemma mcount_replicate start n : mcount unfinished (map_seq start (replicate n JRun) : gmap nat jworker) = n.
Proof.
  revert start. induction n as [|n IH]; intros start; [done|]. cbn [replicate]. rewrite map_seq_cons, mcount_insert_new.
  - cbn. by rewrite IH.
  - apply lookup_map_seq_None. lia.
Qed.

Lemma join_inv_init p : fits p -> join_inv p (join_init p).
Proof.
  intros [_ Hs]. split; unfold to_receive, returned; cbn; try done; try (by destruct Hs as [[-> _]|(-> & _)]).
  - apply mcount_replicate.
  - destruct Hs as [[-> _]|(-> & -> & _)]; lia.
  - set_solver.
Qed.

Lemma set_jworker_count (m : gmap nat jworker) i w w' : m !! i = Some w -> unfinished w = true ->
  (mcount unfinished (<[i := w']> m) + 1 = mcount unfinished m + if unfinished w' then 1 else 0)%nat.
Proof. intros Hi Hw. pose proof (mcount_insert_old unfinished m i w' w Hi) as Hm. rewrite Hw in Hm. lia. Qed.

Lemma join_inv_copied p s i err : jn_workers s !! i = Some JRun -> join_inv p s -> join_inv p (set_jworker i (JSend err) s).
Proof.
  intros Hi []. pose proof (set_jworker_count _ i _ (JSend err) Hi eq_refl) as Hm. cbn in Hm.
  by split; cbn; [lia|..].
Qed.

Lemma join_inv_collect p s n err rest : jn_collector s = Loop (S n) -> jn_results s = err :: rest -> join_inv p s ->
  join_inv p (join_collect p n err rest s).
Proof.
  intros Hk Hd [C L A K E S F O]. unfold to_receive, returned, aborted in *. rewrite Hd in C. rewrite Hk in *. cbn in C.
  split; unfold to_receive, returned, aborted; cbn; try done.
  - rewrite length_app. cbn. lia.
  - rewrite length_app. cbn. lia.
  - intros e [He|He%list_elem_of_singleton]%elem_of_app Ha; [by rewrite (A e He Ha)|]. subst e. rewrite Ha. apply orb_true_r.
  - intros [Hc|Ha]%orb_true_iff; [|right; left; exists err; set_solver].
    destruct (K Hc) as [->|[(e & He & Ha)|[? _]]]; [by left|right; left; exists e; set_solver|done].
  - intros Hs _. destruct (S Hs ltac:(done)) as [-> ->]. done.
Qed.

Lemma join_inv_step p s s' : fits p -> join_step p s s' -> join_inv p s -> join_inv p s'.
Proof.
  intros [_ Hf] Hst HI. destruct Hst as [s s' Ho|s i err Hi|s]; [|by apply join_inv_copied|].
  2:{ destruct HI as [C L A K E S F O]. split; cbn; try done; [by left|]. intros Hs Hk. by destruct (S Hs Hk). }
  destruct Ho as [s i err Hi Hc Hw|s i err Hi Hl|s Hx Hc Hn|s Hk Hx|s err rest Hk Hd|s n err rest Hk Hd|s Hk];
    [by apply join_inv_copied| | | | |by apply join_inv_collect|]; destruct HI as [C L A K E S F O]; unfold to_receive, returned, aborted in *.
  - pose proof (set_jworker_count _ i _ JEnd Hi eq_refl) as Hm. cbn in Hm. split; cbn; try done. rewrite length_app. cbn. lia.
  - split; unfold returned; cbn; try done. by left.
  - rewrite Hk in *. split; unfold to_receive, returned; cbn; try done. by left.
  - rewrite Hd in C. rewrite Hk in *. cbn in C. destruct Hf as [[Hs _]|(Hs & Hr & Hg & Ha)]; [by destruct (O ltac:(by rewrite Hs))|].
    pose proof (F Hs eq_refl) as Hg0. rewrite Hg0 in C, L. cbn in C, L.
    split; unfold to_receive, returned; cbn; rewrite ?Hg0; cbn; try done; try lia; by left.
  - rewrite Hk in *. split; unfold to_receive, returned, aborted in *; cbn; try done.
    + intros e He Ha. by rewrite (A e He Ha).
    + intros [Hc|Ha]%orb_true_iff; [|by right; right]. destruct (K Hc) as [?|[?|[? _]]]; [by left|by right; left|done].
    + intros _ ->. apply orb_true_r.
    + intros Hs _. destruct (S Hs ltac:(done)) as [-> ->]. done.
Qed.

Lemma join_reach p s : fits p -> rtc (join_step p) (join_init p) s -> join_inv p s.
Proof.
  intros Hf Hst. generalize (join_inv_init p Hf). induction Hst as [|s s1 s2 H1 _ IH]; intros HI; [done|]. apply IH. by eapply join_inv_step.
Qed.

Lemma join_room p s i w : fits p -> join_inv p s -> jn_workers s !! i = Some w -> unfinished w = true ->
  (length (jn_results s) < jp_capacity p)%nat.
Proof.
  intros [Hr _] HI Hi Hw. pose proof (ji_count p s HI). pose proof (set_jworker_count _ i _ JEnd Hi Hw) as Hm. cbn in Hm. lia.
Qed.

(** Until it returned, a handler whose context is cancelled or whose endpoints are closed
    has a step. *)
Lemma join_progress p s : fits p -> join_inv p s -> jn_closed s = true \/ jn_ctx s = true -> returned s \/ exists s', join_own p s s'.
Proof.
  intros Hf HI Hgo. destruct (decide (jn_collector s = Returned)) as [|Hr]; [by left|right].
  destruct (jn_closed s) eqn:Hc; [|destruct Hgo as [?|Hx]; [done|]; eexists; by apply j_callback].
  destruct (decide (map_Forall (fun _ w => unfinished w = false) (jn_workers s))) as [HF|HF].
  - assert (mcount unfinished (jn_workers s) = 0%nat) as Hm.
    { unfold mcount. apply map_size_empty_iff, map_empty_filter_2. intros i w Hw. cbn. by rewrite (HF i w Hw). }
    pose proof (ji_count p s HI) as C. pose proof (ji_left p s HI) as L. unfold to_receive in L.
    destruct (jn_collector s) as [|[|n]|] eqn:Hk; [|by eexists; apply j_return| |done].
    + destruct (jn_results s) as [|err rest] eqn:Hd; [|by eexists; eapply j_select_done].
      destruct Hf as [_ [[Hs _]|(Hs & _ & Hg & _)]]; [by destruct (ji_loop p s HI ltac:(by rewrite Hs))|].
      rewrite (ji_first p s HI Hs Hk) in C. cbn in C. lia.
    + destruct (jn_results s) as [|err rest] eqn:Hd; [cbn in C; lia|]. by eexists; eapply j_collect.
  - apply map_not_Forall in HF as (i & w & Hw & Hu%not_false_is_true); [|solve_decision].
    destruct w as [|err|]; [|eexists; eapply j_send; [done|by eapply join_room]|done].
    destruct (jp_waits_ctx p i) eqn:Ew; [|by eexists; apply (j_unblock p s i None); [..|rewrite Ew]].
    destruct (ji_closed p s HI Hc) as [Hx|[(e & He & Ha)|[? _]]]; [by eexists; apply (j_unblock p s i None)| |done].
    destruct Hf as [_ [[_ Hn]|(_ & _ & _ & Hn)]]; congruence.
Qed.

(** The steps a handler has left. *)
Definition jworker_left (w : jworker) : nat := match w with JRun => 4 | JSend _ => 3 | JEnd => 0 end.
Definition workers_left (m : gmap nat jworker) : nat := map_fold (fun _ w n => jworker_left w + n)%nat 0%nat m.
Definition collector_left (k : collector) : nat := match k with Select => 2 | Loop _ => 1 | Returned => 0 end.
Definition join_left (s : join) : nat :=
  workers_left (jn_workers s) + 2 * length (jn_results s) + collector_left (jn_collector s) + (if jn_closed s then 0 else 1).

Lemma workers_left_insert m i w w' : m !! i = Some w ->
  (workers_left (<[i := w']> m) + jworker_left w = workers_left m + jworker_left w')%nat.
Proof.
  intros Hi. unfold workers_left. rewrite <- (insert_delete_id m i w Hi) at 2. rewrite <- (insert_delete_eq m i w').
  rewrite !map_fold_insert_L by (apply lookup_delete_eq || (intros; lia)). lia.
Qed.

Lemma join_own_less p s s' : join_own p s s' -> (join_left s' < join_left s)%nat.
Proof.
  unfold join_left.
  intros [s0 i err Hi Hc Hw|s0 i err Hi Hl|s0 Hx Hc Hn|s0 Hk Hx|s0 err rest Hk Hd|s0 n err rest Hk Hd|s0 Hk]; cbn; rewrite ?Hk, ?Hd; cbn.
  - pose proof (workers_left_insert _ i _ (JSend err) Hi). cbn in *. lia.
  - pose proof (workers_left_insert _ i _ JEnd Hi). rewrite length_app. cbn in *. lia.
  - rewrite Hc. lia.
  - destruct (jn_closed s0); lia.
  - destruct (jn_closed s0); lia.
  - destruct (jn_closed s0), (jp_abort p err); cbn; lia.
  - destruct (jn_closed s0), (jp_close_at_end p); cbn; lia.
Qed.

(** ** Properties *)

(** What a handler with [n] goroutines promises: none blocks on the channel; when it
    returns every goroutine is gone and every result was received; once the endpoints
    are closed or the context is cancelled it has a step of its own until it returned, of
    which only boundedly many remain. *)
Definition joins (n : nat) (p : join_policy) (s : join) : Prop :=
  (forall i err, jn_workers s !! i = Some (JSend err) -> join_own p s (join_send i err s)) /\
  (returned s -> (forall i w, jn_workers s !! i = Some w -> w = JEnd) /\ jn_results s = [] /\ length (jn_got s) = n) /\
  (jn_closed s = true \/ jn_ctx s = true -> returned s \/ exists s', join_own p s s') /\
  (forall k s', nsteps (join_own p) k s s' -> (k <= join_left s)%nat).

(** Both endpoints are closed as soon as an error is received; and before the return only
    for that or for the context: a clean end of one direction leaves the other running. *)
Definition closes_on_error (s : join) : Prop :=
  (forall e, Some e ∈ jn_got s -> jn_closed s = true) /\
  (jn_closed s = true -> ~ returned s -> jn_ctx s = true \/ exists e, Some e ∈ jn_got s).

Lemma policy_joins p s : fits p -> rtc (join_step p) (join_init p) s -> joins (jp_goroutines p) p s.
Proof.
  intros Hf HR. pose proof (join_reach p s Hf HR) as HI. split_and!.
  - intros i err Hi. apply j_send; [done|]. by eapply join_room.
  - intros Hr. pose proof (ji_count p s HI) as C. pose proof (ji_left p s HI) as L. unfold to_receive in L. rewrite Hr in L.
    split_and!; [|apply nil_length_inv; lia|lia].
    intros i w Hw. destruct (unfinished w) eqn:Hu; [|by destruct w].
    pose proof (set_jworker_count _ i _ JEnd Hw Hu) as Hm. cbn in Hm. lia.
  - by apply join_progress.
  - intros k s' Hn. clear HI HR. induction Hn as [|k s s1 s2 H1 _ IH]; [lia|]. pose proof (join_own_less _ _ _ H1). lia.
Qed.

Lemma relay_fits : fits relay_policy.
Proof. split; cbn; [lia|by left]. Qed.
Lemma pipe_fits : fits pipe_policy.
Proof. split; cbn; [lia|by left]. Qed.
Lemma association_fits : fits association_policy.
Proof. split; cbn; [lia|right; split_and!; [done|done|lia|done]]. Qed.

Lemma errors_close p s : fits p -> (forall err, jp_abort p err = bool_decide (is_Some err)) ->
  rtc (join_step p) (join_init p) s -> closes_on_error s.
Proof.
  intros Hf Ha HR. pose proof (join_reach p s Hf HR) as HI. split.
  - intros e He. eapply (ji_abort p s HI); [done|]. by rewrite Ha.
  - intros Hc Hr. destruct (ji_closed p s HI Hc) as [?|[(err & He & Hx)|[? _]]]; [by left| |done].
    right. rewrite Ha in Hx. apply bool_decide_eq_true in Hx as [e ->]. eauto.
Qed.

(** C30: the handlers join their copiers, in every interleaving of the copiers, the collector,
    the context and its callback.  [relay] and [pipe] have two copiers and close both
    endpoints as soon as they receive an error, and otherwise before their end only for a
    cancelled context, so a clean end of one direction leaves the other running; [relay]
    closes both at its end, [pipe] leaves them as they are if both directions ended cleanly.
    The association has three: the first of them to end, or the context, cancels and closes
    everything, and nothing else does.  None blocks on the channel; a handler that returned
    has received every result and left no goroutine; and once its endpoints are closed or
    its context is cancelled, it always goes on and returns after boundedly many steps. *)
Theorem handler_joins :
  (forall s, rtc (join_step relay_policy) (join_init relay_policy) s ->
     joins 2 relay_policy s /\ closes_on_error s /\ (returned s -> jn_closed s = true)) /\
  (forall s, rtc (join_step pipe_policy) (join_init pipe_policy) s ->
     joins 2 pipe_policy s /\ closes_on_error s /\
     (returned s -> jn_closed s = true -> jn_ctx s = true \/ exists e, Some e ∈ jn_got s)) /\
  (forall s, rtc (join_step association_policy) (join_init association_policy) s ->
     joins 3 association_policy s /\ (jn_got s <> [] -> jn_ctx s = true /\ jn_closed s = true) /\
     (jn_closed s = true -> jn_ctx s = true) /\ (returned s -> jn_closed s = true)).
Proof.
  split_and!; intros s HR.
  - pose proof (join_reach _ s relay_fits HR) as HI. split_and!; [by apply policy_joins, HR; apply relay_fits|by eapply errors_close; [apply relay_fits|..]|].
    intros Hr. by apply (ji_end _ s HI).
  - pose proof (join_reach _ s pipe_fits HR) as HI. split_and!; [by apply policy_joins, HR; apply pipe_fits|by eapply errors_close; [apply pipe_fits|..]|].
    intros _ Hc. destruct (ji_closed _ s HI Hc) as [?|[(err & He & Hx)|[_ ?]]]; [by left| |done].
    right. cbn in Hx. apply bool_decide_eq_true in Hx as [e ->]. eauto.
  - pose proof (join_reach _ s association_fits HR) as HI. split_and!; [by apply policy_joins, HR; apply association_fits|..].
    + intros Hg. apply (ji_select _ s HI); [done|]. intros Hk. by apply Hg, (ji_first _ s HI).
    + intros Hc. destruct (ji_closed _ s HI Hc) as [?|[(err & He & Hx)|[Hr _]]]; [done|done|].
      apply (ji_select _ s HI); [done|]. by rewrite Hr.
    + intros Hr. by apply (ji_end _ s HI).
Qed.

(** ** A concrete run: a relay whose upload fails *)
Definition join1 : join := join_send 0 (Some EOF) (set_jworker 0 (JSend (Some EOF)) (join_init relay_policy)).
Definition join2 : join := join_collect relay_policy 1 (Some EOF) [] join1.

Lemma handler_joins_witness : rtc (join_step relay_policy) (join_init relay_policy) join2 /\ jn_closed join2 = true /\
  exists s', join_own relay_policy join2 s'.
Proof.
  assert (rtc (join_step relay_policy) (join_init relay_policy) join2) as Hst.
  { eapply rtc_l; [apply (js_copied _ _ 0 (Some EOF)); reflexivity|].
    eapply rtc_l; [apply js_own, (j_send _ _ 0 (Some EOF)); [reflexivity|cbn; lia]|].
    eapply rtc_l; [apply js_own, (j_collect _ _ 1 (Some EOF) []); reflexivity|]. apply rtc_refl. }
  split; [exact Hst|]. destruct handler_joins as (HJ & _). destruct (HJ join2 Hst) as ((_ & _ & HP & _) & (HE & _) & _).
  assert (jn_closed join2 = true) as Hc by (apply (HE EOF); apply list_elem_of_here). split; [exact Hc|].
  destruct (HP ltac:(by left)) as [HR|Hs]; [discriminate HR|exact Hs].
Defined.
