(* ===== verification/Acl.v ===== *)
(** * Package acl: destination policies, name resolution and dialling

    Models [internal/acl/acl.go]: the access list built from the configuration
    ([New], [parseRules]), the normal form of a destination, the policy tests,
    [Resolver.Resolve] with its bounded DNS slots, [dialAddresses], and the race
    between the two address families in [Resolver.DialContext] as a step relation.
    Name lookup and the dialler are parameters. *)
From S2P Require Import Prelude GoStd GoNet Protocol.

(** ** Rules and lists *)

Record rule := mkRule { cidr : option IPNet; domain : bytes }.

Record List_ := mkList {
  allowHosts : list rule; denyHosts : list rule;
  allowPorts : gmap Z bool; denyPorts : gmap Z bool;
}.

(** A [*List], nil or not. *)
Abbreviation policy := (option List_).

(** A [netip.Addr] of a lookup; [None] is the zero (invalid) address. *)
Abbreviation lookup_addr := (option netaddr).

Section names.
Context `{Unicode}.

Definition canonicalName (s : bytes) : bytes := ToLower (TrimSuffix s (bs ".")).

Definition name_char (c : byte) : bool :=
  is_lower c || is_digit c || beq c (ch "-") || beq c (ch "_").

Definition validLabel (label : bytes) : bool :=
  negb (bool_decide (length label = 0%nat) || bool_decide (63 < length label)%nat) &&
  forallb name_char label.

Definition validName (s : bytes) : bool :=
  if bool_decide (length s = 0%nat) || bool_decide (253 < length s)%nat then false
  else forallb validLabel (Split s (ch ".")).

(** One specification of [parseRules]; [Ok None] is a blank one, which is skipped. *)
Definition parseRule (s : bytes) : res (option rule) :=
  let s := TrimSpace s in
  if bool_decide (s = []) then Ok None
  else if ContainsByte s (ch "/") then
    match ParseCIDR s with
    | None => Err (ErrNew "invalid CIDR address")
    | Some n => Ok (Some (mkRule (Some n) []))
    end
  else
    match ParseIP s with
    | Some ip =>
        match To4 ip with
        | Some v4 => Ok (Some (mkRule (Some {| net_ip := v4; net_mask := CIDRMask 32 32 |}) []))
        | None => Ok (Some (mkRule (Some {| net_ip := ip; net_mask := CIDRMask 128 128 |}) []))
        end
    | None =>
        let s := canonicalName (TrimPrefix s (bs "*.")) in
        if negb (validName s) then Err (ErrNew "acl: invalid host pattern")
        else Ok (Some (mkRule None s))
    end.

Fixpoint parseRules (specs : list bytes) : res (list rule) :=
  match specs with
  | [] => Ok []
  | s :: specs' =>
      o ← parseRule s;
      out ← parseRules specs';
      mret (match o with Some r => r :: out | None => out end)
  end.

Fixpoint add_ports (ports : list Z) (m : gmap Z bool) : res (gmap Z bool) :=
  match ports with
  | [] => Ok m
  | p :: ps =>
      if (p <? 1) || (65535 <? p) then Err (ErrNew "acl: port outside 1..65535")
      else add_ports ps (<[p := true]> m)
  end.

Definition New (allowHosts denyHosts : list bytes) (allowPorts denyPorts : list Z) : res List_ :=
  ah ← parseRules allowHosts;
  dh ← parseRules denyHosts;
  ap ← add_ports allowPorts ∅;
  dp ← add_ports denyPorts ∅;
  mret (mkList ah dh ap dp).

(** The tail of [normalized], for an address that is (now) numeric. *)
Definition numeric (host ip : bytes) (port : Z) : res Address :=
  match To4 ip with
  | Some v4 => Ok (mkAddress AtypIPv4 host v4 port)
  | None =>
      match To16 ip with
      | Some v6 => Ok (mkAddress AtypIPv6 host v6 port)
      | None => Err ErrAddress
      end
  end.

Definition normalized (addr : Address) : res Address :=
  if Port addr =? 0 then Err ErrAddress
  else if beq (Atyp addr) AtypDomain then
    let host := canonicalName (Host addr) in
    match ParseIP host with
    | Some ip => numeric [] ip (Port addr)
    | None =>
        if negb (validName host) then Err ErrAddress
        else Ok (mkAddress (Atyp addr) host (IP addr) (Port addr))
    end
  else if negb (beq (Atyp addr) AtypIPv4) && negb (beq (Atyp addr) AtypIPv6) then Err ErrAddress
  else numeric (Host addr) (IP addr) (Port addr).

Definition portsAllowed (l : policy) (port : Z) : bool :=
  match l with
  | None => true
  | Some l => negb (default false (denyPorts l !! port)) &&
              (bool_decide (size (allowPorts l) = 0%nat) || default false (allowPorts l !! port))
  end.

Definition matches (addr : Address) (r : rule) : bool :=
  match cidr r with
  | Some n => negb (beq (Atyp addr) AtypDomain) && Contains n (IP addr)
  | None => false
  end ||
  (negb (bool_decide (domain r = [])) && beq (Atyp addr) AtypDomain &&
   (bool_decide (Host addr = domain r) || HasSuffix (Host addr) (bs "." ++ domain r))).

Definition matchAny (rules : list rule) (addr : Address) : bool := existsb (matches addr) rules.

Definition Allowed (l : policy) (addr : Address) : bool :=
  match normalized addr with
  | Err _ => false
  | Ok a =>
      if negb (portsAllowed l (Port a)) then false
      else match l with
           | None => true
           | Some l => negb (matchAny (denyHosts l) a) &&
                       (bool_decide (length (allowHosts l) = 0%nat) || matchAny (allowHosts l) a)
           end
  end.

Definition resolvedAllowed (l : policy) (original ip : Address) : bool :=
  if negb (portsAllowed l (Port original)) then false
  else match l with
       | None => true
       | Some l =>
           if matchAny (denyHosts l) original || matchAny (denyHosts l) ip then false
           else bool_decide (length (allowHosts l) = 0%nat) ||
                matchAny (allowHosts l) original || matchAny (allowHosts l) ip
       end.

(** ** The resolver *)

(** [netip.Addr.Unmap]. *)
Definition Unmap (a : lookup_addr) : lookup_addr :=
  match a with
  | Some (Addr6 b zone) => if bool_decide (take 12 b = v4InV6Prefix) then Some (Addr4 (drop 12 b)) else a
  | _ => a
  end.

Record Resolver := mkResolver {
  rs_policy : policy; rs_slots : nat (* capacity *); rs_timeout : Z;
}.

Definition NewResolver (l : policy) (timeout concurrency : Z) : Resolver :=
  mkResolver l (Z.to_nat (if concurrency <=? 0 then 32 else concurrency))
             (if timeout <=? 0 then 5 * second else timeout).

(** The loop over the looked-up addresses: [seen] are the addresses met so far. *)
Fixpoint candidates (l : policy) (a : Address) (seen : list netaddr) (ips : list lookup_addr)
    : list Address :=
  match ips with
  | [] => []
  | ip :: ips' =>
      match Unmap ip with
      | None => candidates l a seen ips'
      | Some n =>
          if bool_decide (n ∈ seen) then candidates l a seen ips'
          else
            let candidate := match n with
                             | Addr4 b => mkAddress AtypIPv4 [] b (Port a)
                             | Addr6 b _ => mkAddress AtypIPv6 [] b (Port a)
                             end in
            if resolvedAllowed l a candidate
            then candidate :: candidates l a (n :: seen) ips'
            else candidates l a (n :: seen) ips'
      end
  end.

(** What a call of [Resolve] meets: the error of its context when the select
    runs, whether the select prefers that branch should a slot be free as well
    (Go chooses at random), and the answer of the name server. *)
Record resolve_env := mkEnv {
  ctx_err : option error; prefer_done : bool; LookupNetIP : bytes -> res (list lookup_addr);
}.

(** The outcome of a call: its result, the name it looked up with the slots in use
    during the lookup, and the slots in use when it returns. *)
Record resolve_out := mkOut {
  ro_result : res (list Address); ro_lookup : option (bytes * nat); ro_slots : nat;
}.

(** From the answer of the name server to the approved endpoints. *)
Definition approved (r : Resolver) (env : resolve_env) (a : Address) : res (list Address) :=
  match LookupNetIP env (Host a) with
  | Err e => Err e
  | Ok ips =>
      match candidates (rs_policy r) a [] ips with
      | [] => Err ErrDenied
      | out => Ok out
      end
  end.

(** [Resolve], called while [used] slots are taken. *)
Definition Resolve (r : Resolver) (env : resolve_env) (used : nat) (addr : Address) : resolve_out :=
  match normalized addr with
  | Err e => mkOut (Err e) None used
  | Ok a =>
      if negb (portsAllowed (rs_policy r) (Port a)) then mkOut (Err ErrDenied) None used
      else if negb (beq (Atyp a) AtypDomain) then
        if negb (Allowed (rs_policy r) a) then mkOut (Err ErrDenied) None used
        else mkOut (Ok [a]) None used
      else if match rs_policy r with Some l => matchAny (denyHosts l) a | None => false end
      then mkOut (Err ErrDenied) None used
      else
        let free := bool_decide (used < rs_slots r)%nat in
        match ctx_err env with
        | Some e =>
            if negb free || prefer_done env then mkOut (Err e) None used
            else mkOut (approved r env a) (Some (Host a, S used)) (S used - 1)
        | None =>
            if negb free then mkOut (Err ErrBusy) None used
            else mkOut (approved r env a) (Some (Host a, S used)) (S used - 1)
        end
  end.
End names.

(** ** Dialling *)

(** What one attempt of the dialler meets: the time left to the context's deadline
    (if it has one), the connection or error of [net.Dialer.DialContext], and the
    error of the context afterwards.  Connections are numbered. *)
Record attempt := mkAttempt {
  at_remaining : option Z; at_result : res nat; at_ctx_err : option error;
}.

Definition dial_timeout (at_ : attempt) (left_ : Z) : Z :=
  match at_remaining at_ with
  | None => 10 * second
  | Some rem => let remaining := Z.quot rem left_ in
                if remaining <? 10 * second then remaining else 10 * second
  end.

(** The loop of [dialAddresses] over the addresses from index [i] on; the calls of
    the dialler are collected with their timeouts.  [Ok None] is the nil
    connection with the nil error. *)
Fixpoint dial_loop (env : nat -> attempt) (i : nat) (addrs : list Address) (last : option error)
    : res (option nat) * list (bytes * Z) :=
  match addrs with
  | [] => (match last with Some e => Err e | None => Ok None end, [])
  | a :: addrs' =>
      let timeout := dial_timeout (env i) (Z.of_nat (length addrs)) in
      if timeout <=? 0 then (Err DeadlineExceeded, [])
      else
        let call := (Address_String a, timeout) in
        match at_result (env i) with
        | Ok conn => (Ok (Some conn), [call])
        | Err e =>
            match at_ctx_err (env i) with
            | Some ce => (Err ce, [call])
            | None => let '(r, calls) := dial_loop env (S i) addrs' (Some e) in (r, call :: calls)
            end
        end
  end.

Definition dialAddresses (env : nat -> attempt) (addrs : list Address)
    : res (option nat) * list (bytes * Z) :=
  dial_loop env 0 addrs None.

(** How [DialContext] proceeds once the addresses are resolved. *)
Inductive dial_plan :=
| DialSeq (addrs : list Address)
| DialRace (primary fallback : list Address).

Definition same_family (addrs : list Address) (a : Address) : bool :=
  beq (Atyp a) (from_option Atyp Byte.x00 (head addrs)).

Definition plan (network : bytes) (addrs : list Address) : dial_plan :=
  if negb (HasPrefix network (bs "tcp")) || bool_decide (length addrs = 1%nat) then DialSeq addrs
  else
    let primary := List.filter (same_family addrs) addrs in
    let fallback := List.filter (fun a => negb (same_family addrs a)) addrs in
    if bool_decide (length fallback = 0%nat) then DialSeq primary else DialRace primary fallback.

(** *** The race of the two families *)

(** A goroutine [run]: not started, inside [dialAddresses], at its final select, or
    gone. *)
Inductive runner := Idle | Running | Offering (r : res (option nat)) | Finished.

Record race := mkRace {
  started : bool; firstErr : option error;       (* the main loop's variables *)
  rc_primary : runner; rc_fallback : runner;
  rc_parent : option error;                      (* the caller's context, once done *)
  rc_main : option (res (option nat));           (* what DialContext has returned *)
  opened : list nat; closed : list nat;          (* connections *)
  dialled : list bytes;                          (* endpoints handed to the dialler *)
}.

Definition race_init : race := mkRace false None Running Idle None None [] [] [].

Definition conns (r : res (option nat)) : list nat :=
  match r with Ok (Some c) => [c] | _ => [] end.

(** [ctx.Done()] of the context the goroutines share: cancelled by the caller, or by
    the deferred [cancel] once DialContext has returned. *)
Definition ctx_done (s : race) : Prop := rc_parent s <> None \/ rc_main s <> None.

(** The main loop's reaction to a result. *)
Definition receive (got : res (option nat)) (s : race) : race :=
  match got with
  | Ok c => mkRace (started s) (firstErr s) (rc_primary s) (rc_fallback s) (rc_parent s)
                   (Some (Ok c)) (opened s) (closed s) (dialled s)
  | Err e =>
      match firstErr s with
      | Some e1 => mkRace (started s) (firstErr s) (rc_primary s) (rc_fallback s) (rc_parent s)
                          (Some (Err (Joined e1 e))) (opened s) (closed s) (dialled s)
      | None => mkRace true (Some e) (rc_primary s)
                       (if started s then rc_fallback s else Running) (rc_parent s) (rc_main s)
                       (opened s) (closed s) (dialled s)
      end
  end.

Definition set_primary (x : runner) (s : race) : race :=
  mkRace (started s) (firstErr s) x (rc_fallback s) (rc_parent s) (rc_main s)
         (opened s) (closed s) (dialled s).
Definition set_fallback (x : runner) (s : race) : race :=
  mkRace (started s) (firstErr s) (rc_primary s) x (rc_parent s) (rc_main s)
         (opened s) (closed s) (dialled s).
Definition add_dial (r : res (option nat)) (calls : list (bytes * Z)) (s : race) : race :=
  mkRace (started s) (firstErr s) (rc_primary s) (rc_fallback s) (rc_parent s) (rc_main s)
         (opened s ++ conns r) (closed s) (dialled s ++ calls.*1).
Definition close_conn (r : res (option nat)) (s : race) : race :=
  mkRace (started s) (firstErr s) (rc_primary s) (rc_fallback s) (rc_parent s) (rc_main s)
         (opened s) (closed s ++ conns r) (dialled s).

Inductive race_step (primary fallback : list Address) : race -> race -> Prop :=
| step_dial_primary s env r calls :
    rc_primary s = Running -> dialAddresses env primary = (r, calls) ->
    race_step primary fallback s (set_primary (Offering r) (add_dial r calls s))
| step_dial_fallback s env r calls :
    rc_fallback s = Running -> dialAddresses env fallback = (r, calls) ->
    race_step primary fallback s (set_fallback (Offering r) (add_dial r calls s))
| step_offer_primary s r :
    rc_primary s = Offering r -> rc_main s = None ->
    race_step primary fallback s (receive r (set_primary Finished s))
| step_offer_fallback s r :
    rc_fallback s = Offering r -> rc_main s = None ->
    race_step primary fallback s (receive r (set_fallback Finished s))
| step_abandon_primary s r :
    rc_primary s = Offering r -> ctx_done s ->
    race_step primary fallback s (close_conn r (set_primary Finished s))
| step_abandon_fallback s r :
    rc_fallback s = Offering r -> ctx_done s ->
    race_step primary fallback s (close_conn r (set_fallback Finished s))
| step_cancel s e :
    rc_parent s = None ->
    race_step primary fallback s
      (mkRace (started s) (firstErr s) (rc_primary s) (rc_fallback s) (Some e) (rc_main s)
              (opened s) (closed s) (dialled s))
| step_done s e :
    rc_parent s = Some e -> rc_main s = None ->
    race_step primary fallback s
      (mkRace (started s) (firstErr s) (rc_primary s) (rc_fallback s) (rc_parent s) (Some (Err e))
              (opened s) (closed s) (dialled s))
| step_timer s :
    rc_main s = None -> started s = false ->
    race_step primary fallback s
      (mkRace true (firstErr s) (rc_primary s) Running (rc_parent s) (rc_main s)
              (opened s) (closed s) (dialled s)).

(** A run of [DialContext]: what it returns and the endpoints it hands to the dialler. *)
Inductive DialContext `{Unicode} (r : Resolver) (renv : resolve_env) (used : nat) (network : bytes)
    (addr : Address) : res (option nat) -> list bytes -> Prop :=
| dial_unresolved e :
    ro_result (Resolve r renv used addr) = Err e ->
    DialContext r renv used network addr (Err e) []
| dial_sequential addrs l env res calls :
    ro_result (Resolve r renv used addr) = Ok addrs -> plan network addrs = DialSeq l ->
    dialAddresses env l = (res, calls) ->
    DialContext r renv used network addr res calls.*1
| dial_race addrs primary fallback s res :
    ro_result (Resolve r renv used addr) = Ok addrs -> plan network addrs = DialRace primary fallback ->
    rtc (race_step primary fallback) race_init s -> rc_main s = Some res ->
    DialContext r renv used network addr res (dialled s).

(** ** Names *)

(** The labels of a name. *)
Definition labels (s : bytes) : list bytes := Split s (ch ".").

Lemma suffix_labels h d : (h = d \/ HasSuffix h (bs "." ++ d) = true) <->
  exists ls, labels h = ls ++ labels d.
Proof.
  unfold labels. change (bs "." ++ d) with (ch "." :: d). split.
  - intros [->|[t ->]%HasSuffix_spec]; [by exists []|]. exists (Split t (ch ".")). apply Split_app.
  - intros [ls E]. destruct ls as [|l ls]; [left; by eapply Split_inj|]. right.
    apply HasSuffix_spec. exists (Join (l :: ls) (ch ".")).
    rewrite <-(Join_Split h (ch ".")), E, Join_app by (done || apply Split_nonempty).
    by rewrite Join_Split.
Qed.

Section lemmas.
Context `{Unicode}.

Lemma name_char_lower c : name_char c || beq c (ch ".") = true -> is_ascii c = true /\ lower_byte c = c.
Proof. by destruct c; vm_compute. Qed.

Lemma validName_chars s : validName s = true -> forallb (fun c => name_char c || beq c (ch ".")) s = true.
Proof.
  unfold validName. case_match; [done|]. intros Hl. apply Split_chars. intros p Hp.
  rewrite forallb_forall in Hl. apply list_elem_of_In in Hp. specialize (Hl p Hp).
  by apply andb_true_iff in Hl as [_ ?].
Qed.

Lemma validName_no_dot s : validName s = true -> HasSuffix s (bs ".") = false.
Proof.
  intros Hv. destruct (HasSuffix s (bs ".")) eqn:E; [|done]. exfalso.
  apply HasSuffix_spec in E as [t ->]. unfold validName in Hv. case_match; [done|].
  change (bs ".") with [ch "."] in Hv. rewrite Split_app, forallb_app in Hv.
  by apply andb_true_iff in Hv as [_ ?].
Qed.

(** A valid name is its own canonical form. *)
Lemma canonicalName_valid s : validName s = true -> canonicalName s = s.
Proof.
  intros Hv. unfold canonicalName, TrimSuffix. rewrite validName_no_dot by done.
  apply validName_chars in Hv. unfold ToLower.
  assert (forallb is_ascii s = true /\ map lower_byte s = s) as [-> ->]; [|done].
  induction s as [|c s IH]; [done|]. cbn [forallb map] in *. apply andb_true_iff in Hv as [Hc Hs].
  destruct (name_char_lower c Hc) as [-> ->]. destruct (IH Hs) as [-> ->]. done.
Qed.

(** ** The normal form of a destination *)

Definition normal_form (a : Address) : Prop :=
  Port a <> 0 /\
  (Atyp a = AtypDomain /\ validName (Host a) = true /\ ParseIP (Host a) = None \/
   Atyp a = AtypIPv4 /\ length (IP a) = 4%nat \/
   Atyp a = AtypIPv6 /\ length (IP a) = 16%nat /\ To4 (IP a) = None).

Lemma numeric_spec host ip port a : numeric host ip port = Ok a ->
  Host a = host /\ Port a = port /\
  (Atyp a = AtypIPv4 /\ length (IP a) = 4%nat \/
   Atyp a = AtypIPv6 /\ length (IP a) = 16%nat /\ To4 (IP a) = None).
Proof.
  unfold numeric. destruct (To4 ip) eqn:E4; [intros [= <-]; simpl; apply To4_length in E4; auto|].
  destruct (To16 ip) eqn:E16; intros [= <-]. simpl. split_and!; try done. right.
  pose proof (To16_length _ _ E16). split; [done|]. split; [done|].
  unfold To16 in E16. destruct (bool_decide (length ip = 4%nat)) eqn:B4.
  - apply bool_decide_eq_true in B4. by rewrite To4_four in E4.
  - destruct (bool_decide _) in E16; [|done]. by injection E16 as <-.
Qed.

Lemma normalized_form addr a : normalized addr = Ok a -> normal_form a /\ Port a = Port addr.
Proof.
  unfold normalized, normal_form. destruct (Port addr =? 0) eqn:Ep; [done|]. apply Z.eqb_neq in Ep.
  destruct (beq (Atyp addr) AtypDomain) eqn:Ed.
  - destruct (ParseIP _) eqn:Ei; [intros (Hh & Hp & Hc)%numeric_spec; rewrite Hp; auto|].
    destruct (validName _) eqn:Ev; intros [= <-]. simpl. apply beq_true in Ed. auto 6.
  - case_match; [done|]. intros (Hh & Hp & Hc)%numeric_spec. rewrite Hp. auto.
Qed.

Lemma normalized_id a : normal_form a -> normalized a = Ok a.
Proof.
  destruct a as [t h ip p]. unfold normal_form, normalized. simpl.
  intros [Hp [(-> & Hv & Hi)|[(-> & Hl)|(-> & Hl & H4)]]]; rewrite (proj2 (Z.eqb_neq _ _) Hp); cbn -[ParseIP To4 To16].
  - by rewrite canonicalName_valid, Hi, Hv.
  - unfold numeric. by rewrite To4_four.
  - unfold numeric. by rewrite H4, To16_sixteen.
Qed.

(** Normalising twice changes nothing. *)
Lemma normalized_idem addr a : normalized addr = Ok a -> normalized a = Ok a.
Proof. intros [? _]%normalized_form. by apply normalized_id. Qed.

(** ** From the configuration to the list *)

Lemma parseRules_spec specs rs : parseRules specs = Ok rs ->
  (forall s, s ∈ specs -> is_ok (parseRule s) = true) /\
  forall r, r ∈ rs <-> exists s, s ∈ specs /\ parseRule s = Ok (Some r).
Proof.
  revert rs. induction specs as [|s specs IH]; intros rs; cbn.
  { intros [= <-]. split; [by intros ? ?%elem_of_nil|]. intros r. rewrite elem_of_nil. split; [done|].
    by intros (s & ?%elem_of_nil & _). }
  intros (o & Ho & E)%bind_Ok. apply bind_Ok in E as (out & Hout & [= <-]).
  destruct (IH out Hout) as [IH1 IH2]. split.
  - intros s' [->|Hs]%elem_of_cons; [by rewrite Ho|auto].
  - intros r. split.
    + intros Hr. assert (o = Some r \/ r ∈ out) as [->|(s' & ? & ?)%IH2].
      { destruct o; [|by right]. apply elem_of_cons in Hr as [->|?]; auto. }
      * exists s. split; [left|done].
      * exists s'. split; [by right|done].
    + intros (s' & [->|Hs]%elem_of_cons & Hr).
      * rewrite Ho in Hr. injection Hr as ->. left.
      * assert (r ∈ out) by (apply IH2; eauto). destruct o; [by right|done].
Qed.

Lemma add_ports_spec ps : forall m m', add_ports ps m = Ok m' ->
  (forall p, p ∈ ps -> 1 <= p <= 65535) /\
  forall p, m' !! p = if bool_decide (p ∈ ps) then Some true else m !! p.
Proof.
  induction ps as [|q ps IH]; intros m m'; cbn.
  { intros [= <-]. split; [by intros p ?%elem_of_nil|]. intros p. by rewrite bool_decide_eq_false_2 by apply not_elem_of_nil. }
  destruct (_ || _) eqn:E; [done|]. apply orb_false_iff in E as [E1%Z.ltb_ge E2%Z.ltb_ge].
  intros (IH1 & IH2)%IH. split.
  - intros p [->|?]%elem_of_cons; [lia|auto].
  - intros p. rewrite IH2. destruct (decide (p = q)) as [->|Hne].
    + rewrite lookup_insert_eq, (bool_decide_eq_true_2 (q ∈ q :: ps)) by left. by case_bool_decide.
    + rewrite lookup_insert_ne by done. erewrite bool_decide_ext; [done|]. rewrite elem_of_cons. naive_solver.
Qed.

Lemma New_spec ah dh ap dp l : New ah dh ap dp = Ok l ->
  (forall r, r ∈ allowHosts l <-> exists s, s ∈ ah /\ parseRule s = Ok (Some r)) /\
  (forall r, r ∈ denyHosts l <-> exists s, s ∈ dh /\ parseRule s = Ok (Some r)) /\
  (forall p, default false (allowPorts l !! p) = bool_decide (p ∈ ap)) /\
  (forall p, default false (denyPorts l !! p) = bool_decide (p ∈ dp)) /\
  (size (allowPorts l) = 0%nat <-> ap = []).
Proof.
  intros (rah & E1 & K)%bind_Ok. apply bind_Ok in K as (rdh & E2 & K).
  apply bind_Ok in K as (mp & E3 & K). apply bind_Ok in K as (mq & E4 & [= <-]). simpl.
  apply parseRules_spec in E1 as [_ E1], E2 as [_ E2].
  apply add_ports_spec in E3 as [_ E3], E4 as [_ E4]. split_and!; try done.
  - intros p. rewrite E3, lookup_empty. by case_bool_decide.
  - intros p. rewrite E4, lookup_empty. by case_bool_decide.
  - rewrite map_size_empty_iff. split.
    + intros ->. destruct ap as [|p ap]; [done|]. specialize (E3 p).
      rewrite bool_decide_eq_true_2, lookup_empty in E3 by left. done.
    + intros ->. apply map_empty. intros p. rewrite E3, lookup_empty.
      by rewrite bool_decide_eq_false_2 by apply not_elem_of_nil.
Qed.

Lemma matchAny_true rs a : matchAny rs a = true <-> exists r, r ∈ rs /\ matches a r = true.
Proof.
  unfold matchAny. rewrite existsb_exists. by setoid_rewrite list_elem_of_In.
Qed.
Lemma matchAny_false rs a r : matchAny rs a = false -> r ∈ rs -> matches a r = false.
Proof.
  intros Hm Hr. destruct (matches a r) eqn:E; [|done].
  rewrite <-Hm. symmetry. apply matchAny_true. eauto.
Qed.

(** ** The approved endpoints *)

(** The endpoint built from a looked-up address. *)
Definition endpoint (a : Address) (n : netaddr) : Address :=
  match n with
  | Addr4 b => mkAddress AtypIPv4 [] b (Port a)
  | Addr6 b _ => mkAddress AtypIPv6 [] b (Port a)
  end.

Lemma candidates_spec l a ips : forall seen e, e ∈ candidates l a seen ips <->
  exists ip n, ip ∈ ips /\ Unmap ip = Some n /\ n ∉ seen /\ e = endpoint a n /\ resolvedAllowed l a e = true.
Proof.
  induction ips as [|ip ips IH]; intros seen e.
  { cbn. rewrite elem_of_nil. split; [done|]. by intros (ip & n & ?%elem_of_nil & _). }
  cbn [candidates]. setoid_rewrite elem_of_cons. destruct (Unmap ip) as [n|] eqn:Eu; [|rewrite IH; naive_solver].
  case_bool_decide as Hs; [rewrite IH; naive_solver|]. fold (endpoint a n).
  destruct (resolvedAllowed l a (endpoint a n)) eqn:Er; rewrite ?elem_of_cons, IH.
  - setoid_rewrite not_elem_of_cons. split.
    + intros [->|(ip' & n' & ?)]; [|naive_solver]. exists ip, n. auto.
    + intros (ip' & n' & Hip & Hu & Hn & -> & Hr). destruct (decide (n' = n)) as [->|]; [by left|].
      right. exists ip', n'. split_and!; try done. naive_solver.
  - setoid_rewrite not_elem_of_cons. split; [naive_solver|].
    intros (ip' & n' & Hip & Hu & Hn & -> & Hr). assert (n' <> n) by congruence.
    exists ip', n'. split_and!; try done. naive_solver.
Qed.

Definition lookup_zone_free (ip : lookup_addr) : Prop := match ip with Some n => zone_free n | None => True end.

Lemma Unmap_zone_free ip n : lookup_zone_free ip -> Unmap ip = Some n -> zone_free n.
Proof. destruct ip as [[b|b z]|]; cbn; repeat case_match; naive_solver. Qed.

(** The documented lengths of a [netip.Addr]. *)
Definition lookup_wf (ip : lookup_addr) : Prop := match ip with Some n => addr_wf n | None => True end.

Lemma Unmap_wf ip n : lookup_wf ip -> Unmap ip = Some n -> addr_wf n.
Proof.
  destruct ip as [[b|b z]|]; cbn -[drop take]; [by intros ? [= <-]| |done].
  intros Hb. case_bool_decide; intros [= <-]; cbn -[drop]; [|done]. rewrite length_drop. lia.
Qed.

Lemma endpoint_valid a n : addr_wf n -> Validate (endpoint a n) = None.
Proof.
  destruct n as [b|b z]; cbn [addr_wf endpoint]; intros Hl; unfold Validate; cbn [Atyp IP].
  - by rewrite beq_refl, To4_four.
  - change (beq AtypIPv6 AtypIPv4) with false. by rewrite beq_refl, To16_sixteen.
Qed.

Lemma endpoint_inj a n m : zone_free n -> zone_free m -> endpoint a n = endpoint a m -> n = m.
Proof. destruct n, m; cbn; intros; simplify_eq; done. Qed.

(** Without zones no endpoint is dialled twice. *)
Lemma candidates_NoDup l a ips : forall seen, Forall lookup_zone_free ips ->
  Forall zone_free seen -> NoDup (candidates l a seen ips).
Proof.
  induction ips as [|ip ips IH]; intros seen HF Hs; [constructor|]. apply Forall_cons in HF as [Hip Hips].
  cbn [candidates]. destruct (Unmap ip) as [n|] eqn:Eu; [|auto]. case_bool_decide; [auto|].
  apply (Unmap_zone_free _ _ Hip) in Eu as Hz. fold (endpoint a n).
  case_match; [|apply IH; auto]. constructor; [|apply IH; auto].
  rewrite candidates_spec. intros (ip' & m & Hin & Hu & Hm & E & _).
  apply endpoint_inj in E; [|done|]; [apply Hm; rewrite E; left|].
  eapply Unmap_zone_free; [|exact Hu]. by apply (proj1 (Forall_forall _ _) Hips).
Qed.

(** ** What a rule of the configuration means *)

(** The declarative reading of one (trimmed) host specification: an address block,
    one address, or a domain with all its subdomains. *)
Definition spec_matches (t : bytes) (addr : Address) : Prop :=
  if ContainsByte t (ch "/") then
    Atyp addr <> AtypDomain /\ exists text len a o,
      t = text ++ bs "/" ++ len /\ ContainsByte text (ch "/") = false /\ ParseAddr text = Some a /\
      digits_value 0 len = Some o /\ in_network a o (IP addr)
  else
    match ParseIP t with
    | Some ip => Atyp addr <> AtypDomain /\ To16 (IP addr) = Some ip
    | None => Atyp addr = AtypDomain /\
              exists ls, labels (Host addr) = ls ++ labels (canonicalName (TrimPrefix t (bs "*.")))
    end.

Lemma matches_cidr addr n : matches addr (mkRule (Some n) []) = true <->
  Atyp addr <> AtypDomain /\ Contains n (IP addr) = true.
Proof.
  unfold matches. cbn [cidr domain]. rewrite (bool_decide_eq_true_2 ([] = [])) by done. cbn [negb andb].
  rewrite orb_false_r, andb_true_iff, negb_true_iff. unfold beq. by rewrite bool_decide_eq_false.
Qed.

Lemma matches_domain addr d : d <> [] ->
  matches addr (mkRule None d) = true <-> Atyp addr = AtypDomain /\ exists ls, labels (Host addr) = ls ++ labels d.
Proof.
  intros Hd. unfold matches. cbn [cidr domain]. rewrite bool_decide_eq_false_2 by done. cbn [negb andb orb].
  rewrite andb_true_iff, beq_true, orb_true_iff, bool_decide_eq_true, suffix_labels. done.
Qed.

Lemma To4_sixteen_inv ip v : length ip = 16%nat -> To4 ip = Some v -> ip = v4InV6Prefix ++ v.
Proof.
  intros Hl. unfold To4. rewrite Hl, bool_decide_eq_false_2 by done.
  destruct (_ && _) eqn:E; [|done]. apply andb_true_iff in E as [_ <-%bool_decide_eq_true].
  intros [= <-]. by rewrite take_drop.
Qed.

Lemma To16_normal a ip : normal_form a -> Atyp a <> AtypDomain -> length ip = 16%nat ->
  To16 (IP a) = Some ip <-> default ip (To4 ip) = default (IP a) (To4 (IP a)).
Proof.
  intros [_ [(? & _)|[(_ & Hl)|(_ & Hl & H4)]]] Hd Hi; [done|..].
  - rewrite (To4_four (IP a)) by done. unfold To16. rewrite bool_decide_eq_true_2 by done.
    destruct (To4 ip) as [v|] eqn:E4; simpl default.
    + apply To4_sixteen_inv in E4 as ->; [|done]. split; [by intros [= ->]|by intros ->].
    + split; [|intros ->; lia]. intros E%(inj Some). rewrite <-E in E4.
      by rewrite To4_mapped in E4.
  - rewrite H4. cbn. rewrite To16_sixteen by done. split; [intros [= <-]; by rewrite H4|].
    destruct (To4 ip) as [v|] eqn:E4; cbn; [|by intros ->]. intros ->. apply To4_length in E4. lia.
Qed.

(** Every host specification that [parseRules] accepts means what it says: a
    CIDR matches exactly the addresses of its family that share its leading bits, a
    bare address matches exactly itself (IPv4-mapped forms identified), and a name
    matches exactly the names whose labels end with its labels. *)
Theorem rule_meaning s r addr : parseRule s = Ok (Some r) -> normal_form addr ->
  matches addr r = true <-> spec_matches (TrimSpace s) addr.
Proof.
  unfold parseRule, spec_matches. set (t := TrimSpace s). intros HE Hn.
  case_bool_decide; [done|]. destruct (ContainsByte t (ch "/")).
  - destruct (ParseCIDR t) as [n|] eqn:Ec; [|done]. injection HE as <-. rewrite matches_cidr.
    apply ParseCIDR_inv in Ec as (text & len & a & o & Et & Hs & Ha & Hz & Hd & Ho & Hm).
    destruct (mk_network_spec a o) as (n' & Hn' & HC); [by apply ParseAddr_spec in Ha; destruct a, Ha|done|].
    rewrite Hm in Hn'. injection Hn' as <-. rewrite HC.
    split; intros [Hdom HX]; (split; [done|]); [by exists text, len, a, o|].
    destruct HX as (text' & len' & a' & o' & Et' & Hs' & Ha' & Hd' & Hin). rewrite Et in Et'.
    apply sep_inj in Et' as [-> ->]; [|done..]. congruence.
  - destruct (ParseIP t) as [ip|] eqn:Ei.
    + apply ParseIP_spec in Ei as [Hl _]. destruct (To4 ip) as [v4|] eqn:E4; injection HE as <-;
        rewrite matches_cidr.
      * pose proof (To4_length _ _ E4). change (CIDRMask 32 32) with (CIDRMask (8 * Z.of_nat 4) (8 * Z.of_nat 4)).
        rewrite (Contains_exact v4 _ 4) by auto. split; intros [Hd Hc]; (split; [done|]).
        { apply (To16_normal addr ip); try done. by rewrite E4. }
        { apply (To16_normal addr ip) in Hc; try done. by rewrite E4 in Hc. }
      * change (CIDRMask 128 128) with (CIDRMask (8 * Z.of_nat 16) (8 * Z.of_nat 16)).
        rewrite (Contains_exact ip _ 16) by auto. split; intros [Hd Hc]; (split; [done|]).
        { apply (To16_normal addr ip); try done. by rewrite E4. }
        { apply (To16_normal addr ip) in Hc; try done. by rewrite E4 in Hc. }
    + destruct (validName _) eqn:Ev; [|done]. injection HE as <-. apply matches_domain.
      intros E. by rewrite E in Ev.
Qed.

(** ** The resolver *)

Lemma portsAllowed_spec ah dh ap dp l p : New ah dh ap dp = Ok l ->
  portsAllowed (Some l) p = true <-> p ∉ dp /\ (ap = [] \/ p ∈ ap).
Proof.
  intros (_ & _ & Ha & Hd & Hz)%New_spec. unfold portsAllowed. rewrite Ha, Hd.
  rewrite andb_true_iff, orb_true_iff, negb_true_iff, bool_decide_eq_false, !bool_decide_eq_true. by rewrite Hz.
Qed.

Lemma resolvedAllowed_Some l a e : resolvedAllowed (Some l) a e = true <->
  portsAllowed (Some l) (Port a) = true /\ matchAny (denyHosts l) a = false /\
  matchAny (denyHosts l) e = false /\
  (allowHosts l = [] \/ matchAny (allowHosts l) a = true \/ matchAny (allowHosts l) e = true).
Proof.
  unfold resolvedAllowed. destruct (portsAllowed _ _); cbn [negb]; [|split; [done|by intros []]].
  destruct (matchAny (denyHosts l) a), (matchAny (denyHosts l) e); cbn [orb];
    try (split; [done|by intros (_ & ? & ? & _)]).
  rewrite !orb_true_iff, bool_decide_eq_true, length_zero_iff_nil. naive_solver.
Qed.

Lemma Allowed_Some l addr : Allowed (Some l) addr = true <-> exists a, normalized addr = Ok a /\
  portsAllowed (Some l) (Port a) = true /\ matchAny (denyHosts l) a = false /\
  (allowHosts l = [] \/ matchAny (allowHosts l) a = true).
Proof.
  unfold Allowed. destruct (normalized addr) as [a|e]; [|split; [done|by intros (? & ? & _)]].
  destruct (portsAllowed _ _) eqn:Ep; cbn [negb].
  2:{ split; [done|]. intros (b & [= <-] & ? & _). congruence. }
  rewrite andb_true_iff, negb_true_iff, orb_true_iff, bool_decide_eq_true, length_zero_iff_nil. naive_solver.
Qed.

Lemma Allowed_normalized l addr a : normalized addr = Ok a -> Allowed l a = Allowed l addr.
Proof. intros E. unfold Allowed. by rewrite (normalized_idem _ _ E), E. Qed.

(** What each way through [Resolve] leaves behind. *)
Lemma Resolve_cases r env used addr :
  (exists e, Resolve r env used addr = mkOut (Err e) None used /\
     (normalized addr = Err e \/ e = ErrDenied \/ (e = ErrBusy /\ (rs_slots r <= used)%nat) \/ ctx_err env = Some e)) \/
  (exists a, normalized addr = Ok a /\ Atyp a <> AtypDomain /\ Allowed (rs_policy r) addr = true /\
     Resolve r env used addr = mkOut (Ok [a]) None used) \/
  (exists a, normalized addr = Ok a /\ Atyp a = AtypDomain /\ (used < rs_slots r)%nat /\
     portsAllowed (rs_policy r) (Port a) = true /\
     (forall l, rs_policy r = Some l -> matchAny (denyHosts l) a = false) /\
     Resolve r env used addr = mkOut (approved r env a) (Some (Host a, S used)) used).
Proof.
  unfold Resolve. destruct (normalized addr) as [a|e] eqn:En; [|eauto 6].
  destruct (portsAllowed _ _) eqn:Ep; cbn [negb]; [|eauto 8].
  destruct (beq (Atyp a) AtypDomain) eqn:Ed; cbn [negb].
  2:{ destruct (Allowed _ a) eqn:Ea; cbn [negb]; [|eauto 8]. right; left. exists a.
      rewrite <-(Allowed_normalized _ _ _ En). split_and!; try done. intros E. by rewrite E in Ed. }
  apply beq_true in Ed. destruct (match rs_policy r with Some _ => _ | _ => _ end) eqn:Em; [eauto 8|].
  assert (forall l, rs_policy r = Some l -> matchAny (denyHosts l) a = false) by (intros l El; by rewrite El in Em).
  replace (S used - 1)%nat with used by lia.
  case_bool_decide as Hs; cbn [negb orb]; destruct (ctx_err env) as [e|]; [destruct (prefer_done env)|..];
    try (left; eexists; split; [reflexivity|]; eauto; fail); try (right; right; exists a; by eauto 8).
  left. eexists. split; [reflexivity|]. right; right; left. split; [done|lia].
Qed.

(** [Resolve] gives back every slot it takes, looks a name up only when the port
    and the name pass the policy and a slot is free, and succeeds with exactly the
    addresses the policy approves: the literal itself when [Allowed] accepts it, or
    all the approved endpoints of the lookup, at least one, on the requested port,
    valid for the wire, and without repetition. *)
Theorem resolve_contract r env used addr :
  let o := Resolve r env used addr in
  ro_slots o = used /\
  (forall name n, ro_lookup o = Some (name, n) -> (n <= rs_slots r)%nat /\ exists a,
     normalized addr = Ok a /\ Atyp a = AtypDomain /\ name = Host a /\
     portsAllowed (rs_policy r) (Port a) = true /\
     (forall l, rs_policy r = Some l -> matchAny (denyHosts l) a = false)) /\
  (forall out, ro_result o = Ok out -> out <> [] /\ exists a, normalized addr = Ok a /\
     (Atyp a <> AtypDomain /\ out = [a] /\ Allowed (rs_policy r) addr = true \/
      Atyp a = AtypDomain /\ exists ips, LookupNetIP env (Host a) = Ok ips /\
        (forall e, e ∈ out <-> exists ip n, ip ∈ ips /\ Unmap ip = Some n /\ e = endpoint a n /\
                                  resolvedAllowed (rs_policy r) a e = true) /\
        (Forall lookup_zone_free ips -> NoDup out) /\
        (Forall lookup_wf ips -> forall e, e ∈ out -> Validate e = None))).
Proof.
  cbv zeta. destruct (Resolve_cases r env used addr)
    as [(e & -> & _)|[(a & En & Hd & Ha & ->)|(a & En & Hd & Hs & Hp & Hm & ->)]]; cbn; split_and!; try done.
  - intros out [= <-]. split; [done|]. exists a. auto.
  - intros name n [= <- <-]. split; [lia|]. exists a. auto.
  - unfold approved. intros out. destruct (LookupNetIP env (Host a)) as [ips|] eqn:El; [|done].
    intros HE. assert (out = candidates (rs_policy r) a [] ips /\ out <> []) as [-> Hne]
      by (destruct (candidates _ _ _ _); by simplify_eq).
    split; [done|]. exists a. split; [done|]. right. split; [done|]. exists ips. split; [done|]. split.
    + intros e. rewrite candidates_spec. setoid_rewrite not_elem_of_nil at 1 || idtac. split.
      * intros (ip & n & ? & ? & _ & ? & ?). eauto 7.
      * intros (ip & n & ? & ? & ? & ?). exists ip, n. split_and!; try done. apply not_elem_of_nil.
    + split; [intros HF; by apply candidates_NoDup|]. intros HF e He.
      apply candidates_spec in He as (ip & n & Hip & Hu & _ & -> & _). apply endpoint_valid.
      eapply Unmap_wf; [|exact Hu]. by apply (proj1 (Forall_forall _ _) HF).
Qed.

(** C9: the configured policy holds for every endpoint [Resolve] returns, whatever
    the name server answers: the port is not denied and is allowed, no deny rule
    matches the name or the address (a domain allow rule never overrides an IP deny
    rule), and when there are allow rules one of them matches the name or the
    address. *)
Theorem policy_enforced ah dh ap dp l r env used addr out e :
  New ah dh ap dp = Ok l -> rs_policy r = Some l ->
  ro_result (Resolve r env used addr) = Ok out -> e ∈ out ->
  exists a, normalized addr = Ok a /\ Port e = Port addr /\ Atyp e <> AtypDomain /\
    Port e ∉ dp /\ (ap = [] \/ Port e ∈ ap) /\
    (forall s rl, s ∈ dh -> parseRule s = Ok (Some rl) -> matches a rl = false /\ matches e rl = false) /\
    ((forall s rl, s ∈ ah -> parseRule s <> Ok (Some rl)) \/
     exists s rl, s ∈ ah /\ parseRule s = Ok (Some rl) /\ (matches a rl = true \/ matches e rl = true)).
Proof.
  intros HN HP HR He. destruct (New_spec _ _ _ _ _ HN) as (Hah & Hdh & _).
  assert (exists a, normalized addr = Ok a /\ Port e = Port a /\ Atyp e <> AtypDomain /\
    portsAllowed (Some l) (Port a) = true /\ matchAny (denyHosts l) a = false /\
    matchAny (denyHosts l) e = false /\
    (allowHosts l = [] \/ matchAny (allowHosts l) a = true \/ matchAny (allowHosts l) e = true))
    as (a & En & Hpe & Hty & Hpo & Hda & Hde & Hal).
  { destruct (Resolve_cases r env used addr)
      as [(e' & E & _)|[(a & En & Hd & Ha & E)|(a & En & Hd & Hs & Hp & Hm & E)]]; rewrite E in HR; cbn in HR.
    - done.
    - injection HR as <-. apply list_elem_of_singleton in He as ->. rewrite HP in Ha.
      apply Allowed_Some in Ha as (a' & En' & ? & ? & ?). rewrite En in En'. injection En' as <-.
      exists a. split_and!; try done. naive_solver.
    - unfold approved in HR. destruct (LookupNetIP _ _) as [ips|]; [|done].
      assert (out = candidates (rs_policy r) a [] ips) as -> by (destruct (candidates _ _ _ _); by simplify_eq).
      apply candidates_spec in He as (ip & n & _ & _ & _ & -> & Hr). rewrite HP in Hr.
      apply resolvedAllowed_Some in Hr as (? & ? & ? & ?). exists a. by destruct n. }
  destruct (normalized_form _ _ En) as [_ Hport]. apply (portsAllowed_spec _ _ _ _ _ _ HN) in Hpo.
  exists a. rewrite Hpe. rewrite Hport in *. destruct Hpo. split_and!; try done.
  - intros s rl Hs Hr. assert (rl ∈ denyHosts l) by (apply Hdh; eauto). eauto using matchAny_false.
  - assert (forall x, matchAny (allowHosts l) x = true ->
      exists s rl, s ∈ ah /\ parseRule s = Ok (Some rl) /\ matches x rl = true) as Hm.
    { intros x (rl & (s & ? & ?)%Hah & ?)%matchAny_true. eauto. }
    destruct Hal as [Hnil|[(s & rl & ? & ? & ?)%Hm|(s & rl & ? & ? & ?)%Hm]]; [left|right; eauto 8..].
    intros s rl Hs Hr. assert (rl ∈ allowHosts l) as Hin by (apply Hah; eauto). rewrite Hnil in Hin.
    by apply elem_of_nil in Hin.
Qed.
End lemmas.

(** ** The race *)

Lemma dial_loop_endpoints env addrs : forall i last r calls, dial_loop env i addrs last = (r, calls) ->
  calls.*1 `prefix_of` map Address_String addrs /\ Forall (fun c => 0 < c.2 <= 10 * second) calls.
Proof.
  induction addrs as [|a addrs IH]; intros i last r calls; cbn [dial_loop].
  { intros [= _ <-]. split; [apply prefix_nil|constructor]. }
  assert (dial_timeout (env i) (Z.of_nat (length (a :: addrs))) <= 10 * second) as Hle.
  { unfold dial_timeout. destruct (at_remaining (env i)); [|done]. case_match; lia. }
  destruct (Z.leb_spec (dial_timeout (env i) (Z.of_nat (length (a :: addrs)))) 0) as [|Hpos].
  { intros [= _ <-]. split; [apply prefix_nil|constructor]. }
  assert (forall rest, rest `prefix_of` map Address_String addrs ->
     Address_String a :: rest `prefix_of` map Address_String (a :: addrs)) as Hc
    by (intros; by apply prefix_cons).
  destruct (at_result (env i)); [intros [= _ <-]; split; [apply Hc, prefix_nil|by repeat constructor]|].
  destruct (at_ctx_err (env i)); [intros [= _ <-]; split; [apply Hc, prefix_nil|by repeat constructor]|].
  destruct (dial_loop env (S i) addrs (Some e)) as [r' calls'] eqn:E. intros [= _ <-].
  apply IH in E as [E1 E2]. split; [by apply Hc|by constructor].
Qed.

(** With something to dial, a nil error comes with a connection. *)
Lemma dial_loop_nonnil env addrs : forall i last calls, (addrs <> [] \/ last <> None) ->
  dial_loop env i addrs last <> (Ok None, calls).
Proof.
  induction addrs as [|a addrs IH]; intros i last calls Hne; cbn [dial_loop].
  { destruct last; [done|]. by destruct Hne. }
  case_match; [done|]. case_match; [done|]. case_match; [done|].
  destruct (dial_loop env (S i) addrs (Some e)) as [r' calls'] eqn:E. intros [= -> _].
  eapply IH; [|exact E]. by right.
Qed.

Definition offered (x : runner) : list nat := match x with Offering r => conns r | _ => [] end.
Definition returned (s : race) : list nat := match rc_main s with Some r => conns r | None => [] end.
Definition good_offer (x : runner) : Prop := x <> Offering (Ok None).

(** The invariant of the race. *)
Record race_inv (primary fallback : list Address) (s : race) : Prop := {
  ri_endpoints : forall e, e ∈ dialled s -> exists a, a ∈ primary ++ fallback /\ e = Address_String a;
  ri_conns : opened s ≡ₚ closed s ++ returned s ++ offered (rc_primary s) ++ offered (rc_fallback s);
  ri_offers : good_offer (rc_primary s) /\ good_offer (rc_fallback s);
  ri_ok : rc_main s <> Some (Ok None);
  ri_err : forall e, rc_main s = Some (Err e) -> rc_parent s = Some e \/
             exists e1 e2, e = Joined e1 e2 /\ rc_primary s = Finished /\ rc_fallback s = Finished;
  ri_started : rc_primary s <> Idle /\ (rc_fallback s = Idle <-> started s = false);
  ri_waiting : rc_main s = None -> rc_parent s = None ->
    match firstErr s with
    | None => rc_primary s <> Finished /\ rc_fallback s <> Finished
    | Some _ => started s = true /\
                ~ (rc_primary s = Finished /\ rc_fallback s = Finished)
    end;
  ri_first : rc_main s = None -> firstErr s <> None ->
    (rc_primary s = Finished \/ rc_fallback s = Finished) /\ started s = true;
}.

Lemma race_inv_init p f : race_inv p f race_init.
Proof. constructor; cbn; try done; [by intros e ?%elem_of_nil]. Qed.

Lemma dial_result_ok p f s env addrs r calls : addrs <> [] -> (forall a, a ∈ addrs -> a ∈ p ++ f) ->
  race_inv p f s -> dialAddresses env addrs = (r, calls) ->
  r <> Ok None /\
  (forall e, e ∈ dialled s ++ calls.*1 -> exists a, a ∈ p ++ f /\ e = Address_String a).
Proof.
  intros Hne Hin HI HD. split.
  { intros ->. eapply dial_loop_nonnil; [|exact HD]. by left. }
  intros e [He|He]%elem_of_app; [by apply HI|]. apply dial_loop_endpoints in HD as [[rest HD] _].
  assert (e ∈ map Address_String addrs) as Hm by (rewrite HD; apply elem_of_app; by left).
  apply list_elem_of_In, in_map_iff in Hm as (a & <- & Ha). exists a. split; [|done].
  by apply Hin, list_elem_of_In.
Qed.

(** Re-establish the invariant after a step, from the cases of the main loop. *)
Ltac race_perm :=
  try match goal with H : ?l ≡ₚ _ |- context [?l] => rewrite H end; solve_Permutation.
Ltac race_err :=
  let e := fresh "e" in let He := fresh "He" in intros e He; try (injection He as <-);
  first
    [ match goal with
      | H : forall e, _ -> _ \/ _ |- _ => destruct (H e He) as [?|(? & ? & ? & ? & ?)]
      end; [left; congruence|right; do 2 eexists; split_and!; (eassumption || congruence)]
    | left; congruence
    | right; do 2 eexists; split_and!; [reflexivity|intuition congruence..]
    | congruence ].
Ltac race_tac :=
  constructor; cbn in *; unfold returned, good_offer in *; cbn in *;
  [ try assumption | race_perm | intuition congruence | congruence | race_err
  | intuition congruence | intuition congruence | intuition congruence ].

Lemma race_step_inv p f s s' : p <> [] -> f <> [] -> race_step p f s s' -> race_inv p f s -> race_inv p f s'.
Proof.
  intros Hp Hf HS HI. destruct HS as [s env r calls Hr HD|s env r calls Hr HD|s r Hr Hm|s r Hr Hm|s r Hr Hc|s r Hr Hc|s e He|s e He Hm|s Hm Hst].
  - destruct (dial_result_ok p f s env p r calls) as [Hok Hends]; [set_solver..|].
    destruct HI. destruct s as [st fe pr fb pa mn op cl di]; cbn in *; subst pr. destruct fe; race_tac.
  - destruct (dial_result_ok p f s env f r calls) as [Hok Hends]; [set_solver..|].
    destruct HI. destruct s as [st fe pr fb pa mn op cl di]; cbn in *; subst fb. destruct fe; race_tac.
  - destruct HI. destruct s as [st fe pr fb pa mn op cl di]; cbn in *; subst pr mn.
    destruct r as [[c|]|e], fe as [e1|], st; try (exfalso; intuition congruence).
    all: try (assert (fb = Idle) as -> by (by apply ri_started0)); race_tac.
  - destruct HI. destruct s as [st fe pr fb pa mn op cl di]; cbn in *; subst fb mn.
    destruct r as [[c|]|e], fe as [e1|], st; try (exfalso; intuition congruence); race_tac.
  - destruct HI. destruct s as [st fe pr fb pa mn op cl di]; unfold ctx_done in *; cbn in *; subst pr.
    destruct fe, mn; race_tac.
  - destruct HI. destruct s as [st fe pr fb pa mn op cl di]; unfold ctx_done in *; cbn in *; subst fb.
    destruct fe, mn; race_tac.
  - destruct HI. destruct s as [st fe pr fb pa mn op cl di]; cbn in *; subst pa. race_tac.
  - destruct HI. destruct s as [st fe pr fb pa mn op cl di]; cbn in *; subst pa mn. race_tac.
  - destruct HI. destruct s as [st fe pr fb pa mn op cl di]; cbn in *; subst st mn.
    assert (fb = Idle) as -> by (by apply ri_started0). destruct fe; race_tac.
Qed.

Lemma race_reachable p f s : p <> [] -> f <> [] -> rtc (race_step p f) race_init s -> race_inv p f s.
Proof.
  intros Hp Hf. eapply rtc_ind_r; [apply race_inv_init|]. eauto using race_step_inv.
Qed.

Definition active (x : runner) : Prop := match x with Running | Offering _ => True | _ => False end.
Definition terminal (s : race) : Prop :=
  rc_main s <> None /\ ~ active (rc_primary s) /\ ~ active (rc_fallback s).

Definition runner_weight (x : runner) : nat :=
  match x with Idle => 3 | Running => 2 | Offering _ => 1 | Finished => 0 end.
Definition race_measure (s : race) : nat :=
  runner_weight (rc_primary s) + runner_weight (rc_fallback s) +
  (if rc_main s then 0 else 1) + (if rc_parent s then 0 else 1) + (if started s then 0 else 1).

Lemma race_step_measure p f s s' : race_inv p f s -> race_step p f s s' ->
  (race_measure s' < race_measure s)%nat.
Proof.
  intros HI HS. destruct (ri_started _ _ _ HI) as [_ Hst]. unfold race_measure.
  destruct HS as [s env r calls Hr _|s env r calls Hr _|s r Hr Hm|s r Hr Hm|s r Hr _|s r Hr _|s e He|s e He Hm|s Hm Hs];
    destruct s as [st fe pr fb pa mn op cl di]; cbn in *; subst; cbn; try lia;
    try (destruct r as [c|e]; [|destruct fe]; destruct st; cbn; try lia).
  - rewrite (proj2 Hst eq_refl). cbn. lia.
  - by pose proof (proj2 Hst eq_refl).
  - rewrite (proj2 Hst eq_refl). cbn. lia.
Qed.

Lemma race_progress p f s : race_inv p f s -> ~ terminal s ->
  exists s', race_step p f s s' /\ rc_parent s' = rc_parent s.
Proof.
  intros HI Ht. destruct (rc_primary s) as [| |r|] eqn:Ep.
  - by destruct (ri_started _ _ _ HI) as [? _].
  - destruct (dialAddresses (fun _ => mkAttempt None (Err EOF) None) p) as [r calls] eqn:E.
    eexists. split; [by eapply step_dial_primary|done].
  - destruct (rc_main s) eqn:Em; eexists; (split; [|shelve]).
    + apply step_abandon_primary; [exact Ep|right; by rewrite Em].
    + by apply step_offer_primary.
      Unshelve. all: unfold receive; repeat case_match; done.
  - destruct (rc_fallback s) as [| |r|] eqn:Eb.
    + destruct (rc_main s) eqn:Em; [exfalso; apply Ht; unfold terminal; rewrite Ep, Eb, Em; cbn; tauto || (intuition discriminate)|].
      destruct (rc_parent s) eqn:Epa; [eexists; split; [by apply step_done|done]|].
      pose proof (ri_waiting _ _ _ HI Em Epa) as HW. destruct (ri_started _ _ _ HI) as [_ Hst].
      destruct (firstErr s); [|by destruct HW]. destruct HW as [HW _]. rewrite (proj1 Hst Eb) in HW. done.
    + destruct (dialAddresses (fun _ => mkAttempt None (Err EOF) None) f) as [r calls] eqn:E.
      eexists. split; [by eapply step_dial_fallback|done].
    + destruct (rc_main s) eqn:Em; eexists; (split; [|shelve]).
      * apply step_abandon_fallback; [exact Eb|right; by rewrite Em].
      * by apply step_offer_fallback.
        Unshelve. all: unfold receive; repeat case_match; done.
    + destruct (rc_main s) eqn:Em; [exfalso; apply Ht; unfold terminal; rewrite Ep, Eb, Em; cbn; tauto || (intuition discriminate)|].
      destruct (rc_parent s) eqn:Epa; [eexists; split; [by apply step_done|done]|].
      pose proof (ri_waiting _ _ _ HI Em Epa) as HW. destruct (firstErr s); intuition congruence.
Qed.

(** C35: the race of the two address families never leaks or invents a connection.
    In every reachable state the connections opened are exactly those closed, the one
    returned and those still offered; a nil error always comes with a connection; an
    error is the caller's context error or the join of both families' failures.  A
    run takes at most eight steps, can always go on until DialContext has returned
    and no goroutine is left, and then every connection opened was returned or
    closed. *)
Theorem race_no_leak primary fallback n s : primary <> [] -> fallback <> [] ->
  nsteps (race_step primary fallback) n race_init s ->
  (n <= 8)%nat /\
  opened s ≡ₚ closed s ++ returned s ++ offered (rc_primary s) ++ offered (rc_fallback s) /\
  rc_main s <> Some (Ok None) /\
  (forall e, rc_main s = Some (Err e) -> rc_parent s = Some e \/
     exists e1 e2, e = Joined e1 e2 /\ rc_primary s = Finished /\ rc_fallback s = Finished) /\
  (~ terminal s -> exists s', race_step primary fallback s s' /\ rc_parent s' = rc_parent s) /\
  (terminal s -> opened s ≡ₚ closed s ++ returned s).
Proof.
  intros Hp Hf HS. assert (race_inv primary fallback s) as HI
    by (eapply race_reachable; [done..|]; by eapply rtc_nsteps_2).
  assert (n + race_measure s <= race_measure race_init)%nat as Hn.
  { assert (race_inv primary fallback race_init) as H0 by apply race_inv_init. revert H0.
    clear HI. induction HS as [|n x y z Hxy _ IH]; intros H0; [lia|].
    pose proof (race_step_measure _ _ _ _ H0 Hxy). specialize (IH (race_step_inv _ _ _ _ Hp Hf Hxy H0)). lia. }
  change (race_measure race_init) with 8%nat in Hn.
  split_and!; [lia|apply HI|apply HI|apply HI|by apply race_progress|].
  intros (_ & H1 & H2). rewrite (ri_conns _ _ _ HI).
  destruct (rc_primary s), (rc_fallback s); cbn in *; try tauto; by rewrite !app_nil_r.
Qed.

Lemma filter_elem {A} (g : A -> bool) l a : a ∈ List.filter g l -> a ∈ l.
Proof. rewrite !list_elem_of_In. by intros [? _]%filter_In. Qed.

Lemma same_family_head addrs : addrs <> [] -> List.filter (same_family addrs) addrs <> [].
Proof.
  destruct addrs as [|a l]; [done|]. cbn [List.filter].
  assert (same_family (a :: l) a = true) as -> by apply beq_refl. done.
Qed.

Lemma plan_race network addrs p f : plan network addrs = DialRace p f ->
  p <> [] /\ f <> [] /\ forall a, a ∈ p ++ f -> a ∈ addrs.
Proof.
  unfold plan. destruct (_ || _); [done|]. case_bool_decide as Hf; [done|].
  intros [= <- <-]. split_and!.
  - apply same_family_head. by intros ->.
  - by intros E; rewrite E in Hf.
  - intros a [?|?]%elem_of_app; by eapply filter_elem.
Qed.

Lemma plan_seq network addrs l : plan network addrs = DialSeq l ->
  (addrs <> [] -> l <> []) /\ forall a, a ∈ l -> a ∈ addrs.
Proof.
  unfold plan. destruct (_ || _); [by intros [= ->]|]. case_bool_decide; [|done].
  intros [= <-]. split; [apply same_family_head|apply filter_elem].
Qed.

Lemma Resolve_nonempty `{Unicode} r env used addr out :
  ro_result (Resolve r env used addr) = Ok out -> out <> [].
Proof.
  destruct (Resolve_cases r env used addr)
    as [(e & -> & _)|[(a & _ & _ & _ & ->)|(a & _ & _ & _ & _ & _ & ->)]]; cbn; [done|by intros [= <-]|].
  unfold approved. destruct (LookupNetIP _ _); [|done]. destruct (candidates _ _ _ _); by intros [= <-].
Qed.

(** [DialContext] dials only endpoints that [Resolve] approved, never the name: for
    every run, each endpoint handed to the dialler is the text of one of the resolved
    addresses, nothing is dialled when resolution fails, and success always comes with
    a connection. *)
Theorem dial_only_approved `{Unicode} r renv used network addr res ends :
  DialContext r renv used network addr res ends ->
  (forall e, ro_result (Resolve r renv used addr) = Err e -> res = Err e /\ ends = []) /\
  (forall out, ro_result (Resolve r renv used addr) = Ok out ->
     res <> Ok None /\ forall e, e ∈ ends -> exists a, a ∈ out /\ e = Address_String a).
Proof.
  intros HD. destruct HD as [e He|addrs l env res calls He Hp Hc|addrs p f s res He Hp Hs Hm]; rewrite He.
  - split; [by intros ? [= <-]|done].
  - split; [done|]. intros out [= <-]. split.
    + intros ->. eapply dial_loop_nonnil; [|exact Hc]. left.
      eapply plan_seq; [exact Hp|]. by eapply Resolve_nonempty.
    + intros e Hin. apply dial_loop_endpoints in Hc as [[rest HE] _].
      assert (e ∈ map Address_String l) as Hl by (rewrite HE; apply elem_of_app; by left).
      apply list_elem_of_In, in_map_iff in Hl as (a & <- & Ha). exists a. split; [|done].
      destruct (plan_seq _ _ _ Hp) as [_ Hin']. by apply Hin', list_elem_of_In.
  - split; [done|]. intros out [= <-]. destruct (plan_race _ _ _ _ Hp) as (Hp1 & Hf1 & Hin).
    pose proof (race_reachable _ _ _ Hp1 Hf1 Hs) as HI. split.
    + intros ->. by apply (ri_ok _ _ _ HI).
    + intros e Hed. destruct (ri_endpoints _ _ _ HI e Hed) as (a & Ha & ->). eauto.
Qed.

(** ** Concrete runs *)

(** On ASCII text the tables of package unicode are not consulted. *)
#[local] Instance ascii_unicode : Unicode := {| map_to_lower := id; trim_space_func := id |}.

Definition ip4 (a b c d : Z) : bytes := map z2b [a; b; c; d].
Definition literal_addr : Address := mkAddress AtypIPv4 [] (ip4 10 1 2 3) 80.

Lemma literal_addr_normal : normal_form literal_addr.
Proof. split; [done|]. right; left. done. Qed.

Lemma rule_meaning_witness : exists r, parseRule (bs " 10.0.0.0/8 ") = Ok (Some r) /\
  (matches literal_addr r = true <-> spec_matches (TrimSpace (bs " 10.0.0.0/8 ")) literal_addr).
Proof.
  eexists. split; [vm_compute; reflexivity|].
  refine (rule_meaning (bs " 10.0.0.0/8 ") _ literal_addr _ literal_addr_normal). vm_compute. reflexivity.
Defined.

(** A name with one public and one private address; only the first is approved. *)
Definition example_list : res List_ := New [bs "*.Example.com"] [bs "10.0.0.0/8"] [443] [25].
Definition example_resolver : Resolver := NewResolver (match example_list with Ok l => Some l | Err _ => None end) 0 0.
Definition example_env : resolve_env :=
  mkEnv None false (fun _ => Ok [Some (Addr6 (v4InV6Prefix ++ ip4 93 184 216 34) []);
                                 Some (Addr4 (ip4 10 0 0 1)); None; Some (Addr4 (ip4 93 184 216 34))]).
Definition example_addr : Address := mkAddress AtypDomain (bs "WWW.example.com.") [] 443.
Definition example_endpoint : Address := mkAddress AtypIPv4 [] (ip4 93 184 216 34) 443.

Example resolve_example : ro_result (Resolve example_resolver example_env 0 example_addr) = Ok [example_endpoint].
Proof. vm_compute. reflexivity. Qed.

Lemma policy_enforced_witness : exists a, normalized example_addr = Ok a /\ Port example_endpoint = 443 /\
  Atyp example_endpoint <> AtypDomain.
Proof.
  destruct (New [bs "*.Example.com"] [bs "10.0.0.0/8"] [443] [25]) as [l|] eqn:E; [|vm_compute in E; discriminate E].
  assert (rs_policy example_resolver = Some l) as HP
    by (unfold example_resolver, example_list; rewrite E; reflexivity).
  destruct (policy_enforced _ _ _ _ l example_resolver example_env 0 example_addr [example_endpoint] example_endpoint
    E HP resolve_example ltac:(left)) as (a & Ha & Hp & Ht & _).
  exists a. exact (conj Ha (conj Hp Ht)).
Defined.

Definition good_attempts : nat -> attempt := fun i => mkAttempt (Some (9 * second)) (Ok i) None.

Lemma dial_only_approved_witness :
  DialContext example_resolver example_env 0 (bs "tcp") example_addr (Ok (Some 0%nat)) [bs "93.184.216.34:443"] /\
  forall out, ro_result (Resolve example_resolver example_env 0 example_addr) = Ok out ->
    forall e, e ∈ [bs "93.184.216.34:443"] -> exists a, a ∈ out /\ e = Address_String a.
Proof.
  assert (DialContext example_resolver example_env 0 (bs "tcp") example_addr (Ok (Some 0%nat)) [bs "93.184.216.34:443"]) as HD.
  { apply (dial_sequential _ _ _ _ _ [example_endpoint] [example_endpoint] good_attempts (Ok (Some 0%nat))
      [(bs "93.184.216.34:443", 9 * second)]); vm_compute; reflexivity. }
  split; [exact HD|]. intros out Ho. exact (proj2 (proj2 (dial_only_approved _ _ _ _ _ _ _ HD) out Ho)).
Defined.

(** The primary family connects only after the fallback was started and has won. *)
Definition v6_endpoint : Address := mkAddress AtypIPv6 [] (replicate 15 Byte.x00 ++ [Byte.x01]) 443.

Lemma race_no_leak_witness : exists s,
  nsteps (race_step [example_endpoint] [v6_endpoint]) 5 race_init s /\ terminal s /\
  opened s ≡ₚ closed s ++ returned s /\ closed s = [0%nat] /\ returned s = [7%nat].
Proof.
  set (p := [example_endpoint]). set (f := [v6_endpoint]).
  set (late := fun _ : nat => mkAttempt None (Ok 0%nat) None).
  set (quick := fun _ : nat => mkAttempt None (Ok 7%nat) None).
  assert (exists s, nsteps (race_step p f) 5 race_init s /\ terminal s /\ closed s = [0%nat] /\ returned s = [7%nat])
    as (s & Hs & Ht & Hc & Hr).
  { eexists. split.
    - eapply nsteps_l; [apply step_timer; reflexivity|].
      eapply nsteps_l; [apply (step_dial_fallback p f _ quick (Ok (Some 7%nat)) [(Address_String v6_endpoint, 10 * second)]); reflexivity|].
      eapply nsteps_l; [apply (step_offer_fallback p f _ (Ok (Some 7%nat))); reflexivity|].
      eapply nsteps_l; [apply (step_dial_primary p f _ late (Ok (Some 0%nat)) [(Address_String example_endpoint, 10 * second)]); reflexivity|].
      eapply nsteps_l; [apply (step_abandon_primary p f _ (Ok (Some 0%nat))); [reflexivity|right; discriminate]|].
      apply nsteps_O.
    - split; [|split; reflexivity]. unfold terminal. cbn. intuition discriminate. }
  exists s. split; [exact Hs|]. split; [exact Ht|]. split; [|exact (conj Hc Hr)].
  refine (proj2 (proj2 (proj2 (proj2 (proj2 (race_no_leak p f 5 s _ _ Hs))))) Ht); discriminate.
Defined.
