(* ===== verification/Tunnel.v ===== *)
(** * Package tunnel: authentication, credentials and transport parameters

    Models [internal/tunnel]: the PSK proofs of [auth.go], the rotating server
    credentials of [credentials.go], the pin check of [tls.go], the transport
    parameters of [quicconf.go] and [congestion.go], and the stream lifecycle
    helpers of [stream.go].  The cryptographic primitives are parameters. *)
From S2P Require Import Prelude GoEncoding.

(** ** Primitives

    HMAC-SHA256 and SHA-256, with the only fact the code relies on: the digest length. *)
Class Crypto := {
  hmac_sha256 : bytes -> bytes -> bytes;   (* key, message *)
  sha256 : bytes -> bytes;
}.
Class CryptoLaws `{Crypto} := {
  hmac_length : forall k m, length (hmac_sha256 k m) = 32%nat;
  sha256_length : forall m, length (sha256 m) = 32%nat;
}.

(** Times are nanoseconds since Go's zero time, so that the zero [time.Time] is 0 and
    every wall clock reading is positive. *)
Definition IsZero (t : Z) : bool := t =? 0.
Definition Before (t u : Z) : bool := t <? u.
Definition After (t u : Z) : bool := u <? t.

(** ** auth.go *)

Definition proofLen : nat := 32.

(** The two ends of a control stream, with the calls made on them in order. *)
Inductive event :=
| Ready (id : bytes)      (* the readiness callback *)
| Wrote (b : bytes).      (* a write attempted on the stream *)

Record io := mkIO { io_in : reader; io_out : writer; io_log : list event }.

(** [writeProof]. *)
Definition writeProof (s : io) (b : bytes) : option error * io :=
  let '(_, err, w) := write_checked (io_out s) b in
  (err, mkIO (io_in s) w (io_log s ++ [Wrote b])).

Definition readProof (s : io) : res bytes * io :=
  let '(r, rd) := ReadFull proofLen (io_in s) in (r, mkIO rd (io_out s) (io_log s)).

Definition log_ready (id : bytes) (s : io) : io := mkIO (io_in s) (io_out s) (io_log s ++ [Ready id]).

Section crypto.
Context `{Crypto}.

Definition proof (psk exporter : bytes) (who : string) : bytes :=
  hmac_sha256 psk (bs who ++ exporter).

(** The two halves of [ClientAuth]: what it sends, and what it makes of the answer. *)
Definition ClientAuth_send (s : io) (psk exporter : bytes) : option error * io :=
  writeProof s (proof psk exporter "client").

Definition ClientAuth_verify (s : io) (psk exporter : bytes) : option error * io :=
  match readProof s with
  | (Err e, s') => (Some e, s')
  | (Ok got, s') =>
      (if bool_decide (got = proof psk exporter "server") then None
       else Some (ErrNew "tunnel: server authentication failed (bad PSK?)"), s')
  end.

Definition ClientAuth (s : io) (psk exporter : bytes) : option error * io :=
  match ClientAuth_send s psk exporter with
  | (Some e, s') => (Some e, s')
  | (None, s') => ClientAuth_verify s' psk exporter
  end.

Definition ServerAuth (s : io) (psk exporter : bytes) (onAuthenticated : bool) : option error * io :=
  match readProof s with
  | (Err e, s') => (Some e, s')
  | (Ok got, s') =>
      if negb (bool_decide (got = proof psk exporter "client"))
      then (Some (ErrNew "tunnel: client authentication failed (bad PSK?)"), s')
      else writeProof (if onAuthenticated then log_ready [] s' else s') (proof psk exporter "server")
  end.

(** ** credentials.go *)

Record Certificate := mkCert { cert_chain : list bytes; has_private_key : bool }.

Record credentialSnapshot := mkSnap {
  primary : bytes; previous : bytes; expires : Z; cert : Certificate;
}.

(** [store]: the published snapshot; the slices are copied. *)
Definition store (pri prev : bytes) (exp : Z) (c : Certificate) : credentialSnapshot :=
  mkSnap pri prev exp c.

Definition NewServerCredentials := store.

Definition week : Z := 7 * 24 * 3600 * second.

(** [Update] at time [now]: the error, and the snapshot published afterwards. *)
Definition Update (now : Z) (cur : credentialSnapshot) (pri prev : bytes) (exp : Z) (c : Certificate)
    : option error * credentialSnapshot :=
  if bool_decide (length pri < 16)%nat || bool_decide (256 < length pri)%nat ||
     bool_decide (length (cert_chain c) = 0%nat) || negb (has_private_key c)
  then (Some (ErrNew "tunnel: invalid replacement credentials"), cur)
  else if bool_decide (0 < length prev)%nat &&
          (bool_decide (length prev < 16)%nat || bool_decide (256 < length prev)%nat ||
           bool_decide (pri = prev) || IsZero exp || After exp (now + week))
  then (Some (ErrNew "tunnel: invalid previous key overlap"), cur)
  else if bool_decide (length prev = 0%nat) && negb (IsZero exp)
  then (Some (ErrNew "tunnel: expiry without previous key"), cur)
  else (None, store pri prev exp c).

Definition Accepts (now : Z) (s : credentialSnapshot) (id : bytes) : bool :=
  let a := sha256 (primary s) in
  let b := sha256 (previous s) in
  bool_decide (id = a) ||
  (bool_decide (id = b) && bool_decide (0 < length (previous s))%nat && Before now (expires s)).

(** The key that [Authenticate] selects for a received proof. *)
Definition select_key (now : Z) (s : credentialSnapshot) (exporter got : bytes) : option bytes :=
  let primaryOK := bool_decide (got = proof (primary s) exporter "client") in
  let previousOK := bool_decide (got = proof (previous s) exporter "client") &&
                    bool_decide (0 < length (previous s))%nat && Before now (expires s) in
  if primaryOK && bool_decide (0 < length (primary s))%nat then Some (primary s)
  else if previousOK then Some (previous s)
  else None.

(** [Authenticate]: [ready], when given, is the answer of the readiness callback. *)
Definition Authenticate (now : Z) (c : credentialSnapshot) (s : io) (exporter : bytes)
    (ready : option (bytes -> option error)) : option error * io :=
  match readProof s with
  | (Err e, s') => (Some e, s')
  | (Ok got, s') =>
      match select_key now c exporter got with
      | None => (Some (ErrNew "tunnel: client authentication failed"), s')
      | Some key =>
          match ready with
          | Some f =>
              let s'' := log_ready (sha256 key) s' in
              match f (sha256 key) with
              | Some e => (Some e, s'')
              | None => writeProof s'' (proof key exporter "server")
              end
          | None => writeProof s' (proof key exporter "server")
          end
      end
  end.

(** ** tls.go *)

(** [SPKIPin] of a certificate, given its subject public key info. *)
Definition SPKIPin (spki : bytes) : bytes := EncodeToString (sha256 spki).

(** The [VerifyConnection] of [ClientTLSConfigWithRotation], on the public keys of
    the peer's certificates. *)
Definition VerifyConnection (now : Z) (pin nextPin : bytes) (exp : Z) (peer : list bytes) : option error :=
  match peer with
  | [] => Some (ErrNew "tunnel: server presented no certificate")
  | leaf :: _ =>
      let got := SPKIPin leaf in
      if negb (bool_decide (got = pin)) &&
         negb (negb (bool_decide (nextPin = [])) && bool_decide (got = nextPin) && Before now exp)
      then Some (ErrNew "tunnel: server pin mismatch")
      else None
  end.

(** [ClientTLSConfig]: no second pin. *)
Definition VerifyConnection_single (now : Z) (pin : bytes) (peer : list bytes) : option error :=
  VerifyConnection now pin [] 0 peer.
End crypto.

(** ** quicconf.go and congestion.go *)

Definition defaultMaxStreamRecvWindow : Z := Z.shiftl 16 20.
Definition defaultMaxConnRecvWindow : Z := Z.shiftl 24 20.
Definition initialStreamRecvWindow : Z := Z.shiftl 512 10.
Definition initialConnRecvWindow : Z := Z.shiftl 768 10.

Record QUICOptions := mkQUICOptions {
  CongestionControl : bytes; EnableDatagrams : bool;
  IdleTimeout : Z; HandshakeTimeout : Z;
  MaxStreamRecvWindow : Z; MaxConnRecvWindow : Z; MaxIncomingStreams : Z;
}.

Record quic_Config := mkQuic {
  qc_datagrams : bool; HandshakeIdleTimeout : Z; MaxIdleTimeout : Z; KeepAlivePeriod : Z;
  InitialStreamReceiveWindow : Z; MaxStreamReceiveWindow : Z;
  InitialConnectionReceiveWindow : Z; MaxConnectionReceiveWindow : Z;
  qc_MaxIncomingStreams : Z; MaxIncomingUniStreams : Z; Allow0RTT : bool;
}.

(** [bbrConfigurer]: nil, or the function of the build that has the controller. *)
Section congestion.
Context (bbrConfigurer : option (quic_Config -> quic_Config)).

Definition CongestionAvailable (mode : bytes) : bool :=
  bool_decide (mode = []) || bool_decide (mode = bs "reno") ||
  (bool_decide (mode = bs "bbr") && bool_decide (is_Some bbrConfigurer)).

(** [None] is the panic. *)
Definition configureCongestion (c : quic_Config) (mode : bytes) : option quic_Config :=
  if negb (CongestionAvailable mode) then None
  else if bool_decide (mode = bs "bbr") then (fun f => f c) <$> bbrConfigurer
  else Some c.

Definition NewQUICConfig (o : QUICOptions) : option quic_Config :=
  let idle := if IdleTimeout o <=? 0 then 60 * second else IdleTimeout o in
  let handshake := if HandshakeTimeout o <=? 0 then 10 * second else HandshakeTimeout o in
  let streamWin := if MaxStreamRecvWindow o =? 0 then defaultMaxStreamRecvWindow else MaxStreamRecvWindow o in
  let connWin := if MaxConnRecvWindow o =? 0 then defaultMaxConnRecvWindow else MaxConnRecvWindow o in
  let streams := if MaxIncomingStreams o =? 0 then 128 else MaxIncomingStreams o in
  configureCongestion
    (mkQuic (EnableDatagrams o) (Z.quot handshake 2) idle (Z.quot idle 3)
            (Z.min initialStreamRecvWindow streamWin) streamWin
            (Z.min initialConnRecvWindow connWin) connWin streams 3 false)
    (CongestionControl o).
End congestion.

(** ** stream.go *)

(** [Abort] cancels both halves; [BindContext] arranges it for the end of a context.
    The state of one binding: the [AfterFunc] callback, the [once] of the returned
    function, and the calls made on the stream. *)
Definition ControlAuthority : bytes := bs "wanopt-control.invalid:443".
Definition ProxyAuthority : bytes := bs "wanopt-stream.invalid:443".

Inductive stream_call := SetDeadline (t : Z) | CancelRead (code : Z) | CancelWrite (code : Z).
Definition Abort : list stream_call := [CancelRead 268; CancelWrite 268].   (* 0x10c *)

Inductive callback := Armed | Started | Completed | Stopped.
Inductive stopper := NotCalled | Waiting | Returned.

Record binding := mkBinding {
  bd_ctx_done : bool; bd_callback : callback; bd_stop : stopper; bd_calls : list stream_call;
}.

Definition BindContext (deadline : option Z) (ctx_done : bool) : binding :=
  mkBinding ctx_done Armed NotCalled
            (match deadline with Some t => [SetDeadline t] | None => [] end).

Inductive bind_step : binding -> binding -> Prop :=
| bind_cancel cb st calls :
    bind_step (mkBinding false cb st calls) (mkBinding true cb st calls)
| bind_fire st calls :
    bind_step (mkBinding true Armed st calls) (mkBinding true Started st calls)
| bind_run d st calls :
    bind_step (mkBinding d Started st calls) (mkBinding d Completed st (calls ++ Abort))
| bind_stop_armed d calls :       (* stop() returns true *)
    bind_step (mkBinding d Armed NotCalled calls) (mkBinding d Stopped Returned calls)
| bind_stop_late d cb calls :     (* stop() returns false: wait for done *)
    cb = Started \/ cb = Completed ->
    bind_step (mkBinding d cb NotCalled calls) (mkBinding d cb Waiting calls)
| bind_join d calls :
    bind_step (mkBinding d Completed Waiting calls) (mkBinding d Completed Returned calls).

(** ** The handshake *)

Section laws.
Context `{CL : CryptoLaws}.

Lemma proof_length psk exporter who : length (proof psk exporter who) = proofLen.
Proof. apply hmac_length. Qed.

Lemma readProof_app b rest e w log : length b = proofLen ->
  readProof (mkIO (Reader (b ++ rest) e) w log) = (Ok b, mkIO (Reader rest e) w log).
Proof. intros Hb. unfold readProof. cbn [io_in]. by rewrite ReadFull_app. Qed.

Lemma readProof_Ok s got s' : readProof s = (Ok got, s') ->
  length got = proofLen /\ rd_data (io_in s) = got ++ rd_data (io_in s') /\
  rd_end (io_in s') = rd_end (io_in s) /\ io_out s' = io_out s /\ io_log s' = io_log s.
Proof.
  unfold readProof. destruct (ReadFull _ _) as [r rd] eqn:E. intros [= -> <-]. cbn.
  apply ReadFull_Ok in E as (? & ? & ?). auto.
Qed.

Lemma readProof_Err s e s' : readProof s = (Err e, s') -> io_out s' = io_out s /\ io_log s' = io_log s.
Proof. unfold readProof. destruct (ReadFull _ _) as [r rd]. by intros [= _ <-]. Qed.

Lemma writeProof_good inp out log b :
  writeProof (mkIO inp (Writer out []) log) b = (None, mkIO inp (Writer (out ++ b) []) (log ++ [Wrote b])).
Proof. unfold writeProof. cbn [io_out]. by rewrite write_checked_good. Qed.

(** The keys a snapshot accepts at a time. *)
Definition active (now : Z) (c : credentialSnapshot) (k : bytes) : Prop :=
  k <> [] /\ (k = primary c \/ k = previous c /\ now < expires c).

Lemma select_key_active now c exporter got k : select_key now c exporter got = Some k ->
  active now c k /\ got = proof k exporter "client".
Proof.
  unfold select_key, Before, active. intros HE.
  destruct (_ && _) eqn:E1 in HE; [|destruct (_ && _ && _) eqn:E2 in HE; [|done]]; injection HE as <-.
  - apply andb_true_iff in E1 as [->%bool_decide_eq_true E1%bool_decide_eq_true].
    split; [|done]. split; [|by left]. by destruct (primary c); [simpl in E1; lia|].
  - rewrite !andb_true_iff in E2. destruct E2 as [[->%bool_decide_eq_true E2%bool_decide_eq_true] E3%Z.ltb_lt].
    split; [|done]. split; [|by right]. by destruct (previous c); [simpl in E2; lia|].
Qed.

Lemma select_key_complete now c exporter k : active now c k ->
  (k = primary c \/ proof (primary c) exporter "client" <> proof k exporter "client") ->
  select_key now c exporter (proof k exporter "client") = Some k.
Proof.
  intros [Hne Hk] Hp. unfold select_key, Before.
  assert (forall b : bytes, b <> [] -> bool_decide (0 < length b)%nat = true) as Hlen.
  { intros [|] ?; [done|]. apply bool_decide_eq_true_2. simpl. lia. }
  destruct (decide (k = primary c)) as [->|Hnp].
  - by rewrite (bool_decide_eq_true_2 (_ = _)), Hlen by done.
  - destruct Hk as [?|[-> Hx]]; [done|]. destruct Hp as [?|Hp]; [done|].
    rewrite (bool_decide_eq_false_2 (_ = proof (primary c) _ _)) by auto. cbn [andb].
    by rewrite (bool_decide_eq_true_2 (_ = proof (previous c) _ _)), Hlen, (proj2 (Z.ltb_lt _ _) Hx) by done.
Qed.

Lemma active_Accepts now c k : active now c k -> Accepts now c (sha256 k) = true.
Proof.
  intros [Hne Hk]. unfold Accepts, Before. destruct Hk as [->|[-> Hx]].
  - by rewrite bool_decide_eq_true_2.
  - apply orb_true_iff. right. rewrite (bool_decide_eq_true_2 (sha256 _ = _)), (proj2 (Z.ltb_lt _ _) Hx) by done.
    destruct (previous c); [done|]. by rewrite bool_decide_eq_true_2 by (simpl; lia).
Qed.

(** What [Authenticate] does once a key is selected. *)
Lemma Authenticate_selected now c s exporter ready got s1 :
  readProof s = (Ok got, s1) -> forall k, select_key now c exporter got = Some k ->
  Authenticate now c s exporter ready =
  match ready with
  | Some f => match f (sha256 k) with
              | Some e => (Some e, log_ready (sha256 k) s1)
              | None => writeProof (log_ready (sha256 k) s1) (proof k exporter "server")
              end
  | None => writeProof s1 (proof k exporter "server")
  end.
Proof. intros E k Hk. unfold Authenticate. by rewrite E, Hk. Qed.

(** Completeness of mutual authentication.  A client that holds the primary key,
    or the previous key before it expires, authenticates: the server accepts its
    proof, publishes the session with the digest of that very key before it replies,
    the digest is one the server still accepts, the client accepts the reply, and
    neither side consumes or sends a byte more than the two proofs. *)
Theorem handshake_complete now c k exporter rest e rest' e' :
  active now c k ->
  (k = primary c \/ proof (primary c) exporter "client" <> proof k exporter "client") ->
  exists c1 s1 c2,
    ClientAuth_send (mkIO (Reader [] e') (Writer [] []) []) k exporter = (None, c1) /\
    Authenticate now c (mkIO (Reader (wr_out (io_out c1) ++ rest) e) (Writer [] []) []) exporter
      (Some (fun _ => None)) = (None, s1) /\
    io_log s1 = [Ready (sha256 k); Wrote (proof k exporter "server")] /\
    io_in s1 = Reader rest e /\ Accepts now c (sha256 k) = true /\
    ClientAuth (mkIO (Reader (wr_out (io_out s1) ++ rest') e') (Writer [] []) []) k exporter = (None, c2) /\
    io_in c2 = Reader rest' e' /\ wr_out (io_out c2) = wr_out (io_out c1).
Proof.
  intros Hact Hp. pose proof (proof_length k exporter "client") as Hlc.
  pose proof (proof_length k exporter "server") as Hls.
  do 3 eexists. split; [apply writeProof_good|]. cbn [io_out wr_out]. rewrite app_nil_l.
  split; [rewrite (Authenticate_selected now c _ exporter _ _ _ (readProof_app _ rest e _ _ Hlc) k
                     (select_key_complete now c exporter k Hact Hp)); apply writeProof_good|].
  cbn [io_log io_in io_out wr_out log_ready]. split; [done|]. split; [done|]. split; [by apply active_Accepts|].
  unfold ClientAuth, ClientAuth_send. rewrite writeProof_good. unfold ClientAuth_verify. rewrite app_nil_l.
  rewrite readProof_app by done. rewrite bool_decide_eq_true_2 by done. done.
Qed.

(** C13: soundness of [Authenticate], for every byte stream and writer.  Either it fails
    without publishing or answering anything, or the first 32 bytes were exactly the
    client proof of an active key for this session's exporter; then the session is
    published, with an identity the server accepts, before the reply is written, and a
    refusal by the readiness callback leaves no reply. *)
Theorem authenticate_sound now c s exporter f err s' :
  Authenticate now c s exporter (Some f) = (err, s') ->
  (err <> None /\ io_log s' = io_log s /\ io_out s' = io_out s) \/
  exists k rest, active now c k /\ rd_data (io_in s) = proof k exporter "client" ++ rest /\
    Accepts now c (sha256 k) = true /\
    match f (sha256 k) with
    | Some e => err = Some e /\ io_log s' = io_log s ++ [Ready (sha256 k)] /\ io_out s' = io_out s
    | None => io_log s' = io_log s ++ [Ready (sha256 k); Wrote (proof k exporter "server")] /\
              (err = None -> wr_out (io_out s') = wr_out (io_out s) ++ proof k exporter "server")
    end.
Proof.
  destruct (readProof s) as [[got|e] s1] eqn:Er.
  - destruct (select_key now c exporter got) as [k|] eqn:Ek.
    + rewrite (Authenticate_selected _ _ _ _ _ _ _ Er k Ek). intros HE. right.
      apply readProof_Ok in Er as (_ & Hd & _ & Ho & Hl). apply select_key_active in Ek as [Ha ->].
      exists k, (rd_data (io_in s1)). split_and!; [done|done|by apply active_Accepts|].
      destruct (f (sha256 k)) as [e|].
      * injection HE as <- <-. cbn. by rewrite Hl.
      * unfold writeProof in HE. destruct (write_checked _ _) as [[n er] w] eqn:Ew. injection HE as <- <-.
        cbn [io_log io_out log_ready] in *. rewrite Hl, <-app_assoc. split; [done|]. intros ->.
        apply write_checked_ok in Ew as [_ ->]. by rewrite Ho.
    + unfold Authenticate. rewrite Er, Ek. intros [= <- <-]. left.
      apply readProof_Ok in Er as (_ & _ & _ & Ho & Hl). auto.
  - unfold Authenticate. rewrite Er. intros [= <- <-]. left. apply readProof_Err in Er as [? ?]. auto.
Qed.

(** Success of [ClientAuth]: the peer's bytes were the server's proof. *)
Lemma ClientAuth_sound psk exporter s s' : ClientAuth s psk exporter = (None, s') ->
  exists rest, rd_data (io_in s) = proof psk exporter "server" ++ rest /\ io_in s' = Reader rest (rd_end (io_in s)) /\
    wr_out (io_out s') = wr_out (io_out s) ++ proof psk exporter "client".
Proof.
  unfold ClientAuth, ClientAuth_send, writeProof.
  destruct (write_checked (io_out s) _) as [[n [e|]] w] eqn:Ew; [done|].
  apply write_checked_ok in Ew as [_ Hw]. unfold ClientAuth_verify.
  destruct (readProof _) as [[got|e] s1] eqn:Er; [|done]. apply readProof_Ok in Er as (_ & Hd & He & Ho & _).
  case_bool_decide as Hg; [|done]. intros [= <-]. cbn in Hd, He, Ho. subst got.
  exists (rd_data (io_in s1)). rewrite Ho, Hd, <-He. by destruct (io_in s1).
Qed.

(** Soundness of the client and of [ServerAuth]: success means that the peer's
    bytes were the proof of this PSK for this exporter in the peer's role, and
    [ServerAuth] publishes readiness, once, before its reply and only after that
    check. *)
Theorem peer_auth_sound psk exporter s s' :
  (ClientAuth s psk exporter = (None, s') ->
     exists rest, rd_data (io_in s) = proof psk exporter "server" ++ rest /\ io_in s' = Reader rest (rd_end (io_in s)) /\
       wr_out (io_out s') = wr_out (io_out s) ++ proof psk exporter "client") /\
  (forall err, ServerAuth s psk exporter true = (err, s') ->
     io_log s' = io_log s /\ io_out s' = io_out s /\ err <> None \/
     exists rest, rd_data (io_in s) = proof psk exporter "client" ++ rest /\
       io_log s' = io_log s ++ [Ready []; Wrote (proof psk exporter "server")]).
Proof.
  split.
  - apply ClientAuth_sound.
  - intros err. unfold ServerAuth. destruct (readProof s) as [[got|e] s1] eqn:Er.
    2:{ apply readProof_Err in Er as [? ?]. intros [= <- <-]. auto. }
    apply readProof_Ok in Er as (_ & Hd & He & Ho & Hl). case_bool_decide as Hg; cbn [negb].
    + unfold writeProof. destruct (write_checked _ _) as [[n er] w]. intros [= <- <-]. right. subst got.
      exists (rd_data (io_in s1)). split; [done|]. cbn. by rewrite Hl, <-app_assoc.
    + intros [= <- <-]. auto.
Qed.

(** ** Rotation *)

(** What a published snapshot satisfies when it comes from [Update]. *)
Definition snapshot_ok (now : Z) (s : credentialSnapshot) : Prop :=
  (16 <= length (primary s) <= 256)%nat /\ cert_chain (cert s) <> [] /\ has_private_key (cert s) = true /\
  (previous s = [] /\ expires s = 0 \/
   (16 <= length (previous s) <= 256)%nat /\ previous s <> primary s /\
   expires s <> 0 /\ expires s <= now + week).

Lemma Update_spec now cur pri prev exp c :
  (snapshot_ok now (mkSnap pri prev exp c) /\ Update now cur pri prev exp c = (None, mkSnap pri prev exp c)) \/
  (~ snapshot_ok now (mkSnap pri prev exp c) /\ exists e, Update now cur pri prev exp c = (Some e, cur)).
Proof.
  unfold Update, snapshot_ok, IsZero, After. cbn.
  destruct (_ || negb (has_private_key c)) eqn:E1; [right|].
  { split; [|by eexists]. intros ((? & ?) & Hc & Hk & _). rewrite Hk in E1.
    rewrite !orb_true_iff, !bool_decide_eq_true in E1. destruct E1 as [[[?|?]|E1]|?]; [lia|lia| |done].
    by destruct (cert_chain c). }
  rewrite !orb_false_iff, !bool_decide_eq_false in E1. destruct E1 as [[[E1 E2] E3] E4%negb_false_iff].
  assert (cert_chain c <> []) by (by intros E; rewrite E in E3).
  destruct prev as [|x prev].
  - cbn [length andb]. rewrite bool_decide_eq_false_2 by lia. cbn [andb].
    rewrite (bool_decide_eq_true_2 (0 = 0)%nat) by done. cbn [andb].
    destruct (Z.eqb_spec exp 0) as [->|Hx]; cbn [negb]; [left|right].
    + split_and!; try done; try lia. by left.
    + split; [|by eexists]. intros (_ & _ & _ & [[_ ?]|[? _]]); [done|simpl in *; lia].
  - set (p := x :: prev) in *. assert (0 < length p)%nat by (unfold p; simpl; lia).
    rewrite (bool_decide_eq_true_2 (0 < length p)%nat) by done. cbn [andb].
    rewrite (bool_decide_eq_false_2 (length p = 0)%nat) by lia. cbn [andb].
    destruct (_ || _) eqn:E5; [right|left].
    + split; [|by eexists]. intros (_ & _ & _ & [[? _]|(Hl & Hne & Hx & Hw)]); [done|].
      rewrite !orb_true_iff, !bool_decide_eq_true, Z.eqb_eq, Z.ltb_lt in E5. intuition (congruence || lia).
    + rewrite !orb_false_iff, !bool_decide_eq_false, Z.eqb_neq, Z.ltb_ge in E5.
      destruct E5 as [[[[? ?] ?] ?] ?]. split_and!; try done; try lia. right. split_and!; try done; try lia; congruence.
Qed.

Lemma Accepts_spec now s id : Accepts now s id = true <->
  id = sha256 (primary s) \/ id = sha256 (previous s) /\ previous s <> [] /\ now < expires s.
Proof.
  unfold Accepts, Before. rewrite orb_true_iff, !andb_true_iff, !bool_decide_eq_true, Z.ltb_lt.
  destruct (previous s); simpl; intuition (congruence || lia).
Qed.

(** [Update] publishes a snapshot exactly when it is valid and otherwise changes
    nothing; after a valid update sessions of the new primary key are always accepted,
    those of the previous key only before its expiry, which is at most seven days
    away, and no other session identity is ever accepted. *)
Theorem update_rotation now cur pri prev exp c :
  let '(err, new) := Update now cur pri prev exp c in
  (err = None <-> snapshot_ok now (mkSnap pri prev exp c)) /\
  (err <> None -> new = cur) /\
  (err = None -> new = mkSnap pri prev exp c /\ forall later id,
     Accepts later new id = true <->
       id = sha256 pri \/ id = sha256 prev /\ prev <> [] /\ later < exp) /\
  (err = None -> forall later id, now + week <= later -> Accepts later new id = bool_decide (id = sha256 pri)).
Proof.
  destruct (Update_spec now cur pri prev exp c) as [[Hok ->]|[Hno [e ->]]]; split_and!; try done.
  - intros _. split; [done|]. intros later id. apply Accepts_spec.
  - intros _ later id Hl. apply eq_bool_prop_intro. rewrite !Is_true_true, bool_decide_eq_true, Accepts_spec. cbn.
    destruct Hok as (_ & _ & _ & [[Hp _]|(_ & _ & _ & Hx)]); cbn in *; intuition (congruence || lia).
Qed.

(** Pin rotation.  The client's TLS check accepts exactly a leaf certificate with
    the pinned key, or with the next key before the rotation expires; without a next
    pin, or after the expiry, it is the single-pin check. *)
Theorem pin_rotation now pin nextPin exp peer :
  (VerifyConnection now pin nextPin exp peer = None <->
   exists leaf rest, peer = leaf :: rest /\
     (SPKIPin leaf = pin \/ nextPin <> [] /\ SPKIPin leaf = nextPin /\ now < exp)) /\
  (nextPin = [] \/ exp <= now ->
   VerifyConnection now pin nextPin exp peer = VerifyConnection_single now pin peer).
Proof.
  unfold VerifyConnection_single, VerifyConnection, Before. destruct peer as [|leaf rest].
  { split; [|done]. split; [done|]. by intros (? & ? & ? & _). }
  split.
  - destruct (_ && _) eqn:E.
    + split; [done|]. intros (leaf' & rest' & [= <- <-] & Hc).
      rewrite andb_true_iff, !negb_true_iff, bool_decide_eq_false in E. destruct E as [E1 E2].
      rewrite !andb_false_iff, negb_false_iff, bool_decide_eq_true, bool_decide_eq_false, Z.ltb_ge in E2.
      intuition (congruence || lia).
    + split; [|done]. intros _. exists leaf, rest. split; [done|].
      rewrite andb_false_iff, !negb_false_iff, bool_decide_eq_true in E.
      rewrite !andb_true_iff, negb_true_iff, bool_decide_eq_false, bool_decide_eq_true, Z.ltb_lt in E. tauto.
  - intros Hc. rewrite (bool_decide_eq_true_2 ([] = [])) by done. cbn [negb andb].
    assert (negb (bool_decide (nextPin = [])) && bool_decide (SPKIPin leaf = nextPin) && (now <? exp) = false) as ->; [|done].
    destruct Hc as [->|Hc]; [by rewrite bool_decide_eq_true_2|]. rewrite (proj2 (Z.ltb_ge _ _) Hc). apply andb_false_r.
Qed.
End laws.

(** Transport parameters.  Whatever the options, a configuration that is built
    never accepts early data, keeps every initial window within its maximum and every
    window positive, sends at least three keep-alives within the idle timeout, and the
    construction fails only for a congestion controller the build does not have. *)
Theorem quic_config_bounds bbr o :
  0 <= MaxStreamRecvWindow o < 2 ^ 64 -> 0 <= MaxConnRecvWindow o < 2 ^ 64 ->
  (NewQUICConfig None o = None <-> CongestionControl o <> [] /\ CongestionControl o <> bs "reno") /\
  (CongestionControl o <> bs "bbr" -> NewQUICConfig bbr o = NewQUICConfig None o) /\
  forall c, NewQUICConfig None o = Some c ->
    Allow0RTT c = false /\
    0 < InitialStreamReceiveWindow c <= MaxStreamReceiveWindow c /\
    0 < InitialConnectionReceiveWindow c <= MaxConnectionReceiveWindow c /\
    0 < MaxIdleTimeout c /\ 3 * KeepAlivePeriod c <= MaxIdleTimeout c /\
    0 <= HandshakeIdleTimeout c /\
    (0 < IdleTimeout o -> MaxIdleTimeout c = IdleTimeout o) /\ qc_MaxIncomingStreams c <> 0.
Proof.
  intros Hs Hc. unfold NewQUICConfig, configureCongestion, CongestionAvailable. set (m := CongestionControl o).
  rewrite (bool_decide_eq_false_2 (is_Some None)) by (by intros []). rewrite andb_false_r, orb_false_r.
  split; [|split].
  - destruct (bool_decide_reflect (m = [])) as [->|H1]; [split; [done|]; by intros []|].
    destruct (bool_decide_reflect (m = bs "reno")) as [->|H2]; [split; [done|]; by intros []|]. done.
  - intros Hb. rewrite (bool_decide_eq_false_2 (m = bs "bbr")) by done. cbn [andb]. by rewrite orb_false_r.
  - intros c. destruct (_ || _) eqn:E; cbn [negb]; [|done].
    assert (m <> bs "bbr") as Hb
      by (intros ->; rewrite !bool_decide_eq_false_2 in E by done; done).
    rewrite (bool_decide_eq_false_2 (m = bs "bbr")) by done. intros [= <-]. cbn.
    assert (forall x d, 0 < d -> 0 < if x <=? 0 then d else x) as Hpos
      by (intros x d Hd; destruct (Z.leb_spec x 0); lia).
    assert (forall x d, 0 <= x -> 0 < d -> 0 < if x =? 0 then d else x) as Hdef
      by (intros x d Hx Hd; destruct (Z.eqb_spec x 0); lia).
    pose proof (Hpos (IdleTimeout o) (60 * second) ltac:(done)) as H1.
    pose proof (Hpos (HandshakeTimeout o) (10 * second) ltac:(done)) as H2.
    pose proof (Hdef (MaxStreamRecvWindow o) defaultMaxStreamRecvWindow ltac:(lia) ltac:(done)) as H3.
    pose proof (Hdef (MaxConnRecvWindow o) defaultMaxConnRecvWindow ltac:(lia) ltac:(done)) as H4.
    assert (0 < initialStreamRecvWindow /\ 0 < initialConnRecvWindow) as [H5 H6] by done.
    split_and!; try lia.
    + apply Z.mul_quot_le; lia.
    + apply Z.quot_pos; lia.
    + intros Hi. by rewrite (proj2 (Z.leb_gt _ _)).
    + destruct (Z.eqb_spec (MaxIncomingStreams o) 0); [done|lia].
Qed.

(** [BindContext].  The stream is aborted at most once and only after the context
    is done; once the returned stop function has returned, the callback has completed
    or will never run, so nothing more is called on the stream. *)
Theorem bind_context_stop deadline d s : rtc bind_step (BindContext deadline d) s ->
  let base := match deadline with Some t => [SetDeadline t] | None => [] end in
  (bd_calls s = base \/ bd_calls s = base ++ Abort /\ bd_ctx_done s = true) /\
  (bd_stop s = Returned -> forall s', rtc bind_step s s' -> bd_calls s' = bd_calls s /\ bd_stop s' = Returned).
Proof.
  intros HR base.
  assert ((bd_callback s = Completed /\ bd_calls s = base ++ Abort /\ bd_ctx_done s = true \/
           bd_callback s = Started /\ bd_calls s = base /\ bd_ctx_done s = true \/
           (bd_callback s = Armed \/ bd_callback s = Stopped) /\ bd_calls s = base) /\
          (bd_stop s = Returned -> bd_callback s = Completed \/ bd_callback s = Stopped)) as [HI HS].
  { revert s HR. eapply rtc_ind_r; [cbn; split; [tauto|done]|]. intros s s' _ HS [HI Hst].
    inversion HS; subst; cbn in *; intuition (subst; try congruence; auto 8). }
  split; [naive_solver|]. intros Hret s' HR'. specialize (HS Hret). clear HI HR.
  assert (bd_calls s' = bd_calls s /\ bd_stop s' = Returned /\ (bd_callback s' = Completed \/ bd_callback s' = Stopped)) as (? & ? & _); [|done].
  revert s' HR'. eapply rtc_ind_r; [auto|]. intros a b _ Hab (H1 & H2 & H3).
  inversion Hab; subst; cbn in *; intuition congruence.
Qed.

(** ** Concrete runs *)

(** A toy digest of 32 bytes: enough to run the handshake. *)
Definition toy_digest (b : bytes) : bytes := take 32 (b ++ replicate 32 Byte.x00).
#[local] Instance toy_crypto : Crypto := {|
  hmac_sha256 := fun k m => toy_digest (take 16 k ++ m); sha256 := toy_digest |}.
#[local] Instance toy_laws : CryptoLaws.
Proof.
  assert (forall b, length (toy_digest b) = 32%nat) as Hl.
  { intros b. unfold toy_digest. rewrite length_take, length_app, length_replicate. lia. }
  split; cbn; intros; apply Hl.
Qed.

Definition new_key : bytes := bs "0123456789abcdef".
Definition old_key : bytes := bs "fedcba9876543210".
Definition example_snapshot : credentialSnapshot :=
  mkSnap new_key old_key (100 * second) (mkCert [bs "der"] true).

Lemma handshake_complete_witness : exists c1 s1 c2,
  ClientAuth_send (mkIO (Reader [] EOF) (Writer [] []) []) old_key (bs "exporter") = (None, c1) /\
  Authenticate (99 * second) example_snapshot
    (mkIO (Reader (wr_out (io_out c1) ++ bs "next") EOF) (Writer [] []) []) (bs "exporter")
    (Some (fun _ => None)) = (None, s1) /\
  io_log s1 = [Ready (sha256 old_key); Wrote (proof old_key (bs "exporter") "server")] /\
  io_in s1 = Reader (bs "next") EOF /\ Accepts (99 * second) example_snapshot (sha256 old_key) = true /\
  ClientAuth (mkIO (Reader (wr_out (io_out s1) ++ []) EOF) (Writer [] []) []) old_key (bs "exporter") = (None, c2) /\
  io_in c2 = Reader [] EOF /\ wr_out (io_out c2) = wr_out (io_out c1).
Proof.
  apply (handshake_complete (99 * second) example_snapshot old_key (bs "exporter") (bs "next") EOF [] EOF).
  - split; [discriminate|]. right. split; reflexivity.
  - right. vm_compute. discriminate.
Defined.

Lemma authenticate_sound_witness : exists err s',
  Authenticate (101 * second) example_snapshot
    (mkIO (Reader (proof new_key (bs "exporter") "client") EOF) (Writer [] []) []) (bs "exporter")
    (Some (fun _ => Some ErrCapacity)) = (err, s') /\ err = Some ErrCapacity /\
  ((err <> None /\ io_log s' = [] /\ io_out s' = Writer [] []) \/
   exists k rest, active (101 * second) example_snapshot k /\
     proof new_key (bs "exporter") "client" = proof k (bs "exporter") "client" ++ rest /\
     Accepts (101 * second) example_snapshot (sha256 k) = true /\
     (err = Some ErrCapacity /\ io_log s' = [] ++ [Ready (sha256 k)] /\ io_out s' = Writer [] [])).
Proof.
  do 2 eexists. split; [vm_compute; reflexivity|]. split; [reflexivity|].
  refine (authenticate_sound (101 * second) example_snapshot
    (mkIO (Reader (proof new_key (bs "exporter") "client") EOF) (Writer [] []) []) (bs "exporter")
    (fun _ => Some ErrCapacity) _ _ _). vm_compute. reflexivity.
Defined.

Lemma peer_auth_sound_witness : exists s', 
  ClientAuth (mkIO (Reader (proof new_key (bs "e") "server") EOF) (Writer [] []) []) new_key (bs "e") = (None, s') /\
  exists rest, proof new_key (bs "e") "server" = proof new_key (bs "e") "server" ++ rest /\
    io_in s' = Reader rest EOF /\ wr_out (io_out s') = [] ++ proof new_key (bs "e") "client".
Proof.
  eexists. split; [vm_compute; reflexivity|].
  refine (proj1 (peer_auth_sound new_key (bs "e")
    (mkIO (Reader (proof new_key (bs "e") "server") EOF) (Writer [] []) []) _) _). vm_compute. reflexivity.
Defined.

Lemma pin_rotation_witness : VerifyConnection 5 (bs "a") (bs "b") 3 [bs "b"] =
  VerifyConnection_single 5 (bs "a") [bs "b"].
Proof. apply (proj2 (pin_rotation 5 (bs "a") (bs "b") 3 [bs "b"])). right. lia. Defined.

Definition example_options : QUICOptions := mkQUICOptions (bs "reno") true 0 0 0 65536 0.

Lemma quic_config_bounds_witness : exists c, NewQUICConfig None example_options = Some c /\
  Allow0RTT c = false /\ InitialConnectionReceiveWindow c = 65536.
Proof.
  eexists. split; [vm_compute; reflexivity|].
  refine (conj (proj1 (proj2 (proj2 (quic_config_bounds None example_options _ _)) _ _)) _);
    vm_compute; intuition discriminate.
Defined.

Lemma bind_context_stop_witness : exists s, rtc bind_step (BindContext (Some 9) false) s /\
  bd_stop s = Returned /\
  (bd_calls s = [SetDeadline 9] \/ bd_calls s = [SetDeadline 9] ++ Abort /\ bd_ctx_done s = true).
Proof.
  assert (rtc bind_step (BindContext (Some 9) false) (mkBinding true Completed Returned ([SetDeadline 9] ++ Abort))) as HR.
  { eapply rtc_l; [apply bind_cancel|]. eapply rtc_l; [apply bind_fire|].
    eapply rtc_l; [apply bind_stop_late; left; reflexivity|]. eapply rtc_l; [apply bind_run|].
    eapply rtc_l; [apply bind_join|]. apply rtc_refl. }
  eexists. split; [exact HR|]. split; [reflexivity|]. exact (proj1 (bind_context_stop (Some 9) false _ HR)).
Defined.
