(* ===== verification/UdpNat.v ===== *)
(** * The UDP side of package server

    Models [internal/server/udp.go]: the per-connection NAT of the server.  Each
    critical section of the source (what runs between [mu.Lock] and [mu.Unlock]) and
    each channel operation or system call is one function on the NAT's state; the
    step relation interleaves the receive loop, the workers, the packet worker, the
    reply pumps and [close] at that grain. *)
From S2P Require Import Prelude GoStd GoNet Protocol.

(** ** Options *)
Record UDPOptions := mkUDPOptions {
  MaxFlows : Z; QueueSize : Z; Workers : Z; NewFlowsPerSecond : Z; MaxPayload : Z; IdleTimeout : Z;
}.

Definition defaults (o : UDPOptions) : UDPOptions :=
  let maxFlows := if MaxFlows o <=? 0 then 256 else MaxFlows o in
  let queueSize := if QueueSize o <=? 0 then 128 else QueueSize o in
  let workers := if Workers o <=? 0 then 4 else Workers o in
  let workers := if maxFlows <? workers then maxFlows else workers in
  let rate := if NewFlowsPerSecond o <=? 0 then 32 else NewFlowsPerSecond o in
  let maxPayload := if (MaxPayload o <=? 0) || (Z.of_nat MaxUDPPayload <? MaxPayload o)
                    then Z.of_nat MaxUDPPayload else MaxPayload o in
  let idle := if IdleTimeout o <=? 0 then 60 * second else IdleTimeout o in
  mkUDPOptions maxFlows queueSize workers rate maxPayload idle.

(** [fmt.Sprintf("%d|%s", sessionID, target)]. *)
Definition flowKey (sessionID : Z) (target : bytes) : bytes := Itoa sessionID ++ bs "|" ++ target.
Definition key_of (dg : Datagram) : bytes := flowKey (SessionID dg) (Address_String (DgAddr dg)).
#[local] Arguments EncodeDatagram : simpl never.
#[local] Arguments DecodeDatagram : simpl never.
#[global] Arguments flowKey : simpl never.
#[global] Arguments key_of : simpl never.

(** ** State *)

(** Where the goroutine [pumpReplies] of a flow stands. *)
Inductive pump := PTop | PRead | PSend (payload : bytes) | PClose | PUnlink | PGone.

(** A [udpFlow] with its socket ([fl_open]: not closed by this side yet). *)
Record flow := mkFlow {
  fl_key : bytes; fl_session : Z; fl_target : Address; fl_lastSeen : Z; fl_open : bool; fl_pump : pump;
}.

(** Where a worker stands: waiting, with a datagram (or packet) taken from its queue,
    about to enter [send], dialling, about to enter [write], in the socket call. *)
Inductive wstate :=
| WIdle | WGot (dg : Datagram) | WAdmit (dg : Datagram) | WDial (dg : Datagram)
| WPacket (f : nat) (p : bytes) | WLock (f : nat) (p : bytes) | WSock (f : nat) (p : bytes) | WExit.

(** The receive loop: waiting, or between the flow lookup of [forward] and its
    enqueue. *)
Inductive rxstate := RxIdle | RxHave (dg : Datagram) (f : option nat).

Inductive reason := RAuth | RSize | RInvalid | RClosed | RQueue | RLimit | RRate | RAcl | RDns | RSend.

(** The NAT.  Flow objects are numbered; [tokens] counts billionths of a token, so
    that the refill [elapsed.Seconds() * rate] is exact.  The last fields record what
    the metrics and the network have seen: drops, the flow gauge, datagrams accepted
    by the receive loop, packets written to sockets, datagrams sent to the client,
    and flows admitted by the rate limiter. *)
Record nat_state := mkNat {
  auth : bool; ctx_done : bool; closed : bool;
  queue : list Datagram; packets : list (nat * bytes); rx : rxstate;
  workers : gmap nat wstate; flows : gmap bytes nat; pending : gset bytes; table : gmap nat flow;
  tokens : Z; tokenTime : Z;
  drops : list reason; gauge : Z; accepted : list Datagram; wire : list (nat * bytes);
  down : list (nat * bytes); admitted : Z;
}.

Definition set_auth b (s : nat_state) := mkNat b (ctx_done s) (closed s) (queue s) (packets s) (rx s) (workers s) (flows s) (pending s) (table s) (tokens s) (tokenTime s) (drops s) (gauge s) (accepted s) (wire s) (down s) (admitted s).
Definition set_ctx_done b (s : nat_state) := mkNat (auth s) b (closed s) (queue s) (packets s) (rx s) (workers s) (flows s) (pending s) (table s) (tokens s) (tokenTime s) (drops s) (gauge s) (accepted s) (wire s) (down s) (admitted s).
Definition set_closed b (s : nat_state) := mkNat (auth s) (ctx_done s) b (queue s) (packets s) (rx s) (workers s) (flows s) (pending s) (table s) (tokens s) (tokenTime s) (drops s) (gauge s) (accepted s) (wire s) (down s) (admitted s).
Definition set_queue q (s : nat_state) := mkNat (auth s) (ctx_done s) (closed s) q (packets s) (rx s) (workers s) (flows s) (pending s) (table s) (tokens s) (tokenTime s) (drops s) (gauge s) (accepted s) (wire s) (down s) (admitted s).
Definition set_packets q (s : nat_state) := mkNat (auth s) (ctx_done s) (closed s) (queue s) q (rx s) (workers s) (flows s) (pending s) (table s) (tokens s) (tokenTime s) (drops s) (gauge s) (accepted s) (wire s) (down s) (admitted s).
Definition set_rx x (s : nat_state) := mkNat (auth s) (ctx_done s) (closed s) (queue s) (packets s) x (workers s) (flows s) (pending s) (table s) (tokens s) (tokenTime s) (drops s) (gauge s) (accepted s) (wire s) (down s) (admitted s).
Definition set_worker (i : nat) x (s : nat_state) := mkNat (auth s) (ctx_done s) (closed s) (queue s) (packets s) (rx s) (<[i := x]> (workers s)) (flows s) (pending s) (table s) (tokens s) (tokenTime s) (drops s) (gauge s) (accepted s) (wire s) (down s) (admitted s).
Definition set_flows m (s : nat_state) := mkNat (auth s) (ctx_done s) (closed s) (queue s) (packets s) (rx s) (workers s) m (pending s) (table s) (tokens s) (tokenTime s) (drops s) (gauge s) (accepted s) (wire s) (down s) (admitted s).
Definition set_pending m (s : nat_state) := mkNat (auth s) (ctx_done s) (closed s) (queue s) (packets s) (rx s) (workers s) (flows s) m (table s) (tokens s) (tokenTime s) (drops s) (gauge s) (accepted s) (wire s) (down s) (admitted s).
Definition set_table m (s : nat_state) := mkNat (auth s) (ctx_done s) (closed s) (queue s) (packets s) (rx s) (workers s) (flows s) (pending s) m (tokens s) (tokenTime s) (drops s) (gauge s) (accepted s) (wire s) (down s) (admitted s).
Definition set_tokens t u (s : nat_state) := mkNat (auth s) (ctx_done s) (closed s) (queue s) (packets s) (rx s) (workers s) (flows s) (pending s) (table s) t u (drops s) (gauge s) (accepted s) (wire s) (down s) (admitted s).
Definition add_gauge d (s : nat_state) := mkNat (auth s) (ctx_done s) (closed s) (queue s) (packets s) (rx s) (workers s) (flows s) (pending s) (table s) (tokens s) (tokenTime s) (drops s) (gauge s + d) (accepted s) (wire s) (down s) (admitted s).
Definition accept dg (s : nat_state) := mkNat (auth s) (ctx_done s) (closed s) (queue s) (packets s) (rx s) (workers s) (flows s) (pending s) (table s) (tokens s) (tokenTime s) (drops s) (gauge s) (accepted s ++ [dg]) (wire s) (down s) (admitted s).
Definition add_wire x (s : nat_state) := mkNat (auth s) (ctx_done s) (closed s) (queue s) (packets s) (rx s) (workers s) (flows s) (pending s) (table s) (tokens s) (tokenTime s) (drops s) (gauge s) (accepted s) (wire s ++ [x]) (down s) (admitted s).
Definition add_down x (s : nat_state) := mkNat (auth s) (ctx_done s) (closed s) (queue s) (packets s) (rx s) (workers s) (flows s) (pending s) (table s) (tokens s) (tokenTime s) (drops s) (gauge s) (accepted s) (wire s) (down s ++ [x]) (admitted s).
Definition count_admitted (s : nat_state) := mkNat (auth s) (ctx_done s) (closed s) (queue s) (packets s) (rx s) (workers s) (flows s) (pending s) (table s) (tokens s) (tokenTime s) (drops s) (gauge s) (accepted s) (wire s) (down s) (admitted s + 1).

(** The method [drop]. *)
Definition nat_drop (r : reason) (s : nat_state) := mkNat (auth s) (ctx_done s) (closed s) (queue s) (packets s) (rx s) (workers s) (flows s) (pending s) (table s) (tokens s) (tokenTime s) (drops s ++ [r]) (gauge s) (accepted s) (wire s) (down s) (admitted s).

(** Update of a flow object. *)
Definition upd_flow (f : nat) (g : flow -> flow) (s : nat_state) : nat_state := set_table (alter g f (table s)) s.
Definition touch (now : Z) (x : flow) : flow :=
  mkFlow (fl_key x) (fl_session x) (fl_target x) now (fl_open x) (fl_pump x).
Definition close_sock (x : flow) : flow :=
  mkFlow (fl_key x) (fl_session x) (fl_target x) (fl_lastSeen x) false (fl_pump x).
Definition set_pump (p : pump) (x : flow) : flow :=
  mkFlow (fl_key x) (fl_session x) (fl_target x) (fl_lastSeen x) (fl_open x) p.

Section nat.
(** The options, already through [defaults]. *)
Context (opt : UDPOptions).

Definition billion : Z := 10 ^ 9.

(** [makeUDPNAT]: worker 0 is the packet worker. *)
Definition makeUDPNAT (now : Z) : nat_state :=
  mkNat false false false [] [] RxIdle
        (list_to_map (map (fun i => (i, WIdle)) (seq 0 (S (Z.to_nat (Workers opt)))))) ∅ ∅ ∅
        (NewFlowsPerSecond opt * billion) now [] 0 [] [] [] 0.

(** ** The receive loop *)

(** [forward] up to the flow lookup. *)
Definition forward (dg : Datagram) (s : nat_state) : nat_state :=
  if negb (auth s) then nat_drop RAuth s
  else if MaxPayload opt <? Z.of_nat (length (Payload dg)) then nat_drop RSize s
  else if ctx_done s then nat_drop RClosed s
  else set_rx (RxHave dg (flows s !! key_of dg)) (accept dg s).

(** [serveDatagrams] on one received datagram. *)
Definition serve_datagram (data : bytes) (s : nat_state) : nat_state :=
  if negb (auth s) then nat_drop RAuth s
  else if bool_decide (MaxUDPDatagramSize < length data)%nat then nat_drop RSize s
  else match DecodeDatagram data with
       | Err _ => nat_drop RInvalid s
       | Ok dg => forward dg s
       end.

(** The channel sends at the end of [forward]: to the packets of an existing flow, or
    to the admission queue, or dropped when the channel is full. *)
Definition enqueue (dg : Datagram) (f : option nat) (s : nat_state) : nat_state :=
  set_rx RxIdle
    (match f with
     | Some f => if Z.of_nat (length (packets s)) <? QueueSize opt
                 then set_packets (packets s ++ [(f, Payload dg)]) s else nat_drop RQueue s
     | None => if Z.of_nat (length (queue s)) <? QueueSize opt
               then set_queue (queue s ++ [dg]) s else nat_drop RQueue s
     end).

(** ** The workers *)

(** The test of [worker] on the datagram it has taken. *)
Definition worker_check (i : nat) (dg : Datagram) (s : nat_state) : nat_state :=
  set_worker i (if negb (ctx_done s) && auth s then WAdmit dg else WIdle) s.

(** The test of [packetWorker]. *)
Definition packet_check (i f : nat) (p : bytes) (s : nat_state) : nat_state :=
  set_worker i (if negb (ctx_done s) then WLock f p else WIdle) s.

Definition refill (now : Z) (s : nat_state) : Z :=
  Z.min (tokens s + (now - tokenTime s) * NewFlowsPerSecond opt) (NewFlowsPerSecond opt * billion).

(** The first critical section of [send]. *)
Definition send_admit (now : Z) (i : nat) (dg : Datagram) (s : nat_state) : nat_state :=
  let key := key_of dg in
  if closed s then set_worker i WIdle s
  else match flows s !! key with
       | Some f => set_worker i (WLock f (Payload dg)) (upd_flow f (touch now) s)
       | None =>
           if bool_decide (key ∈ pending s) then set_worker i WIdle (nat_drop RQueue s)
           else if MaxFlows opt <=? Z.of_nat (size (flows s) + size (pending s))
           then set_worker i WIdle (nat_drop RLimit s)
           else
             let s := set_tokens (refill now s) now s in
             if tokens s <? billion then set_worker i WIdle (nat_drop RRate s)
             else set_worker i (WDial dg)
                    (count_admitted (set_pending ({[key]} ∪ pending s)
                                       (set_tokens (tokens s - billion) (tokenTime s) s)))
       end.

(** What [DialContext] gave: an error, or a connection that is a UDP socket or not. *)
Inductive dialled := DialFailed (e : error) | DialSocket (is_udp : bool).

(** The second critical section of [send], with the calls that follow it. *)
Definition send_finish (now : Z) (i : nat) (dg : Datagram) (d : dialled) (s : nat_state) : nat_state :=
  let key := key_of dg in
  let s := set_pending (pending s ∖ {[key]}) s in
  match d with
  | DialFailed e =>
      set_worker i WIdle
        (nat_drop (if errors_Is e ErrDenied then RAcl else if errors_Is e ErrBusy then RLimit else RDns) s)
  | DialSocket is_udp =>
      if closed s then set_worker i WIdle s          (* remote.Close() *)
      else if negb is_udp then set_worker i WIdle (nat_drop RSend s)
      else
        let f := fresh (dom (table s)) in
        set_worker i (WLock f (Payload dg))
          (add_gauge 1
             (set_flows (<[key := f]> (flows s))
                (set_table (<[f := mkFlow key (SessionID dg) (DgAddr dg) now true PTop]> (table s)) s)))
  end.

(** The critical section of [write]. *)
Definition write_lock (now : Z) (i f : nat) (p : bytes) (s : nat_state) : nat_state :=
  if closed s then set_worker i WIdle s
  else set_worker i (WSock f p) (upd_flow f (touch now) s).

(** The socket call of [write]: [Some] error, or the packet is on the wire. *)
Definition write_sock (i f : nat) (p : bytes) (err : option error) (s : nat_state) : nat_state :=
  set_worker i WIdle (match err with Some _ => nat_drop RSend s | None => add_wire (f, p) s end).

(** ** The reply pumps *)

Definition pump_top (f : nat) (s : nat_state) : nat_state :=
  upd_flow f (set_pump (if closed s || ctx_done s then PClose else PRead)) s.

(** One [Read]: the bytes it put in the buffer and its error. *)
Definition pump_read (now : Z) (f : nat) (x : flow) (data : bytes) (err : option error) (s : nat_state)
    : nat_state :=
  if MaxPayload opt <? Z.of_nat (length data) then upd_flow f (set_pump PTop) (nat_drop RSize s)
  else match err with
       | Some e =>
           if errors_Is e ErrNetClosed || ctx_done s then upd_flow f (set_pump PClose) s
           else if is_timeout e && negb (IdleTimeout opt <=? now - fl_lastSeen x)
           then upd_flow f (set_pump PTop) s
           else upd_flow f (set_pump PClose) s
       | None => upd_flow f (fun x => set_pump (PSend data) (touch now x)) s
       end.

(** Encoding and sending a reply. *)
Definition pump_send (f : nat) (x : flow) (data : bytes) (err : option error) (s : nat_state) : nat_state :=
  let out := EncodeDatagram (fl_session x) (fl_target x) data in
  upd_flow f (set_pump PTop)
    (if bool_decide (MaxUDPDatagramSize < length out)%nat then nat_drop RSize s
     else match err with Some _ => nat_drop RSend s | None => add_down (f, out) s end).

(** The deferred function: close the socket, then unlink the flow. *)
Definition pump_close (f : nat) (s : nat_state) : nat_state :=
  upd_flow f (fun x => set_pump PUnlink (close_sock x)) s.
Definition pump_unlink (f : nat) (x : flow) (s : nat_state) : nat_state :=
  upd_flow f (set_pump PGone)
    (if bool_decide (flows s !! fl_key x = Some f)
     then add_gauge (-1) (set_flows (delete (fl_key x) (flows s)) s) else s).

(** ** close *)
Definition close_lock (s : nat_state) : nat_state :=
  set_closed true
    (set_table (map_imap (fun f x => Some (if bool_decide (flows s !! fl_key x = Some f) then close_sock x else x))
                         (table s)) s).

(** ** The interleaving *)
Inductive step : nat_state -> nat_state -> Prop :=
| s_authenticate s : step s (set_auth true s)
| s_receive s data : rx s = RxIdle -> step s (serve_datagram data s)
| s_enqueue s dg f : rx s = RxHave dg f -> step s (enqueue dg f s)
| s_take s i dg q : i <> 0%nat -> workers s !! i = Some WIdle -> queue s = dg :: q ->
    step s (set_worker i (WGot dg) (set_queue q s))
| s_check s i dg : workers s !! i = Some (WGot dg) -> step s (worker_check i dg s)
| s_admit s i dg now : workers s !! i = Some (WAdmit dg) -> tokenTime s <= now ->
    step s (send_admit now i dg s)
| s_finish s i dg d now : workers s !! i = Some (WDial dg) -> step s (send_finish now i dg d s)
| s_take_packet s f p q : workers s !! 0%nat = Some WIdle -> packets s = (f, p) :: q ->
    step s (set_worker 0 (WPacket f p) (set_packets q s))
| s_check_packet s f p : workers s !! 0%nat = Some (WPacket f p) -> step s (packet_check 0 f p s)
| s_write_lock s i f p now : workers s !! i = Some (WLock f p) -> step s (write_lock now i f p s)
| s_write_sock s i f p x err : workers s !! i = Some (WSock f p) -> table s !! f = Some x ->
    (fl_open x = false -> err <> None) -> step s (write_sock i f p err s)
| s_exit s i : workers s !! i = Some WIdle -> ctx_done s = true -> step s (set_worker i WExit s)
| s_pump_top s f x : table s !! f = Some x -> fl_pump x = PTop -> step s (pump_top f s)
| s_pump_read s f x data err now : table s !! f = Some x -> fl_pump x = PRead ->
    (fl_open x = false -> err <> None) -> step s (pump_read now f x data err s)
| s_pump_send s f x data err : table s !! f = Some x -> fl_pump x = PSend data ->
    step s (pump_send f x data err s)
| s_pump_close s f x : table s !! f = Some x -> fl_pump x = PClose -> step s (pump_close f s)
| s_pump_unlink s f x : table s !! f = Some x -> fl_pump x = PUnlink -> step s (pump_unlink f x s)
| s_cancel s : step s (set_ctx_done true s)
| s_close s : ctx_done s = true -> closed s = false -> step s (close_lock s).

Definition reachable (t0 : Z) (s : nat_state) : Prop := rtc step (makeUDPNAT t0) s.

(** ** What every step preserves *)

Ltac unfold_ops := unfold serve_datagram, forward, enqueue, worker_check, packet_check, send_admit, send_finish,
  write_lock, write_sock, pump_top, pump_read, pump_send, pump_close, pump_unlink, close_lock, upd_flow in *.

(** Flow objects keep their identity, accepted datagrams stay accepted. *)
Definition same_id (x y : flow) : Prop :=
  fl_key y = fl_key x /\ fl_session y = fl_session x /\ fl_target y = fl_target x.
Record extends (s s' : nat_state) : Prop := {
  ex_accepted : forall dg, dg ∈ accepted s -> dg ∈ accepted s';
  ex_table : forall f x, table s !! f = Some x -> exists y, table s' !! f = Some y /\ same_id x y;
}.

Lemma alter_same_id (m : gmap nat flow) g f0 : (forall x, same_id x (g x)) ->
  forall f x, m !! f = Some x -> exists y, alter g f0 m !! f = Some y /\ same_id x y.
Proof.
  intros Hg f x Hx. destruct (decide (f0 = f)) as [->|Hne].
  - exists (g x). by rewrite lookup_alter_eq, Hx.
  - exists x. by rewrite lookup_alter_ne.
Qed.

Lemma close_all_same_id (m : gmap nat flow) (fs : gmap bytes nat) f x : m !! f = Some x ->
  exists y, map_imap (fun f x => Some (if bool_decide (fs !! fl_key x = Some f) then close_sock x else x)) m !! f = Some y /\ same_id x y.
Proof.
  intros Hx. rewrite map_lookup_imap, Hx. cbn. eexists. split; [done|]. by case_bool_decide.
Qed.

Lemma step_extends s s' : step s s' -> extends s s'.
Proof.
  intros HS. destruct HS; unfold_ops; repeat case_match; constructor; cbn;
    try (intros; eexists; split; eassumption || done);
    try (intros; rewrite ?elem_of_app; tauto);
    try (apply alter_same_id; done).
  - intros f0 x Hx. rewrite lookup_insert_ne; [by exists x|].
    intros <-. apply (is_fresh (dom (table s))). apply elem_of_dom. by exists x.
  - intros f x Hx. by apply close_all_same_id.
Qed.

(** *** Keys: pending dials, flows and flow objects

    A key is being dialled by exactly one worker, has a flow, or neither; the flow
    table and the live flow objects are in bijection. *)
Record key_inv (s : nat_state) : Prop := {
  ki_dial : forall i dg, workers s !! i = Some (WDial dg) -> key_of dg ∈ pending s;
  ki_pending : forall k, k ∈ pending s -> exists i dg, workers s !! i = Some (WDial dg) /\ key_of dg = k;
  ki_unique : forall i j dg dg', workers s !! i = Some (WDial dg) -> workers s !! j = Some (WDial dg') ->
    key_of dg = key_of dg' -> i = j;
  ki_disjoint : forall k, k ∈ pending s -> flows s !! k = None;
  ki_flow : forall k f, flows s !! k = Some f ->
    exists x, table s !! f = Some x /\ fl_key x = k /\ fl_pump x <> PGone;
  ki_live : forall f x, table s !! f = Some x -> fl_pump x <> PGone -> flows s !! fl_key x = Some f;
  ki_gauge : gauge s = Z.of_nat (size (flows s));
}.

(** A worker that is not dialling changes state without touching the dials. *)
Lemma dial_insert (m : gmap nat wstate) i w w' dg j : m !! i = Some w -> (forall d, w <> WDial d) ->
  (forall d, w' <> WDial d) ->
  <[i := w']> m !! j = Some (WDial dg) <-> m !! j = Some (WDial dg).
Proof.
  intros Hi Hw Hw'. destruct (decide (i = j)) as [->|Hne].
  - rewrite lookup_insert_eq, Hi. split; intros [= E]; [by destruct (Hw' dg)|by destruct (Hw dg)].
  - by rewrite lookup_insert_ne.
Qed.

Lemma ki_worker s i w w' : workers s !! i = Some w -> (forall d, w <> WDial d) -> (forall d, w' <> WDial d) ->
  key_inv s -> key_inv (set_worker i w' s).
Proof.
  intros Hi Hw Hw' []. pose proof (fun dg j => dial_insert (workers s) i w w' dg j Hi Hw Hw') as HD.
  constructor; cbn; try done.
  - intros j dg Hj%HD. eauto.
  - intros k (j & dg & Hj & <-)%ki_pending0. exists j, dg. by rewrite HD.
  - intros j j' dg dg' Hj%HD Hj'%HD. eauto.
Qed.

(** Only the pump and the clock of a flow object change. *)
Lemma ki_alter s f g : (forall x, same_id x (g x)) ->
  (forall x, table s !! f = Some x -> (fl_pump x = PGone <-> fl_pump (g x) = PGone)) ->
  key_inv s -> key_inv (upd_flow f g s).
Proof.
  intros Hid Hp []. constructor; cbn; try done.
  - intros k f' Hf. destruct (ki_flow0 k f' Hf) as (x & Hx & Hk & Hg).
    destruct (decide (f = f')) as [->|Hne].
    + exists (g x). rewrite lookup_alter_eq, Hx. cbn. destruct (Hid x) as (-> & _). specialize (Hp x Hx). tauto.
    + exists x. by rewrite lookup_alter_ne.
  - intros f' x Hx Hg. destruct (decide (f = f')) as [->|Hne].
    + rewrite lookup_alter_eq in Hx. destruct (table s !! f') as [y|] eqn:Hy; [|done].
      injection Hx as <-. destruct (Hid y) as (-> & _). apply ki_live0; [done|]. specialize (Hp y eq_refl). tauto.
    + rewrite lookup_alter_ne in Hx by done. eauto.
Qed.

(** The fields the keys do not depend on. *)
Lemma ki_frame s s' : workers s' = workers s -> pending s' = pending s -> flows s' = flows s ->
  table s' = table s -> gauge s' = gauge s -> key_inv s -> key_inv s'.
Proof. intros E1 E2 E3 E4 E5 []. constructor; rewrite ?E1, ?E2, ?E3, ?E4, ?E5; done. Qed.

Lemma ki_admit s i dg : workers s !! i = Some (WAdmit dg) -> key_of dg ∉ pending s ->
  flows s !! key_of dg = None -> key_inv s ->
  key_inv (set_worker i (WDial dg) (set_pending ({[key_of dg]} ∪ pending s) s)).
Proof.
  intros Hi Hp Hf HK. destruct HK as [Kd Kp Ku Kx Kf Kl Kg].
  constructor; cbn; try done.
  - intros j d. destruct (decide (i = j)) as [->|Hne].
    + rewrite lookup_insert_eq. intros [= <-]. set_solver.
    + rewrite lookup_insert_ne by done. intros Hj%Kd. set_solver.
  - intros k. rewrite elem_of_union, elem_of_singleton. intros [->|Hk].
    + exists i, dg. by rewrite lookup_insert_eq.
    + destruct (Kp k Hk) as (j & d & Hj & <-). exists j, d. rewrite lookup_insert_ne; [done|]. congruence.
  - intros j j' d d'. rewrite !lookup_insert_Some.
    intros [[Ei [= <-]]|[_ Hj]] [[Ei' [= <-]]|[_ Hj']] E; [congruence|..|eauto].
    + apply Kd in Hj'. by rewrite <-E in Hj'.
    + apply Kd in Hj. by rewrite E in Hj.
  - intros k. rewrite elem_of_union, elem_of_singleton. intros [->|Hk]; auto.
Qed.

Lemma ki_unpend s i dg w : workers s !! i = Some (WDial dg) -> (forall d, w <> WDial d) -> key_inv s ->
  key_inv (set_worker i w (set_pending (pending s ∖ {[key_of dg]}) s)).
Proof.
  intros Hi Hw HK. destruct HK as [Kd Kp Ku Kx Kf Kl Kg].
  assert (forall j d, <[i:=w]> (workers s) !! j = Some (WDial d) -> j <> i /\ workers s !! j = Some (WDial d)) as HW.
  { intros j d. destruct (decide (i = j)) as [->|Hne].
    - rewrite lookup_insert_eq. intros [= E]. by destruct (Hw d).
    - rewrite lookup_insert_ne by done. auto. }
  constructor; cbn; try done.
  - intros j d [Hne Hj]%HW. apply elem_of_difference. split; [eauto|]. rewrite elem_of_singleton.
    intros E. apply Hne. eauto.
  - intros k [Hk Hne]%elem_of_difference. destruct (Kp k Hk) as (j & d & Hj & <-). exists j, d.
    rewrite lookup_insert_ne; [done|]. intros ->. rewrite Hi in Hj. injection Hj as <-. set_solver.
  - intros j j' d d' [_ Hj]%HW [_ Hj']%HW. eauto.
  - intros k [Hk _]%elem_of_difference. auto.
Qed.

Lemma ki_newflow s k f x : flows s !! k = None -> k ∉ pending s -> table s !! f = None -> fl_key x = k ->
  fl_pump x = PTop -> key_inv s ->
  key_inv (add_gauge 1 (set_flows (<[k := f]> (flows s)) (set_table (<[f := x]> (table s)) s))).
Proof.
  intros Hk Hp Hf Hx Hpu [Kd Kp Ku Kx Kf Kl Kg]. constructor; cbn; try done.
  - intros k' Hk'. rewrite lookup_insert_ne by congruence. auto.
  - intros k' f'. rewrite lookup_insert_Some. intros [[<- <-]|[Hne Hf']].
    + exists x. rewrite lookup_insert_eq. split_and!; try done. by rewrite Hpu.
    + destruct (Kf k' f' Hf') as (y & Hy & ? & ?). exists y. rewrite lookup_insert_ne by congruence. done.
  - intros f' y. rewrite lookup_insert_Some. intros [[<- <-]|[Hne Hy]] Hg.
    + by rewrite Hx, lookup_insert_eq.
    + rewrite lookup_insert_ne; [auto|]. intros ->. specialize (Kl f' y Hy Hg). congruence.
  - rewrite map_size_insert_None by done. lia.
Qed.

Lemma ki_unlink s f x : table s !! f = Some x -> fl_pump x = PUnlink -> key_inv s -> key_inv (pump_unlink f x s).
Proof.
  intros Hx Hp [Kd Kp Ku Kx Kf Kl Kg]. assert (flows s !! fl_key x = Some f) as Hf by (apply Kl; [done|by rewrite Hp]).
  unfold pump_unlink. rewrite bool_decide_eq_true_2 by done. constructor; cbn; try done.
  - intros k Hk. rewrite lookup_delete_ne; [auto|]. intros <-. specialize (Kx _ Hk). congruence.
  - intros k f'. rewrite lookup_delete_Some. intros [Hne Hf']. destruct (Kf k f' Hf') as (y & Hy & Ey & Hg).
    exists y. rewrite lookup_alter_ne; [done|]. intros ->. congruence.
  - intros f' y Hy Hg. destruct (decide (f = f')) as [->|Hne].
    + rewrite lookup_alter_eq, Hx in Hy. injection Hy as <-. done.
    + rewrite lookup_alter_ne in Hy by done. rewrite lookup_delete_ne; [auto|].
      intros E. specialize (Kl f' y Hy Hg). congruence.
  - rewrite map_size_delete_Some by (by exists f). rewrite Kg.
    assert (size (flows s) <> 0)%nat; [|lia]. intros E%map_size_empty_iff. by rewrite E in Hf.
Qed.

Lemma ki_close s : key_inv s -> key_inv (close_lock s).
Proof.
  intros [Kd Kp Ku Kx Kf Kl Kg]. constructor; cbn; try done.
  - intros k f Hf. destruct (Kf k f Hf) as (x & Hx & Hk & Hg). rewrite map_lookup_imap, Hx. cbn.
    eexists. split; [done|]. by case_bool_decide.
  - intros f x Hx Hg. rewrite map_lookup_imap in Hx. destruct (table s !! f) as [y|] eqn:Hy; [|done].
    cbn in Hx. injection Hx as <-. specialize (Kl f y Hy). by case_bool_decide; auto.
Qed.

Lemma key_inv_finish s i dg d now : workers s !! i = Some (WDial dg) -> key_inv s -> key_inv (send_finish now i dg d s).
Proof.
  intros Hi HK. unfold send_finish. destruct d as [e|u]; cbn [closed set_pending].
  { apply (ki_frame (set_worker i WIdle (set_pending (pending s ∖ {[key_of dg]}) s))); try done. by apply ki_unpend. }
  destruct (closed s); [by apply ki_unpend|]. destruct u; cbn [negb].
  2:{ apply (ki_frame (set_worker i WIdle (set_pending (pending s ∖ {[key_of dg]}) s))); try done. by apply ki_unpend. }
  set (f := fresh _). set (x := mkFlow _ _ _ _ _ _).
  apply (ki_frame (add_gauge 1 (set_flows (<[key_of dg := f]> (flows s)) (set_table (<[f := x]> (table s))
    (set_worker i (WLock f (Payload dg)) (set_pending (pending s ∖ {[key_of dg]}) s)))))); try done.
  apply (ki_newflow (set_worker i (WLock f (Payload dg)) (set_pending (pending s ∖ {[key_of dg]}) s))); cbn; try done.
  - by apply HK, (ki_dial s HK i).
  - set_solver.
  - apply not_elem_of_dom. unfold f. cbn. apply is_fresh.
  - by apply ki_unpend.
Qed.

Lemma ki_pump s f x p g : table s !! f = Some x -> fl_pump x <> PGone -> p <> PGone ->
  (forall y, same_id y (g y)) -> (forall y, fl_pump (g y) = p) -> key_inv s -> key_inv (upd_flow f g s).
Proof.
  intros Hx Hp Hp' Hid Hg HK. apply ki_alter; [done| |done]. intros y Hy. rewrite Hx in Hy.
  injection Hy as <-. rewrite Hg. tauto.
Qed.

Lemma key_inv_step s s' : step s s' -> key_inv s -> key_inv s'.
Proof.
  intros HS HK. destruct HS as [s|s data Hr|s dg f Hr|s i dg q Hi Hw Hq|s i dg Hw|s i dg now Hw Ht|s i dg d now Hw
    |s f p q Hw Hq|s f p Hw|s i f p now Hw|s i f p x err Hw Hx He|s i Hw Hc|s f x Hx Hp|s f x data err now Hx Hp He
    |s f x data err Hx Hp|s f x Hx Hp|s f x Hx Hp|s|s Hc Hcl].
  - by apply (ki_frame s).
  - apply (ki_frame s); unfold_ops; repeat case_match; done.
  - apply (ki_frame s); unfold_ops; repeat case_match; done.
  - apply (ki_frame (set_worker i (WGot dg) s)); try done. by eapply ki_worker.
  - unfold worker_check. by eapply ki_worker; [done..| |done]; case_match.
  - unfold send_admit. destruct (closed s); [by eapply ki_worker|].
    destruct (flows s !! key_of dg) as [f|] eqn:Ef.
    { eapply (ki_worker (upd_flow f (touch now) s)); [done..|]. apply ki_alter; try done. }
    case_bool_decide as Hp; [apply (ki_frame (set_worker i WIdle s)); try done; by eapply ki_worker|].
    repeat case_match; try (apply (ki_frame (set_worker i WIdle s)); try done; by eapply ki_worker).
    apply (ki_frame (set_worker i (WDial dg) (set_pending ({[key_of dg]} ∪ pending s) s))); try done.
    by apply ki_admit.
  - by apply key_inv_finish.
  - apply (ki_frame (set_worker 0 (WPacket f p) s)); try done. by eapply ki_worker.
  - unfold packet_check. by eapply ki_worker; [done..| |done]; case_match.
  - unfold write_lock. destruct (closed s); [by eapply ki_worker|].
    eapply (ki_worker (upd_flow f (touch now) s)); [done..|]. apply ki_alter; try done.
  - unfold write_sock. destruct err; eapply ki_worker; try done; by apply (ki_frame s).
  - by eapply ki_worker.
  - unfold pump_top. apply (ki_pump s f x (if closed s || ctx_done s then PClose else PRead)); try done.
    + by rewrite Hp.
    + by case_match.
  - unfold pump_read. repeat case_match; (eapply (ki_pump _ f x); [exact Hx|by rewrite Hp| |done|intros y; cbn; reflexivity|]);
      try done; by apply (ki_frame s).
  - unfold pump_send. eapply (ki_pump _ f x PTop); try done; try (by rewrite Hp); repeat case_match; try done;
      by apply (ki_frame s).
  - unfold pump_close. eapply (ki_pump _ f x PUnlink); try done. by rewrite Hp.
  - by apply ki_unlink.
  - by apply (ki_frame s).
  - by apply ki_close.
Qed.

(** *** Capacity: flows, queues and the rate of new flows *)
Record cap_inv (t0 : Z) (s : nat_state) : Prop := {
  ci_flows : Z.of_nat (size (flows s) + size (pending s)) <= MaxFlows opt;
  ci_queue : Z.of_nat (length (queue s)) <= QueueSize opt;
  ci_packets : Z.of_nat (length (packets s)) <= QueueSize opt;
  ci_tokens : 0 <= tokens s <= NewFlowsPerSecond opt * billion;
  ci_rate : admitted s * billion + tokens s <=
            NewFlowsPerSecond opt * billion + NewFlowsPerSecond opt * (tokenTime s - t0);
}.

Lemma size_unpend (X : gset bytes) k : k ∈ X -> (size (X ∖ {[k]}) + 1 = size X)%nat.
Proof.
  intros Hk. rewrite size_difference by set_solver. rewrite size_singleton.
  assert (size X <> 0)%nat; [|lia]. intros E. apply size_empty_inv in E. set_solver.
Qed.

Lemma refill_bounds t0 s now : 0 <= NewFlowsPerSecond opt -> cap_inv t0 s -> tokenTime s <= now ->
  0 <= refill now s <= NewFlowsPerSecond opt * billion /\
  admitted s * billion + refill now s <=
    NewFlowsPerSecond opt * billion + NewFlowsPerSecond opt * (now - t0).
Proof.
  intros Hr [_ _ _ C4 C5] Ht. unfold refill. change billion with 1000000000 in *.
  pose proof (Z.mul_nonneg_nonneg (now - tokenTime s) (NewFlowsPerSecond opt) ltac:(lia) Hr). nia.
Qed.

Lemma size_delete_le (m : gmap bytes nat) k : (size (delete k m) <= size m)%nat.
Proof. rewrite map_size_delete. destruct (m !! k); simpl; lia. Qed.

Lemma size_insert_le (m : gmap bytes nat) k v : (size (<[k := v]> m) <= size m + 1)%nat.
Proof. rewrite map_size_insert. destruct (m !! k); simpl; lia. Qed.

Lemma cap_inv_step t0 s s' : 0 <= NewFlowsPerSecond opt -> step s s' -> key_inv s -> cap_inv t0 s -> cap_inv t0 s'.
Proof.
  intros Hr HS HK HC. assert (0 < billion) by done.
  destruct HS; unfold_ops; repeat case_match;
    try match goal with H : workers _ !! _ = Some (WDial _) |- _ =>
          pose proof (size_unpend _ _ (ki_dial _ HK _ _ H)) end;
    try match goal with H : tokenTime _ <= ?now |- _ =>
          pose proof (refill_bounds t0 _ now Hr HC H) as [? ?] end;
    destruct HC as [C1 C2 C3 C4 C5]; constructor; cbn in *; bool_props; try assumption;
    rewrite ?length_app; cbn [length]; try lia;
    try match goal with H : _ = _ :: _ |- _ => rewrite H in *; cbn in *; lia end.
  - rewrite size_union, size_singleton by set_solver. lia.
  - pose proof (size_insert_le (flows s) (key_of dg) (fresh (dom (table s)))). lia.
  - pose proof (size_delete_le (flows s) (fl_key x)). lia.
Qed.

(** *** Nothing happens before authentication *)
Record auth_inv (s : nat_state) : Prop := {
  ai_nothing : auth s = false -> queue s = [] /\ packets s = [] /\ rx s = RxIdle /\ flows s = ∅ /\
    pending s = ∅ /\ table s = ∅ /\ accepted s = [] /\ wire s = [] /\ down s = [] /\ admitted s = 0 /\
    forall i w, workers s !! i = Some w -> w = WIdle \/ w = WExit;
}.

Lemma auth_inv_step s s' : step s s' -> auth_inv s -> auth_inv s'.
Proof.
  intros HS [HA].
  assert (auth s = true \/ auth s = false) as [Ht|Hf] by (destruct (auth s); auto).
  { constructor. intros Hf'. exfalso. destruct HS; unfold_ops; repeat case_match; cbn in *; congruence. }
  specialize (HA Hf). destruct HA as (A1 & A2 & A3 & A4 & A5 & A6 & A7 & A8 & A9 & A10 & A11).
  constructor. intros Hf'. clear Hf'.
  destruct HS as [s|s data Hr|s dg f Hr|s i dg q Hi Hw Hq|s i dg Hw|s i dg now Hw Ht|s i dg d now Hw
    |s f p q Hw Hq|s f p Hw|s i f p now Hw|s i f p x err Hw Hx He|s i Hw Hc|s f x Hx Hp|s f x data err now Hx Hp He
    |s f x data err Hx Hp|s f x Hx Hp|s f x Hx Hp|s|s Hc Hcl];
    try (congruence); try (destruct (A11 _ _ Hw); discriminate); try (rewrite A6, lookup_empty in Hx; discriminate).
  - cbn. tauto.
  - assert (serve_datagram data s = nat_drop RAuth s) as -> by (unfold serve_datagram; by rewrite Hf). cbn. tauto.
  - cbn. split_and!; try done. intros j w. rewrite lookup_insert_Some. naive_solver.
  - cbn. tauto.
  - cbn. rewrite A6. split_and!; try done.
Qed.

(** *** Closing *)
Record close_inv (s : nat_state) : Prop := {
  li_ctx : closed s = true -> ctx_done s = true;
  li_socks : closed s = true -> forall f x, table s !! f = Some x -> fl_open x = false;
  li_retired : forall f x, table s !! f = Some x -> fl_pump x = PUnlink \/ fl_pump x = PGone -> fl_open x = false;
}.

Lemma li_table s m : close_inv s ->
  (forall f y, m !! f = Some y -> exists x, table s !! f = Some x /\ (fl_open x = false -> fl_open y = false) /\
     (fl_pump y = PUnlink \/ fl_pump y = PGone -> fl_open y = false)) -> close_inv (set_table m s).
Proof.
  intros [L1 L2 L3] Hm. constructor; cbn; [done|..].
  - intros Hc f y (x & Hx & Ho & _)%Hm. eauto.
  - intros f y (x & Hx & _ & Hp)%Hm. done.
Qed.

Lemma li_alter s f g : close_inv s ->
  (forall x, table s !! f = Some x -> (fl_open x = false -> fl_open (g x) = false) /\
     (fl_pump (g x) = PUnlink \/ fl_pump (g x) = PGone -> fl_open (g x) = false)) -> close_inv (upd_flow f g s).
Proof.
  intros HL Hg. apply li_table; [done|]. intros f' y Hy. destruct (decide (f = f')) as [<-|Hne].
  - rewrite lookup_alter_eq in Hy. destruct (table s !! f) as [x|]; [|done]. injection Hy as <-. eauto.
  - rewrite lookup_alter_ne in Hy by done. exists y. split_and!; try done. by apply (li_retired s HL f').
Qed.

Lemma li_frame s s' : closed s' = closed s -> ctx_done s' = ctx_done s -> table s' = table s ->
  close_inv s -> close_inv s'.
Proof. intros E1 E2 E3 []. constructor; by rewrite ?E1, ?E2, ?E3. Qed.

Lemma li_touch s f now : close_inv s -> close_inv (upd_flow f (touch now) s).
Proof. intros HL. apply li_alter; [done|]. intros x Hx. cbn. split; [done|]. by apply (li_retired s HL f). Qed.

(** A live pump moves to a live pump. *)
Lemma li_pump s f g : close_inv s -> (forall x, fl_open (g x) = fl_open x) ->
  (forall x, fl_pump (g x) <> PUnlink /\ fl_pump (g x) <> PGone) -> close_inv (upd_flow f g s).
Proof. intros HL Ho Hp. apply li_alter; [done|]. intros x Hx. rewrite Ho. specialize (Hp x). tauto. Qed.

Lemma close_inv_step s s' : step s s' -> key_inv s -> close_inv s -> close_inv s'.
Proof.
  intros HS HK HL. destruct HS as [s|s data Hr|s dg f Hr|s i dg q Hi Hw Hq|s i dg Hw|s i dg now Hw Ht|s i dg d now Hw
    |s f p q Hw Hq|s f p Hw|s i f p now Hw|s i f p x err Hw Hx He|s i Hw Hc|s f x Hx Hp|s f x data err now Hx Hp He
    |s f x data err Hx Hp|s f x Hx Hp|s f x Hx Hp|s|s Hc Hcl];
    try (by apply (li_frame s)).
  - apply (li_frame s); unfold_ops; repeat case_match; done.
  - apply (li_frame s); unfold_ops; repeat case_match; done.
  - unfold send_admit. repeat case_match; try (by apply (li_frame s)).
    apply (li_frame (upd_flow n (touch now) s)); try done. by apply li_touch.
  - unfold send_finish. cbn. destruct d; [by apply (li_frame s)|]. destruct (closed s) eqn:Ec; [by apply (li_frame s)|].
    destruct is_udp; cbn; [|by apply (li_frame s)]. destruct HL as [L1 L2 L3].
    constructor; cbn; [by rewrite Ec|by rewrite Ec|]. intros f' y. rewrite lookup_insert_Some.
    intros [[_ <-]|[_ Hy]]; [by intros [|]|by apply (L3 f')].
  - unfold write_lock. destruct (closed s); [by apply (li_frame s)|].
    apply (li_frame (upd_flow f (touch now) s)); try done. by apply li_touch.
  - unfold write_sock. by destruct err; apply (li_frame s).
  - unfold pump_top. apply li_pump; [done..|]. cbn. intros _. by case_match.
  - unfold pump_read. repeat case_match; apply li_pump; try done; by apply (li_frame s).
  - unfold pump_send. apply li_pump; try done. repeat case_match; by apply (li_frame s).
  - unfold pump_close. apply li_alter; [done|]. cbn. done.
  - unfold pump_unlink. assert (close_inv (upd_flow f (set_pump PGone) s)) as HL'.
    { apply li_alter; [done|]. intros y Hy. cbn. split; [done|]. intros _. rewrite Hx in Hy. injection Hy as <-.
      apply (li_retired s HL f x); auto. }
    case_bool_decide; [by apply (li_frame (upd_flow f (set_pump PGone) s))|done].
  - destruct HL as [L1 L2 L3]. by constructor.
  - unfold close_lock. destruct HL as [L1 L2 L3].
    assert (forall f y, map_imap (fun f x => Some (if bool_decide (flows s !! fl_key x = Some f) then close_sock x else x))
      (table s) !! f = Some y -> fl_open y = false) as Hall.
    { intros f y. rewrite map_lookup_imap. destruct (table s !! f) as [x|] eqn:Hx; [|done]. cbn.
      case_bool_decide as Hf; intros [= <-]; [done|]. apply (L3 f); [done|]. right.
      destruct (fl_pump x) eqn:E; try done; destruct Hf; apply (ki_live s HK); try done; by rewrite E. }
    constructor; cbn; [done|eauto..].
Qed.


(** *** Provenance: where the bytes come from *)

(** The payload [p] handed to flow [f] is that of an accepted datagram of the flow's
    own session and target. *)
Definition from_client (s : nat_state) (f : nat) (p : bytes) : Prop :=
  exists x dg, table s !! f = Some x /\ dg ∈ accepted s /\ key_of dg = fl_key x /\ Payload dg = p.

(** What is sent to the client through [f] is a well-sized envelope of the flow's
    session and target. *)
Definition from_target (s : nat_state) (f : nat) (out : bytes) : Prop :=
  exists x data, table s !! f = Some x /\ out = EncodeDatagram (fl_session x) (fl_target x) data /\
    Z.of_nat (length data) <= MaxPayload opt /\ (length out <= MaxUDPDatagramSize)%nat.

Definition worker_from (s : nat_state) (w : wstate) : Prop :=
  match w with
  | WGot dg | WAdmit dg | WDial dg => dg ∈ accepted s
  | WPacket f p | WLock f p | WSock f p => from_client s f p
  | _ => True
  end.

Definition flow_ok (x : flow) : Prop :=
  fl_key x = flowKey (fl_session x) (Address_String (fl_target x)) /\ 0 <= fl_session x < 2 ^ 64 /\
  valid_address (fl_target x) /\ forall d, fl_pump x = PSend d -> Z.of_nat (length d) <= MaxPayload opt.

Record prov_inv (s : nat_state) : Prop := {
  pv_accepted : forall dg, dg ∈ accepted s ->
    0 <= SessionID dg < 2 ^ 64 /\ valid_address (DgAddr dg) /\ Z.of_nat (length (Payload dg)) <= MaxPayload opt;
  pv_queue : forall dg, dg ∈ queue s -> dg ∈ accepted s;
  pv_packets : forall f p, (f, p) ∈ packets s -> from_client s f p;
  pv_rx : match rx s with
          | RxIdle => True
          | RxHave dg fo => dg ∈ accepted s /\ forall f, fo = Some f -> from_client s f (Payload dg)
          end;
  pv_workers : forall i w, workers s !! i = Some w -> worker_from s w;
  pv_table : forall f x, table s !! f = Some x -> flow_ok x;
  pv_wire : forall f p, (f, p) ∈ wire s -> from_client s f p;
  pv_down : forall f out, (f, out) ∈ down s -> from_target s f out;
}.

Lemma from_client_extends s s' f p : extends s s' -> from_client s f p -> from_client s' f p.
Proof.
  intros [Ea Et] (x & dg & Hx & Hd & Hk & Hp). destruct (Et f x Hx) as (y & Hy & Ek & _).
  exists y, dg. rewrite Ek. auto.
Qed.

Lemma from_target_extends s s' f out : extends s s' -> from_target s f out -> from_target s' f out.
Proof.
  intros [Ea Et] (x & data & Hx & Ho & Hl). destruct (Et f x Hx) as (y & Hy & _ & Es & Eg).
  exists y, data. rewrite Es, Eg. auto.
Qed.

Lemma worker_from_extends s s' w : extends s s' -> worker_from s w -> worker_from s' w.
Proof. intros E. destruct w; cbn; eauto using from_client_extends, ex_accepted. Qed.

(** Everything but what the step adds is inherited. *)
Lemma prov_extends s s' : extends s s' -> prov_inv s ->
  (forall dg, dg ∈ accepted s' -> dg ∈ accepted s \/
     0 <= SessionID dg < 2 ^ 64 /\ valid_address (DgAddr dg) /\ Z.of_nat (length (Payload dg)) <= MaxPayload opt) ->
  (forall dg, dg ∈ queue s' -> dg ∈ queue s \/ dg ∈ accepted s') ->
  (forall f p, (f, p) ∈ packets s' -> (f, p) ∈ packets s \/ from_client s' f p) ->
  (rx s' = rx s \/ match rx s' with
          | RxIdle => True
          | RxHave dg fo => dg ∈ accepted s' /\ forall f, fo = Some f -> from_client s' f (Payload dg)
          end) ->
  (forall i w, workers s' !! i = Some w -> workers s !! i = Some w \/ worker_from s' w) ->
  (forall f x, table s' !! f = Some x -> table s !! f = Some x \/ flow_ok x) ->
  (forall f p, (f, p) ∈ wire s' -> (f, p) ∈ wire s \/ from_client s' f p) ->
  (forall f out, (f, out) ∈ down s' -> (f, out) ∈ down s \/ from_target s' f out) ->
  prov_inv s'.
Proof.
  intros HX [P1 P2 P3 P4 P5 P6 P7 P8] H1 H2 H3 H4 H5 H6 H7 H8. constructor.
  - intros dg [?|?]%H1; auto.
  - intros dg [Hd%P2|?]%H2; [by apply (ex_accepted _ _ HX)|done].
  - intros f p [?%P3|?]%H3; eauto using from_client_extends.
  - destruct H4 as [->|?]; [|done]. destruct (rx s); [done|]. destruct P4 as [Pa Pf].
    split; [by apply (ex_accepted _ _ HX)|]. eauto using from_client_extends.
  - intros i w [?%P5|?]%H5; eauto using worker_from_extends.
  - intros f x [?%P6|?]%H6; done.
  - intros f p [?%P7|?]%H7; eauto using from_client_extends.
  - intros f p [?%P8|?]%H8; eauto using from_target_extends.
Qed.

Lemma flow_ok_alter s f g : prov_inv s -> (forall x, same_id x (g x)) ->
  (forall x d, table s !! f = Some x -> fl_pump (g x) = PSend d -> Z.of_nat (length d) <= MaxPayload opt) ->
  forall f' x, alter g f (table s) !! f' = Some x -> table s !! f' = Some x \/ flow_ok x.
Proof.
  intros HP Hid Hp f' x. destruct (decide (f = f')) as [<-|Hne]; [|rewrite lookup_alter_ne by done; auto].
  rewrite lookup_alter_eq. destruct (table s !! f) as [y|] eqn:Hy; [|done]. intros [= <-]. right.
  destruct (pv_table s HP f y Hy) as (H1 & H2 & H3 & H4). destruct (Hid y) as (E1 & E2 & E3).
  unfold flow_ok. rewrite E1, E2, E3. split; [done|]. split; [done|]. split; [done|].
  intros d. by apply Hp.
Qed.

(** Datagrams that pass [serveDatagrams] and [forward]. *)
Lemma accepted_ok data dg : DecodeDatagram data = Ok dg -> Z.of_nat (length (Payload dg)) <= MaxPayload opt ->
  0 <= SessionID dg < 2 ^ 64 /\ valid_address (DgAddr dg) /\ Z.of_nat (length (Payload dg)) <= MaxPayload opt.
Proof. intros (H1 & H2 & _)%EncodeDatagram_sound Hp. exact (conj H1 (conj H2 Hp)). Qed.

(** Close the inherited obligations of [prov_extends]. *)
Ltac inherit := cbn;
  first [ by left | by intros; left | right; done
        | intros ? ?; rewrite lookup_insert_Some; intros [[_ <-]|[_ ?]]; [right; cbn|by left] ].

Lemma prov_inv_step s s' : step s s' -> key_inv s -> prov_inv s -> prov_inv s'.
Proof.
  intros HS HK HP. pose proof (step_extends s s' HS) as HX.
  destruct HS as [s|s data Hr|s dg f Hr|s i dg q Hi Hw Hq|s i dg Hw|s i dg now Hw Ht|s i dg d now Hw
    |s f p q Hw Hq|s f p Hw|s i f p now Hw|s i f p x err Hw Hx He|s i Hw Hc|s f x Hx Hp|s f x data err now Hx Hp He
    |s f x data err Hx Hp|s f x Hx Hp|s f x Hx Hp|s|s Hc Hcl];
    try pose proof (pv_workers s HP _ _ Hw) as Hwf; cbn in * |-.
  - apply (prov_extends s _ HX HP); inherit.
  - revert HX. unfold serve_datagram, forward.
    repeat case_match; intros HX; try (apply (prov_extends s _ HX HP); inherit).
    apply (prov_extends s _ HX HP); try inherit.
    + cbn. intros d [?|E]%elem_of_app; [by left|right]. apply list_elem_of_singleton in E as ->.
      bool_props. eapply accepted_ok; [eassumption|lia].
    + right. cbn. split; [apply elem_of_app; right; by apply list_elem_of_singleton|].
      intros f Hf. destruct (ki_flow s HK _ _ Hf) as (x & Hx & Hk & _). exists x, a.
      split_and!; try done. cbn. apply elem_of_app. right. by apply list_elem_of_singleton.
  - revert HX. unfold enqueue. pose proof (pv_rx s HP) as Hrx. rewrite Hr in Hrx. destruct Hrx as [Ha Hf].
    repeat case_match; intros HX; apply (prov_extends s _ HX HP); try inherit.
    + cbn. intros f0 p [?|E]%elem_of_app; [by left|right]. apply list_elem_of_singleton in E. apply pair_equal_spec in E as [-> ->].
      eapply from_client_extends; [exact HX|]. by apply Hf.
    + cbn. intros d [?|E]%elem_of_app; [by left|right]. by apply list_elem_of_singleton in E as ->.
  - apply (prov_extends s _ HX HP); try inherit.
    + cbn. intros d Hd. left. rewrite Hq. by right.
    + apply (pv_queue s HP). rewrite Hq. left.
  - revert HX. unfold worker_check. case_match; intros HX; apply (prov_extends s _ HX HP); inherit; done.
  - revert HX. unfold send_admit.
    destruct (closed s); [intros HX; apply (prov_extends s _ HX HP); inherit; done|].
    destruct (flows s !! key_of dg) as [f|] eqn:Ef.
    { intros HX. apply (prov_extends s _ HX HP); try inherit.
      - eapply from_client_extends; [exact HX|]. destruct (ki_flow s HK _ _ Ef) as (x & Hx & Hk & _).
        exists x, dg. auto.
      - cbn. apply flow_ok_alter; [done..|]. intros x d Hx. cbn. by apply (pv_table s HP f x Hx). }
    case_bool_decide; [intros HX; apply (prov_extends s _ HX HP); inherit; done|].
    repeat case_match; intros HX; apply (prov_extends s _ HX HP); inherit; done.
  - revert HX. unfold send_finish. destruct d as [e|u]; cbn [closed set_pending].
    { intros HX; apply (prov_extends s _ HX HP); inherit; done. }
    destruct (closed s); [intros HX; apply (prov_extends s _ HX HP); inherit; done|].
    destruct u; cbn [negb]; [|intros HX; apply (prov_extends s _ HX HP); inherit; done].
    cbn [table set_pending flows]. set (f := fresh _). intros HX. apply (prov_extends s _ HX HP); try inherit.
    + eexists _, dg. cbn. rewrite lookup_insert_eq. by split_and!.
    + destruct (pv_accepted s HP dg Hwf) as (H1 & H2 & _). unfold flow_ok. cbn.
      split; [done|]. split; [done|]. by split.
  - apply (prov_extends s _ HX HP); try inherit.
    + cbn. intros f' p' Hd. left. rewrite Hq. by right.
    + eapply from_client_extends; [exact HX|]. apply (pv_packets s HP). rewrite Hq. left.
  - revert HX. unfold packet_check. case_match; intros HX; apply (prov_extends s _ HX HP); inherit; done.
  - revert HX. unfold write_lock. destruct (closed s); intros HX; apply (prov_extends s _ HX HP); try inherit; try done.
    + by eapply from_client_extends.
    + cbn. apply flow_ok_alter; [done..|]. intros x d Hx. cbn. by apply (pv_table s HP f x Hx).
  - revert HX. unfold write_sock. destruct err; intros HX; apply (prov_extends s _ HX HP); try inherit; try done.
    cbn. intros f' p' [?|E]%elem_of_app; [by left|right]. apply list_elem_of_singleton in E. apply pair_equal_spec in E as [-> ->]. done.
  - apply (prov_extends s _ HX HP); inherit; done.
  - apply (prov_extends s _ HX HP); try inherit. cbn. apply flow_ok_alter; [done..|].
    intros y d _. cbn. by case_match.
  - revert HX. unfold pump_read. repeat case_match; intros HX; apply (prov_extends s _ HX HP); try inherit;
      cbn; apply flow_ok_alter; try done. intros y d _. cbn. intros [= <-]. bool_props. lia.
  - revert HX. unfold pump_send.
    assert (forall f' y, alter (set_pump PTop) f (table s) !! f' = Some y -> table s !! f' = Some y \/ flow_ok y) as HF
      by (by apply flow_ok_alter).
    repeat case_match; intros HX; apply (prov_extends s _ HX HP); try inherit; try exact HF.
    cbn. intros f' p' [?|E]%elem_of_app; [by left|right]. apply list_elem_of_singleton in E. apply pair_equal_spec in E as [-> ->].
    destruct (pv_table s HP f x Hx) as (_ & _ & _ & Hd). exists (set_pump PTop x), data.
    split; [cbn [table upd_flow set_table add_down]; by rewrite lookup_alter_eq, Hx|].
    split; [done|]. split; [by apply Hd|]. case_bool_decide; [done|lia].
  - apply (prov_extends s _ HX HP); try inherit. cbn. by apply flow_ok_alter.
  - revert HX. unfold pump_unlink. case_bool_decide; intros HX; apply (prov_extends s _ HX HP); try inherit;
      cbn; by apply flow_ok_alter.
  - apply (prov_extends s _ HX HP); inherit.
  - apply (prov_extends s _ HX HP); try inherit. cbn. intros f x. rewrite map_lookup_imap.
    destruct (table s !! f) as [y|] eqn:Hy; [|done]. cbn. case_bool_decide; intros [= <-]; [right|by left].
    by destruct (pv_table s HP f y Hy) as (H1 & H2 & H3 & H4).
Qed.

(** *** All together *)
Record nat_inv (t0 : Z) (s : nat_state) : Prop := {
  ni_key : key_inv s; ni_cap : cap_inv t0 s; ni_auth : auth_inv s; ni_close : close_inv s; ni_prov : prov_inv s;
}.

Context (Hopt : 0 < MaxFlows opt /\ 0 < QueueSize opt /\ 0 < NewFlowsPerSecond opt).

Lemma init_workers i w : workers (makeUDPNAT 0) !! i = Some w -> w = WIdle.
Proof.
  unfold makeUDPNAT. cbn [workers]. intros Hw%elem_of_list_to_map_2. apply list_elem_of_In, in_map_iff in Hw as (j & [= _ <-] & _). done.
Qed.

Lemma nat_inv_init t0 : nat_inv t0 (makeUDPNAT t0).
Proof.
  assert (forall i w, workers (makeUDPNAT t0) !! i = Some w -> w = WIdle) as Hw by apply init_workers.
  constructor.
  - constructor; try (intros; cbn in *; done || set_solver).
  - constructor; cbn; try (unfold billion; lia). rewrite map_size_empty, size_empty. lia.
  - constructor. intros _. split_and!; try done. intros i w Hi. left. by eapply Hw.
  - constructor; cbn; try done; intros; set_solver.
  - constructor; cbn; try (intros; set_solver || done).
Qed.

Lemma nat_inv_step t0 s s' : step s s' -> nat_inv t0 s -> nat_inv t0 s'.
Proof.
  intros HS []. constructor.
  - by eapply key_inv_step.
  - eapply cap_inv_step; try done. lia.
  - by eapply auth_inv_step.
  - by eapply close_inv_step.
  - by eapply prov_inv_step.
Qed.

Lemma nat_inv_rtc t0 s s' : rtc step s s' -> nat_inv t0 s -> nat_inv t0 s'.
Proof. induction 1; eauto using nat_inv_step. Qed.

Lemma nat_inv_reachable t0 s : reachable t0 s -> nat_inv t0 s.
Proof. intros HR. eapply nat_inv_rtc; [exact HR|apply nat_inv_init]. Qed.

(** After [close]: the sockets stay closed and the packets already sent are all. *)
Lemma closed_step t0 s s' : step s s' -> nat_inv t0 s -> closed s = true ->
  closed s' = true /\ wire s' = wire s /\ flows s' ⊆ flows s.
Proof.
  intros HS HI Hc. pose proof (li_socks s (ni_close t0 s HI) Hc) as Ho.
  destruct HS; unfold_ops; repeat case_match; cbn in *; try congruence; try (split_and!; done).
  - exfalso. match goal with H : fl_open _ = false -> _ |- _ => apply H end; [|done]. by eapply Ho.
  - split_and!; [done|done|]. apply delete_subseteq.
Qed.

Lemma closed_run t0 s s' : rtc step s s' -> nat_inv t0 s -> closed s = true ->
  closed s' = true /\ wire s' = wire s /\ flows s' ⊆ flows s.
Proof.
  induction 1 as [s|s u s' Hst _ IH]; intros HI Hc; [done|].
  destruct (closed_step t0 s u Hst HI Hc) as (Hc' & Hw & Hf).
  destruct IH as (H1 & H2 & H3); [by eapply nat_inv_step|done|]. split_and!; [done|congruence|by etrans].
Qed.
End nat.

(** ** Flow keys *)
Lemma flowKey_inj sid sid' t t' : 0 <= sid < 2 ^ 64 -> 0 <= sid' < 2 ^ 64 ->
  flowKey sid t = flowKey sid' t' -> sid = sid' /\ t = t'.
Proof.
  intros H1 H2 E. unfold flowKey in E. change (bs "|" ++ t) with (ch "|" :: t) in E.
  change (bs "|" ++ t') with (ch "|" :: t') in E.
  apply sep_inj in E as [E1 E2].
  - split; [by apply Itoa_inj|done].
  - destruct (Itoa_spec sid H1) as (_ & Hd & _). by eapply forallb_not_contains.
  - destruct (Itoa_spec sid' H2) as (_ & Hd & _). by eapply forallb_not_contains.
Qed.

Lemma defaults_pos o : 0 < MaxFlows (defaults o) /\ 0 < QueueSize (defaults o) /\ 0 < NewFlowsPerSecond (defaults o).
Proof. unfold defaults. cbn. repeat case_match; bool_props; lia. Qed.

(** C17: in every state the NAT can reach, under any interleaving, the flows and the
    dials in progress stay within [MaxFlows], both queues within [QueueSize], the flow
    gauge counts the flow table, a key is dialled by at most one worker and never while
    it has a flow, and the flow table holds exactly the flow objects whose pump is
    still running, so no socket is lost by being overwritten. *)
Theorem nat_bounded o t0 s : reachable (defaults o) t0 s ->
  Z.of_nat (size (flows s) + size (pending s)) <= MaxFlows (defaults o) /\
  Z.of_nat (length (queue s)) <= QueueSize (defaults o) /\
  Z.of_nat (length (packets s)) <= QueueSize (defaults o) /\
  gauge s = Z.of_nat (size (flows s)) /\
  (forall i j dg dg', workers s !! i = Some (WDial dg) -> workers s !! j = Some (WDial dg') ->
     key_of dg = key_of dg' -> i = j) /\
  (forall i dg, workers s !! i = Some (WDial dg) -> flows s !! key_of dg = None) /\
  (forall k f, flows s !! k = Some f <-> exists x, table s !! f = Some x /\ fl_key x = k /\ fl_pump x <> PGone).
Proof.
  intros HR. apply nat_inv_reachable in HR as [[Kd Kp Ku Kx Kf Kl Kg] [C1 C2 C3 _ _] _ _ _]; [|apply defaults_pos].
  split_and!; try done; [eauto|]. intros k f. split; [apply Kf|]. intros (x & Hx & <- & Hp). eauto.
Qed.

(** The token bucket.  The flows admitted since the NAT was created are at most
    [NewFlowsPerSecond] plus that rate times the seconds elapsed up to the last refill,
    and the bucket never holds a negative amount or more than one second's worth. *)
Theorem nat_rate_limit o t0 s : reachable (defaults o) t0 s ->
  let rate := NewFlowsPerSecond (defaults o) in
  0 <= tokens s <= rate * billion /\
  admitted s <= rate + rate * (tokenTime s - t0) / billion.
Proof.
  intros HR rate. apply nat_inv_reachable in HR as [_ [_ _ _ C4 C5] _ _ _]; [|apply defaults_pos].
  fold rate in C4, C5. split; [done|]. assert (0 < billion) by done.
  assert (admitted s - rate <= rate * (tokenTime s - t0) / billion); [|lia].
  apply Z.div_le_lower_bound; [done|]. lia.
Qed.

(** Before the connection is authenticated nothing is queued, dialled, forwarded,
    sent back or kept for later: every datagram received is dropped. *)
Theorem nat_no_preauth o t0 s data : reachable (defaults o) t0 s -> auth s = false ->
  queue s = [] /\ packets s = [] /\ flows s = ∅ /\ pending s = ∅ /\ table s = ∅ /\
  accepted s = [] /\ wire s = [] /\ down s = [] /\ admitted s = 0 /\
  serve_datagram (defaults o) data s = nat_drop RAuth s.
Proof.
  intros HR Ha. apply nat_inv_reachable in HR as [_ _ [HA] _ _]; [|apply defaults_pos].
  destruct (HA Ha) as (? & ? & ? & ? & ? & ? & ? & ? & ? & ? & _). split_and!; try done.
  unfold serve_datagram. by rewrite Ha.
Qed.

(** C16: sessions do not mix.  A packet written to a flow's socket is the payload of an
    accepted client datagram of that flow's session and target, a datagram sent back
    through a flow decodes to that flow's session, target and at most [MaxPayload]
    bytes, and two live flows with the same session and target are the same flow. *)
Theorem nat_session_isolation o t0 s : reachable (defaults o) t0 s ->
  (forall f p, (f, p) ∈ wire s -> exists x dg, table s !! f = Some x /\ dg ∈ accepted s /\ Payload dg = p /\
     SessionID dg = fl_session x /\ Address_String (DgAddr dg) = Address_String (fl_target x)) /\
  (forall f out, (f, out) ∈ down s -> exists x data, table s !! f = Some x /\
     DecodeDatagram out = Ok (mkDatagram (fl_session x) (wire_form (fl_target x)) data) /\
     Z.of_nat (length data) <= MaxPayload (defaults o)) /\
  (forall f g x y, table s !! f = Some x -> table s !! g = Some y -> fl_pump x <> PGone -> fl_pump y <> PGone ->
     fl_session x = fl_session y -> Address_String (fl_target x) = Address_String (fl_target y) -> f = g).
Proof.
  intros HR. apply nat_inv_reachable in HR as [[_ _ _ _ _ Kl _] _ _ _ [P1 _ _ _ _ P6 P7 P8]]; [|apply defaults_pos].
  assert (MaxPayload (defaults o) <= Z.of_nat MaxUDPPayload) as HM
    by (unfold defaults; cbn; repeat case_match; bool_props; lia).
  split_and!.
  - intros f p (x & dg & Hx & Hd & Hk & Hp)%P7. exists x, dg. split_and!; try done;
      destruct (P6 f x Hx) as (Ek & Hs & _); destruct (P1 dg Hd) as (Hs' & _); rewrite Ek in Hk;
      by apply flowKey_inj in Hk as [? ?].
  - intros f out (x & data & Hx & -> & Hl & Ho)%P8. exists x, data. split_and!; try done.
    destruct (P6 f x Hx) as (_ & Hs & Hv & _).
    rewrite DecodeDatagram_body, bool_decide_eq_false_2; [done|lia|done|done|done].
  - intros f g x y Hx Hy Hpx Hpy Es Et. apply (Kl f x Hx) in Hpx. apply (Kl g y Hy) in Hpy.
    destruct (P6 f x Hx) as (Ex & _). destruct (P6 g y Hy) as (Ey & _).
    rewrite Ex, Es, Et, <-Ey, Hpy in Hpx. congruence.
Qed.

(** Closing.  Once [close] has marked the NAT closed, in every later state all
    sockets are closed, no packet is written to a target any more, no flow is added,
    and when every worker has exited and every pump is gone the flow table, the
    pending dials and the gauge are all empty. *)
Theorem nat_closed o t0 s s' : reachable (defaults o) t0 s -> closed s = true ->
  rtc (step (defaults o)) s s' ->
  closed s' = true /\ wire s' = wire s /\ flows s' ⊆ flows s /\
  (forall f x, table s' !! f = Some x -> fl_open x = false) /\
  ((forall i w, workers s' !! i = Some w -> w = WExit) ->
   (forall f x, table s' !! f = Some x -> fl_pump x = PGone) ->
   flows s' = ∅ /\ pending s' = ∅ /\ gauge s' = 0).
Proof.
  intros HR Hc HS. pose proof (defaults_pos o) as Hd.
  apply nat_inv_reachable in HR as HI; [|done].
  destruct (closed_run _ Hd t0 s s' HS HI Hc) as (Hc' & Hw & Hf).
  pose proof (nat_inv_rtc _ Hd t0 s s' HS HI) as [[Kd Kp Ku Kx Kf Kl Kg] _ _ [L1 L2 _] _].
  split; [done|]. split; [done|]. split; [done|]. split; [by apply L2|]. intros HW HP.
  assert (flows s' = ∅) as He.
  { apply map_empty. intros k. destruct (flows s' !! k) as [f|] eqn:Ef; [|done].
    destruct (Kf k f Ef) as (x & Hx & _ & Hp). by rewrite (HP f x Hx) in Hp. }
  split_and!; [done| |by rewrite Kg, He, map_size_empty].
  apply set_eq. intros k. split; [|set_solver]. intros (i & dg & Hi & _)%Kp. by apply HW in Hi.
Qed.

(** The option defaults are idempotent and within bounds: at least one worker and at
    most one per flow, a payload limit that always fits the envelope, and positive
    limits everywhere. *)
Theorem udp_defaults_bounds o : let d := defaults o in
  defaults d = d /\ 1 <= Workers d <= MaxFlows d /\ 0 < QueueSize d /\ 0 < NewFlowsPerSecond d /\
  0 < MaxPayload d <= Z.of_nat MaxUDPPayload /\ 0 < IdleTimeout d /\
  (0 < MaxFlows o -> MaxFlows d = MaxFlows o).
Proof.
  cbv zeta. assert (0 < second) by done. assert (0 < Z.of_nat MaxUDPPayload) by done.
  assert (1 <= Workers (defaults o) <= MaxFlows (defaults o) /\ 0 < QueueSize (defaults o) /\
    0 < NewFlowsPerSecond (defaults o) /\ 0 < MaxPayload (defaults o) <= Z.of_nat MaxUDPPayload /\
    0 < IdleTimeout (defaults o)) as (H1 & H2 & H3 & H4 & H5).
  { unfold defaults. cbn. repeat split; repeat case_match; bool_props; lia. }
  split_and!; try lia; [|intros; unfold defaults; cbn; case_match; bool_props; lia].
  set (d := defaults o) in *. clearbody d. destruct d as [a b c e f g]; cbn in *. unfold defaults. cbn.
  f_equal; repeat case_match; bool_props; lia.
Qed.

(** ** A concrete run: one datagram reaches its target, one reply comes back *)
Definition example_opt : UDPOptions := mkUDPOptions 2 4 1 8 0 0.
Definition example_target : Address := mkAddress AtypIPv4 [] (map z2b [93; 184; 216; 34]) 53.
Definition example_dg : Datagram := mkDatagram 7 example_target (bs "query").
Definition example_data : bytes := EncodeDatagram 7 example_target (bs "query").

Definition eopt : UDPOptions := defaults example_opt.
Definition run_0 : nat_state := makeUDPNAT eopt 0.
Definition run_1 : nat_state := set_auth true run_0.
Definition run_2 : nat_state := serve_datagram eopt example_data run_1.
Definition run_3 : nat_state := enqueue eopt example_dg None run_2.
Definition run_4 : nat_state := set_worker 1 (WGot example_dg) (set_queue [] run_3).
Definition run_5 : nat_state := worker_check 1 example_dg run_4.
Definition run_6 : nat_state := send_admit eopt 10 1 example_dg run_5.
Definition run_7 : nat_state := send_finish 11 1 example_dg (DialSocket true) run_6.
Definition run_8 : nat_state := write_lock 12 1 0 (bs "query") run_7.
Definition run_9 : nat_state := write_sock 1 0 (bs "query") None run_8.
Definition run_10 : nat_state := pump_top 0 run_9.
Definition flow_10 : flow := mkFlow (key_of example_dg) 7 example_target 12 true PRead.
Definition run_11 : nat_state := pump_read eopt 13 0 flow_10 (bs "answer") None run_10.
Definition flow_11 : flow := mkFlow (key_of example_dg) 7 example_target 13 true (PSend (bs "answer")).
Definition run_12 : nat_state := pump_send 0 flow_11 (bs "answer") None run_11.

Lemma run_reachable : reachable eopt 0 run_12.
Proof.
  assert (forall s s', reachable eopt 0 s -> step eopt s s' -> reachable eopt 0 s') as Hn
    by (intros s s' H1 H2; by eapply rtc_r).
  apply (Hn run_11); [apply (Hn run_10); [apply (Hn run_9); [apply (Hn run_8); [apply (Hn run_7); [apply (Hn run_6);
    [apply (Hn run_5); [apply (Hn run_4); [apply (Hn run_3); [apply (Hn run_2); [apply (Hn run_1);
    [apply (Hn run_0); [apply rtc_refl|]|]|]|]|]|]|]|]|]|]|]|].
  - apply s_authenticate.
  - apply s_receive. vm_compute. reflexivity.
  - apply s_enqueue. vm_compute. reflexivity.
  - apply s_take; [done|vm_compute; reflexivity|vm_compute; reflexivity].
  - apply s_check. vm_compute. reflexivity.
  - apply s_admit; [vm_compute; reflexivity|vm_compute; discriminate].
  - apply s_finish. vm_compute. reflexivity.
  - apply s_write_lock. vm_compute. reflexivity.
  - eapply s_write_sock; [vm_compute; reflexivity|vm_compute; reflexivity|vm_compute; discriminate].
  - eapply s_pump_top; vm_compute; reflexivity.
  - apply s_pump_read; [vm_compute; reflexivity|reflexivity|vm_compute; discriminate].
  - apply s_pump_send; vm_compute; reflexivity.
Qed.

Example run_result : wire run_12 = [(0%nat, bs "query")] /\
  down run_12 = [(0%nat, EncodeDatagram 7 example_target (bs "answer"))] /\
  gauge run_12 = 1 /\ drops run_12 = [].
Proof. vm_compute. done. Qed.

Lemma nat_bounded_witness : Z.of_nat (size (flows run_12) + size (pending run_12)) <= 2.
Proof. exact (proj1 (nat_bounded example_opt 0 run_12 run_reachable)). Defined.

Lemma nat_rate_limit_witness :
  admitted run_12 <= 8 + 8 * (tokenTime run_12 - 0) / billion.
Proof. exact (proj2 (nat_rate_limit example_opt 0 run_12 run_reachable)). Defined.

Lemma nat_no_preauth_witness :
  serve_datagram (defaults example_opt) example_data (makeUDPNAT (defaults example_opt) 0) =
  nat_drop RAuth (makeUDPNAT (defaults example_opt) 0).
Proof.
  refine (proj2 (proj2 (proj2 (proj2 (proj2 (proj2 (proj2 (proj2 (proj2
    (nat_no_preauth example_opt 0 (makeUDPNAT (defaults example_opt) 0) example_data _ _)))))))))).
  - apply rtc_refl.
  - reflexivity.
Defined.

Lemma nat_session_isolation_witness : exists x dg,
  table run_12 !! 0%nat = Some x /\ dg ∈ accepted run_12 /\ Payload dg = bs "query" /\
  SessionID dg = fl_session x /\ Address_String (DgAddr dg) = Address_String (fl_target x).
Proof.
  apply (proj1 (nat_session_isolation example_opt 0 run_12 run_reachable) 0%nat (bs "query")).
  rewrite (proj1 run_result). left.
Defined.

Definition closing_state : nat_state := close_lock (set_ctx_done true run_12).

Lemma closing_reachable : reachable eopt 0 closing_state.
Proof.
  eapply rtc_r; [eapply rtc_r; [exact run_reachable|apply s_cancel]|]. apply s_close; vm_compute; reflexivity.
Qed.

Lemma nat_closed_witness : exists x, table closing_state !! 0%nat = Some x /\ fl_open x = false.
Proof.
  eexists. split; [vm_compute; reflexivity|].
  refine (proj1 (proj2 (proj2 (proj2 (nat_closed example_opt 0 closing_state closing_state closing_reachable _ _)))) 0%nat _ _).
  - vm_compute. reflexivity.
  - apply rtc_refl.
  - vm_compute. reflexivity.
Defined.
