(* ===== verification/NatSpec.v ===== *)
(** * What the UDP NAT promises

    An abstract specification of [internal/server/udp.go] and the refinement of it by the
    interleaved model of [UdpNat].  The specification knows no queues, workers, pumps or
    sockets: datagrams are received, may be lost, are sent at most once each and only
    through an open flow of their own session and target; replies come back only through
    an open flow and name its session and target; flows are opened one per key up to the
    limit and closed. *)
From stdpp Require Import gmultiset.
From S2P Require Import Prelude GoStd GoNet Protocol UdpNat.

(** ** The specification *)

(** A datagram by the key of its flow and its payload. *)
Abbreviation item := (bytes * bytes)%type.

Record service := mkService {
  sv_auth : bool; sv_done : bool; sv_closed : bool;
  sv_received : list item;          (* everything accepted, in order *)
  sv_inflight : gmultiset item;     (* accepted, neither sent nor lost yet *)
  sv_open : gset bytes;             (* the keys of the open flows *)
  sv_sent : list item;              (* what the targets got, in order *)
  sv_back : list item;              (* replies given to the tunnel, by flow *)
}.
Definition service_init : service := mkService false false false [] ∅ ∅ [] [].

Inductive service_step (opt : UDPOptions) : service -> service -> Prop :=
| a_authenticate v : service_step opt v
    (mkService true (sv_done v) (sv_closed v) (sv_received v) (sv_inflight v) (sv_open v) (sv_sent v) (sv_back v))
| a_cancel v : service_step opt v
    (mkService (sv_auth v) true (sv_closed v) (sv_received v) (sv_inflight v) (sv_open v) (sv_sent v) (sv_back v))
| a_close v : sv_done v = true -> service_step opt v
    (mkService (sv_auth v) (sv_done v) true (sv_received v) (sv_inflight v) (sv_open v) (sv_sent v) (sv_back v))
| a_receive v it : sv_auth v = true -> sv_done v = false -> Z.of_nat (length it.2) <= MaxPayload opt -> service_step opt v
    (mkService (sv_auth v) (sv_done v) (sv_closed v) (sv_received v ++ [it]) (sv_inflight v ⊎ {[+ it +]}) (sv_open v) (sv_sent v) (sv_back v))
| a_lose v it : it ∈ sv_inflight v -> service_step opt v
    (mkService (sv_auth v) (sv_done v) (sv_closed v) (sv_received v) (sv_inflight v ∖ {[+ it +]}) (sv_open v) (sv_sent v) (sv_back v))
| a_open v k : sv_auth v = true -> sv_closed v = false -> k ∉ sv_open v -> Z.of_nat (size (sv_open v)) < MaxFlows opt -> service_step opt v
    (mkService (sv_auth v) (sv_done v) (sv_closed v) (sv_received v) (sv_inflight v) ({[k]} ∪ sv_open v) (sv_sent v) (sv_back v))
| a_send v it : it ∈ sv_inflight v -> it.1 ∈ sv_open v -> sv_closed v = false -> service_step opt v
    (mkService (sv_auth v) (sv_done v) (sv_closed v) (sv_received v) (sv_inflight v ∖ {[+ it +]}) (sv_open v) (sv_sent v ++ [it]) (sv_back v))
| a_reply v sid a data : flowKey sid (Address_String a) ∈ sv_open v -> Z.of_nat (length data) <= MaxPayload opt -> service_step opt v
    (mkService (sv_auth v) (sv_done v) (sv_closed v) (sv_received v) (sv_inflight v) (sv_open v) (sv_sent v)
       (sv_back v ++ [(flowKey sid (Address_String a), EncodeDatagram sid a data)]))
| a_shut v k : k ∈ sv_open v -> service_step opt v
    (mkService (sv_auth v) (sv_done v) (sv_closed v) (sv_received v) (sv_inflight v) (sv_open v ∖ {[k]}) (sv_sent v) (sv_back v)).

(** What the specification guarantees: nothing is invented or duplicated, and there are
    never more flows than the limit. *)
Definition service_ok (opt : UDPOptions) (v : service) : Prop :=
  list_to_set_disj (sv_sent v) ⊎ sv_inflight v ⊆ list_to_set_disj (sv_received v) /\
  Z.of_nat (size (sv_open v)) <= MaxFlows opt /\ (sv_auth v = false -> sv_received v = []).

Lemma list_to_set_disj_snoc (l : list item) it : list_to_set_disj (l ++ [it]) =@{gmultiset item} list_to_set_disj l ⊎ {[+ it +]}.
Proof. rewrite list_to_set_disj_app. multiset_solver. Qed.

Ltac service_fields := cbn [sv_auth sv_done sv_closed sv_received sv_inflight sv_open sv_sent sv_back].

Lemma service_step_ok opt v v' : service_step opt v v' -> service_ok opt v -> service_ok opt v'.
Proof.
  intros Hst (H1 & H2 & H3). destruct Hst as [v|v|v Hd|v it Ha Hd Hl|v it Hi|v k Ha Hc Hk Hs|v it Hi Ho Hc|v sid a data Ho Hl|v k Hk];
    unfold service_ok; service_fields; split_and!; try done.
  - rewrite list_to_set_disj_snoc. multiset_solver.
  - intros. congruence.
  - multiset_solver.
  - rewrite size_union by set_solver. rewrite size_singleton. lia.
  - rewrite list_to_set_disj_snoc. multiset_solver.
  - etrans; [|exact H2]. apply inj_le, subseteq_size. set_solver.
Qed.

(** ** The abstraction *)
Definition dg_item (dg : Datagram) : item := (key_of dg, Payload dg).
Definition flow_key (m : gmap nat flow) (f : nat) : bytes := default [] (fl_key <$> m !! f).
Definition pk_item (m : gmap nat flow) (fp : nat * bytes) : item := (flow_key m fp.1, fp.2).

Definition worker_items (m : gmap nat flow) (w : wstate) : gmultiset item :=
  match w with
  | WGot dg | WAdmit dg | WDial dg => {[+ dg_item dg +]}
  | WPacket f p | WLock f p | WSock f p => {[+ pk_item m (f, p) +]}
  | WIdle | WExit => ∅
  end.
Definition rx_items (r : rxstate) : gmultiset item := match r with RxIdle => ∅ | RxHave dg _ => {[+ dg_item dg +]} end.
Definition workers_items (m : gmap nat flow) (ws : gmap nat wstate) : gmultiset item :=
  map_fold (fun _ w acc => worker_items m w ⊎ acc) ∅ ws.

Definition inflight (s : nat_state) : gmultiset item :=
  rx_items (rx s) ⊎ list_to_set_disj (dg_item <$> queue s) ⊎ list_to_set_disj (pk_item (table s) <$> packets s) ⊎
  workers_items (table s) (workers s).
Definition abs (s : nat_state) : service :=
  mkService (auth s) (ctx_done s) (closed s) (dg_item <$> accepted s) (inflight s) (dom (flows s))
    (pk_item (table s) <$> wire s) (pk_item (table s) <$> down s).

Lemma workers_items_new m (ws : gmap nat wstate) i w : ws !! i = None -> workers_items m (<[i := w]> ws) = worker_items m w ⊎ workers_items m ws.
Proof. intros Hi. unfold workers_items. rewrite map_fold_insert_L; [done|intros; multiset_solver|done]. Qed.

Lemma workers_items_insert m (ws : gmap nat wstate) i w w' : ws !! i = Some w ->
  workers_items m (<[i := w']> ws) ⊎ worker_items m w = workers_items m ws ⊎ worker_items m w'.
Proof.
  intros Hi. rewrite <- (insert_delete_id ws i w Hi) at 2. rewrite <- (insert_delete_eq ws i w').
  rewrite !workers_items_new by apply lookup_delete_eq. multiset_solver.
Qed.

Lemma workers_items_ext m m' (ws : gmap nat wstate) : (forall i w, ws !! i = Some w -> worker_items m' w = worker_items m w) ->
  workers_items m' ws = workers_items m ws.
Proof.
  induction ws as [|i w ws Hi Hf IH] using map_first_key_ind; intros HE; [done|].
  rewrite !workers_items_new by done. rewrite (HE i w) by apply lookup_insert_eq. f_equal. apply IH.
  intros j w' Hj. apply (HE j). rewrite lookup_insert_ne; congruence.
Qed.

Lemma workers_items_idle m (ws : gmap nat wstate) : (forall i w, ws !! i = Some w -> worker_items m w = ∅) -> workers_items m ws = ∅.
Proof.
  induction ws as [|i w ws Hi Hf IH] using map_first_key_ind; intros HE; [done|].
  rewrite workers_items_new by done. rewrite (HE i w), IH by (apply lookup_insert_eq || (intros j w' Hj; apply (HE j); rewrite lookup_insert_ne; congruence)).
  multiset_solver.
Qed.

(** Flow objects that are referred to exist. *)
Record refs_ok (s : nat_state) : Prop := {
  ro_packets : forall fp, fp ∈ packets s -> is_Some (table s !! fp.1);
  ro_workers : forall i w f p, workers s !! i = Some w -> (w = WPacket f p \/ w = WLock f p \/ w = WSock f p) -> is_Some (table s !! f);
  ro_wire : forall fp, fp ∈ wire s -> is_Some (table s !! fp.1);
  ro_down : forall fp, fp ∈ down s -> is_Some (table s !! fp.1);
}.

Lemma prov_refs opt s : prov_inv opt s -> refs_ok s.
Proof.
  intros [P1 P2 P3 P4 P5 P6 P7 P8]. split.
  - intros [f p] (x & ? & Hx & _)%P3. by exists x.
  - intros i w f p Hw Hor. pose proof (P5 i w Hw) as HP. destruct Hor as [->|[->| ->]]; destruct HP as (x & ? & Hx & _); by exists x.
  - intros [f p] (x & ? & Hx & _)%P7. by exists x.
  - intros [f p] (x & ? & Hx & _)%P8. by exists x.
Qed.

Lemma pk_items_ext m m' (l : list (nat * bytes)) : (forall fp, fp ∈ l -> flow_key m' fp.1 = flow_key m fp.1) ->
  pk_item m' <$> l = pk_item m <$> l.
Proof.
  intros HE. apply list_fmap_ext. intros k fp Hk. unfold pk_item. f_equal. apply HE. by eapply list_elem_of_lookup_2.
Qed.

(** The table of flow objects matters only through their keys. *)
Lemma abs_table s m : refs_ok s -> (forall f x, table s !! f = Some x -> flow_key m f = fl_key x) -> abs (set_table m s) = abs s.
Proof.
  intros [R1 R2 R3 R4] HK. assert (forall f, is_Some (table s !! f) -> flow_key m f = flow_key (table s) f) as HK'.
  { intros f [x Hx]. rewrite (HK f x Hx). unfold flow_key. by rewrite Hx. }
  unfold abs, inflight. cbn [set_table auth ctx_done closed accepted rx queue packets workers table flows wire down].
  rewrite !(pk_items_ext (table s) m) by (intros fp Hfp; apply HK'; eauto).
  rewrite (workers_items_ext (table s) m); [done|].
  intros i w Hw. destruct w; cbn; try done; unfold pk_item; cbn; rewrite HK'; eauto.
Qed.

Lemma abs_flow s f g : refs_ok s -> (forall x, same_id x (g x)) -> abs (upd_flow f g s) = abs s.
Proof.
  intros HR Hid. unfold upd_flow. apply abs_table; [done|]. intros f' x Hx. unfold flow_key.
  destruct (alter_same_id (table s) g f Hid f' x Hx) as (y & -> & Hk & _). done.
Qed.

Ltac nat_fields := cbn [set_auth set_ctx_done set_closed set_queue set_packets set_rx set_worker set_flows set_pending set_table set_tokens
  add_gauge accept add_wire add_down count_admitted nat_drop auth ctx_done closed queue packets rx workers flows pending table accepted wire down
  rx_items sv_auth sv_done sv_closed sv_received sv_inflight sv_open sv_sent sv_back].

(** A worker that changes state, by the datagram it carries. *)
Definition lose (it : item) (v : service) : service :=
  mkService (sv_auth v) (sv_done v) (sv_closed v) (sv_received v) (sv_inflight v ∖ {[+ it +]}) (sv_open v) (sv_sent v) (sv_back v).

Lemma abs_worker s i w w' : workers s !! i = Some w -> worker_items (table s) w' = worker_items (table s) w ->
  abs (set_worker i w' s) = abs s.
Proof.
  intros Hw HE. unfold abs, inflight. cbn [set_worker auth ctx_done closed accepted rx queue packets workers table flows wire down].
  f_equal. pose proof (workers_items_insert (table s) _ _ _ w' Hw). multiset_solver.
Qed.

Lemma abs_worker_lose s i w w' it : workers s !! i = Some w -> worker_items (table s) w = {[+ it +]} -> worker_items (table s) w' = ∅ ->
  it ∈ inflight s /\ abs (set_worker i w' s) = lose it (abs s).
Proof.
  intros Hw HE HE'. pose proof (workers_items_insert (table s) _ _ _ w' Hw) as HI. rewrite HE, HE' in HI.
  unfold abs, lose, inflight. cbn [set_worker auth ctx_done closed accepted rx queue packets workers table flows wire down].
  service_fields. split; [multiset_solver|]. f_equal. multiset_solver.
Qed.

(** ** The refinement *)

(** The flow that the receive loop found is one of the datagram's own key. *)
Definition rx_key (s : nat_state) : Prop := forall dg f, rx s = RxHave dg (Some f) -> exists x, table s !! f = Some x /\ fl_key x = key_of dg.

Lemma rx_key_step opt s s' : key_inv s -> step opt s s' -> rx_key s -> rx_key s'.
Proof.
  intros HK HS HR dg f Hrx.
  assert (rx s' = rx s \/ rx s' = RxIdle \/ exists dg, rx s' = RxHave dg (flows s !! key_of dg)) as [E|[E|[dg' E]]].
  { clear -HS. destruct HS; unfold serve_datagram, forward, enqueue, worker_check, packet_check, send_admit, send_finish,
      write_lock, write_sock, pump_top, pump_read, pump_send, pump_close, pump_unlink, close_lock, upd_flow; repeat case_match; cbn; eauto. }
  - rewrite E in Hrx. destruct (HR dg f Hrx) as (x & Hx & Hk). destruct (ex_table _ _ (step_extends _ _ _ HS) f x Hx) as (y & Hy & Ey & _).
    exists y. split; [done|congruence].
  - congruence.
  - rewrite E in Hrx. injection Hrx as -> Hf. destruct (ki_flow s HK _ _ Hf) as (x & Hx & Hk & _).
    destruct (ex_table _ _ (step_extends _ _ _ HS) f x Hx) as (y & Hy & Ey & _). exists y. split; [done|congruence].
Qed.

Section simulation.
Context (opt : UDPOptions) (t0 : Z) (s : nat_state) (HI : nat_inv opt t0 s) (HX : rx_key s).
#[local] Notation simulates s' := (abs s' = abs s \/ service_step opt (abs s) (abs s')).

Let HR : refs_ok s := prov_refs opt s (ni_prov _ _ _ HI).

Lemma refs_drop r : refs_ok (nat_drop r s).
Proof. destruct HR. by split. Qed.

Lemma sim_pump_drop f r p : simulates (upd_flow f (set_pump p) (nat_drop r s)).
Proof. left. rewrite abs_flow; [done|apply refs_drop|done]. Qed.

Lemma sim_flow f g : (forall x, same_id x (g x)) -> simulates (upd_flow f g s).
Proof. intros Hid. left. by apply abs_flow. Qed.

Lemma sim_lose i w s2 it : abs s2 = abs s -> table s2 = table s -> workers s2 !! i = Some w ->
  worker_items (table s) w = {[+ it +]} -> simulates (set_worker i WIdle s2).
Proof.
  intros E ET Hw Hit. right. rewrite <- ET in Hit. destruct (abs_worker_lose s2 i w WIdle it Hw Hit eq_refl) as [Hin ->].
  rewrite E. apply a_lose. rewrite <- E. exact Hin.
Qed.

Lemma sim_worker i w w' : workers s !! i = Some w -> worker_items (table s) w' = worker_items (table s) w -> simulates (set_worker i w' s).
Proof. intros Hw HE. left. by eapply abs_worker. Qed.

Lemma flow_key_lookup f x : table s !! f = Some x -> flow_key (table s) f = fl_key x.
Proof. intros Hx. unfold flow_key. by rewrite Hx. Qed.

Lemma pk_item_lookup f x p : table s !! f = Some x -> pk_item (table s) (f, p) = (fl_key x, p).
Proof. intros Hx. unfold pk_item. cbn. by rewrite (flow_key_lookup _ _ Hx). Qed.

Lemma flow_key_alter g f f' : (forall x, same_id x (g x)) -> flow_key (alter g f (table s)) f' = flow_key (table s) f'.
Proof.
  intros Hid. unfold flow_key. destruct (table s !! f') as [x|] eqn:Hx.
  - destruct (alter_same_id (table s) g f Hid f' x Hx) as (y & -> & Hk & _). cbn. congruence.
  - destruct (decide (f = f')) as [->|]; [by rewrite lookup_alter_eq, Hx|by rewrite lookup_alter_ne, Hx].
Qed.

(** A worker goes on with a packet of flow [f], whose clock is set. *)
Lemma sim_touch i w f p now : workers s !! i = Some w -> worker_items (table s) w = {[+ pk_item (table s) (f, p) +]} ->
  forall w', (forall m, worker_items m w' = {[+ pk_item m (f, p) +]}) -> simulates (set_worker i w' (upd_flow f (touch now) s)).
Proof.
  intros Hw HE w' HW. left. rewrite (abs_worker (upd_flow f (touch now) s) i w w'); [by apply abs_flow|done|].
  rewrite HW. assert (worker_items (table (upd_flow f (touch now) s)) w = worker_items (table s) w) as ->.
  { destruct w; cbn; try done; unfold pk_item; cbn; by rewrite flow_key_alter. }
  rewrite HE. cbn. unfold pk_item. cbn. by rewrite flow_key_alter.
Qed.

Lemma sim_receive data : rx s = RxIdle -> simulates (serve_datagram opt data s).
Proof.
  intros Hrx. unfold serve_datagram, forward. destruct (auth s) eqn:Ha; cbn [negb]; [|by left]. case_bool_decide; [by left|].
  destruct (DecodeDatagram data) as [dg|]; [|by left]. destruct (Z.ltb_spec (MaxPayload opt) (Z.of_nat (length (Payload dg)))); [by left|].
  destruct (ctx_done s) eqn:Hd; [by left|]. right. unfold abs at 2. cbn [set_rx accept auth ctx_done closed accepted flows wire down table].
  rewrite fmap_app. cbn [fmap list_fmap].
  replace (inflight _) with (sv_inflight (abs s) ⊎ {[+ dg_item dg +]}).
  - by apply a_receive.
  - unfold abs, inflight. nat_fields. rewrite Hrx. nat_fields. multiset_solver.
Qed.

Lemma sim_enqueue dg f : rx s = RxHave dg f -> simulates (enqueue opt dg f s).
Proof.
  intros Hrx. unfold enqueue.
  assert (forall r, simulates (set_rx RxIdle (nat_drop r s))) as Hdrop.
  { intros r. right. replace (abs (set_rx RxIdle (nat_drop r s))) with (lose (dg_item dg) (abs s)).
    - apply a_lose. unfold abs, inflight. nat_fields. rewrite Hrx. nat_fields. multiset_solver.
    - unfold abs, lose, inflight. nat_fields. rewrite Hrx. nat_fields. f_equal. multiset_solver. }
  destruct f as [f|]; (destruct (_ <? _); [|apply Hdrop]); left; unfold abs, inflight; nat_fields; rewrite Hrx; nat_fields; f_equal.
  - destruct (HX dg f Hrx) as (x & Hx & Hk).
    assert (pk_item (table s) (f, Payload dg) = dg_item dg) as E by (unfold pk_item, dg_item; cbn; by rewrite (flow_key_lookup _ _ Hx), Hk).
    rewrite fmap_app. change (pk_item (table s) <$> [(f, Payload dg)]) with [pk_item (table s) (f, Payload dg)].
    rewrite E, list_to_set_disj_snoc. multiset_solver.
  - rewrite fmap_app. change (dg_item <$> [dg]) with [dg_item dg]. rewrite list_to_set_disj_snoc. multiset_solver.
Qed.

Lemma sim_admit i dg now : workers s !! i = Some (WAdmit dg) -> simulates (send_admit opt now i dg s).
Proof.
  intros Hw. unfold send_admit. destruct (closed s); [by eapply sim_lose|].
  destruct (flows s !! key_of dg) as [f|] eqn:Hf.
  - destruct (ki_flow s (ni_key _ _ _ HI) _ _ Hf) as (x & Hx & Hk & _).
    eapply sim_touch; [done| |done]. cbn. unfold pk_item, dg_item. cbn. by rewrite (flow_key_lookup _ _ Hx), Hk.
  - case_bool_decide; [by eapply sim_lose|]. destruct (_ <=? _); [by eapply sim_lose|]. cbv zeta.
    destruct (tokens _ <? billion); [by eapply sim_lose|]. left. exact (abs_worker _ i (WAdmit dg) (WDial dg) Hw eq_refl).
Qed.

Lemma sim_finish i dg d now : workers s !! i = Some (WDial dg) -> simulates (send_finish now i dg d s).
Proof.
  intros Hw. unfold send_finish. destruct d as [e|udp]; [by eapply sim_lose|].
  cbn [closed set_pending]. destruct (closed s) eqn:Hc; [by eapply sim_lose|]. destruct udp; cbn [negb]; [|by eapply sim_lose].
  set (f := fresh (dom (table s))). assert (table s !! f = None) as Hf by (apply not_elem_of_dom, is_fresh).
  set (x := mkFlow (key_of dg) (SessionID dg) (DgAddr dg) now true PTop).
  set (m := <[f := x]> (table s)).
  pose proof (ki_dial s (ni_key _ _ _ HI) i dg Hw) as Hp. pose proof (ki_disjoint s (ni_key _ _ _ HI) _ Hp) as Hk.
  right. assert (abs (set_worker i (WLock f (Payload dg)) (set_table m s)) = abs s) as E.
  { rewrite (abs_worker _ i (WDial dg)); [|done|cbn; unfold pk_item, flow_key; cbn; unfold m; by rewrite lookup_insert_eq].
    apply abs_table; [done|]. intros f' y Hy. unfold flow_key, m. rewrite lookup_insert_ne by congruence. by rewrite Hy. }
  match goal with |- service_step _ _ (abs ?s') => replace (abs s') with (mkService (sv_auth (abs s)) (sv_done (abs s)) (sv_closed (abs s))
    (sv_received (abs s)) (sv_inflight (abs s)) ({[key_of dg]} ∪ sv_open (abs s)) (sv_sent (abs s)) (sv_back (abs s))) end.
  - apply a_open; [|done|by apply not_elem_of_dom|].
    + cbn. destruct (auth s) eqn:Ha; [done|]. destruct (ai_nothing _ (ni_auth _ _ _ HI) Ha) as (_ & _ & _ & _ & _ & _ & _ & _ & _ & _ & HW).
      destruct (HW i _ Hw); done.
    + cbn. rewrite size_dom. pose proof (ci_flows _ _ _ (ni_cap _ _ _ HI)) as HC.
      assert (1 <= size (pending s))%nat; [|lia]. rewrite <- (size_singleton (C := gset bytes) (key_of dg)). apply subseteq_size. set_solver.
  - rewrite <- E. unfold abs. service_fields. cbn. by rewrite dom_insert_L.
Qed.

Lemma live_open f x : table s !! f = Some x -> fl_pump x <> PGone -> fl_key x ∈ dom (flows s).
Proof. intros Hx Hp. apply elem_of_dom. exists f. by apply (ki_live s (ni_key _ _ _ HI)). Qed.

Lemma sim_write i f p x err : workers s !! i = Some (WSock f p) -> table s !! f = Some x -> (fl_open x = false -> err <> None) ->
  simulates (write_sock i f p err s).
Proof.
  intros Hw Hx Ho. unfold write_sock. destruct err as [e|]; [by eapply sim_lose|].
  assert (fl_open x = true) as Hop by (destruct (fl_open x); [done|by destruct Ho]).
  right. destruct (abs_worker_lose (add_wire (f, p) s) i (WSock f p) WIdle (fl_key x, p)) as [Hin ->]; [done| |done|].
  { cbn. unfold pk_item. cbn. by rewrite (flow_key_lookup _ _ Hx). }
  replace (lose (fl_key x, p) (abs (add_wire (f, p) s))) with (mkService (sv_auth (abs s)) (sv_done (abs s)) (sv_closed (abs s))
    (sv_received (abs s)) (sv_inflight (abs s) ∖ {[+ (fl_key x, p) +]}) (sv_open (abs s)) (sv_sent (abs s) ++ [(fl_key x, p)]) (sv_back (abs s))).
  - apply a_send; [done| |].
    + cbn. apply (live_open f); [done|]. intros Hg. pose proof (li_retired _ (ni_close _ _ _ HI) f x Hx (or_intror Hg)). congruence.
    + cbn. destruct (closed s) eqn:Hc; [|done]. pose proof (li_socks _ (ni_close _ _ _ HI) Hc f x Hx). congruence.
  - unfold lose, abs. nat_fields. rewrite fmap_app. by rewrite <- (pk_item_lookup _ _ p Hx).
Qed.

Lemma sim_reply f x data err : table s !! f = Some x -> fl_pump x = PSend data -> simulates (pump_send f x data err s).
Proof.
  intros Hx Hp. unfold pump_send. case_bool_decide; [apply sim_pump_drop|].
  destruct err as [e|]; [apply sim_pump_drop|]. right.
  set (out := EncodeDatagram (fl_session x) (fl_target x) data).
  destruct (pv_table _ _ (ni_prov _ _ _ HI) f x Hx) as (Hk & _ & _ & Hl).
  rewrite (abs_flow (add_down (f, out) s)); [|destruct HR; split; try done; cbn; intros fp [?| ->%list_elem_of_singleton]%elem_of_app; eauto|done].
  replace (abs (add_down (f, out) s)) with (mkService (sv_auth (abs s)) (sv_done (abs s)) (sv_closed (abs s)) (sv_received (abs s))
    (sv_inflight (abs s)) (sv_open (abs s)) (sv_sent (abs s)) (sv_back (abs s) ++ [(flowKey (fl_session x) (Address_String (fl_target x)), out)])).
  - apply a_reply; [|by apply Hl]. rewrite <- Hk. cbn. apply (live_open f); [done|]. by rewrite Hp.
  - unfold abs. nat_fields. rewrite fmap_app. by rewrite <- Hk, <- (pk_item_lookup _ _ out Hx).
Qed.

Lemma sim_unlink f x : table s !! f = Some x -> fl_pump x = PUnlink -> simulates (pump_unlink f x s).
Proof.
  intros Hx Hp. assert (flows s !! fl_key x = Some f) as Hf by (apply (ki_live s (ni_key _ _ _ HI)); [done|by rewrite Hp]).
  unfold pump_unlink. rewrite bool_decide_eq_true_2 by done. right. rewrite abs_flow; [|destruct HR; by split|done].
  replace (abs (add_gauge _ _)) with (mkService (sv_auth (abs s)) (sv_done (abs s)) (sv_closed (abs s)) (sv_received (abs s))
    (sv_inflight (abs s)) (sv_open (abs s) ∖ {[fl_key x]}) (sv_sent (abs s)) (sv_back (abs s))).
  - apply a_shut. cbn. apply elem_of_dom. by exists f.
  - unfold abs. nat_fields. by rewrite dom_delete_L.
Qed.

Lemma sim_close : ctx_done s = true -> simulates (close_lock s).
Proof.
  intros Hd. right. unfold close_lock. set (m := map_imap _ _).
  assert (abs (set_table m s) = abs s) as E.
  { apply abs_table; [done|]. intros f x Hx. unfold flow_key, m.
    destruct (close_all_same_id (table s) (flows s) f x Hx) as (y & -> & Hk & _). done. }
  replace (abs (set_closed true (set_table m s))) with (mkService (sv_auth (abs s)) (sv_done (abs s)) true (sv_received (abs s))
    (sv_inflight (abs s)) (sv_open (abs s)) (sv_sent (abs s)) (sv_back (abs s))); [by apply a_close|]. by rewrite <- E.
Qed.

Lemma sim_take i dg q : workers s !! i = Some WIdle -> queue s = dg :: q -> simulates (set_worker i (WGot dg) (set_queue q s)).
Proof.
  intros Hw Hq. left. pose proof (workers_items_insert (table s) _ _ _ (WGot dg) Hw) as HW. cbn [worker_items] in HW.
  unfold abs, inflight. nat_fields. rewrite Hq, fmap_cons, list_to_set_disj_cons. f_equal. multiset_solver.
Qed.

Lemma sim_take_packet f p q : workers s !! 0%nat = Some WIdle -> packets s = (f, p) :: q -> simulates (set_worker 0 (WPacket f p) (set_packets q s)).
Proof.
  intros Hw Hq. left. pose proof (workers_items_insert (table s) _ _ _ (WPacket f p) Hw) as HW. cbn [worker_items] in HW.
  unfold abs, inflight. nat_fields. rewrite Hq, fmap_cons, list_to_set_disj_cons. f_equal. multiset_solver.
Qed.

End simulation.

(** Every step of the NAT is a step of the specification, or invisible to it. *)
Lemma nat_simulates opt t0 s s' : nat_inv opt t0 s -> rx_key s -> step opt s s' -> abs s' = abs s \/ service_step opt (abs s) (abs s').
Proof.
  intros HI HX HS. destruct HS as [s|s data Hr|s dg f Hr|s i dg q Hi Hw Hq|s i dg Hw|s i dg now Hw Ht|s i dg d now Hw
    |s f p q Hw Hq|s f p Hw|s i f p now Hw|s i f p x err Hw Hx He|s i Hw Hc|s f x Hx Hp|s f x data err now Hx Hp He
    |s f x data err Hx Hp|s f x Hx Hp|s f x Hx Hp|s|s Hd Hc].
  - right. apply (a_authenticate opt (abs s)).
  - by eapply sim_receive.
  - by eapply sim_enqueue.
  - by eapply sim_take.
  - unfold worker_check. destruct (_ && _); [by eapply sim_worker|by eapply sim_lose].
  - by eapply sim_admit.
  - by eapply sim_finish.
  - by eapply sim_take_packet.
  - unfold packet_check. destruct (negb _); [by eapply sim_worker|by eapply sim_lose].
  - unfold write_lock. destruct (closed s); [by eapply sim_lose|by eapply sim_touch].
  - by eapply sim_write.
  - by eapply sim_worker.
  - by eapply sim_flow.
  - unfold pump_read. destruct (_ <? _); [by eapply sim_pump_drop|]. destruct err as [e|]; [|by eapply sim_flow].
    destruct (_ || _); [by eapply sim_flow|]. destruct (_ && _); by eapply sim_flow.
  - by eapply sim_reply.
  - by eapply sim_flow.
  - by eapply sim_unlink.
  - right. apply (a_cancel opt (abs s)).
  - by eapply sim_close.
Qed.

(** ** Refinement *)

Lemma nat_run opt t0 s : 0 < MaxFlows opt /\ 0 < QueueSize opt /\ 0 < NewFlowsPerSecond opt -> reachable opt t0 s ->
  nat_inv opt t0 s /\ rx_key s /\ rtc (service_step opt) service_init (abs s).
Proof.
  intros Hopt HR. assert (rtc (service_step opt) service_init (abs (makeUDPNAT opt t0))) as H0.
  { replace (abs (makeUDPNAT opt t0)) with service_init; [done|]. assert (inflight (makeUDPNAT opt t0) = ∅) as E; [|unfold abs; by rewrite E].
    unfold inflight. rewrite workers_items_idle; [done|]. intros i w Hw. by rewrite (init_workers opt i w Hw). }
  assert (rx_key (makeUDPNAT opt t0)) as HX by done. pose proof (nat_inv_init opt Hopt t0) as HI.
  revert H0 HX HI. unfold reachable in HR. induction HR as [s|s s1 s2 H1 _ IH]; intros H0 HX HI; [done|]. apply IH.
  - destruct (nat_simulates opt t0 s s1 HI HX H1) as [-> |Hs]; [done|]. eapply rtc_r; eauto.
  - eapply rx_key_step; [apply HI|done|done].
  - eapply nat_inv_step; eauto.
Qed.

(** C8: the NAT refines its specification.  Whatever the interleaving of its receive loop,
    workers, reply pumps and close, every reachable state is the image of a run of the
    specification, and every further step of the NAT is one of its steps or invisible.
    So each accepted datagram reaches a target at most once, through an open flow of its
    own session and target, nothing is sent that was not received, flows never exceed the
    limit, and replies come from open flows and name their session and target. *)
Theorem nat_refines o t0 s : reachable (defaults o) t0 s ->
  rtc (service_step (defaults o)) service_init (abs s) /\
  (forall s', step (defaults o) s s' -> abs s' = abs s \/ service_step (defaults o) (abs s) (abs s')) /\
  list_to_set_disj (sv_sent (abs s)) ⊎ inflight s ⊆ list_to_set_disj (sv_received (abs s)) /\
  Z.of_nat (size (sv_open (abs s))) <= MaxFlows (defaults o).
Proof.
  intros HR. destruct (nat_run _ _ _ (defaults_pos o) HR) as (HI & HX & Hrun).
  assert (service_ok (defaults o) (abs s)) as (H1 & H2 & _).
  { eapply (rtc_ind_r (service_ok (defaults o))); [| |exact Hrun]; [|intros; by eapply service_step_ok].
    pose proof (defaults_pos o). unfold service_ok, service_init. service_fields. split_and!; [multiset_solver|rewrite size_empty; lia|done]. }
  split_and!; [done|intros s'; by eapply nat_simulates|done|done].
Qed.

(** ** A concrete run: a datagram received and queued *)
Definition nat_opts : UDPOptions := mkUDPOptions 4 4 1 4 100 0.
Definition nat_dg : bytes := EncodeDatagram 7 (mkAddress AtypDomain (bs "a") [] 53) (bs "q").
Definition nat1 : nat_state := serve_datagram (defaults nat_opts) nat_dg (set_auth true (makeUDPNAT (defaults nat_opts) 0)).

Lemma nat_refines_witness : sv_received (abs nat1) = [(flowKey 7 (bs "a:53"), bs "q")] /\
  rtc (service_step (defaults nat_opts)) service_init (abs nat1).
Proof.
  assert (reachable (defaults nat_opts) 0 nat1) as HR.
  { eapply rtc_l; [apply s_authenticate|]. eapply rtc_l; [apply s_receive; reflexivity|]. apply rtc_refl. }
  split; [vm_compute; reflexivity|]. apply (nat_refines nat_opts 0 nat1 HR).
Defined.
