(* ===== verification/Server.v ===== *)
(** * Package server: the request handlers

    Models the handlers of [internal/server/server.go]: the option defaults of [New]
    and [quicConfig], the control stream after authentication, [handleProxy] with its
    codec lease, [dialStatus] and the relay [pipe].  Budgets are used only through the
    interface of package admission, so everything holds for any implementation of it;
    the connection table and its interleavings are in [ServerConns]. *)
From S2P Require Import Prelude GoStd GoNet Protocol Admission Compress Relay Tunnel.

(** ** Options *)
Record Options := mkOptions {
  opt_CongestionControl : bytes;
  MaxActiveStreams : Z; MaxCompressedStreams : Z;
  opt_IdleTimeout : Z; opt_HandshakeTimeout : Z; RequestTimeout : Z;
  MaxConnections : Z; MaxStreamsPerConnection : Z;
  Compression : bool; opt_MaxStreamRecvWindow : Z; opt_MaxConnRecvWindow : Z;
}.

(** The defaults that [New] fills in. *)
Definition New_options (o : Options) : Options :=
  let active := if MaxActiveStreams o <=? 0 then 128 else MaxActiveStreams o in
  mkOptions (opt_CongestionControl o) active
    (if MaxCompressedStreams o <=? 0 then Z.min 16 active else MaxCompressedStreams o)
    (if opt_IdleTimeout o <=? 0 then 60 * second else opt_IdleTimeout o)
    (if opt_HandshakeTimeout o <=? 0 then 10 * second else opt_HandshakeTimeout o)
    (if RequestTimeout o <=? 0 then 15 * second else RequestTimeout o)
    (if MaxConnections o <=? 0 then 256 else MaxConnections o)
    (if MaxStreamsPerConnection o <=? 0 then 128 else MaxStreamsPerConnection o)
    (Compression o) (opt_MaxStreamRecvWindow o) (opt_MaxConnRecvWindow o).

(** The two budgets [New] creates: the active streams and the codecs ([None] is the
    panic of [admission.New]). *)
Definition New_budgets (o : Options) : option (Budget * Budget) :=
  match Admission.New (MaxActiveStreams o) true, Admission.New (MaxCompressedStreams o) true with
  | Some a, Some c => Some (a, c)
  | _, _ => None
  end.

Definition quicConfig (bbr : option (quic_Config -> quic_Config)) (o : Options) : option quic_Config :=
  NewQUICConfig bbr (mkQUICOptions (opt_CongestionControl o) true (opt_IdleTimeout o) (opt_HandshakeTimeout o)
    (opt_MaxStreamRecvWindow o) (opt_MaxConnRecvWindow o) (MaxStreamsPerConnection o + 1)).

(** ** The control stream after authentication *)

(** The loop of [handleControl]: one byte read, one byte answered; the stream's end,
    an unexpected byte or a failed write ends it.  The result is the writer and the
    bytes left unread. *)
Fixpoint control_loop (data : bytes) (w : writer) : writer * bytes :=
  match data with
  | [] => (w, [])
  | b :: data' =>
      if negb (bool_decide (b = CtrlPing)) then (w, data')
      else match Write w [CtrlPong] with
           | (_, Some _, w') => (w', data')
           | (_, None, w') => control_loop data' w'
           end
  end.

(** ** handleProxy *)

Definition dialStatus (e : error) : byte :=
  if errors_Is e DeadlineExceeded || is_timeout e then StatusHostUnreach else StatusConnRefused.

(** The status of a failed dial. *)
Definition failure_status (e : error) : byte :=
  if errors_Is e ErrDenied then StatusNotAllowed else dialStatus e.

(** How [handleProxy] ends: without a relay, or with [pipe] over the dialled
    connection, compressed or not. *)
Inductive proxy_end :=
| ProxyDone
| ProxyPipe (useComp : bool).

Record proxy_out := mkProxyOut {
  px_reply : writer;                 (* what was written to the stream *)
  px_dialled : option Address;       (* the destination given to DialContext *)
  px_remote_closed : bool;           (* the dialled connection was closed *)
  px_lease : option nat;             (* the codec lease held during the relay *)
  px_fallback : bool;                (* CodecFallback was counted *)
  px_end : proxy_end;
}.

Section handlers.
Context {B : Type} `{AdmissionOps B}.

(** [handleProxy] up to the relay: [dial] is the answer of the resolver's
    [DialContext], [expired] whether the request context is done once the reply is
    out.  The codec budget is returned as it stands when the relay starts, or, when
    there is none, after the deferred release. *)
Definition handleProxy (compression : bool) (rd : reader) (w : writer)
    (dial : Address -> option error) (expired : bool) (codecs : B) : proxy_out * B :=
  match ReadStreamRequest rd with
  | (Err _, _) => (mkProxyOut w None false None false ProxyDone, codecs)
  | (Ok req, _) =>
      if negb (bool_decide (Cmd req = CmdTCPConnect))
      then (mkProxyOut (snd (WriteReply w StatusGeneralErr Byte.x00)) None false None false ProxyDone, codecs)
      else
        match dial (Addr req) with
        | Some e =>
            (mkProxyOut (snd (WriteReply w (failure_status e) Byte.x00)) (Some (Addr req)) false None false ProxyDone,
             codecs)
        | None =>
            let wanted := compression && negb (Z.land (b2z (Flags req)) (b2z FlagCompress) =? 0) in
            let '(lease, codecs1) := if wanted then ad_try codecs else (None, codecs) in
            let useComp := bool_decide (is_Some lease) in
            let fallback := wanted && negb useComp in
            let flags := if useComp then FlagCompress else Byte.x00 in
            match WriteReply w StatusOK flags with
            | (Some _, w') => (mkProxyOut w' (Some (Addr req)) true None fallback ProxyDone, ad_release lease codecs1)
            | (None, w') =>
                if expired
                then (mkProxyOut w' (Some (Addr req)) true None fallback ProxyDone, ad_release lease codecs1)
                else (mkProxyOut w' (Some (Addr req)) false lease fallback (ProxyPipe useComp), codecs1)
            end
        end
  end.
End handlers.

(** ** pipe *)

(** The calls [pipe] makes on its two ends. *)
Inductive pipe_call := CloseWriteRemote | CloseStream | AbortStream | CloseRemote | Failure.

(** What a copying goroutine does with its result before reporting it: a clean end
    half-closes the other side, and that call's error is what it reports. *)
Definition pipe_report (half_close : pipe_call) (copy_err close_err : option error) : list pipe_call * option error :=
  match copy_err with
  | Some e => ([], Some e)
  | None => ([half_close], close_err)
  end.

(** The collecting loop of [pipe], over the two results in their order of arrival. *)
Definition pipe_collect (results : list (option error)) : list pipe_call :=
  flat_map (fun r => match r with Some _ => [Failure; AbortStream; CloseRemote] | None => [] end) results.

Section relay.
Context `{Flate}.

(** The direction from the tunnel to the destination. *)
Definition pipe_up (useComp : bool) (remote : writer) (str : list read_event) : option (writer * option error) :=
  relay_recv useComp remote str.

(** The direction from the destination to the tunnel. *)
Definition pipe_down (useComp observing : bool) (str : writer) (remote : list read_event) (pool : nat)
    : writer * option error :=
  relay_send useComp observing str remote pool.
End relay.

(** ** Properties *)

(** The limits of a server.  With any options the defaults are positive, both
    budgets can be created with exactly those limits, at most sixteen codecs are
    allowed unless configured, and the QUIC layer admits one stream more than the
    proxy streams of a connection, for control. *)
Theorem server_options o : let d := New_options o in
  New_options d = d /\
  0 < MaxConnections d /\ 0 < MaxStreamsPerConnection d /\ 0 < RequestTimeout d /\
  (MaxCompressedStreams o <= 0 -> 0 < MaxCompressedStreams d <= Z.min 16 (MaxActiveStreams d)) /\
  (exists a c, New_budgets d = Some (a, c) /\ ad_wf a /\ ad_wf c /\ ad_held a = ∅ /\ ad_held c = ∅ /\
     Z.of_nat (ad_limit a) = MaxActiveStreams d /\ Z.of_nat (ad_limit c) = MaxCompressedStreams d) /\
  (forall q, quicConfig None d = Some q -> qc_datagrams q = true /\
     qc_MaxIncomingStreams q = MaxStreamsPerConnection d + 1 /\ MaxIdleTimeout q = opt_IdleTimeout d).
Proof.
  cbv zeta. assert (0 < second) by done.
  assert (0 < MaxActiveStreams (New_options o) /\ 0 < MaxCompressedStreams (New_options o) /\
    0 < MaxConnections (New_options o) /\ 0 < MaxStreamsPerConnection (New_options o) /\
    0 < RequestTimeout (New_options o) /\ 0 < opt_IdleTimeout (New_options o) /\
    0 < opt_HandshakeTimeout (New_options o)) as (H1 & H2 & H3 & H4 & H5 & H6 & H7).
  { unfold New_options. cbn. split_and!; (repeat case_match); bool_props; lia. }
  split.
  { set (d := New_options o) in *. clearbody d. destruct d as [? a b c e f g h i j k]. cbn in *.
    unfold New_options. cbn. f_equal; by rewrite (proj2 (Z.leb_gt _ _)). }
  split_and!; try done.
  - intros Hc. unfold New_options in *. cbn in *. rewrite (proj2 (Z.leb_le _ _) Hc). lia.
  - set (d := New_options o) in *. unfold New_budgets.
    assert (forall lim, 0 < lim -> exists b, Admission.New lim true = Some b /\ ad_wf b /\ ad_held b = ∅ /\
      Z.of_nat (ad_limit b) = lim) as HN.
    { intros lim Hl. unfold Admission.New. rewrite (proj2 (Z.ltb_ge _ _)) by lia. eexists. split; [done|].
      destruct (New_wf lim true (mkBudget (Z.to_nat lim) 0 (Some 0) ∅)) as (Hw & Hh & _).
      - unfold Admission.New. by rewrite (proj2 (Z.ltb_ge _ _)) by lia.
      - split; [done|]. split; [done|]. cbn. lia. }
    destruct (HN _ H1) as (a & -> & ? & ? & ?). destruct (HN _ H2) as (c & -> & ? & ? & ?). eauto 12.
  - intros q. unfold quicConfig, NewQUICConfig, configureCongestion. cbn [IdleTimeout MaxIncomingStreams CongestionControl].
    rewrite (proj2 (Z.leb_gt (opt_IdleTimeout (New_options o)) 0)) by done.
    rewrite (proj2 (Z.eqb_neq (MaxStreamsPerConnection (New_options o) + 1) 0)) by lia.
    repeat case_match; intros [= <-]; done.
Qed.

(** The control loop answers exactly the leading pings, one pong each, and stops at
    the first other byte or at the end of the stream. *)
Theorem control_pongs pings rest out : Forall (fun b => b = CtrlPing) pings ->
  (head rest <> Some CtrlPing) ->
  control_loop (pings ++ rest) (Writer out []) =
  (Writer (out ++ replicate (length pings) CtrlPong) [], drop 1 rest).
Proof.
  intros HF Hr. revert out. induction HF as [|b l -> HF IH]; intros out.
  - rewrite app_nil_r. destruct rest as [|b rest]; [done|]. cbn.
    rewrite bool_decide_eq_false_2 by (intros ->; done). cbn. by rewrite drop_0.
  - cbn [app control_loop]. rewrite bool_decide_eq_true_2 by done. cbn [negb]. unfold Write. cbn [wr_plan].
    rewrite IH. cbn. by rewrite <-app_assoc.
Qed.

Section proxy.
Context {B : Type} `{AdmissionLaws B}.

(** The bytes of a reply. *)
Definition reply (status flags : byte) : bytes := [status; flags].

Lemma WriteReply_good out st fl : WriteReply (Writer out []) st fl = (None, Writer (out ++ reply st fl) []).
Proof. unfold WriteReply. by rewrite write_checked_good. Qed.

(** [handleProxy], for every stream, writer, dial result and budget.  The codec
    lease is held on return exactly for a compressed relay; a relay starts only after
    a TCP request that was dialled at its own address without error, the reply was
    written whole and the request has not expired; it is compressed only when both
    sides want it and a codec was free, and the fallback is counted when the budget was
    full; a dialled connection that is not relayed is closed. *)
Theorem handle_proxy_contract compression rd w dial expired codecs out codecs' :
  ad_wf codecs -> handleProxy compression rd w dial expired codecs = (out, codecs') ->
  ad_wf codecs' /\
  match px_lease out with
  | Some l => l ∉ ad_held codecs /\ ad_held codecs' = {[l]} ∪ ad_held codecs /\ px_end out = ProxyPipe true
  | None => ad_held codecs' = ad_held codecs /\ px_end out <> ProxyPipe true
  end /\
  (forall u, px_end out = ProxyPipe u -> px_remote_closed out = false /\ expired = false /\
     exists req rd', ReadStreamRequest rd = (Ok req, rd') /\ Cmd req = CmdTCPConnect /\
       dial (Addr req) = None /\ px_dialled out = Some (Addr req) /\
       wr_out (px_reply out) = wr_out w ++ reply StatusOK (if u then FlagCompress else Byte.x00) /\
       (u = true -> compression = true /\ Z.land (b2z (Flags req)) 1 <> 0)) /\
  (px_fallback out = true -> size (ad_held codecs) = ad_limit codecs) /\
  (forall a, px_dialled out = Some a -> dial a = None -> px_end out = ProxyDone -> px_remote_closed out = true).
Proof.
  intros Hwf. unfold handleProxy. destruct (ReadStreamRequest rd) as [[req|e] rd'] eqn:Er.
  2:{ intros [= <- <-]. cbn. split_and!; done. }
  case_bool_decide as Hcmd; cbn [negb]; [|intros [= <- <-]; cbn; split_and!; done].
  destruct (dial (Addr req)) as [e|] eqn:Ed.
  { intros [= <- <-]. cbn. split_and!; try done. intros a [= <-]. congruence. }
  set (wanted := _ && _). destruct (if wanted then _ else _) as [lease b1] eqn:El.
  destruct (codec_try _ _ _ _ Hwf El) as (Hw1 & _ & Hl & Hw2 & Hh2).
  assert (wanted && negb (bool_decide (is_Some lease)) = true -> size (ad_held codecs) = ad_limit codecs) as Hfb.
  { destruct lease as [l|]; [by rewrite andb_false_r|]. rewrite andb_true_r. by apply Hl. }
  destruct (WriteReply w StatusOK _) as [[e|] w'] eqn:Ew; [|destruct expired].
  - intros [= <- <-]. cbn -[bool_decide]. split_and!; done.
  - intros [= <- <-]. cbn -[bool_decide]. split_and!; done.
  - intros [= <- <-]. unfold WriteReply in Ew. destruct (write_checked _ _) as [[n er] w2] eqn:Ec.
    injection Ew as -> <-. apply write_checked_ok in Ec as [_ Ec]. cbn -[bool_decide].
    split; [done|]. split; [|split; [|split; [done|done]]].
    + destruct lease as [l|]; [|split; [by destruct Hl as [-> _]|done]]. by destruct Hl as (_ & ? & ?).
    + intros u [= <-]. split; [done|]. split; [done|]. exists req, rd'.
      split_and!; try done.
      intros Hu. destruct lease as [l|]; [|done]. destruct Hl as (Hwt & _). unfold wanted in Hwt.
      apply andb_true_iff in Hwt as [Hc Hf%negb_true_iff]. split; [done|]. by apply Z.eqb_neq in Hf.
Qed.

(** The replies, exactly: for the bytes a client writes for a request and a
    working stream, the reply the client reads back is the one of the first failing
    step, in the order command, policy, timeout, other dial errors, or success with
    the compression flag of the relay. *)
Theorem handle_proxy_reply compression rq rest e dial codecs out codecs' :
  ad_wf codecs -> valid_address (Addr rq) ->
  handleProxy compression (Reader (request_bytes rq ++ rest) e) (Writer [] []) dial false codecs = (out, codecs') ->
  let '(status, flags) := 
    if bool_decide (Cmd rq <> CmdTCPConnect) then (StatusGeneralErr, Byte.x00)
    else match dial (wire_form (Addr rq)) with
         | Some err =>
             (if errors_Is err ErrDenied then StatusNotAllowed
              else if errors_Is err DeadlineExceeded || is_timeout err then StatusHostUnreach
              else StatusConnRefused, Byte.x00)
         | None => (StatusOK, if px_lease out then FlagCompress else Byte.x00)
         end in
  ReadReply (Reader (wr_out (px_reply out)) EOF) = (Ok (status, flags), Reader [] EOF).
Proof.
  intros Hwf Ha HE. unfold handleProxy in HE. rewrite ReadStreamRequest_bytes in HE by done. cbn [Cmd Addr Flags] in HE.
  assert (forall st fl, ReadReply (Reader (reply st fl) EOF) = (Ok (st, fl), Reader [] EOF)) as HR by done.
  destruct (bool_decide_reflect (Cmd rq = CmdTCPConnect)) as [Hc|Hc]; cbn [negb] in HE.
  2:{ rewrite bool_decide_eq_true_2 by done. apply pair_equal_spec in HE as [<- _]. rewrite WriteReply_good. apply HR. }
  rewrite bool_decide_eq_false_2 by (by intros []). destruct (dial (wire_form (Addr rq))) as [err|].
  { apply pair_equal_spec in HE as [<- _]. rewrite WriteReply_good. apply HR. }
  destruct (if _ && _ then _ else _) as [lease b1] in HE. rewrite WriteReply_good in HE.
  apply pair_equal_spec in HE as [<- _]. cbn [px_lease px_reply]. destruct lease; apply HR.
Qed.
End proxy.

(** ** The relay *)

Section relay_laws.
Context `{FL : FlateLaws}.

(** The relay is transparent in both modes.  What the sending side ([pipe_down]
    here, or the client's encoder) puts on the tunnel stream for a clean source, cut
    into reads in any way, is turned by the receiving side ([pipe_up]) into exactly the
    source's bytes, without error; then both goroutines half-close and [pipe] aborts
    nothing.  A copy error on either side aborts the stream and closes the
    destination. *)
Theorem relay_transparent useComp observing src cuts pool w err :
  clean src -> clean cuts -> reads_ok src ->
  pipe_down useComp observing (Writer [] []) src pool = (w, err) -> err = None ->
  delivered cuts = wr_out w ->
  pipe_up useComp (Writer [] []) cuts = Some (Writer (delivered src) [], None) /\
  pipe_collect [snd (pipe_report CloseWriteRemote None None); snd (pipe_report CloseStream err None)] = [] /\
  (forall e r, pipe_collect [Some e; r] = [Failure; AbortStream; CloseRemote] ++ pipe_collect [r]).
Proof.
  intros Hsrc Hcuts Hok HD -> Hdel. split; [|done]. by eapply relay_chain.
Qed.
End relay_laws.

(** ** Concrete runs *)
Definition example_request : StreamRequest := mkStreamRequest CmdTCPConnect FlagCompress (mkAddress AtypIPv4 [] (map z2b [10; 0; 0; 1]) 80).

Lemma example_request_valid : valid_address (Addr example_request).
Proof. split; [reflexivity|cbn; lia]. Qed.

Lemma example_budget_ok : ad_wf example_budget.
Proof. exact (proj1 (New_wf 1 true example_budget eq_refl)). Qed.

Lemma handle_proxy_contract_witness : exists out codecs',
  handleProxy true (Reader (request_bytes example_request) EOF) (Writer [] []) (fun _ => None) false example_budget =
    (out, codecs') /\ px_end out = ProxyPipe true /\ ad_wf codecs'.
Proof.
  do 2 eexists. split; [vm_compute; reflexivity|]. split; [reflexivity|].
  refine (proj1 (handle_proxy_contract true (Reader (request_bytes example_request) EOF) (Writer [] [])
    (fun _ => None) false example_budget _ _ example_budget_ok _)). vm_compute. reflexivity.
Defined.

Lemma handle_proxy_reply_witness : exists out codecs',
  handleProxy true (Reader (request_bytes example_request ++ []) EOF) (Writer [] [])
    (fun _ => Some (Wrapped "dial" (NetError true))) false example_budget = (out, codecs') /\
  ReadReply (Reader (wr_out (px_reply out)) EOF) = (Ok (StatusHostUnreach, Byte.x00), Reader [] EOF).
Proof.
  do 2 eexists. split; [vm_compute; reflexivity|].
  refine (handle_proxy_reply true example_request [] EOF (fun _ => Some (Wrapped "dial" (NetError true)))
    example_budget _ _ example_budget_ok example_request_valid _). vm_compute. reflexivity.
Defined.

Lemma control_pongs_witness :
  control_loop ([CtrlPing; CtrlPing] ++ bs "x!") (Writer [] []) = (Writer [CtrlPong; CtrlPong] [], bs "!").
Proof.
  apply (control_pongs [CtrlPing; CtrlPing] (bs "x!") []).
  - repeat constructor.
  - discriminate.
Defined.

(** A compressed relay, over a codec that only stores. *)
#[local] Instance stored_flate : Flate := {|
  deflate := fun b => Ok (Byte.x02 :: b);
  inflate := fun c => match c with
                      | Byte.x02 :: b => (b, EOF, 0%nat)
                      | _ => ([], ErrUnexpectedEOF, 0%nat)
                      end |}.
#[local] Instance stored_laws : FlateLaws.
Proof. split; [|done]. by intros b c [= <-]. Qed.

Definition example_reads : list read_event := [mkRead (bs "hello ") None 0; mkRead (bs "world") (Some EOF) 0].

Lemma example_reads_clean : clean example_reads.
Proof. intros ev [->|[->|[]%elem_of_nil]%elem_of_cons]%elem_of_cons; [left|right]; reflexivity. Qed.

Lemma relay_transparent_witness : exists w,
  pipe_down true false (Writer [] []) example_reads 0 = (w, None) /\
  pipe_up true (Writer [] []) [mkRead (wr_out w) (Some EOF) 0] = Some (Writer (bs "hello world") [], None).
Proof.
  eexists. split; [vm_compute; reflexivity|].
  refine (proj1 (relay_transparent true false example_reads _ 0 _ None example_reads_clean _ _ _ eq_refl _)).
  - intros ev [->|[]%elem_of_nil]%elem_of_cons. right. reflexivity.
  - repeat constructor; pose proof blockSize_Z; simpl; lia.
  - vm_compute. reflexivity.
  - vm_compute. reflexivity.
Defined.
