(* ===== verification/ServerConns.v ===== *)
(** * Package server: connections, admission and revocation

    Models the shared state of [internal/server/server.go] and
    [internal/server/credentials.go]: the connection table and slots of [Serve] and
    [handleConn], the gate [serveHTTP] in front of the handlers, the authentication
    phases of [handleControl], the streams with their leases, and
    [ReloadCredentials] with [revokeUnauthorized].  The step relation interleaves all
    of them; the two budgets are any implementation of the admission interface. *)
From S2P Require Import Prelude GoStd GoNet Protocol Admission Tunnel.

(** ** State *)

(** Progress of the control stream of a connection: [controlStarted] unset; started;
    [authKey] stored; the stored key accepted; [authed] closed; or refused. *)
Inductive phase :=
| NoControl | Control | Stored (id : bytes) | Checked (id : bytes) | Authed (id : bytes)
| Refused (id : option bytes).

(** [authKey.Load()]. *)
Definition authKey (p : phase) : option bytes :=
  match p with Stored id | Checked id | Authed id => Some id | Refused id => id | _ => None end.

(** [handleConn] of a connection: slot taken, registered in [states], returned. *)
Inductive life := Spawned | Registered | Gone.
#[export] Instance life_eq_dec : EqDecision life.
Proof. solve_decision. Defined.

(** A [connState]: the QUIC connection still open, and the length of [streams]. *)
Record conn := mkConn { cn_open : bool; cn_life : life; cn_phase : phase; cn_streams : nat }.

(** A running [handleProxy] with its lease of the active budget and, once it relays
    compressed data, its codec lease. *)
Record stream := mkStream { st_conn : nat; st_lease : nat; st_codec : option nat }.

(** A pass of [revokeUnauthorized] over [states], which holds [s.mu]: the connections
    still to look at, and (a ghost) whether the credentials and the clock are those at
    its start. *)
Record pass := mkPass { ps_todo : gset nat; ps_current : bool }.

(** The server.  [closing] are the connections of [closeList]s not yet closed.  [swept]
    is a ghost: a whole pass ran since the last change of the credentials or the clock. *)
Record server (B : Type) := mkServer {
  snap : credentialSnapshot; clock : Z; slots : nat; conns : gmap nat conn;
  active : B; codecs : B; streams : gmap nat stream;
  scan : option pass; closing : gset nat; swept : bool;
}.
Arguments mkServer {B}. Arguments snap {B}. Arguments clock {B}. Arguments slots {B}. Arguments conns {B}.
Arguments active {B}. Arguments codecs {B}. Arguments streams {B}. Arguments scan {B}. Arguments closing {B}. Arguments swept {B}.

Record request := mkRequest {
  rq_method : bytes; rq_host : bytes; rq_version : bytes; rq_http3 : bool;
}.
Inductive response := RDecoy | RStatus (code : Z) | RControl | RProxy (sid : nat).

Section server.
Context {B : Type} `{AdmissionOps B} `{Crypto}.
(** [MaxConnections] and [MaxStreamsPerConnection]. *)
Context (maxConns maxStreams : nat).
Implicit Types (s : server B).

Definition set_conns m s : server B := mkServer (snap s) (clock s) (slots s) m (active s) (codecs s) (streams s) (scan s) (closing s) (swept s).
Definition set_slots n s : server B := mkServer (snap s) (clock s) n (conns s) (active s) (codecs s) (streams s) (scan s) (closing s) (swept s).
Definition set_active b s : server B := mkServer (snap s) (clock s) (slots s) (conns s) b (codecs s) (streams s) (scan s) (closing s) (swept s).
Definition set_codecs b s : server B := mkServer (snap s) (clock s) (slots s) (conns s) (active s) b (streams s) (scan s) (closing s) (swept s).
Definition set_streams m s : server B := mkServer (snap s) (clock s) (slots s) (conns s) (active s) (codecs s) m (scan s) (closing s) (swept s).
Definition set_closing x s : server B := mkServer (snap s) (clock s) (slots s) (conns s) (active s) (codecs s) (streams s) (scan s) x (swept s).
Definition set_scan p b s : server B := mkServer (snap s) (clock s) (slots s) (conns s) (active s) (codecs s) (streams s) p (closing s) b.
(** The published credentials. *)
Definition set_snap c s : server B := mkServer c (clock s) (slots s) (conns s) (active s) (codecs s) (streams s) (scan s) (closing s) (swept s).
(** New credentials or a new clock; the ghosts become stale. *)
Definition set_creds c t s : server B :=
  mkServer c t (slots s) (conns s) (active s) (codecs s) (streams s)
    ((fun p => mkPass (ps_todo p) false) <$> scan s) (closing s) false.

Definition upd_conn (c : nat) (g : conn -> conn) s : server B := set_conns (alter g c (conns s)) s.
Definition with_phase (p : phase) (x : conn) : conn := mkConn (cn_open x) (cn_life x) p (cn_streams x).
Definition with_open (o : bool) (x : conn) : conn := mkConn o (cn_life x) (cn_phase x) (cn_streams x).
Definition with_life (l : life) (x : conn) : conn := mkConn (cn_open x) l (cn_phase x) (cn_streams x).
Definition with_streams (n : nat) (x : conn) : conn := mkConn (cn_open x) (cn_life x) (cn_phase x) n.

Definition accepts s (id : bytes) : bool := Accepts (clock s) (snap s) id.

Definition server_init (c : credentialSnapshot) (t : Z) (a k : B) : server B :=
  mkServer c t 0 ∅ a k ∅ None ∅ false.

(** ** serveHTTP *)

(** The part of [serveHTTP] for the proxy authority: authentication, revocation, the
    global and the per-connection capacity, then the stream. *)
Definition serve_proxy (c : nat) (rq : request) (x : conn) s : response * server B :=
  match cn_phase x with
  | Authed id =>
      if negb (accepts s id) then (RStatus 403, s)
      else
        match ad_try (active s) with
        | (None, a) => (RStatus 503, set_active a s)
        | (Some l, a) =>
            if negb (bool_decide (cn_streams x < maxStreams)%nat)
            then (RStatus 503, set_active (ad_release (Some l) a) s)
            else if negb (rq_http3 rq) then (RStatus 505, set_active (ad_release (Some l) a) s)
            else
              let sid := fresh (dom (streams s)) in
              (RProxy sid,
               set_active a (set_streams (<[sid := mkStream c l None]> (streams s))
                               (upd_conn c (with_streams (S (cn_streams x))) s)))
        end
  | _ => (RStatus 403, s)
  end.

Definition serveHTTP (c : nat) (rq : request) s : response * server B :=
  if negb (bool_decide (rq_method rq = bs "CONNECT")) ||
     (negb (bool_decide (rq_host rq = ControlAuthority)) && negb (bool_decide (rq_host rq = ProxyAuthority)))
  then (RDecoy, s)
  else if negb (bool_decide (rq_version rq = Itoa (b2z Version))) then (RStatus 400, s)
  else
    match conns s !! c with
    | None => (RStatus 503, s)
    | Some x =>
        if bool_decide (rq_host rq = ControlAuthority) then
          match cn_phase x with
          | NoControl =>
              if rq_http3 rq then (RControl, upd_conn c (with_phase Control) s)
              else (RStatus 505, upd_conn c (with_phase (Refused None)) s)
          | _ => (RStatus 409, s)
          end
        else serve_proxy c rq x s
    end.

(** ** Streams *)

(** The codec lease of [handleProxy]; the second part is whether a codec was granted. *)
Definition take_codec (sid : nat) (st : stream) s : server B :=
  match ad_try (codecs s) with
  | (None, k) => set_codecs k s
  | (Some l, k) => set_codecs k (set_streams (<[sid := mkStream (st_conn st) (st_lease st) (Some l)]> (streams s)) s)
  end.

(** The deferred calls of [handleProxy] and [serveHTTP]: the codec lease, the
    connection's stream slot, the global lease. *)
Definition end_stream (sid : nat) (st : stream) s : server B :=
  set_codecs (ad_release (st_codec st) (codecs s))
    (set_active (ad_release (Some (st_lease st)) (active s))
       (set_streams (delete sid (streams s))
          (upd_conn (st_conn st) (fun x => with_streams (cn_streams x - 1) x) s))).

(** ** Connections *)

(** [Serve] on an accepted connection: a slot, or the refusal. *)
Definition accept_conn s : server B :=
  if bool_decide (slots s < maxConns)%nat
  then set_slots (S (slots s)) (set_conns (<[fresh (dom (conns s)) := mkConn true Spawned NoControl 0]> (conns s)) s)
  else s.

(** The end of [handleConn]: close the connection, unregister it, free the slot. *)
Definition leave_conn (c : nat) s : server B :=
  set_slots (slots s - 1) (upd_conn c (fun x => with_life Gone (with_open false x)) s).

(** ** Credentials *)

(** [revokeUnauthorized]: the lock is taken over the registered connections; each is
    put on the list when its stored key is not accepted; the lock is released. *)
Definition revoked s (x : conn) : bool :=
  match authKey (cn_phase x) with Some id => negb (accepts s id) | None => false end.
Definition registered s : gset nat := dom (filter (fun kv => cn_life kv.2 = Registered) (conns s)).
Definition scan_begin s : server B := set_scan (Some (mkPass (registered s) true)) (swept s) s.
Definition scan_conn (p : pass) (c : nat) (x : conn) s : server B :=
  set_scan (Some (mkPass (ps_todo p ∖ {[c]}) (ps_current p))) (swept s)
    (if revoked s x then set_closing ({[c]} ∪ closing s) s else s).
Definition scan_end (p : pass) s : server B := set_scan None (swept s || ps_current p) s.

(** [ReloadCredentials] up to the pass: the credentials of the server after
    [Update], and its error. *)
Definition ReloadCredentials (pri prev : bytes) (exp : Z) (c : Certificate) s : option error * server B :=
  match Update (clock s) (snap s) pri prev exp c with
  | (Some e, stored) => (Some e, set_snap stored s)
  | (None, stored) => (None, set_creds stored (clock s) s)
  end.

(** An error of [Update] comes with the credentials as they were. *)
Lemma ReloadCredentials_cases pri prev exp c s :
  (exists e, ReloadCredentials pri prev exp c s = (Some e, s)) \/
  (exists new, Update (clock s) (snap s) pri prev exp c = (None, new) /\ ReloadCredentials pri prev exp c s = (None, set_creds new (clock s) s)).
Proof.
  unfold ReloadCredentials. destruct (Update_spec (clock s) (snap s) pri prev exp c) as [[_ E]|[_ [e E]]]; rewrite E; [right; eauto|].
  left. exists e. by destruct s.
Qed.

(** ** The interleaving *)
Inductive step : server B -> server B -> Prop :=
| v_accept s : step s (accept_conn s)
| v_register s c x : conns s !! c = Some x -> cn_life x = Spawned ->
    scan s = None -> step s (upd_conn c (with_life Registered) s)
| v_request s c x rq : conns s !! c = Some x -> cn_life x <> Spawned -> step s (snd (serveHTTP c rq s))
| v_auth_fail s c x : conns s !! c = Some x -> cn_phase x = Control ->
    step s (upd_conn c (with_phase (Refused None)) s)
| v_store s c x id : conns s !! c = Some x -> cn_phase x = Control ->       (* authKey.Store *)
    step s (upd_conn c (with_phase (Stored id)) s)
| v_check s c x id : conns s !! c = Some x -> cn_phase x = Stored id ->     (* Accepts *)
    step s (upd_conn c (with_phase (if accepts s id then Checked id else Refused (Some id))) s)
| v_authed s c x id : conns s !! c = Some x -> cn_phase x = Checked id ->   (* close(authed) *)
    step s (upd_conn c (with_phase (Authed id)) s)
| v_codec s sid st : streams s !! sid = Some st -> st_codec st = None -> step s (take_codec sid st s)
| v_end s sid st : streams s !! sid = Some st -> step s (end_stream sid st s)
| v_close s c : step s (upd_conn c (with_open false) s)                     (* peer, timeout or shutdown *)
| v_leave s c x : conns s !! c = Some x -> cn_life x = Registered -> scan s = None ->
    step s (leave_conn c s)
| v_reload s pri prev exp crt : step s (snd (ReloadCredentials pri prev exp crt s))
| v_scan_begin s : scan s = None -> step s (scan_begin s)
| v_scan s p c x : scan s = Some p -> c ∈ ps_todo p -> conns s !! c = Some x -> step s (scan_conn p c x s)
| v_scan_end s p : scan s = Some p -> ps_todo p = ∅ -> step s (scan_end p s)
| v_revoke s c : c ∈ closing s ->
    step s (set_closing (closing s ∖ {[c]}) (upd_conn c (with_open false) s))
| v_tick s t : clock s < t -> step s (set_creds (snap s) t s).
End server.

(** ** Ownership of leases *)

(** [X] is exactly the set of leases that the streams of [m] hold through [f], each by
    one stream. *)
Record owned (f : stream -> option nat) (m : gmap nat stream) (X : gset nat) : Prop := {
  ow_in : forall l, l ∈ X <-> exists sid st, m !! sid = Some st /\ f st = Some l;
  ow_inj : forall i j a b l, m !! i = Some a -> m !! j = Some b -> f a = Some l -> f b = Some l -> i = j;
  ow_size : size X = mcount (fun st => bool_decide (is_Some (f st))) m;
}.

Section owned.
Context (f : stream -> option nat).
Implicit Types (m : gmap nat stream) (X : gset nat).

Lemma owned_empty : owned f ∅ ∅.
Proof.
  split; [|by intros ????? ?%lookup_empty_Some|by rewrite mcount_empty, size_empty].
  intros l. split; [set_solver|]. intros (? & ? & []%lookup_empty_Some & _).
Qed.

Lemma owned_none m X sid st : owned f m X -> m !! sid = None -> f st = None -> owned f (<[sid := st]> m) X.
Proof.
  intros [H1 H2 H3] Hs Hf. split.
  - intros l. rewrite H1. split.
    + intros (i & a & Hi & Ha). exists i, a. split; [|done]. rewrite lookup_insert_ne; naive_solver.
    + intros (i & a & [[<- <-]|[? ?]]%lookup_insert_Some & Ha); naive_solver.
  - intros i j a b l [[<- <-]|[? Hi]]%lookup_insert_Some [[<- <-]|[? Hj]]%lookup_insert_Some ??; naive_solver.
  - rewrite mcount_insert_new, bool_decide_eq_false_2 by (rewrite ?Hf; done || apply is_Some_None). done.
Qed.

Lemma owned_some m X sid st l : owned f m X -> (m !! sid = None \/ exists w, m !! sid = Some w /\ f w = None) ->
  f st = Some l -> l ∉ X -> owned f (<[sid := st]> m) ({[l]} ∪ X).
Proof.
  intros [H1 H2 H3] Hs Hf Hl.
  assert (forall i a l', m !! i = Some a -> f a = Some l' -> i <> sid /\ l <> l') as Hne.
  { intros i a l' Hi Ha. assert (l' ∈ X) by (apply H1; eauto). split; [|set_solver].
    intros ->. destruct Hs as [?|(? & ? & ?)]; congruence. }
  split.
  - intros l'. rewrite elem_of_union, elem_of_singleton, H1. split.
    + intros [->|(i & a & Hi & Ha)]; [exists sid, st; by rewrite lookup_insert_eq|].
      exists i, a. destruct (Hne i a l' Hi Ha). by rewrite lookup_insert_ne.
    + intros (i & a & [[<- <-]|[? ?]]%lookup_insert_Some & Ha); [left; congruence|right; eauto].
  - intros i j a b l' [[<- <-]|[? Hi]]%lookup_insert_Some [[<- <-]|[? Hj]]%lookup_insert_Some Ha Hb; eauto.
    + destruct (Hne _ _ _ Hj Hb); congruence.
    + destruct (Hne _ _ _ Hi Ha); congruence.
  - rewrite size_union, size_singleton, H3 by set_solver. destruct Hs as [Hs|(w & Hs & Hw)].
    + rewrite mcount_insert_new, bool_decide_eq_true_2 by (rewrite ?Hf; eauto). done.
    + pose proof (mcount_insert_old (fun st => bool_decide (is_Some (f st))) m sid st w Hs) as Hc. cbn in Hc.
      rewrite Hw, Hf, bool_decide_eq_false_2, bool_decide_eq_true_2 in Hc by (eauto || apply is_Some_None). lia.
Qed.

Lemma owned_delete m X sid st : owned f m X -> m !! sid = Some st ->
  owned f (delete sid m) (match f st with Some l => X ∖ {[l]} | None => X end).
Proof.
  intros [H1 H2 H3] Hs. split.
  - intros l. transitivity (l ∈ X /\ f st <> Some l); [destruct (f st); set_solver|]. rewrite H1. split.
    + intros [(i & a & Hi & Ha) Hne]. exists i, a. rewrite lookup_delete_ne; [done|]. intros ->. congruence.
    + intros (i & a & [Hi Ha]%lookup_delete_Some & Hf). split; [eauto|]. intros Hst. apply Hi. by eapply H2.
  - intros i j a b l [_ Hi]%lookup_delete_Some [_ Hj]%lookup_delete_Some. by apply (H2 i j).
  - rewrite (mcount_delete _ _ _ _ Hs) in H3. cbn in H3. destruct (f st) as [l|] eqn:Ef.
    + rewrite bool_decide_eq_true_2 in H3 by eauto.
      rewrite size_difference, size_singleton; [lia|]. apply singleton_subseteq_l, H1; eauto.
    + rewrite bool_decide_eq_false_2 in H3 by apply is_Some_None. done.
Qed.
End owned.

(** ** Invariants *)

Section invariants.
Context {B : Type} `{AdmissionLaws B} `{Crypto}.
Context (maxConns maxStreams : nat).
Implicit Types (s : server B).
#[local] Notation step := (step maxConns maxStreams).

(** The two budgets hold exactly the leases of the running streams. *)
Record lease_inv (la lk : nat) s : Prop := {
  li_wf : ad_wf (active s);
  li_limit : ad_limit (active s) = la;
  li_own : owned (fun st => Some (st_lease st)) (streams s) (ad_held (active s));
  li_wfk : ad_wf (codecs s);
  li_limitk : ad_limit (codecs s) = lk;
  li_ownk : owned st_codec (streams s) (ad_held (codecs s));
}.

(** The connection slots and the stream slots of each connection are counted. *)
Record count_inv s : Prop := {
  ci_slots : slots s = mcount (fun x => bool_decide (cn_life x <> Gone)) (conns s);
  ci_conns : (slots s <= maxConns)%nat;
  ci_streams : forall c x, conns s !! c = Some x ->
    cn_streams x = mcount (fun st => bool_decide (st_conn st = c)) (streams s) /\ (cn_streams x <= maxStreams)%nat;
  ci_conn : forall sid st, streams s !! sid = Some st -> is_Some (conns s !! st_conn st);
}.

(** A connection in danger: open, past the check of its key, and the key not accepted. *)
Definition stale s (x : conn) : Prop :=
  cn_open x = true /\
  exists id, (cn_phase x = Checked id \/ cn_phase x = Authed id) /\ accepts s id = false.

Record auth_inv s : Prop := {
  ai_spawned : forall c x, conns s !! c = Some x -> cn_life x = Spawned -> cn_phase x = NoControl;
  ai_gone : forall c x, conns s !! c = Some x -> cn_life x = Gone -> cn_open x = false;
  ai_todo : forall p c, scan s = Some p -> c ∈ ps_todo p -> is_Some (conns s !! c);
  ai_scan : forall p c x, scan s = Some p -> ps_current p = true -> conns s !! c = Some x -> stale s x ->
    c ∈ ps_todo p \/ c ∈ closing s;
  ai_swept : forall c x, swept s = true -> conns s !! c = Some x -> stale s x -> c ∈ closing s;
}.

(** *** Leases *)

Lemma lease_inv_same la lk s s' : active s' = active s -> codecs s' = codecs s -> streams s' = streams s ->
  lease_inv la lk s -> lease_inv la lk s'.
Proof. intros E1 E2 E3 []. by split; rewrite ?E1, ?E2, ?E3. Qed.

(** A refused request leaves both budgets with the holders they had. *)
Lemma lease_inv_refused la lk s l a : lease_inv la lk s -> ad_try (active s) = (Some l, a) ->
  lease_inv la lk (set_active (ad_release (Some l) a) s).
Proof.
  intros [] E. destruct (ad_try_cases _ _ _ li_wf0 E) as [(l' & [= <-] & Hwf & Hl & Hh & Hlim & _)|(? & _)]; [|done].
  destruct (ad_release_granted _ _ _ Hwf Hl Hh) as (? & Hh' & Hl').
  split; cbn; rewrite ?Hh'; congruence || done.
Qed.

Lemma lease_inv_proxy la lk c rq x s : lease_inv la lk s ->
  lease_inv la lk (snd (serve_proxy maxStreams c rq x s)).
Proof.
  intros Hi. unfold serve_proxy. destruct (cn_phase x); try done. case_match; [done|].
  destruct (ad_try (active s)) as [[l|] a] eqn:E.
  - case_match; [by apply lease_inv_refused|]. case_match; [by apply lease_inv_refused|].
    destruct Hi. destruct (ad_try_cases _ _ _ li_wf0 E) as [(l' & [= <-] & Hwf & Hl & Hh & Hlim & _)|(? & _)]; [|done].
    pose proof (not_elem_of_dom_1 _ _ (is_fresh (dom (streams s)))) as Hf.
    split; cbn; try congruence; try done.
    + rewrite Hh. apply owned_some; auto.
    + by apply owned_none.
  - destruct Hi. destruct (ad_try_cases _ _ _ li_wf0 E) as [(? & ? & _)|(_ & -> & _)]; [done|].
    by split.
Qed.

Lemma lease_inv_codec la lk sid st s : lease_inv la lk s -> streams s !! sid = Some st -> st_codec st = None ->
  lease_inv la lk (take_codec sid st s).
Proof.
  intros [] Hs Hc. unfold take_codec. destruct (ad_try (codecs s)) as [r k] eqn:E.
  destruct (ad_try_cases _ _ _ li_wfk0 E) as [(l & -> & Hwf & Hl & Hh & Hlim & _)|(-> & -> & _)]; [|by split].
  split; cbn; try congruence; try done.
  - replace (ad_held (active s)) with ({[st_lease st]} ∪ (ad_held (active s) ∖ {[st_lease st]})).
    2: { rewrite <- union_difference_L; [done|]. apply singleton_subseteq_l, li_own0; eauto. }
    rewrite <- insert_delete_eq. pose proof (owned_delete _ _ _ _ _ li_own0 Hs) as Hd. cbn in Hd.
    apply owned_some; auto; [left; apply lookup_delete_eq|set_solver].
  - rewrite Hh. apply owned_some; eauto.
Qed.

Lemma lease_inv_end la lk sid st s : lease_inv la lk s -> streams s !! sid = Some st ->
  lease_inv la lk (end_stream sid st s).
Proof.
  intros [] Hs.
  destruct (ad_release_held (active s) (st_lease st)) as (Hw & Hh & Hl); [done|apply li_own0; eauto|].
  pose proof (owned_delete _ _ _ _ _ li_own0 Hs) as Ho. pose proof (owned_delete _ _ _ _ _ li_ownk0 Hs) as Hk.
  assert (ad_wf (ad_release (st_codec st) (codecs s)) /\
    ad_limit (ad_release (st_codec st) (codecs s)) = ad_limit (codecs s) /\
    ad_held (ad_release (st_codec st) (codecs s)) =
      match st_codec st with Some l => ad_held (codecs s) ∖ {[l]} | None => ad_held (codecs s) end) as (? & ? & Hhk).
  { destruct (st_codec st) as [k|] eqn:Ek; [|by rewrite ad_release_nil].
    destruct (ad_release_held (codecs s) k) as (? & ? & ?); [done|apply li_ownk0; eauto|done]. }
  split; cbn; rewrite ?Hh, ?Hhk; congruence || done.
Qed.

Lemma lease_inv_step la lk s s' : step s s' -> lease_inv la lk s -> lease_inv la lk s'.
Proof.
  intros Hst Hi. destruct Hst; try (by eapply lease_inv_same; [..|done]).
  - unfold accept_conn. by case_match; [eapply lease_inv_same; [..|done]|].
  - unfold serveHTTP. repeat case_match; try done; try (by eapply lease_inv_same; [..|done]).
    by apply lease_inv_proxy.
  - by apply lease_inv_codec.
  - by apply lease_inv_end.
  - destruct (ReloadCredentials_cases pri prev exp crt s) as [[e ->]|(new & _ & ->)]; [done|]. by eapply lease_inv_same; [..|done].
  - unfold scan_conn. case_match; by eapply lease_inv_same; [..|done].
Qed.

(** *** Counts *)

Lemma count_inv_same s s' : slots s' = slots s -> conns s' = conns s -> streams s' = streams s ->
  count_inv s -> count_inv s'.
Proof. intros E1 E2 E3 []. by split; rewrite ?E1, ?E2, ?E3. Qed.

Lemma alter_insert (m : gmap nat conn) c g x : m !! c = Some x -> alter g c m = <[c := g x]> m.
Proof.
  intros Hc. apply map_eq. intros i. rewrite lookup_insert. destruct (decide (c = i)) as [<-|Hne].
  - by rewrite lookup_alter_eq, Hc.
  - by apply lookup_alter_ne.
Qed.

Lemma alter_none (m : gmap nat conn) c g : m !! c = None -> alter g c m = m.
Proof.
  intros Hc. apply map_eq. intros i. destruct (decide (c = i)) as [<-|Hne].
  - by rewrite lookup_alter_eq, Hc.
  - by apply lookup_alter_ne.
Qed.

(** A change of phase, openness or registration keeps the counts. *)
Lemma count_inv_upd s c g : (forall x, cn_streams (g x) = cn_streams x) ->
  (forall x, conns s !! c = Some x -> cn_life (g x) = Gone <-> cn_life x = Gone) ->
  count_inv s -> count_inv (upd_conn c g s).
Proof.
  intros Hg Hl []. unfold upd_conn. destruct (conns s !! c) as [x|] eqn:Hc.
  2: { rewrite alter_none by done. by split. }
  rewrite (alter_insert _ _ _ x) by done. split; cbn; [| done | |].
  - pose proof (mcount_insert_old (fun x => bool_decide (cn_life x <> Gone)) _ c (g x) x Hc) as Hm. cbn in Hm.
    rewrite (bool_decide_ext (cn_life (g x) <> Gone) (cn_life x <> Gone)) in Hm by (by rewrite (Hl x)). lia.
  - intros i y [[<- <-]|[? ?]]%lookup_insert_Some; [rewrite Hg|]; by apply ci_streams0.
  - intros i st Hi. destruct (ci_conn0 i st Hi) as [y ?]. rewrite lookup_insert. case_decide; eauto.
Qed.

Lemma count_inv_accept s : count_inv s -> count_inv (accept_conn maxConns s).
Proof.
  intros []. unfold accept_conn. case_bool_decide; [|by split].
  pose proof (not_elem_of_dom_1 _ _ (is_fresh (dom (conns s)))) as Hf.
  assert (forall sid st, streams s !! sid = Some st -> st_conn st <> fresh (dom (conns s))) as Hne.
  { intros sid st [y Hy]%ci_conn0 E. rewrite E in Hy. congruence. }
  split; cbn; [| lia | |].
  - rewrite mcount_insert_new, bool_decide_eq_true_2 by done. lia.
  - intros i y [[<- <-]|[? ?]]%lookup_insert_Some; [|by apply ci_streams0]. cbn. split; [|lia].
    symmetry. unfold mcount. apply map_size_empty_iff, map_empty. intros sid.
    apply map_lookup_filter_None. right. intros st Hs. cbn. rewrite bool_decide_eq_false_2; [done|]. by eapply Hne.
  - intros i st Hi. rewrite lookup_insert_ne by (by apply not_eq_sym, (Hne i)). eauto.
Qed.

Lemma count_inv_leave s c x : conns s !! c = Some x -> cn_life x = Registered -> count_inv s ->
  count_inv (leave_conn c s).
Proof.
  intros Hc Hx []. unfold leave_conn, upd_conn. rewrite (alter_insert _ _ _ x) by done.
  split; cbn; [|lia| |].
  - pose proof (mcount_insert_old (fun x => bool_decide (cn_life x <> Gone)) _ c
      (with_life Gone (with_open false x)) x Hc) as Hm.
    cbn in Hm. rewrite Hx, (bool_decide_eq_false_2 (Gone <> Gone)), (bool_decide_eq_true_2 (Registered <> Gone)) in Hm
      by naive_solver. lia.
  - intros i y [[<- <-]|[? ?]]%lookup_insert_Some; cbn; by apply ci_streams0.
  - intros i st Hi. destruct (ci_conn0 i st Hi) as [y ?]. rewrite lookup_insert. case_decide; eauto.
Qed.

(** Starting a stream of [c] and ending one move the count of [c] alone. *)
Lemma count_inv_start s c x sid l : conns s !! c = Some x -> (cn_streams x < maxStreams)%nat ->
  streams s !! sid = None -> count_inv s ->
  count_inv (set_streams (<[sid := mkStream c l None]> (streams s)) (upd_conn c (with_streams (S (cn_streams x))) s)).
Proof.
  intros Hc Hlt Hs []. unfold upd_conn. rewrite (alter_insert _ _ _ x) by done. split; cbn; [|done| |].
  - pose proof (mcount_insert_old (fun x => bool_decide (cn_life x <> Gone)) _ c
      (with_streams (S (cn_streams x)) x) x Hc) as Hm. cbn in Hm. lia.
  - intros i y Hy. rewrite mcount_insert_new by done. cbn.
    apply lookup_insert_Some in Hy as [[<- <-]|[Hne Hy]]; cbn.
    + rewrite bool_decide_eq_true_2 by done. destruct (ci_streams0 c x Hc). lia.
    + rewrite bool_decide_eq_false_2 by done. by apply ci_streams0.
  - intros i st [[<- <-]|[? Hi]]%lookup_insert_Some; cbn; [by rewrite lookup_insert_eq|].
    destruct (ci_conn0 i st Hi). rewrite lookup_insert. case_decide; eauto.
Qed.

Lemma count_inv_end s sid st : streams s !! sid = Some st -> count_inv s -> count_inv (end_stream sid st s).
Proof.
  intros Hs []. destruct (ci_conn0 sid st Hs) as [x Hx]. unfold end_stream, upd_conn.
  rewrite (alter_insert _ _ _ x) by done. split; cbn; [|done| |].
  - pose proof (mcount_insert_old (fun x => bool_decide (cn_life x <> Gone)) _ (st_conn st)
      (with_streams (cn_streams x - 1) x) x Hx) as Hm. cbn in Hm. lia.
  - intros i y Hy. pose proof (mcount_delete (fun st => bool_decide (st_conn st = i)) _ _ _ Hs) as Hm. cbn in Hm.
    apply lookup_insert_Some in Hy as [[<- <-]|[Hne Hy]]; cbn.
    + rewrite bool_decide_eq_true_2 in Hm by done. destruct (ci_streams0 _ _ Hx). lia.
    + rewrite bool_decide_eq_false_2 in Hm by done. destruct (ci_streams0 _ _ Hy). lia.
  - intros i w [_ Hi]%lookup_delete_Some. destruct (ci_conn0 i w Hi). rewrite lookup_insert. case_decide; eauto.
Qed.

Lemma count_inv_codec s sid st : streams s !! sid = Some st -> count_inv s -> count_inv (take_codec sid st s).
Proof.
  intros Hs Hi. unfold take_codec. destruct (ad_try (codecs s)) as [[l|] k]; [|by eapply count_inv_same; [..|done]].
  destruct Hi. split; cbn; [done|done| |].
  - intros c x Hc. destruct (ci_streams0 c x Hc) as [E ?]. split; [|done]. rewrite E.
    pose proof (mcount_insert_old (fun st => bool_decide (st_conn st = c)) _ sid
      (mkStream (st_conn st) (st_lease st) (Some l)) st Hs) as Hm. cbn in Hm. lia.
  - intros i w [[<- <-]|[? Hi]]%lookup_insert_Some; cbn; eauto.
Qed.

Lemma count_inv_request s c x rq : conns s !! c = Some x -> count_inv s ->
  count_inv (snd (serveHTTP maxStreams c rq s)).
Proof.
  intros Hc Hi. unfold serveHTTP. do 2 (case_match; [done|]). rewrite Hc. case_match.
  - case_match; try done. case_match; by apply count_inv_upd.
  - unfold serve_proxy. case_match; try done. case_match; [done|].
    destruct (ad_try (active s)) as [[l|] a]; [|by eapply count_inv_same; [..|done]].
    destruct (bool_decide_reflect (cn_streams x < maxStreams)%nat); cbn [negb];
      [|by eapply count_inv_same; [..|done]].
    destruct (rq_http3 rq); cbn [negb]; [|by eapply count_inv_same; [..|done]].
    pose proof (not_elem_of_dom_1 _ _ (is_fresh (dom (streams s)))) as Hf.
    by eapply count_inv_same; [| | |eapply (count_inv_start s c x (fresh (dom (streams s))) l)].
Qed.

Lemma count_inv_step s s' : step s s' -> count_inv s -> count_inv s'.
Proof.
  intros Hst Hi. destruct Hst; try (by eapply count_inv_same; [..|done]); try (by apply count_inv_upd);
    eauto using count_inv_request, count_inv_codec, count_inv_end, count_inv_leave.
  - by apply count_inv_accept.
  - apply count_inv_upd; [done| |done]. intros y Hy. cbn. split; [done|]. congruence.
  - destruct (ReloadCredentials_cases pri prev exp crt s) as [[e ->]|(new & _ & ->)]; [done|]. by eapply count_inv_same; [..|done].
  - unfold scan_conn. case_match; by eapply count_inv_same; [..|done].
  - eapply (count_inv_same (upd_conn c (with_open false) s)); [done..|]. by apply count_inv_upd.
Qed.

(** *** Authentication *)

Lemma auth_inv_same s s' : conns s' = conns s -> scan s' = scan s -> closing s' = closing s -> swept s' = swept s ->
  snap s' = snap s -> clock s' = clock s -> auth_inv s -> auth_inv s'.
Proof.
  intros E1 E2 E3 E4 E5 E6 []. unfold stale, accepts in *.
  split; rewrite ?E1, ?E2, ?E3, ?E4; unfold stale, accepts; rewrite ?E5, ?E6; done.
Qed.

(** An update of one connection that makes it no staler. *)
Lemma auth_inv_upd s c g :
  (forall x, conns s !! c = Some x ->
     (cn_life (g x) = Spawned -> cn_phase (g x) = NoControl) /\
     (cn_life (g x) = Gone -> cn_open (g x) = false) /\ (stale s (g x) -> stale s x)) ->
  auth_inv s -> auth_inv (upd_conn c g s).
Proof.
  intros Hg []. unfold upd_conn. destruct (conns s !! c) as [x|] eqn:Hc.
  2: { rewrite alter_none by done. by split. }
  destruct (Hg x eq_refl) as (G1 & G2 & G3). rewrite (alter_insert _ _ _ x) by done. split; cbn.
  - intros i y [[<- <-]|[? ?]]%lookup_insert_Some; eauto.
  - intros i y [[<- <-]|[? ?]]%lookup_insert_Some; eauto.
  - intros p i Hp Hi. rewrite lookup_insert. case_decide; eauto.
  - intros p i y Hp Hcur [[<- <-]|[? ?]]%lookup_insert_Some Hst; [apply (ai_scan0 p c x); auto|by eapply ai_scan0].
  - intros i y Hsw [[<- <-]|[? ?]]%lookup_insert_Some Hst; [apply (ai_swept0 c x); auto|by eapply ai_swept0].
Qed.

(** A new phase of a connection whose handler runs. *)
Lemma auth_inv_phase s c x p : conns s !! c = Some x -> cn_phase x <> NoControl \/ cn_life x <> Spawned ->
  (stale s (with_phase p x) -> stale s x) -> auth_inv s -> auth_inv (upd_conn c (with_phase p) s).
Proof.
  intros Hc Hx Hp Hi. apply auth_inv_upd; [|done]. intros y Hy.
  rewrite Hc in Hy. injection Hy as <-. cbn. split; [|split; [|done]].
  - intros Hl. pose proof (ai_spawned s Hi c x Hc Hl). destruct Hx; congruence.
  - by apply (ai_gone s Hi c).
Qed.

Lemma auth_inv_accept s : auth_inv s -> auth_inv (accept_conn maxConns s).
Proof.
  intros []. unfold accept_conn. case_bool_decide; [|by split].
  assert (forall y, stale s y -> y <> mkConn true Spawned NoControl 0) as Hst.
  { intros y (_ & id & [|] & _); intros ->; done. }
  split; cbn.
  - intros i y [[<- <-]|[? ?]]%lookup_insert_Some; eauto.
  - intros i y [[<- <-]|[? ?]]%lookup_insert_Some; eauto. done.
  - intros p i Hp Hi. rewrite lookup_insert. case_decide; eauto.
  - intros p i y Hp Hcur [[<- <-]|[? ?]]%lookup_insert_Some Hy; [by apply Hst in Hy|by eapply ai_scan0].
  - intros i y Hsw [[<- <-]|[? ?]]%lookup_insert_Some Hy; [by apply Hst in Hy|by eapply ai_swept0].
Qed.

Lemma auth_inv_request s c x rq : conns s !! c = Some x -> cn_life x <> Spawned -> auth_inv s ->
  auth_inv (snd (serveHTTP maxStreams c rq s)).
Proof.
  intros Hc Hx Hi. unfold serveHTTP. do 2 (case_match; [done|]). rewrite Hc. case_match.
  - case_match; try done. case_match; (eapply auth_inv_phase; [done|by right| |done]);
      intros (_ & id & [|] & _); done.
  - unfold serve_proxy. case_match; try done. case_match; [done|].
    destruct (ad_try (active s)) as [[l|] a]; [|by eapply auth_inv_same; [..|done]].
    case_match; [by eapply auth_inv_same; [..|done]|].
    destruct (rq_http3 rq); cbn [negb]; [|by eapply auth_inv_same; [..|done]].
    eapply (auth_inv_same (upd_conn c (with_streams (S (cn_streams x))) s)); [done..|].
    apply auth_inv_upd; [|done]. intros y Hy. cbn.
    split; [by apply (ai_spawned s Hi c)|]. split; [by apply (ai_gone s Hi c)|done].
Qed.

Lemma auth_inv_end s sid st : auth_inv s -> auth_inv (end_stream sid st s).
Proof.
  intros Hi. unfold end_stream.
  eapply (auth_inv_same (upd_conn (st_conn st) (fun x => with_streams (cn_streams x - 1) x) s)); [done..|].
  apply auth_inv_upd; [|done]. intros y Hy. cbn.
  split; [by apply (ai_spawned s Hi (st_conn st))|]. split; [by apply (ai_gone s Hi (st_conn st))|done].
Qed.

Lemma auth_inv_close s c : auth_inv s -> auth_inv (upd_conn c (with_open false) s).
Proof.
  intros Hi. apply auth_inv_upd; [|done]. intros y Hy. cbn.
  split; [by apply (ai_spawned s Hi c)|]. split; [done|]. by intros [? _].
Qed.

Lemma auth_inv_creds s c t : auth_inv s -> auth_inv (set_creds c t s).
Proof.
  intros []. split; cbn; [done|done| | |done].
  - intros p i Hp Hi. destruct (scan s) as [q|]; [|done]. injection Hp as <-. eauto.
  - intros p i x Hp Hcur. destruct (scan s) as [q|]; [|done]. injection Hp as <-. done.
Qed.

Lemma elem_of_registered s c : c ∈ registered s <-> exists x, conns s !! c = Some x /\ cn_life x = Registered.
Proof. unfold registered. rewrite elem_of_dom. unfold is_Some. by setoid_rewrite map_lookup_filter_Some. Qed.

Lemma stale_registered s c x : auth_inv s -> conns s !! c = Some x -> stale s x -> c ∈ registered s.
Proof.
  intros Hi Hc (Ho & id & Hp & _). apply elem_of_registered. exists x. split; [done|].
  destruct (cn_life x) eqn:El; [|done|].
  - pose proof (ai_spawned s Hi c x Hc El). destruct Hp; congruence.
  - pose proof (ai_gone s Hi c x Hc El). congruence.
Qed.

Lemma auth_inv_begin s : scan s = None -> auth_inv s -> auth_inv (scan_begin s).
Proof.
  intros Hs Hi. pose proof Hi as []. split; cbn; [done|done| | |done].
  - intros p c [= <-] (x & Hx & _)%elem_of_registered. eauto.
  - intros p c x [= <-] _ Hc Hst. left. by eapply stale_registered.
Qed.

Lemma auth_inv_scan s p c x : scan s = Some p -> conns s !! c = Some x -> auth_inv s ->
  auth_inv (scan_conn p c x s).
Proof.
  intros Hp Hc [].
  assert (stale s x -> revoked s x = true) as Hr.
  { intros (_ & id & [E|E] & Ha); unfold revoked; rewrite E; cbn; by rewrite Ha. }
  assert (closing s ⊆ closing (scan_conn p c x s)) as Hsub by (unfold scan_conn; case_match; set_solver).
  assert (stale s x -> c ∈ closing (scan_conn p c x s)) as Hin by
    (intros Hst%Hr; unfold scan_conn; rewrite Hst; set_solver).
  assert (conns (scan_conn p c x s) = conns s /\ forall y, stale (scan_conn p c x s) y <-> stale s y) as [E1 E2].
  { unfold scan_conn. by case_match. }
  split; rewrite ?E1; [done|done| | |].
  - intros q i [= <-] Hi. cbn in Hi. eapply ai_todo0; set_solver.
  - intros q i y [= <-] Hcur Hi Hst%E2. cbn in Hcur |- *. destruct (decide (i = c)) as [->|Hne].
    + right. apply Hin. congruence.
    + destruct (ai_scan0 p i y Hp Hcur Hi Hst); set_solver.
  - intros i y Hsw Hi Hst%E2. apply Hsub. eapply ai_swept0; [|done..]. revert Hsw. unfold scan_conn. by case_match.
Qed.

Lemma auth_inv_scan_end s p : scan s = Some p -> ps_todo p = ∅ -> auth_inv s -> auth_inv (scan_end p s).
Proof.
  intros Hp Ht []. split; cbn; try done. intros c x [Hsw|Hcur]%orb_prop Hc Hst; [by eapply ai_swept0|].
  destruct (ai_scan0 p c x Hp Hcur Hc Hst); set_solver.
Qed.

Lemma auth_inv_revoke s c : auth_inv s ->
  auth_inv (set_closing (closing s ∖ {[c]}) (upd_conn c (with_open false) s)).
Proof.
  intros Hi. destruct (auth_inv_close s c Hi) as [G1 G2 G3 G4 G5].
  assert (forall x, conns (upd_conn c (with_open false) s) !! c = Some x -> ~ stale s x) as Hc.
  { intros x. unfold upd_conn. cbn. rewrite lookup_alter_eq. intros (y & _ & ->)%fmap_Some [Ho _]. done. }
  split; try done.
  - intros p i x Hp Hcur Hx Hst. destruct (G4 p i x Hp Hcur Hx Hst) as [|Hcl]; [by left|right].
    cbn [closing set_closing]. apply elem_of_difference. split; [done|]. intros ->%elem_of_singleton. by eapply Hc.
  - intros i x Hsw Hx Hst. cbn [closing set_closing]. apply elem_of_difference. split; [by apply (G5 i x)|].
    intros ->%elem_of_singleton. by eapply Hc.
Qed.

Lemma sauth_inv_step s s' : step s s' -> auth_inv s -> auth_inv s'.
Proof.
  intros Hst Hi. destruct Hst;
    eauto using auth_inv_request, auth_inv_end, auth_inv_close, auth_inv_begin, auth_inv_scan, auth_inv_scan_end,
      auth_inv_revoke, auth_inv_creds, auth_inv_accept.
  - apply auth_inv_upd; [|done]. intros y Hy. cbn. done.
  - eapply auth_inv_phase; [done|left; congruence| |done]. intros (_ & i & [|] & _); done.
  - eapply auth_inv_phase; [done|left; congruence| |done]. intros (_ & i & [|] & _); done.
  - eapply auth_inv_phase; [done|left; congruence| |done]. destruct (accepts s id) eqn:Ea.
    + intros (_ & i & [E|E] & Hf); cbn in E; congruence.
    + intros (_ & i & [|] & _); done.
  - eapply auth_inv_phase; [done|left; congruence| |done]. intros (Ho & i & [E|E] & Hf); [done|].
    split; [done|]. exists i. split; [left|done]. cbn in E. congruence.
  - unfold take_codec. destruct (ad_try (codecs s)) as [[l|] k]; by eapply auth_inv_same; [..|done].
  - eapply (auth_inv_same (upd_conn c (fun x => with_life Gone (with_open false x)) s)); [done..|].
    apply auth_inv_upd; [|done]. intros y Hy. cbn. split; [done|]. split; [done|]. by intros [? _].
  - destruct (ReloadCredentials_cases pri prev exp crt s) as [[e ->]|(new & _ & ->)]; [done|]. by apply auth_inv_creds.
Qed.

Lemma invariants_reach la lk c t a k s :
  ad_wf a -> ad_wf k -> ad_held a = ∅ -> ad_held k = ∅ -> ad_limit a = la -> ad_limit k = lk ->
  rtc step (server_init c t a k) s -> lease_inv la lk s /\ count_inv s /\ auth_inv s.
Proof.
  intros Ha Hk Eha Ehk Ela Elk Hr.
  assert (lease_inv la lk (server_init c t a k) /\ count_inv (server_init c t a k) /\ auth_inv (server_init c t a k)) as Hinit.
  { split; [|split]; split; cbn; try done; try lia; rewrite ?Eha, ?Ehk; auto using owned_empty. }
  revert Hinit. induction Hr as [|s1 s2 s3 Hs _ IH]; [done|]. intros (? & ? & ?). apply IH.
  split; [by eapply lease_inv_step|]. split; [by eapply count_inv_step|by eapply sauth_inv_step].
Qed.

(** *** A pass of revocation, run to its end *)

Lemma scan_loop s p : scan s = Some p -> (forall c, c ∈ ps_todo p -> is_Some (conns s !! c)) ->
  exists s', rtc step s s' /\ scan s' = Some (mkPass ∅ (ps_current p)) /\
    conns s' = conns s /\ snap s' = snap s /\ clock s' = clock s /\ streams s' = streams s /\ swept s' = swept s /\
    forall c, c ∈ closing s' <->
      c ∈ closing s \/ c ∈ ps_todo p /\ exists x, conns s !! c = Some x /\ revoked s x = true.
Proof.
  remember (size (ps_todo p)) as n eqn:En. revert s p En.
  induction n as [|n IH]; intros s p En Hp Ht.
  { apply eq_sym, size_empty_iff, leibniz_equiv in En. exists s. repeat split; try done.
    - destruct p. cbn in En. by rewrite En in Hp.
    - set_solver.
    - intros [|[? _]]; set_solver. }
  destruct (size_pos_elem_of (ps_todo p)) as [c Hc]; [lia|]. destruct (Ht c Hc) as [x Hx].
  assert (ps_todo p ∖ {[c]} ⊆ ps_todo p) as Hsub by set_solver.
  destruct (IH (scan_conn p c x s) (mkPass (ps_todo p ∖ {[c]}) (ps_current p)))
    as (s' & Hr & H1' & H2' & H3' & H4' & H5' & H6' & H7').
  { cbn. rewrite size_difference, size_singleton by set_solver. lia. }
  { done. }
  { intros i Hi. cbn in Hi. replace (conns (scan_conn p c x s)) with (conns s) by (unfold scan_conn; by case_match).
    apply Ht. set_solver. }
  exists s'. split; [eapply rtc_l; [by eapply v_scan|done]|]. split; [done|].
  assert (conns (scan_conn p c x s) = conns s /\ (forall y, revoked (scan_conn p c x s) y = revoked s y) /\
    closing (scan_conn p c x s) = (if revoked s x then {[c]} else ∅) ∪ closing s) as (E1 & E2 & E3).
  { unfold scan_conn. case_match; cbn; repeat split; set_solver. }
  rewrite E1, E3 in *. repeat (split; [by unfold scan_conn in *; case_match|]).
  intros i. rewrite H7'. setoid_rewrite E2. cbn. rewrite elem_of_union, elem_of_difference, elem_of_singleton.
  clear - Hc Hx. destruct (revoked s x) eqn:Er; rewrite ?elem_of_singleton, ?elem_of_empty;
    (destruct (decide (i = c)) as [->|Hne]; [|intuition congruence]).
  - split; [intros _; right; eauto|]. intros _. by left; left.
  - split; [intros [[[]|?]|[[_ []] _]]; [by left|done]|].
    intros [?|(_ & y & Hy & Hr)]; [by left; right|congruence].
Qed.
(** Closing the connections of the list, and nothing else. *)
Definition closed_in (X : gset nat) (c : nat) (x : conn) : conn := if decide (c ∈ X) then with_open false x else x.

Lemma close_loop s : exists s', rtc step s s' /\ closing s' = ∅ /\
  (forall c, conns s' !! c = closed_in (closing s) c <$> conns s !! c) /\
  snap s' = snap s /\ clock s' = clock s /\ streams s' = streams s /\ swept s' = swept s /\ scan s' = scan s.
Proof.
  remember (size (closing s)) as n eqn:En. revert s En. induction n as [|n IH]; intros s En.
  { apply eq_sym, size_empty_iff, leibniz_equiv in En. exists s. repeat (split; [done|]). split; [|done].
    intros c. destruct (conns s !! c); cbn; [|done]. unfold closed_in. by rewrite decide_False by set_solver. }
  destruct (size_pos_elem_of (closing s)) as [c Hc]; [lia|].
  set (s1 := set_closing (closing s ∖ {[c]}) (upd_conn c (with_open false) s)).
  destruct (IH s1) as (s' & Hr & H1' & H2' & H3').
  { cbn. rewrite size_difference, size_singleton by set_solver. lia. }
  exists s'. split; [eapply rtc_l; [by eapply v_revoke|done]|]. split; [done|]. split; [|done].
  intros i. rewrite H2'. cbn. destruct (decide (c = i)) as [<-|Hne].
  - rewrite lookup_alter_eq, <- option_fmap_compose. apply option_fmap_ext. intros x. cbn.
    unfold closed_in. rewrite decide_False, decide_True by set_solver. done.
  - rewrite lookup_alter_ne by done. apply option_fmap_ext. intros x.
    unfold closed_in. rewrite (decide_ext (i ∈ closing s ∖ {[c]}) (i ∈ closing s)); [done|set_solver].
Qed.
(** *** The gate *)

(** [serve_proxy] by cases: a stream starts exactly when the key is accepted and both
    capacities have room; otherwise the answer is an error and nobody holds a new lease. *)
Definition may_proxy s (rq : request) (x : conn) : Prop :=
  rq_http3 rq = true /\ (size (ad_held (active s)) < ad_limit (active s))%nat /\
  exists id, cn_phase x = Authed id /\ accepts s id = true /\ (cn_streams x < maxStreams)%nat.

Lemma serve_proxy_cases c rq x s r s' : ad_wf (active s) -> serve_proxy maxStreams c rq x s = (r, s') ->
  (may_proxy s rq x /\ exists l, let sid := fresh (dom (streams s)) in
     r = RProxy sid /\ streams s !! sid = None /\ l ∉ ad_held (active s) /\
     streams s' = <[sid := mkStream c l None]> (streams s) /\ ad_held (active s') = {[l]} ∪ ad_held (active s)) \/
  (~ may_proxy s rq x /\ (exists code, r = RStatus code) /\
     streams s' = streams s /\ ad_held (active s') = ad_held (active s)).
Proof.
  intros Hwf. unfold serve_proxy, may_proxy.
  destruct (cn_phase x) as [| | | |id|];
    try (intros [= <- <-]; right; split; [intros (_ & _ & ? & ? & _); done|]; eauto).
  destruct (accepts s id) eqn:Ea; cbn [negb].
  2: { intros [= <- <-]. right. split; [intros (_ & _ & ? & [= <-] & ? & _); congruence|]. eauto. }
  destruct (ad_try (active s)) as [o a] eqn:E.
  destruct (ad_try_cases _ _ _ Hwf E) as [(l & -> & Hwf' & Hl & Hh & _ & Hlt)|(-> & -> & Hfull)].
  2: { intros [= <- <-]. right. split; [intros (_ & ? & _); lia|]. eauto. }
  destruct (ad_release_granted _ _ _ Hwf' Hl Hh) as (_ & Hrel & _).
  destruct (bool_decide_reflect (cn_streams x < maxStreams)%nat) as [Hm|Hm]; cbn [negb].
  2: { intros [= <- <-]. right. split; [intros (_ & _ & ? & _ & _ & ?); done|]. eauto. }
  destruct (rq_http3 rq); cbn [negb].
  2: { intros [= <- <-]. right. split; [intros (? & _); done|]. eauto. }
  intros [= <- <-]. left. split; [eauto 10|]. exists l. cbn.
  pose proof (not_elem_of_dom_1 _ _ (is_fresh (dom (streams s)))). eauto 10.
Qed.
End invariants.

(** ** Properties *)

(** C18: Whatever the interleaving of accepts, requests, authentications, reloads and
    closes, a server started with empty budgets never runs more streams than its active
    budget, more codecs than its codec budget, more streams on one connection than
    [MaxStreamsPerConnection], or more connections than [MaxConnections]; and when no
    stream runs, every lease of both budgets has been given back. *)
Theorem server_capacity {B} `{AdmissionLaws B} `{Crypto} maxConns maxStreams c t (a k : B) s :
  ad_wf a -> ad_wf k -> ad_held a = ∅ -> ad_held k = ∅ ->
  rtc (step maxConns maxStreams) (server_init c t a k) s ->
  (size (streams s) <= ad_limit a)%nat /\
  (mcount (fun st => bool_decide (is_Some (st_codec st))) (streams s) <= ad_limit k)%nat /\
  (forall i x, conns s !! i = Some x ->
     (mcount (fun st => bool_decide (st_conn st = i)) (streams s) <= maxStreams)%nat) /\
  (mcount (fun x => bool_decide (cn_life x <> Gone)) (conns s) <= maxConns)%nat /\
  (streams s = ∅ -> ad_held (active s) = ∅ /\ ad_held (codecs s) = ∅).
Proof.
  intros Ha Hk Eha Ehk Hr.
  destruct (invariants_reach maxConns maxStreams _ _ c t a k s Ha Hk Eha Ehk eq_refl eq_refl Hr) as ([] & [] & _).
  pose proof (ad_bound _ li_wf0). pose proof (ad_bound _ li_wfk0).
  rewrite (ow_size _ _ _ li_own0) in *. rewrite (ow_size _ _ _ li_ownk0) in *.
  rewrite mcount_all in * by (intros; by apply bool_decide_eq_true_2).
  split; [lia|]. split; [lia|]. split; [|split; [lia|]].
  - intros i x Hx. destruct (ci_streams0 i x Hx). lia.
  - intros E. split; apply leibniz_equiv, elem_of_equiv_empty; intros l; [rewrite (ow_in _ _ _ li_own0)|rewrite (ow_in _ _ _ li_ownk0)];
      rewrite E; intros (? & ? & ?%lookup_empty_Some & _); done.
Qed.

(** C10: The gate in front of the tunnel.  A request starts a proxied stream exactly when
    it is a CONNECT to the proxy authority with the right version over HTTP/3, on a
    known connection that completed authentication with a key the server accepts now,
    and both stream capacities have room; the new stream then belongs to that
    connection.  The control handler starts only for the first control request of a
    connection.  Every other request leaves the streams and the holders of the active
    budget as they were, and one that goes to the decoy changes nothing. *)
Theorem serve_gate {B} `{AdmissionLaws B} `{Crypto} maxStreams c rq (s : server B) r s' :
  ad_wf (active s) -> serveHTTP maxStreams c rq s = (r, s') ->
  ((exists sid, r = RProxy sid) <->
     rq_method rq = bs "CONNECT" /\ rq_host rq = ProxyAuthority /\ rq_version rq = Itoa (b2z Version) /\
     rq_http3 rq = true /\ (size (ad_held (active s)) < ad_limit (active s))%nat /\
     exists x id, conns s !! c = Some x /\ cn_phase x = Authed id /\ accepts s id = true /\
       (cn_streams x < maxStreams)%nat) /\
  match r with
  | RProxy sid => streams s !! sid = None /\
      exists l, l ∉ ad_held (active s) /\ streams s' = <[sid := mkStream c l None]> (streams s) /\
        ad_held (active s') = {[l]} ∪ ad_held (active s)
  | RControl => rq_host rq = ControlAuthority /\
      exists x, conns s !! c = Some x /\ cn_phase x = NoControl /\ s' = upd_conn c (with_phase Control) s
  | RDecoy => s' = s
  | RStatus _ => streams s' = streams s /\ ad_held (active s') = ad_held (active s)
  end.
Proof.
  intros Hwf. unfold serveHTTP.
  destruct (bool_decide_reflect (rq_method rq = bs "CONNECT")) as [Hm|Hm]; cbn [negb orb andb].
  2: { intros [= <- <-]. split; [|done]. split; [by intros []|naive_solver]. }
  destruct (bool_decide_reflect (rq_host rq = ControlAuthority)) as [Hc|Hc]; cbn [negb orb andb].
  - assert (rq_host rq <> ProxyAuthority) as Hp by (rewrite Hc; by vm_compute).
    intros Hs'. enough (match r with RControl => rq_host rq = ControlAuthority /\
        exists x, conns s !! c = Some x /\ cn_phase x = NoControl /\ s' = upd_conn c (with_phase Control) s
      | RStatus _ => streams s' = streams s /\ ad_held (active s') = ad_held (active s) | _ => False end) as Hr.
    { split; [|by destruct r]. split; [by intros [? ->]|]. by intros (_ & ? & _). }
    revert Hs'. case_match; [by intros [= <- <-]|]. destruct (conns s !! c) as [x|]; [|by intros [= <- <-]].
    destruct (cn_phase x) eqn:Ex; try (by intros [= <- <-]).
    case_match; intros [= <- <-]; [split; eauto|done].
  - destruct (bool_decide_reflect (rq_host rq = ProxyAuthority)) as [Hp|Hp]; cbn [negb orb andb].
    2: { intros [= <- <-]. split; [|done]. split; [by intros []|naive_solver]. }
    destruct (bool_decide_reflect (rq_version rq = Itoa (b2z Version))) as [Hv|Hv]; cbn [negb].
    2: { intros [= <- <-]. split; [|done]. split; [by intros []|naive_solver]. }
    destruct (conns s !! c) as [x|] eqn:Hx.
    2: { intros [= <- <-]. split; [|done]. split; [by intros []|naive_solver]. }
    intros [[Hok (l & -> & ? & ? & ? & ?)]|(Hno & (code & ->) & ? & ?)]%serve_proxy_cases; [| |done].
    + split; [|eauto 10]. split; [|eauto]. intros _. destruct Hok as (? & ? & id & ? & ? & ?). eauto 20.
    + split; [|done]. split; [by intros []|]. intros (_ & _ & _ & ? & ? & y & id & [= <-] & ? & ? & ?).
      destruct Hno. unfold may_proxy. eauto 10.
Qed.

(** C11: Revocation is complete under every interleaving with authentication.  Once a
    pass over the connections has run since the credentials (or the clock) last
    changed, and the connections it listed are closed, every connection that is still
    open and authenticated is so with a key the server accepts now: a handshake that
    raced the reload either stored its key before the pass looked, or checks it after
    the change and is refused. *)
Theorem revocation_sound {B} `{AdmissionLaws B} `{Crypto} maxConns maxStreams c t (a k : B) s :
  ad_wf a -> ad_wf k -> ad_held a = ∅ -> ad_held k = ∅ ->
  rtc (step maxConns maxStreams) (server_init c t a k) s ->
  swept s = true -> closing s = ∅ ->
  forall i x id, conns s !! i = Some x -> cn_open x = true -> cn_phase x = Authed id -> accepts s id = true.
Proof.
  intros Ha Hk Eha Ehk Hr Hsw Hcl i x id Hi Ho Hp.
  destruct (invariants_reach maxConns maxStreams _ _ c t a k s Ha Hk Eha Ehk eq_refl eq_refl Hr) as (_ & _ & Hinv).
  destruct (accepts s id) eqn:Ea; [done|]. exfalso.
  assert (i ∈ closing s) as Hin by (apply (ai_swept s Hinv i x Hsw Hi); split; eauto).
  rewrite Hcl in Hin. set_solver.
Qed.

(** [revokeUnauthorized] always runs to its end, and closes exactly the registered
    connections whose stored key is not accepted (and those an earlier pass had
    already listed): the streams, the credentials and every other connection are
    untouched. *)
Theorem revocation_exact {B} `{AdmissionLaws B} `{Crypto} maxConns maxStreams (s : server B) :
  scan s = None ->
  exists s', rtc (step maxConns maxStreams) s s' /\ scan s' = None /\ swept s' = true /\ closing s' = ∅ /\
    snap s' = snap s /\ clock s' = clock s /\ streams s' = streams s /\
    forall c, conns s' !! c =
      (fun x => if decide (c ∈ closing s \/ (cn_life x = Registered /\ revoked s x = true))
                then with_open false x else x) <$> conns s !! c.
Proof.
  intros Hsc.
  destruct (scan_loop maxConns maxStreams (scan_begin s) (mkPass (registered s) true))
    as (s1 & R1 & E1 & E2 & E3 & E4 & E5 & E6 & E7); [done| |].
  { intros c (x & Hx & _)%elem_of_registered. eauto. }
  destruct (close_loop maxConns maxStreams (scan_end (mkPass ∅ true) s1))
    as (s2 & R2 & F1 & F2 & F3 & F4 & F5 & F6 & F7).
  exists s2. split.
  { eapply rtc_l; [by apply v_scan_begin|]. etransitivity; [exact R1|].
    eapply rtc_l; [|exact R2]. by apply v_scan_end. }
  rewrite F7, F6, F3, F4, F5. cbn. rewrite orb_true_r, E3, E4, E5. repeat (split; [done|]).
  intros c. rewrite F2. cbn [scan_end set_scan closing conns]. rewrite E2. cbn [scan_begin set_scan conns].
  destruct (conns s !! c) as [x|] eqn:Ex; cbn; [|done]. unfold closed_in. f_equal.
  rewrite (decide_ext (c ∈ closing s1) (c ∈ closing s \/ (cn_life x = Registered /\ revoked s x = true))); [done|].
  rewrite E7. cbn. rewrite elem_of_registered, Ex. change (revoked (scan_begin s)) with (revoked s). naive_solver.
Qed.

(** ** Concrete runs *)

#[local] Existing Instance toy_crypto.

Definition control_request : request := mkRequest (bs "CONNECT") ControlAuthority (Itoa (b2z Version)) true.
Definition proxy_request : request := mkRequest (bs "CONNECT") ProxyAuthority (Itoa (b2z Version)) true.

(** One connection authenticates with the previous key and opens a stream; then the
    pass of revocation. *)
Definition run0 : server Budget := server_init example_snapshot (99 * second) example_budget example_budget.
Definition run_conn : nat := fresh (dom (conns run0)).
Definition run1 : server Budget := upd_conn run_conn (with_life Registered) (accept_conn 1 run0).
Definition run2 : server Budget := snd (serveHTTP 1 run_conn control_request run1).
Definition run3 : server Budget := upd_conn run_conn (with_phase (Stored (sha256 old_key))) run2.
Definition run4 : server Budget := upd_conn run_conn (with_phase (if accepts run3 (sha256 old_key) then
  Checked (sha256 old_key) else Refused (Some (sha256 old_key)))) run3.
Definition run5 : server Budget := upd_conn run_conn (with_phase (Authed (sha256 old_key))) run4.
Definition run6 : server Budget := snd (serveHTTP 1 run_conn proxy_request run5).
Definition run7 : server Budget := scan_begin run6.
Definition run8 : server Budget := scan_end (mkPass ∅ true)
  (scan_conn (mkPass {[run_conn]} true) run_conn (mkConn true Registered (Authed (sha256 old_key)) 1) run7).

Lemma run5_reach : rtc (step 1 1) run0 run5.
Proof.
  apply rtc_r with run4; [|eapply v_authed; vm_compute; reflexivity].
  apply rtc_r with run3; [|eapply v_check; vm_compute; reflexivity].
  apply rtc_r with run2; [|eapply v_store; vm_compute; reflexivity].
  apply rtc_r with run1; [|eapply v_request; [vm_compute; reflexivity|vm_compute; discriminate]].
  apply rtc_r with (accept_conn 1 run0); [|eapply v_register; vm_compute; reflexivity].
  apply rtc_once, v_accept.
Qed.

Lemma run6_reach : rtc (step 1 1) run0 run6.
Proof.
  eapply rtc_r; [apply run5_reach|]. eapply (v_request _ _ _ run_conn _ proxy_request);
    [vm_compute; reflexivity|vm_compute; discriminate].
Qed.

Lemma example_budget_wf : ad_wf example_budget /\ ad_held example_budget = ∅.
Proof. split; [exact (proj1 (New_wf 1 true example_budget eq_refl))|reflexivity]. Qed.

Lemma server_capacity_witness : size (streams run6) = 1%nat /\ (size (streams run6) <= 1)%nat.
Proof.
  split; [vm_compute; reflexivity|].
  exact (proj1 (server_capacity 1 1 example_snapshot (99 * second) example_budget example_budget run6
    (proj1 example_budget_wf) (proj1 example_budget_wf) eq_refl eq_refl run6_reach)).
Defined.

Lemma serve_gate_witness : exists sid, serveHTTP 1 run_conn proxy_request run5 = (RProxy sid, run6) /\
  (exists sid', RProxy sid = RProxy sid') /\ streams run5 !! sid = None.
Proof.
  eexists. assert (ad_wf (active run5)) as Hwf by exact (proj1 (New_wf 1 true example_budget eq_refl)).
  assert (serveHTTP 1 run_conn proxy_request run5 = (RProxy (fresh (dom (streams run5))), run6)) as E
    by (vm_compute; reflexivity).
  split; [exact E|]. split; [eauto|]. exact (proj1 (proj2 (serve_gate 1 run_conn proxy_request run5 _ _ Hwf E))).
Defined.

Lemma run8_reach : rtc (step 1 1) run0 run8.
Proof.
  eapply rtc_r; [|eapply (v_scan_end _ _ _ (mkPass ∅ true)); vm_compute; reflexivity].
  eapply rtc_r; [|eapply (v_scan _ _ _ (mkPass {[run_conn]} true) run_conn); [vm_compute; reflexivity|set_solver|vm_compute; reflexivity]].
  eapply rtc_r; [apply run6_reach|]. apply v_scan_begin. reflexivity.
Qed.

Lemma revocation_sound_witness : swept run8 = true /\
  forall x, conns run8 !! run_conn = Some x -> cn_open x = true -> cn_phase x = Authed (sha256 old_key) ->
    accepts run8 (sha256 old_key) = true.
Proof.
  split; [vm_compute; reflexivity|]. intros x.
  apply (revocation_sound 1 1 example_snapshot (99 * second) example_budget example_budget run8
    (proj1 example_budget_wf) (proj1 example_budget_wf) eq_refl eq_refl run8_reach); vm_compute; reflexivity.
Defined.

(** The same server once the previous key has expired. *)
Definition run9 : server Budget := set_creds example_snapshot (100 * second) run6.

Lemma revocation_exact_witness : exists s', rtc (step 1 1) run9 s' /\ closing s' = ∅ /\
  (cn_open <$> conns run9 !! run_conn) = Some true /\ (cn_open <$> conns s' !! run_conn) = Some false.
Proof.
  destruct (revocation_exact 1 1 run9 eq_refl) as (s' & HR & _ & _ & Hc & _ & _ & _ & Hcs).
  exists s'. split; [exact HR|]. split; [exact Hc|]. split; [vm_compute; reflexivity|].
  rewrite Hcs. vm_compute. reflexivity.
Defined.
