(* ===== verification/Client.v ===== *)
(** * Package client: opening the tunnel and its streams

    Models the sequential code of [internal/client/client.go]: the defaults of [New],
    [dialAuth], [openTunnelStream], the reconnection delays of [Run], the intervals of
    [runHeartbeat], [OpenTCP] with its leases, and the [Stream] it returns.  The state
    shared between goroutines ([getConn], [setConn], the UDP sessions) is in
    [ClientState].  Budgets are used only through the interface of package admission. *)
From S2P Require Import Prelude GoStd GoNet Protocol Admission Tunnel.

(** ** Options *)
Record Options := mkOptions {
  opt_CongestionControl : bytes;
  MaxActiveStreams : Z; MaxCompressedStreams : Z;
  opt_IdleTimeout : Z; opt_HandshakeTimeout : Z; RequestTimeout : Z;
  MaxPendingRequests : Z; MaxUDPSessions : Z;
  ALPN : bytes; Compression : bool; opt_MaxStreamRecvWindow : Z; opt_MaxConnRecvWindow : Z;
}.

(** The defaults that [New] fills in. *)
Definition New_options (o : Options) : Options :=
  let active := if MaxActiveStreams o <=? 0 then 128 else MaxActiveStreams o in
  mkOptions (opt_CongestionControl o) active
    (if MaxCompressedStreams o <=? 0 then Z.min 16 active else MaxCompressedStreams o)
    (if opt_IdleTimeout o <=? 0 then 60 * second else opt_IdleTimeout o)
    (if opt_HandshakeTimeout o <=? 0 then 10 * second else opt_HandshakeTimeout o)
    (if RequestTimeout o <=? 0 then 15 * second else RequestTimeout o)
    (if MaxPendingRequests o <=? 0 then 256 else MaxPendingRequests o)
    (if MaxUDPSessions o <=? 0 then 128 else MaxUDPSessions o)
    (if bool_decide (ALPN o = []) then bs "h3" else ALPN o)
    (Compression o) (opt_MaxStreamRecvWindow o) (opt_MaxConnRecvWindow o).

(** The QUIC options of the client; it accepts no incoming stream. *)
Definition quicConf (bbr : option (quic_Config -> quic_Config)) (o : Options) : option quic_Config :=
  NewQUICConfig bbr (mkQUICOptions (opt_CongestionControl o) true (opt_IdleTimeout o) (opt_HandshakeTimeout o)
    (opt_MaxStreamRecvWindow o) (opt_MaxConnRecvWindow o) (-1)).

(** [HTTPIdleCapacity]; Go's integer division truncates. *)
Definition HTTPIdleCapacity (o : Options) : Z :=
  let n := Z.quot (MaxActiveStreams o) 2 in
  if Compression o then Z.min n (Z.quot (MaxCompressedStreams o) 2) else n.

(** ** Reconnection and heartbeat *)
Definition millisecond : Z := 10 ^ 6.
Definition initialBackoff : Z := 500 * millisecond.
Definition maxBackoff : Z := 30 * second.
Definition heartbeatInterval : Z := 10 * second.
Definition heartbeatTimeout : Z := 15 * second.

(** The wait of [Run] for a draw [r] of [rand.Int64N(backoff/2 + 1)], and the next
    backoff. *)
Definition retry_delay (backoff r : Z) : Z := Z.quot backoff 2 + r.
Definition next_backoff (backoff : Z) : Z := Z.min (backoff * 2) maxBackoff.

(** The backoff of [Run] before each wait: an attempt that authenticated resets it, and
    every wait is followed by a doubling. *)
Fixpoint backoffs (backoff : Z) (attempts : list bool) : list Z :=
  match attempts with
  | [] => []
  | ok :: rest => let b := if ok then initialBackoff else backoff in b :: backoffs (next_backoff b) rest
  end.

Definition hb_interval (idle : Z) : Z := Z.min heartbeatInterval (Z.quot idle 3).
Definition hb_timeout (idle : Z) : Z := Z.min heartbeatTimeout (Z.quot idle 2).

(** One exchange of [runHeartbeat]: a ping is written, one byte is read; [true] keeps
    the loop running. *)
Definition heartbeat (w : writer) (r : reader) : bool * writer * reader :=
  match Write w [CtrlPing] with
  | (_, Some _, w') => (false, w', r)
  | (_, None, w') =>
      match ReadFull 1 r with
      | (Err _, r') => (false, w', r')
      | (Ok b, r') => (bool_decide (byte0 b = CtrlPong), w', r')
      end
  end.

(** The loop over [ticks] ticks: the number of exchanges that succeeded. *)
Fixpoint heartbeats (ticks : nat) (w : writer) (r : reader) : nat * writer * reader :=
  match ticks with
  | O => (O, w, r)
  | S n => match heartbeat w r with
           | (true, w', r') => let '(k, w'', r'') := heartbeats n w' r' in (S k, w'', r'')
           | (false, w', r') => (O, w', r')
           end
  end.

(** ** Opening a stream of the tunnel *)

Record connect_request := mkConnect { cq_method : bytes; cq_host : bytes; cq_version : bytes }.
Definition tunnel_request (authority : bytes) : connect_request :=
  mkConnect (bs "CONNECT") authority (Itoa (b2z Version)).

(** What the HTTP/3 layer answers to [openTunnelStream]: the result of
    [OpenRequestStream], of [SendRequestHeader] (for the request it is given), the
    response status, and the error of the context at the end. *)
Record h3_answers := mkH3 {
  h3_open : option error; h3_send : connect_request -> option error; h3_response : res Z; h3_ctx : option error;
}.

(** The result, and whether an opened stream was aborted. *)
Definition openTunnelStream (a : h3_answers) (authority : bytes) : option error * bool :=
  match h3_open a with
  | Some e => (Some e, false)
  | None =>
      match h3_send a (tunnel_request authority) with
      | Some e => (Some e, true)
      | None =>
          match h3_response a with
          | Err e => (Some e, true)
          | Ok status =>
              if status =? 503 then (Some (Wrapped "CONNECT unavailable" ErrCapacity), true)
              else if negb (status =? 200) then (Some (ErrNew "tunnel CONNECT status"), true)
              else match h3_ctx a with Some e => (Some e, true) | None => (None, false) end
          end
      end
  end.

Section auth.
Context `{Crypto}.

(** What [dialAuth] is given by the layers below: the QUIC dial, the control stream,
    the TLS exporter, the stream itself, and the context's error once the handshake is
    over. *)
Record auth_answers := mkAuth {
  da_dial : option error; da_stream : h3_answers; da_exporter : res bytes; da_io : io; da_ctx : option error;
}.

(** [dialAuth]: the result, whether the dialled connection was closed, and the control
    stream. *)
Definition dialAuth (psk : bytes) (a : auth_answers) : option error * bool * io :=
  match da_dial a with
  | Some e => (Some (Wrapped "dial tunnel" e), false, da_io a)
  | None =>
      match openTunnelStream (da_stream a) ControlAuthority with
      | (Some e, _) => (Some e, true, da_io a)
      | (None, _) =>
          match da_exporter a with
          | Err e => (Some e, true, da_io a)
          | Ok exporter =>
              match ClientAuth (da_io a) psk exporter with
              | (Some e, s) => (Some e, true, s)
              | (None, s) => match da_ctx a with Some e => (Some e, true, s) | None => (None, false, s) end
              end
          end
      end
  end.
End auth.

(** ** OpenTCP *)

(** What the environment answers to [OpenTCP]: [getConn], the stream of the tunnel, its
    two directions, and the context's error after the reply. *)
Record open_answers := mkOpen {
  op_conn : option error; op_stream : h3_answers; op_writer : writer; op_reader : reader; op_ctx : option error;
}.

(** The outcome.  [oo_lease] and [oo_codec] are the leases the returned [Stream] owns. *)
Record open_out := mkOut {
  oo_result : res bool;              (* the stream's [Compressed] *)
  oo_lease : option nat; oo_codec : option nat;
  oo_writer : writer;                (* what was written on the stream *)
  oo_aborted : bool;                 (* an opened stream was aborted *)
  oo_fallback : bool;                (* CodecFallback was counted *)
  oo_rejected : option string;       (* the label of Metrics.Rejected *)
  oo_pending : nat;                  (* the length of the channel [pending] at that point *)
}.

Definition has_flag (flags : byte) : bool := negb (Z.land (b2z flags) (b2z FlagCompress) =? 0).

(** The reply's flags are refused: an unknown bit, or compression nobody asked for. *)
Definition bad_flags (flags requested : byte) : bool :=
  negb (Z.land (b2z flags) (255 - b2z FlagCompress) =? 0) || (has_flag flags && negb (has_flag requested)).

Section open.
Context {B : Type} `{AdmissionOps B}.

(** The exchange on an opened stream, after the codec decision: the request goes out,
    the reply comes in. *)
Definition negotiate (target : Address) (reqFlags : byte) (a : open_answers) : res byte * writer :=
  match WriteTo (mkStreamRequest CmdTCPConnect reqFlags target) (op_writer a) with
  | (_, Some e, w) => (Err e, w)
  | (_, None, w) =>
      (match fst (ReadReply (op_reader a)) with
       | Err e => Err e
       | Ok (status, flags) =>
           if negb (bool_decide (status = StatusOK)) then Err (DialError (b2z status))
           else match op_ctx a with
                | Some e => Err e
                | None => if bad_flags flags reqFlags then Err (ErrNew "tunnel: unrequested stream flags") else Ok flags
                end
       end, w)
  end.

(** [OpenTCP] while its request is pending: it holds the lease [l] of the active budget
    and one of the [pending] slots. *)
Definition open_pending (compression wantCompress : bool) (target : Address) (a : open_answers) (l : nat)
    (active codecs : B) (pending : nat) : open_out * B * B :=
  match op_conn a with
  | Some e => (mkOut (Err e) None None (op_writer a) false false None pending, ad_release (Some l) active, codecs)
  | None =>
      match openTunnelStream (op_stream a) ProxyAuthority with
      | (Some e, aborted) =>
          (mkOut (Err e) None None (op_writer a) aborted false None pending, ad_release (Some l) active, codecs)
      | (None, _) =>
          let wanted := wantCompress && compression in
          let '(codec, cod) := if wanted then ad_try codecs else (None, codecs) in
          let acquired := bool_decide (is_Some codec) in
          let fallback := wanted && negb acquired in
          let reqFlags := if acquired then FlagCompress else Byte.x00 in
          match negotiate target reqFlags a with
          | (Err e, w) =>
              (mkOut (Err e) None None w true fallback None pending, ad_release (Some l) active, ad_release codec cod)
          | (Ok flags, w) =>
              if has_flag flags
              then (mkOut (Ok true) (Some l) codec w false fallback None pending, active, cod)
              else (mkOut (Ok false) (Some l) None w false fallback None pending, active, ad_release codec cod)
          end
      end
  end.

(** The deferred receive from [pending]. *)
Definition leave_pending (o : open_out) : open_out :=
  mkOut (oo_result o) (oo_lease o) (oo_codec o) (oo_writer o) (oo_aborted o) (oo_fallback o) (oo_rejected o) (oo_pending o - 1).

(** [OpenTCP], with the two budgets and the channel [pending] of capacity [maxPending],
    as this call changes them. *)
Definition OpenTCP (compression wantCompress : bool) (maxPending : nat) (target : Address) (a : open_answers)
    (active codecs : B) (pending : nat) : open_out * B * B :=
  match ad_try active with
  | (None, act) => (mkOut (Err ErrCapacity) None None (op_writer a) false false (Some "stream") pending, act, codecs)
  | (Some l, act) =>
      if negb (bool_decide (pending < maxPending)%nat)
      then (mkOut (Err ErrCapacity) None None (op_writer a) false false (Some "pending") pending,
            ad_release (Some l) act, codecs)
      else
        let '(out, act, cod) := open_pending compression wantCompress target a l act codecs (S pending) in
        (leave_pending out, act, cod)
  end.
End open.

(** ** Stream *)

(** The [Stream] of [OpenTCP], the calls made on its [RequestStream] and the release of its
    leases, in the order they happen. *)
Inductive stream_op := CloseFIN | CancelReadOp | CancelWriteOp | ReleaseLeases.
#[export] Instance stream_op_eq_dec : EqDecision stream_op.
Proof. solve_decision. Defined.

(** Where the one caller of [Close] that entered [closeOnce] stands: the action it takes
    next.  Later callers wait for it and return. *)
Inductive closer := NotClosed | ClStop | ClRelease | ClCancelRead | ClLoad | ClCancelWrite | Closed.

(** The callback on the connection's context: it waits for the context, runs in a goroutine
    of its own, was stopped before it started, or has run. *)
Inductive callback := CbArmed | CbStarted | CbStopped | CbRan.

(** [sm_fin]: a [CloseWrite] has won the compare-and-swap and not yet sent the FIN;
    [sm_released]: the [once] of [release]; [sm_after]: the callback. *)
Record Stream := mkStream {
  sm_writeClosed : bool; sm_fin : bool; sm_close : closer; sm_released : bool; sm_after : callback;
  sm_calls : list stream_op;
}.
Definition newStream : Stream := mkStream false false NotClosed false CbArmed [].

Definition stream_call (o : stream_op) (s : Stream) : Stream :=
  mkStream (sm_writeClosed s) (sm_fin s) (sm_close s) (sm_released s) (sm_after s) (sm_calls s ++ [o]).
Definition sm_release (s : Stream) : Stream :=
  if sm_released s then s
  else stream_call ReleaseLeases (mkStream (sm_writeClosed s) (sm_fin s) (sm_close s) true (sm_after s) (sm_calls s)).
Definition set_closer (k : closer) (s : Stream) : Stream :=
  mkStream (sm_writeClosed s) (sm_fin s) k (sm_released s) (sm_after s) (sm_calls s).
Definition set_after (k : callback) (s : Stream) : Stream :=
  mkStream (sm_writeClosed s) (sm_fin s) (sm_close s) (sm_released s) k (sm_calls s).
(** [stopRelease]: it keeps a callback from starting, and does nothing to one that started. *)
Definition stopRelease (s : Stream) : Stream :=
  match sm_after s with CbArmed => set_after CbStopped s | _ => s end.

(** [CloseWrite]: the compare-and-swap, and then the FIN. *)
Definition CloseWrite_swap (s : Stream) : Stream :=
  if sm_writeClosed s then s
  else mkStream true true (sm_close s) (sm_released s) (sm_after s) (sm_calls s).
Definition CloseWrite_fin (s : Stream) : Stream :=
  stream_call CloseFIN (mkStream (sm_writeClosed s) false (sm_close s) (sm_released s) (sm_after s) (sm_calls s)).

(** The next action of [Close]. *)
Definition Close (s : Stream) : Stream :=
  match sm_close s with
  | NotClosed => set_closer ClStop s
  | ClStop => set_closer ClRelease (stopRelease s)
  | ClRelease => set_closer ClCancelRead (sm_release s)
  | ClCancelRead => set_closer ClLoad (stream_call CancelReadOp s)
  | ClLoad => set_closer (if sm_writeClosed s then Closed else ClCancelWrite) s
  | ClCancelWrite => set_closer Closed (stream_call CancelWriteOp s)
  | Closed => s
  end.

(** The callback of [context.AfterFunc] on the connection's context: the context starts it,
    and it releases. *)
Definition conn_done (s : Stream) : Stream :=
  match sm_after s with CbArmed => set_after CbStarted s | _ => s end.
Definition conn_released (s : Stream) : Stream := sm_release (set_after CbRan s).

(** Everything that uses the stream, interleaved. *)
Inductive stream_step : Stream -> Stream -> Prop :=
| ss_swap s : stream_step s (CloseWrite_swap s)
| ss_fin s : sm_fin s = true -> stream_step s (CloseWrite_fin s)
| ss_close s : stream_step s (Close s)
| ss_done s : stream_step s (conn_done s)
| ss_released s : sm_after s = CbStarted -> stream_step s (conn_released s).

(** ** Properties *)

Section open_laws.
Context {B : Type} `{AdmissionLaws B}.
Implicit Types (active codecs : B).

Lemma openTunnelStream_ok a auth e ab : openTunnelStream a auth = (e, ab) ->
  (e = None -> ab = false /\ h3_open a = None /\ h3_response a = Ok 200 /\ h3_ctx a = None) /\
  (e <> None -> ab = bool_decide (h3_open a = None)).
Proof.
  unfold openTunnelStream. destruct (h3_open a); [by intros [= <- <-]|].
  destruct (h3_send a _); [by intros [= <- <-]|]. destruct (h3_response a) as [st|]; [|by intros [= <- <-]].
  destruct (Z.eqb_spec st 503); [by intros [= <- <-]|]. destruct (Z.eqb_spec st 200) as [->|]; cbn [negb]; [|by intros [= <- <-]].
  destruct (h3_ctx a); by intros [= <- <-].
Qed.

(** The pending part: every return accounts for the lease it was given and for the codec
    lease it took. *)
Lemma open_pending_leases compression want target a l active codecs act0 n out act cod :
  ad_wf codecs -> ad_wf act0 -> l ∉ ad_held active -> ad_held act0 = {[l]} ∪ ad_held active ->
  open_pending compression want target a l act0 codecs n = (out, act, cod) ->
  ad_wf act /\ ad_wf cod /\ oo_pending out = n /\ oo_rejected out = None /\
  match oo_result out with
  | Ok compressed =>
      oo_aborted out = false /\ oo_lease out = Some l /\ ad_held act = {[l]} ∪ ad_held active /\
      (if compressed
       then exists k, oo_codec out = Some k /\ k ∉ ad_held codecs /\ ad_held cod = {[k]} ∪ ad_held codecs /\
              want = true /\ compression = true
       else oo_codec out = None /\ ad_held cod = ad_held codecs)
  | Err _ =>
      oo_lease out = None /\ oo_codec out = None /\ ad_held act = ad_held active /\ ad_held cod = ad_held codecs /\
      oo_aborted out = (bool_decide (op_conn a = None) && bool_decide (h3_open (op_stream a) = None))
  end.
Proof.
  intros Hwc Hw Hl Hh. unfold open_pending. destruct (ad_release_granted _ _ _ Hw Hl Hh) as (Hwr & Hhr & _).
  destruct (op_conn a); [by intros [= <- <- <-]|].
  destruct (openTunnelStream _ _) as [[e|] ab] eqn:Eo; apply openTunnelStream_ok in Eo as [Ho1 Ho2].
  { intros [= <- <- <-]. cbn. by rewrite Ho2. }
  destruct (Ho1 eq_refl) as (_ & Hopen & _).
  destruct (if want && compression then _ else _) as [codec cod0] eqn:Ec.
  destruct (codec_try _ _ _ _ Hwc Ec) as (Hw1 & _ & Hcase & Hw2 & Hh2).
  destruct (negotiate _ _ _) as [[flags|e] w] eqn:En.
  2: { intros [= <- <- <-]. cbn. by rewrite Hopen. }
  destruct (has_flag flags) eqn:Ef; intros [= <- <- <-]; cbn; split_and!; try done.
  destruct codec as [k|].
  - destruct Hcase as ([? ?]%andb_true_iff & ? & ?). eauto 10.
  - exfalso. unfold negotiate in En. destruct (WriteTo _ _) as [[n' [e|]] w'] in En; [done|].
    destruct (fst _) as [[st fl]|] in En; [|done]. destruct (bool_decide _) in En; [|done]. destruct (op_ctx a); [done|].
    unfold bad_flags in En. cbn [negb] in En.
    destruct (_ || _) eqn:Eb in En; [done|]. injection En as -> _. rewrite Ef in Eb. cbn in Eb. by rewrite orb_true_r in Eb.
Qed.

(** C21: [OpenTCP] never leaks.  Whatever the tunnel, the peer and the context do, the
    slot it took among the pending requests is free again when it returns; an
    error leaves both budgets with the leases they had, and a stream it had opened is
    aborted; success hands over exactly one new lease of the active budget and, exactly
    for a compressed stream, one of the codec budget, which only happens when the
    caller and the configuration both asked for compression. *)
Theorem open_tcp_leases compression want maxPending target a active codecs pending out act cod :
  ad_wf active -> ad_wf codecs ->
  OpenTCP compression want maxPending target a active codecs pending = (out, act, cod) ->
  ad_wf act /\ ad_wf cod /\ oo_pending out = pending /\
  (oo_rejected out = Some "pending"%string <-> (size (ad_held active) < ad_limit active)%nat /\ (maxPending <= pending)%nat) /\
  match oo_result out with
  | Ok compressed =>
      oo_aborted out = false /\ (pending < maxPending)%nat /\
      (exists l, oo_lease out = Some l /\ l ∉ ad_held active /\ ad_held act = {[l]} ∪ ad_held active) /\
      (if compressed
       then exists k, oo_codec out = Some k /\ k ∉ ad_held codecs /\ ad_held cod = {[k]} ∪ ad_held codecs /\
              want = true /\ compression = true
       else oo_codec out = None /\ ad_held cod = ad_held codecs)
  | Err _ =>
      oo_lease out = None /\ oo_codec out = None /\ ad_held act = ad_held active /\ ad_held cod = ad_held codecs /\
      oo_aborted out = (bool_decide (oo_rejected out = None) && bool_decide (op_conn a = None) &&
                        bool_decide (h3_open (op_stream a) = None))
  end.
Proof.
  intros Hwa Hwc. unfold OpenTCP. destruct (ad_try active) as [r act0] eqn:E.
  destruct (ad_try_cases _ _ _ Hwa E) as [(l & -> & Hw & Hl & Hh & _ & Hlt)|(-> & -> & Hfull)].
  2: { intros [= <- <- <-]. split_and!; try done. cbn. split; [done|]. intros [? _]. lia. }
  destruct (ad_release_granted _ _ _ Hw Hl Hh) as (Hwr & Hhr & _).
  destruct (bool_decide_reflect (pending < maxPending)%nat) as [Hp|Hp]; cbn [negb].
  2: { intros [= <- <- <-]. split_and!; try done. cbn. split; [|done]. intros _. split; [done|lia]. }
  destruct (open_pending _ _ _ _ _ _ _ _) as [[o act1] cod1] eqn:EO. intros [= <- <- <-].
  destruct (open_pending_leases compression want target a l active codecs act0 (S pending) o act1 cod1 Hwc Hw Hl Hh EO)
    as (H1 & H2 & H3 & H4 & H5).
  split_and!; [done|done|cbn; lia| |].
  - cbn. rewrite H4. split; [done|]. intros [_ ?]. lia.
  - cbn [leave_pending oo_result oo_aborted oo_lease oo_codec oo_rejected]. destruct (oo_result o); [|by rewrite H4 in *]. naive_solver.
Qed.
End open_laws.

Lemma dialAuth_closed `{Crypto} psk a err closed s : dialAuth psk a = (err, closed, s) ->
  closed = (bool_decide (err <> None) && bool_decide (da_dial a = None)).
Proof.
  unfold dialAuth. destruct (da_dial a); [by intros [= <- <- <-]|].
  destruct (openTunnelStream _ _) as [[e|] ab]; [by intros [= <- <- <-]|].
  destruct (da_exporter a); [|by intros [= <- <- <-]].
  destruct (ClientAuth _ _ _) as [[e|] s1]; [by intros [= <- <- <-]|].
  destruct (da_ctx a); by intros [= <- <- <-].
Qed.

(** C22: a tunnel goes live only after the server proved the shared key for this TLS
    session.  When [dialAuth] succeeds the control stream was opened with status 200
    for the versioned CONNECT request, the client's proof was written, the first bytes
    read were the server's proof over this session's exporter, and the deadline had not
    passed; every dialled connection that does not reach that point is closed. *)
Theorem dial_auth_sound `{CryptoLaws} psk a err closed s : dialAuth psk a = (err, closed, s) ->
  closed = (bool_decide (err <> None) && bool_decide (da_dial a = None)) /\
  (err = None ->
     h3_send (da_stream a) (tunnel_request ControlAuthority) = None /\ h3_response (da_stream a) = Ok 200 /\
     da_ctx a = None /\
     exists exporter rest, da_exporter a = Ok exporter /\
       rd_data (io_in (da_io a)) = proof psk exporter "server" ++ rest /\
       wr_out (io_out s) = wr_out (io_out (da_io a)) ++ proof psk exporter "client").
Proof.
  intros E. split; [by eapply dialAuth_closed|]. intros ->. revert E. unfold dialAuth.
  destruct (da_dial a); [done|]. destruct (openTunnelStream _ _) as [[e|] ab] eqn:Eo; [done|].
  destruct (openTunnelStream_ok _ _ _ _ Eo) as [Ho _]. destruct (Ho eq_refl) as (_ & Hop & Hr & _).
  assert (h3_send (da_stream a) (tunnel_request ControlAuthority) = None) as Hs.
  { unfold openTunnelStream in Eo. rewrite Hop in Eo. by destruct (h3_send _ _). }
  destruct (da_exporter a) as [ex|]; [|done]. destruct (ClientAuth _ _ _) as [[e|] s1] eqn:Ea; [done|].
  destruct (da_ctx a); [done|]. intros [= _ <-]. split; [done|]. split; [done|]. split; [done|].
  destruct (ClientAuth_sound _ _ _ _ Ea) as (rest & ? & _ & ?). eauto.
Qed.

(** ** The life of a stream *)

(** How far [Close] is. *)
Definition close_rank (k : closer) : nat :=
  match k with NotClosed => 0 | ClStop => 1 | ClRelease => 2 | ClCancelRead => 3 | ClLoad => 4 | ClCancelWrite => 5 | Closed => 6 end.

(** [Close] is about to take action [p], or past it. *)
Definition reached (p k : closer) : bool := (close_rank p <=? close_rank k)%nat.

(** What the calls made so far say about the state. *)
Record stream_inv (s : Stream) : Prop := {
  si_nodup : NoDup (sm_calls s);
  si_fin : CloseFIN ∈ sm_calls s <-> sm_writeClosed s = true /\ sm_fin s = false;
  si_swap : sm_fin s = true -> sm_writeClosed s = true;
  si_read : CancelReadOp ∈ sm_calls s <-> reached ClLoad (sm_close s) = true;
  si_rel : ReleaseLeases ∈ sm_calls s <-> sm_released s = true;
  si_released : sm_released s = true <-> reached ClCancelRead (sm_close s) = true \/ sm_after s = CbRan;
  si_armed : reached ClRelease (sm_close s) = true -> sm_after s <> CbArmed;
  si_write : CancelWriteOp ∈ sm_calls s -> sm_close s = Closed;
  si_end : sm_close s = Closed -> CancelWriteOp ∈ sm_calls s \/ sm_writeClosed s = true;
}.

Lemma NoDup_snoc {A} (l : list A) x : NoDup l -> x ∉ l -> NoDup (l ++ [x]).
Proof. intros Hl Hx. apply NoDup_app. split; [done|]. split; [set_solver|apply NoDup_singleton]. Qed.

(** One more call keeps the list free of repetitions; the rest is propositional. *)
Ltac stream_goal :=
  cbn in *; rewrite ?orb_false_r, ?orb_true_r, ?elem_of_app, ?elem_of_cons, ?elem_of_nil in *;
  first [done | apply NoDup_snoc; [done|]; intuition congruence | intuition congruence].

Lemma stream_inv_step s s' : stream_step s s' -> stream_inv s -> stream_inv s'.
Proof.
  intros Hst. destruct Hst as [s|s Hf|s|s|s Hf]; destruct s as [wc fin k rel cb calls]; intros [H1 H2 H3 H4 H5 H6 H7 H8 H9]; cbn in *.
  - unfold CloseWrite_swap. cbn. destruct wc; [by split|]. split; stream_goal.
  - subst fin. split; stream_goal.
  - destruct k; unfold Close, sm_release, stopRelease; cbn; [..|by split].
    2: destruct cb. 6: destruct rel. 9: destruct wc. all: split; stream_goal.
  - unfold conn_done. cbn. destruct cb; cbn; [|by split..]. split; stream_goal.
  - subst cb. unfold conn_released, sm_release. cbn. destruct rel; split; stream_goal.
Qed.

Lemma stream_inv_reach s : rtc stream_step newStream s -> stream_inv s.
Proof.
  assert (stream_inv newStream) as H0 by (split; cbn; rewrite ?elem_of_nil; first [apply NoDup_nil_2 | naive_solver]).
  intros Hst. revert H0. induction Hst as [|s s1 s2 H1 _ IH]; intros HI; [done|]. apply IH. by eapply stream_inv_step.
Qed.

(** A [CloseWrite] that wins before [Close] looks keeps the writing half from being reset. *)
Definition kept_open (s : Stream) : Prop :=
  sm_writeClosed s = true /\ sm_close s <> ClCancelWrite /\ CancelWriteOp ∉ sm_calls s.

Lemma kept_open_step s s' : stream_step s s' -> kept_open s -> kept_open s'.
Proof.
  unfold kept_open. intros Hst (H1 & H2 & H3).
  destruct Hst as [s|s Hf|s|s|s Hf]; destruct s as [wc fin k rel cb calls]; cbn in *; subst wc.
  - done.
  - split_and!; [done|done|]. set_solver.
  - destruct k, rel, cb; unfold Close, sm_release, stopRelease; cbn; split_and!; try done; set_solver.
  - unfold conn_done. destruct cb; cbn; split_and!; try done; set_solver.
  - unfold conn_released, sm_release. destruct rel; cbn; split_and!; try done; set_solver.
Qed.

(** C23: a stream of the client under concurrent [CloseWrite], [Close] and end of the tunnel
    connection, as interleaved atomic actions.  Every call on the QUIC stream is made at most
    once.  The leases are released exactly when [Close] got that far or the callback of
    the connection ran, and only once; a callback that [Close] stopped does not start.  The FIN is sent by the [CloseWrite] that won, and reading is
    cancelled by [Close].  When [Close] has returned, the writing half was either reset or
    closed by a FIN that is sent or about to be sent.  If a [CloseWrite] won before [Close]
    looked at the flag, the writing half is never reset, so a half-closed stream still
    delivers what was written.  [Close] always goes on to its end. *)
Theorem stream_lifecycle s : rtc stream_step newStream s ->
  NoDup (sm_calls s) /\
  (ReleaseLeases ∈ sm_calls s <-> reached ClCancelRead (sm_close s) = true \/ sm_after s = CbRan) /\
  (reached ClRelease (sm_close s) = true -> sm_after s <> CbArmed) /\
  (CloseFIN ∈ sm_calls s <-> sm_writeClosed s = true /\ sm_fin s = false) /\
  (CancelReadOp ∈ sm_calls s <-> reached ClLoad (sm_close s) = true) /\
  (sm_close s = Closed -> CancelWriteOp ∈ sm_calls s \/ sm_writeClosed s = true) /\
  (sm_writeClosed s = true -> reached (sm_close s) ClLoad = true ->
     forall s', rtc stream_step s s' -> CancelWriteOp ∉ sm_calls s') /\
  (sm_close s <> Closed -> (close_rank (sm_close s) < close_rank (sm_close (Close s)))%nat).
Proof.
  intros HI%stream_inv_reach. pose proof HI as [H1 H2 H3 H4 H5 H6 H7 H8 H9]. split_and!.
  - done.
  - by rewrite H5, H6.
  - done.
  - done.
  - done.
  - done.
  - intros Hw Hk s' Hst. assert (kept_open s) as HK.
    { split_and!; [done|by intros E; rewrite E in Hk|]. intros Hin%H8. by rewrite Hin in Hk. }
    clear -HK Hst. induction Hst as [|s s1 s2 H1 _ IH]; [apply HK|]. apply IH. by eapply kept_open_step.
  - intros Hne. unfold Close. destruct s as [wc fin k rel cb calls]. cbn in *. destruct k, wc; cbn; done || lia.
Qed.

(** The flag is only looked at: a [CloseWrite] that wins between the look and the reset has
    its FIN followed by the reset. *)
Example close_race : rtc stream_step newStream
  (mkStream true false Closed true CbStopped [ReleaseLeases; CancelReadOp; CloseFIN; CancelWriteOp]).
Proof.
  do 5 (eapply rtc_l; [apply ss_close|]; cbn). eapply rtc_l; [apply ss_swap|]. eapply rtc_l; [apply ss_fin; reflexivity|].
  eapply rtc_l; [apply ss_close|]. apply rtc_refl.
Qed.

Definition half_closed : Stream := CloseWrite_swap newStream.
Definition half_then_closed : Stream := Close (Close (Close (Close (Close half_closed)))).

Lemma stream_lifecycle_witness : sm_close half_then_closed = Closed /\ CancelWriteOp ∉ sm_calls half_then_closed.
Proof.
  split; [reflexivity|]. destruct (stream_lifecycle half_closed) as (_ & _ & _ & _ & _ & _ & H & _).
  { eapply rtc_l; [apply ss_swap|apply rtc_refl]. }
  apply H; [reflexivity|reflexivity|]. do 5 (eapply rtc_l; [apply ss_close|]). apply rtc_refl.
Defined.

(** ** Reconnection *)

Lemma backoffs_bounds b attempts : initialBackoff <= b <= maxBackoff ->
  Forall (fun x => initialBackoff <= x <= maxBackoff) (backoffs b attempts).
Proof.
  revert b. induction attempts as [|ok rest IH]; intros b Hb; [constructor|]. cbn.
  assert (initialBackoff <= (if ok then initialBackoff else b) <= maxBackoff) as Hb'.
  { destruct ok; [|done]. by vm_compute. }
  constructor; [done|]. apply IH. revert Hb'. unfold next_backoff. generalize (if ok then initialBackoff else b).
  intros x. change initialBackoff with 500000000. change maxBackoff with 30000000000. lia.
Qed.

Lemma backoffs_failures n k : Forall (eq false) n -> 0 <= k ->
  forall i x, backoffs (Z.min (initialBackoff * 2 ^ k) maxBackoff) n !! i = Some x ->
    x = Z.min (initialBackoff * 2 ^ (k + Z.of_nat i)) maxBackoff.
Proof.
  intros HF. revert k. induction HF as [|? n <- _ IH]; intros k Hk i x; [done|]. destruct i as [|i]; cbn.
  - intros [= <-]. by rewrite Z.add_0_r.
  - replace (next_backoff _) with (Z.min (initialBackoff * 2 ^ (k + 1)) maxBackoff).
    + intros Hx. rewrite (IH (k + 1) ltac:(lia) i x Hx). do 3 f_equal. lia.
    + unfold next_backoff. rewrite Z.pow_add_r by lia. change maxBackoff with 30000000000. lia.
Qed.

(** The reconnection delays.  Whatever happened before, each wait lies between half
    and the whole of a backoff that stays within 500 ms and 30 s; the k-th wait after a
    successful attempt (or the start) in a row of failures uses 500 ms doubled k times,
    capped at 30 s; and a heartbeat that fails is detected before the idle timeout of
    the connection. *)
Theorem reconnect_backoff attempts failures idle :
  Forall (fun b => initialBackoff <= b <= maxBackoff /\
            forall r, 0 <= r < Z.quot b 2 + 1 -> Z.quot b 2 <= retry_delay b r <= b)
    (backoffs initialBackoff attempts) /\
  (Forall (eq false) failures -> forall i x, backoffs initialBackoff failures !! i = Some x ->
     x = Z.min (initialBackoff * 2 ^ Z.of_nat i) maxBackoff) /\
  (6 <= idle -> 0 < hb_interval idle /\ 0 < hb_timeout idle /\ hb_interval idle + hb_timeout idle < idle).
Proof.
  split; [|split].
  - eapply Forall_impl; [apply (backoffs_bounds initialBackoff attempts); by vm_compute|]. cbn.
    intros b Hb. split; [done|]. intros r Hr. unfold retry_delay.
    assert (0 <= b) by (change initialBackoff with 500000000 in Hb; lia).
    rewrite Z.quot_div_nonneg in * by lia. pose proof (Z.mul_div_le b 2 ltac:(lia)). lia.
  - intros HF i x Hx. apply (backoffs_failures failures 0 HF ltac:(lia) i x).
    by rewrite Z.pow_0_r.
  - intros Hi. unfold hb_interval, hb_timeout. rewrite !Z.quot_div_nonneg by lia.
    change heartbeatInterval with 10000000000. change heartbeatTimeout with 15000000000.
    pose proof (Z.mul_div_le idle 3 ltac:(lia)). pose proof (Z.mul_div_le idle 2 ltac:(lia)).
    pose proof (Z.div_le_lower_bound idle 3 1 ltac:(lia) ltac:(lia)).
    pose proof (Z.div_le_lower_bound idle 2 1 ltac:(lia) ltac:(lia)). lia.
Qed.

(** ** Concrete runs *)
#[local] Existing Instance toy_crypto.
#[local] Existing Instance toy_laws.

Definition example_h3 : h3_answers := mkH3 None (fun _ => None) (Ok 200) None.
Definition example_target : Address := mkAddress AtypDomain (bs "example.org") [] 443.
Definition example_open : open_answers :=
  mkOpen None example_h3 (Writer [] []) (Reader [StatusOK; FlagCompress] EOF) None.

Lemma client_budget_wf : ad_wf example_budget.
Proof. exact (proj1 (New_wf 1 true example_budget eq_refl)). Qed.

Lemma open_tcp_leases_witness : exists out act cod,
  OpenTCP true true 1 example_target example_open example_budget example_budget 0 = (out, act, cod) /\
  oo_result out = Ok true /\ ad_wf act.
Proof.
  do 3 eexists. split; [vm_compute; reflexivity|]. split; [reflexivity|].
  refine (proj1 (open_tcp_leases true true 1 example_target example_open example_budget example_budget 0 _ _ _
    client_budget_wf client_budget_wf _)). vm_compute. reflexivity.
Defined.

Definition example_auth : auth_answers :=
  mkAuth None example_h3 (Ok (bs "exporter"))
    (mkIO (Reader (proof new_key (bs "exporter") "server") EOF) (Writer [] []) []) None.

Lemma dial_auth_sound_witness : exists s, dialAuth new_key example_auth = (None, false, s) /\
  false = (bool_decide (@None error <> None) && bool_decide (da_dial example_auth = None)).
Proof.
  eexists. split; [vm_compute; reflexivity|].
  refine (proj1 (dial_auth_sound new_key example_auth None false _ _)). vm_compute. reflexivity.
Defined.

Lemma reconnect_backoff_witness :
  backoffs initialBackoff [false; false; true; false] =
    [500 * millisecond; second; 500 * millisecond; second] /\
  hb_interval (60 * second) + hb_timeout (60 * second) < 60 * second.
Proof.
  split; [vm_compute; reflexivity|].
  apply (reconnect_backoff [] [] (60 * second)). unfold second. lia.
Defined.
