(* ===== verification/ClientState.v ===== *)
(** * Package client: the state shared between goroutines

    Models the parts of [internal/client/client.go] that run concurrently: [Run] with
    [setConn], [clearConn] and its final clean-up, any number of callers in [getConn],
    the UDP sessions ([NewUDPSession], [Close]) and the dispatcher
    [dispatchDatagrams].  Each step is one critical section or one channel operation.
    [Send] is a function of what the state and the network answer. *)
From S2P Require Import Prelude GoStd GoNet Protocol.

(** ** State *)

(** A caller of [getConn]: about to take the lock; holding its copy of [live], [ready]
    and [stopped]; waiting on a [ready] channel; returned.  The [ready] channels are
    numbered: those below the current [gen] are closed. *)
Inductive getconn :=
| GLoad | GLoaded (l : option nat) (g : nat) (stop : bool) | GWait (g : nat) | GDone (r : res nat).

(** [Run]: dialling or waiting to; a tunnel is live; cleared and closing it; the first
    and the second part of the deferred clean-up done. *)
Inductive run_phase := Dialing | Live (c : nat) | Closing (c : nat) | Stopping | Stopped.

(** [dispatchDatagrams]: not running; in [ReceiveDatagram]; between its steps for a
    decoded datagram: before the lookup, with the session found, with its [done] seen
    open. *)
Inductive dispatch := DOff | DIdle | DHave (dg : Datagram) | DFound (dg : Datagram) (u : nat) | DReady (dg : Datagram) (u : nat).

(** A [UDPSession] object. *)
Record session := mkSession { us_id : Z; us_recv : list Datagram; us_done : bool }.

(** [udpRoutes] maps identifiers to session objects; [created] is [sessionSeq] before it
    is reduced to 64 bits. *)
Record client := mkClient {
  live : option nat; gen : nat; stopped : bool; run : run_phase;
  dialled : gset nat; dead : gset nat; callers : gmap nat getconn;
  created : nat; routes : gmap Z nat; sessions : gmap nat session; disp : dispatch;
}.

Definition client_init : client := mkClient None 0 false Dialing ∅ ∅ ∅ 0 ∅ ∅ DOff.

Definition set_tunnel l g b r (s : client) := mkClient l g b r (dialled s) (dead s) (callers s) (created s) (routes s) (sessions s) (disp s).
Definition set_dialled x d (s : client) := mkClient (live s) (gen s) (stopped s) (run s) x d (callers s) (created s) (routes s) (sessions s) (disp s).
Definition set_callers x (s : client) := mkClient (live s) (gen s) (stopped s) (run s) (dialled s) (dead s) x (created s) (routes s) (sessions s) (disp s).
Definition set_udp n r u (s : client) := mkClient (live s) (gen s) (stopped s) (run s) (dialled s) (dead s) (callers s) n r u (disp s).
Definition set_disp d (s : client) := mkClient (live s) (gen s) (stopped s) (run s) (dialled s) (dead s) (callers s) (created s) (routes s) (sessions s) d.
Definition set_caller (w : nat) (x : getconn) (s : client) := set_callers (<[w := x]> (callers s)) s.

(** ** getConn, setConn, clearConn *)

Definition setConn (c : nat) (s : client) : client := set_tunnel (Some c) (S (gen s)) (stopped s) (Live c) s.
Definition clearConn (c : nat) (s : client) : client :=
  set_tunnel (if bool_decide (live s = Some c) then None else live s) (gen s) (stopped s) (Closing c) s.

(** The decision of [getConn] on its copy of the fields; [gone] are the connections
    whose context is done. *)
Definition getConn_check (gone : gset nat) (l : option nat) (g : nat) (stop : bool) : getconn :=
  if stop then GDone (Err ErrClosed)
  else match l with
       | Some c => if bool_decide (c ∈ gone) then GWait g else GDone (Ok c)
       | None => GWait g
       end.

(** The deferred function of [Run], in its two critical sections. *)
Definition stop_tunnel (s : client) : client := set_tunnel None (S (gen s)) true Stopping s.
Definition stop_session (u : session) : session := mkSession (us_id u) (us_recv u) true.
Definition stop_sessions (s : client) : client :=
  set_tunnel (live s) (gen s) (stopped s) Stopped
    (set_udp (created s) ∅
       (map_imap (fun i u => Some (if bool_decide (i ∈ (map_img (routes s) : gset nat)) then stop_session u else u))
          (sessions s)) s).

(** ** UDP sessions *)
Definition recvSize : nat := 32.
Definition session_id (n : nat) : Z := Z.of_nat n mod 2 ^ 64.

Definition NewUDPSession (max : nat) (s : client) : res nat * client :=
  if stopped s then (Err ErrClosed, s)
  else if bool_decide (max <= size (routes s))%nat then (Err ErrCapacity, s)
  else
    let n := S (created s) in
    (Ok n, set_udp n (<[session_id n := n]> (routes s))
             (<[n := mkSession (session_id n) [] false]> (sessions s)) s).

(** [Close] of session object [u]. *)
Definition UDPClose (u : nat) (x : session) (s : client) : client :=
  set_udp (created s) (delete (us_id x) (routes s)) (<[u := stop_session x]> (sessions s)) s.

(** What [Send] does, given the state of the session and the answers of [getConn] and
    [SendDatagram]: its error, the drop it counts, and the datagram it hands to the
    connection. *)
Definition Send (id : Z) (done : bool) (conn : option error) (send : option error) (target : Address) (payload : bytes)
    : option error * option string * option bytes :=
  match Validate target with
  | Some e => (Some e, Some "invalid", None)
  | None =>
      if Port target =? 0 then (Some (ErrNew "UDP destination port must be nonzero"), Some "invalid", None)
      else if done then (Some ErrClosed, Some "closed", None)
      else if bool_decide (MaxUDPPayload < length payload)%nat
      then (Some (ErrNew "UDP payload exceeds supported size"), Some "size", None)
      else match conn with
           | Some e => (Some e, Some "send", None)
           | None =>
               let data := EncodeDatagram id target payload in
               if bool_decide (MaxUDPDatagramSize < length data)%nat
               then (Some (ErrNew "UDP envelope exceeds supported size"), Some "size", None)
               else match send with
                    | Some e => (Some e, Some "send", Some data)
                    | None => (None, None, Some data)
                    end
           end
  end.

(** ** The dispatcher *)
Definition dispatch_recv (data : bytes) : dispatch :=
  match DecodeDatagram data with Err _ => DIdle | Ok dg => DHave dg end.

Definition dispatch_lookup (dg : Datagram) (s : client) : dispatch :=
  match routes s !! SessionID dg with None => DIdle | Some u => DFound dg u end.

(** The non-blocking send into the session's channel. *)
Definition dispatch_send (dg : Datagram) (u : nat) (x : session) (s : client) : client :=
  set_disp DIdle
    (if bool_decide (length (us_recv x) < recvSize)%nat
     then set_udp (created s) (routes s) (<[u := mkSession (us_id x) (us_recv x ++ [dg]) (us_done x)]> (sessions s)) s
     else s).

(** ** The interleaving *)
Section step.
Context (maxSessions : nat).

Inductive step : client -> client -> Prop :=
(* getConn *)
| g_call s w : callers s !! w = None -> step s (set_caller w GLoad s)
| g_load s w : callers s !! w = Some GLoad -> step s (set_caller w (GLoaded (live s) (gen s) (stopped s)) s)
| g_check s w l g b : callers s !! w = Some (GLoaded l g b) -> step s (set_caller w (getConn_check (dead s) l g b) s)
| g_wake s w g : callers s !! w = Some (GWait g) -> (g < gen s)%nat -> step s (set_caller w GLoad s)
| g_cancel s w g e : callers s !! w = Some (GWait g) -> e <> ErrClosed -> step s (set_caller w (GDone (Err e)) s)
(* Run *)
| r_up s c : run s = Dialing -> c ∉ dialled s ->
    step s (set_disp DIdle (set_dialled ({[c]} ∪ dialled s) (dead s) (setConn c s)))
| r_down s c : run s = Live c -> step s (clearConn c s)
| r_close s c : run s = Closing c -> step s (set_dialled (dialled s) ({[c]} ∪ dead s) s)
| r_join s c : run s = Closing c -> c ∈ dead s -> disp s = DOff ->
    step s (set_tunnel (live s) (gen s) (stopped s) Dialing s)
| r_stop s : run s = Dialing -> step s (stop_tunnel s)
| r_stopped s : run s = Stopping -> step s (stop_sessions s)
| r_dies s c : c ∈ dialled s -> step s (set_dialled (dialled s) ({[c]} ∪ dead s) s)
(* UDP sessions *)
| u_new s : step s (snd (NewUDPSession maxSessions s))
| u_close s u x : sessions s !! u = Some x -> step s (UDPClose u x s)
| u_take s u x dg q : sessions s !! u = Some x -> us_recv x = dg :: q ->
    step s (set_udp (created s) (routes s) (<[u := mkSession (us_id x) q (us_done x)]> (sessions s)) s)
(* dispatchDatagrams *)
| d_recv s data : disp s = DIdle -> step s (set_disp (dispatch_recv data) s)
| d_exit s c : disp s = DIdle -> run s = Live c \/ run s = Closing c -> c ∈ dead s -> step s (set_disp DOff s)
| d_lookup s dg : disp s = DHave dg -> step s (set_disp (dispatch_lookup dg s) s)
| d_check s dg u x : disp s = DFound dg u -> sessions s !! u = Some x ->
    step s (set_disp (if us_done x then DIdle else DReady dg u) s)
| d_send s dg u x : disp s = DReady dg u -> sessions s !! u = Some x -> step s (dispatch_send dg u x s).
End step.

(** ** Invariant of the tunnel and its waiters *)

(** What a caller of [getConn] may rely on at each point. *)
Definition caller_ok (s : client) (x : getconn) : Prop :=
  match x with
  | GLoad => True
  | GLoaded l g b =>
      (g <= gen s)%nat /\ (g = gen s -> b = stopped s /\ (live s = l \/ live s = None)) /\
      (b = true -> stopped s = true) /\ (forall c, l = Some c -> c ∈ dialled s)
  | GWait g => (g <= gen s)%nat /\ (g = gen s -> stopped s = false /\ forall c, live s = Some c -> c ∈ dead s)
  | GDone (Ok c) => c ∈ dialled s
  | GDone (Err e) => e = ErrClosed -> stopped s = true
  end.

Record tunnel_inv (s : client) : Prop := {
  ti_callers : forall w x, callers s !! w = Some x -> caller_ok s x;
  ti_live : forall c, live s = Some c -> run s = Live c;
  ti_dialled : forall c, run s = Live c \/ run s = Closing c -> c ∈ dialled s;
  ti_stopped : stopped s = true <-> run s = Stopping \/ run s = Stopped;
  ti_disp : disp s <> DOff -> exists c, run s = Live c \/ run s = Closing c;
}.

(** How the tunnel may move without disturbing a caller: a new generation, or the same
    one with [live] kept or cleared. *)
Definition tunnel_moves (s s' : client) : Prop :=
  ((gen s < gen s')%nat \/ gen s' = gen s /\ stopped s' = stopped s /\ (live s' = live s \/ live s' = None)) /\
  (stopped s = true -> stopped s' = true) /\ dialled s ⊆ dialled s' /\ dead s ⊆ dead s'.

Lemma caller_ok_moves s s' x : tunnel_moves s s' -> caller_ok s x -> caller_ok s' x.
Proof.
  intros (Hg & Hst & Hd & Hx). destruct x as [|l g b|g|[c|e]]; cbn; [done| | |set_solver|naive_solver].
  - intros (H1 & H2 & H3 & H4). split; [lia|]. split; [|split; [auto|set_solver]].
    intros ->. destruct Hg as [?|(Hg & -> & Hl)]; [lia|]. destruct H2 as [-> H2]; [done|]. split; [done|].
    destruct Hl as [-> | ->], H2; auto.
  - intros [H1 H2]. split; [lia|]. intros ->. destruct Hg as [?|(Hg & -> & Hl)]; [lia|].
    destruct H2 as [-> H2]; [done|]. split; [done|]. destruct Hl as [-> | ->]; set_solver.
Qed.

Lemma tunnel_moves_same s s' : live s' = live s -> gen s' = gen s -> stopped s' = stopped s ->
  dialled s' = dialled s -> dead s' = dead s -> tunnel_moves s s'.
Proof.
  intros ??? E1 E2. split; [right; auto|]. split; [congruence|]. by rewrite E1, E2.
Qed.

Lemma tunnel_inv_caller s w x : tunnel_inv s -> caller_ok s x -> tunnel_inv (set_caller w x s).
Proof.
  intros [] Hx. split; try done. cbn. intros i y [[<- <-]|[? ?]]%lookup_insert_Some; [done|]. by apply (ti_callers0 i).
Qed.

(** Steps of the UDP side leave the tunnel alone. *)
Lemma tunnel_inv_udp s n r u : tunnel_inv s -> tunnel_inv (set_udp n r u s).
Proof. intros []. by split. Qed.

Lemma tunnel_inv_disp s d : tunnel_inv s -> (d <> DOff -> exists c, run s = Live c \/ run s = Closing c) ->
  tunnel_inv (set_disp d s).
Proof. intros [] Hd. by split. Qed.

Lemma tunnel_inv_move s s' : tunnel_inv s -> callers s' = callers s -> tunnel_moves s s' ->
  (forall c, live s' = Some c -> run s' = Live c) ->
  (forall c, run s' = Live c \/ run s' = Closing c -> c ∈ dialled s') ->
  (stopped s' = true <-> run s' = Stopping \/ run s' = Stopped) ->
  (disp s' <> DOff -> exists c, run s' = Live c \/ run s' = Closing c) -> tunnel_inv s'.
Proof.
  intros [] E Hm ????. split; try done. intros w x. rewrite E. intros Hw.
  eapply caller_ok_moves; [done|]. by apply (ti_callers0 w).
Qed.

Lemma getConn_check_ok s l g b : caller_ok s (GLoaded l g b) -> caller_ok s (getConn_check (dead s) l g b).
Proof.
  intros (H1 & H2 & H3 & H4). unfold getConn_check. destruct b; [by cbn; auto|]. destruct l as [c|].
  - case_bool_decide; cbn; [|by apply H4]. split; [done|]. intros Hg. destruct (H2 Hg) as [<- [-> | ->]]; [|done].
    split; [done|]. by intros c' [= <-].
  - cbn. split; [done|]. intros Hg. destruct (H2 Hg) as [<- [-> | ->]]; done.
Qed.

Lemma tunnel_inv_step max s s' : step max s s' -> tunnel_inv s -> tunnel_inv s'.
Proof.
  intros Hst Hi. pose proof Hi as [C L D S P]. destruct Hst; try (by apply tunnel_inv_udp).
  - by apply tunnel_inv_caller.
  - apply tunnel_inv_caller; [done|]. cbn. split; [lia|]. split; [auto|]. split; [done|]. intros c Hc. auto.
  - apply tunnel_inv_caller, getConn_check_ok; [done|]. by apply (C w).
  - by apply tunnel_inv_caller.
  - apply tunnel_inv_caller; [done|]. by cbn.
  - eapply tunnel_inv_move; [done..| | | | |]; cbn.
    + unfold tunnel_moves. cbn. split; [left; lia|]. split; [done|]. set_solver.
    + congruence.
    + intros c' [[= <-]|?]; [set_solver|done].
    + rewrite S, H. intuition congruence.
    + eauto.
  - eapply tunnel_inv_move; [done..| | | | |]; cbn.
    + unfold tunnel_moves. cbn. split; [right; split_and!; auto; case_bool_decide; auto|]. set_solver.
    + intros c'. case_bool_decide as Hl; [done|]. intros Hc. pose proof (L _ Hc). congruence.
    + intros c' [?|[= <-]]; [done|]. auto.
    + rewrite S, H. intuition congruence.
    + eauto.
  - eapply tunnel_inv_move; [done..| | | | |]; cbn; [|by auto..].
    unfold tunnel_moves. cbn. split; [right; auto|]. set_solver.
  - eapply tunnel_inv_move; [done..| | | | |]; cbn.
    + by apply tunnel_moves_same.
    + intros c' Hc%L. congruence.
    + intuition congruence.
    + rewrite S, H. intuition congruence.
    + done.
  - eapply tunnel_inv_move; [done..| | | | |]; cbn.
    + unfold tunnel_moves. cbn. split; [left; lia|]. split; [done|]. set_solver.
    + done.
    + intuition congruence.
    + tauto.
    + intros Hd. destruct (P Hd) as [c [?|?]]; congruence.
  - eapply tunnel_inv_move; [done..| | | | |]; cbn.
    + by apply tunnel_moves_same.
    + intros c' Hc%L. congruence.
    + intuition congruence.
    + rewrite S. intuition congruence.
    + intros Hd. destruct (P Hd) as [c [?|?]]; congruence.
  - eapply tunnel_inv_move; [done..| | | | |]; cbn; [|by auto..].
    unfold tunnel_moves. cbn. split; [right; auto|]. set_solver.
  - unfold NewUDPSession. repeat case_match; try done. by apply tunnel_inv_udp.
  - apply tunnel_inv_disp; [done|]. intros _. apply P. congruence.
  - by apply tunnel_inv_disp.
  - apply tunnel_inv_disp; [done|]. intros _. apply P. congruence.
  - apply tunnel_inv_disp; [done|]. intros _. apply P. congruence.
  - unfold dispatch_send. apply tunnel_inv_disp; [case_match; [by apply tunnel_inv_udp|done]|].
    intros _. replace (run _) with (run s) by (by case_match). apply P. congruence.
Qed.

(** ** Invariant of the UDP sessions *)

(** A datagram in the hands of the dispatcher belongs to the session it was routed to. *)
Definition disp_ok (s : client) : Prop :=
  match disp s with
  | DFound dg u | DReady dg u => exists x, sessions s !! u = Some x /\ us_id x = SessionID dg
  | _ => True
  end.

Record udp_inv (max : nat) (s : client) : Prop := {
  ui_size : (size (routes s) <= max)%nat;
  ui_route : forall k u, routes s !! k = Some u ->
    exists x, sessions s !! u = Some x /\ us_id x = k /\ us_done x = false;
  ui_session : forall u x, sessions s !! u = Some x ->
    (1 <= u <= created s)%nat /\ us_id x = session_id u /\ (length (us_recv x) <= recvSize)%nat /\
    forall dg, dg ∈ us_recv x -> SessionID dg = us_id x;
  ui_open : Z.of_nat (created s) < 2 ^ 64 -> forall u x, sessions s !! u = Some x -> us_done x = false ->
    routes s !! us_id x = Some u;
  ui_stopped : run s = Stopped -> routes s = ∅;
  ui_disp : disp_ok s;
}.

(** Replacing a session by one with the same identity keeps what the dispatcher knows. *)
Lemma disp_ok_insert s n r u x y : disp_ok s -> sessions s !! u = Some x -> us_id y = us_id x ->
  disp_ok (set_udp n r (<[u := y]> (sessions s)) s).
Proof.
  unfold disp_ok. cbn. intros Hd Hu E. destruct (disp s) as [| | |dg v|dg v]; try done;
    destruct Hd as (z & Hz & Hid); destruct (decide (u = v)) as [<-|Hne];
    rewrite ?lookup_insert_eq, ?lookup_insert_ne by done; eauto; exists y; split; congruence.
Qed.

Lemma session_id_inj a b : Z.of_nat a < 2 ^ 64 -> Z.of_nat b < 2 ^ 64 -> session_id a = session_id b -> a = b.
Proof. unfold session_id. intros Ha Hb. rewrite !Z.mod_small by lia. lia. Qed.

(** The session keeps its route and its identity: its queue changes. *)
Lemma udp_inv_queue max s u x q : udp_inv max s -> sessions s !! u = Some x -> (length q <= recvSize)%nat ->
  (forall dg, dg ∈ q -> SessionID dg = us_id x) ->
  udp_inv max (set_udp (created s) (routes s) (<[u := mkSession (us_id x) q (us_done x)]> (sessions s)) s).
Proof.
  intros [] Hu Hq Hid. split; cbn; try done.
  - intros k v (y & Hy & E1 & E2)%ui_route0. destruct (decide (u = v)) as [<-|Hne].
    + rewrite lookup_insert_eq. exists (mkSession (us_id x) q (us_done x)). split; [done|]. cbn. split; congruence.
    + rewrite lookup_insert_ne by done. eauto.
  - intros v y [[<- <-]|[? Hv]]%lookup_insert_Some; [|by apply ui_session0].
    destruct (ui_session0 u x Hu) as (? & ? & _). by cbn.
  - intros Hc v y [[<- <-]|[? Hv]]%lookup_insert_Some Hd; cbn in *; eauto.
  - by eapply disp_ok_insert.
Qed.

Lemma udp_inv_new max s : udp_inv max s -> (run s = Stopped -> stopped s = true) ->
  udp_inv max (snd (NewUDPSession max s)).
Proof.
  intros Hi Hstop. unfold NewUDPSession. destruct (stopped s) eqn:Est; [done|].
  case_bool_decide as Hsz; [done|]. cbn. destruct Hi.
  assert (sessions s !! S (created s) = None) as Hnew.
  { destruct (sessions s !! S (created s)) as [x|] eqn:E; [|done]. destruct (ui_session0 _ _ E). lia. }
  split; cbn.
  - rewrite map_size_insert. case_match; cbn; lia.
  - intros k u [[<- <-]|[Hk Hu]]%lookup_insert_Some; [rewrite lookup_insert_eq; eauto|].
    destruct (ui_route0 k u Hu) as (x & Hx & ?). rewrite lookup_insert_ne by congruence. eauto.
  - intros u x [[<- <-]|[? Hu]]%lookup_insert_Some; cbn.
    + split; [lia|]. split; [done|]. split; [unfold recvSize; lia|set_solver].
    + destruct (ui_session0 u x Hu). split; [lia|done].
  - intros Hc u x [[<- <-]|[? Hu]]%lookup_insert_Some Hd; cbn; [by rewrite lookup_insert_eq|].
    rewrite lookup_insert_ne; [apply ui_open0; [lia|done..]|].
    destruct (ui_session0 u x Hu) as (? & -> & _). intros E%session_id_inj; lia.
  - intros Hr. apply Hstop in Hr. congruence.
  - unfold disp_ok in *. cbn. destruct (disp s) as [| | |dg v|dg v]; try done; destruct ui_disp0 as (z & Hz & ?);
      exists z; rewrite lookup_insert_ne by congruence; done.
Qed.

Lemma udp_inv_close max s u x : udp_inv max s -> sessions s !! u = Some x -> udp_inv max (UDPClose u x s).
Proof.
  intros [] Hu. split; cbn.
  - rewrite map_size_delete. case_match; cbn; lia.
  - intros k v [Hk (y & Hy & E1 & E2)%ui_route0]%lookup_delete_Some.
    rewrite lookup_insert_ne; [eauto|]. intros ->. congruence.
  - intros v y [[<- <-]|[? Hv]]%lookup_insert_Some; cbn; by apply ui_session0.
  - intros Hc v y [[<- <-]|[? Hv]]%lookup_insert_Some Hd; [done|]. rewrite lookup_delete_ne; [by apply ui_open0|].
    destruct (ui_session0 u x Hu) as (? & -> & _), (ui_session0 v y Hv) as (? & -> & _). intros E%session_id_inj; lia.
  - intros Hr%ui_stopped0. rewrite Hr. apply delete_empty.
  - by eapply disp_ok_insert.
Qed.

Lemma udp_inv_stop max s : udp_inv max s -> udp_inv max (stop_sessions s).
Proof.
  intros []. unfold stop_sessions.
  set (f := fun i u => Some (if bool_decide (i ∈ (map_img (routes s) : gset nat)) then stop_session u else u)).
  assert (forall u y, map_imap f (sessions s) !! u = Some y ->
    exists x, sessions s !! u = Some x /\ us_id y = us_id x /\ us_recv y = us_recv x /\
      (us_done y = false -> us_done x = false /\ forall k, routes s !! k <> Some u)) as Hf.
  { intros u y. rewrite map_lookup_imap. intros (x & Hx & Hy)%bind_Some. exists x. split; [done|]. unfold f in Hy.
    case_bool_decide as Hin; injection Hy as <-; cbn; [done|]. split; [done|]. split; [done|]. intros. split; [done|].
    intros k Hk. apply Hin. by eapply elem_of_map_img_2. }
  split; cbn; try done.
  - rewrite map_size_empty. lia.
  - intros u y (x & Hx & -> & -> & _)%Hf. by apply ui_session0.
  - intros Hc u y (x & Hx & -> & _ & Hd)%Hf Hdone. destruct (Hd Hdone) as [Hxd Hno].
    exfalso. eapply Hno. by apply ui_open0.
  - unfold disp_ok in *. cbn. destruct (disp s) as [| | |dg v|dg v]; try done; destruct ui_disp0 as (z & Hz & <-);
      (eexists; rewrite map_lookup_imap, Hz; cbn; split; [done|]; by case_bool_decide).
Qed.

Lemma udp_inv_same max s s' : routes s' = routes s -> sessions s' = sessions s -> created s' = created s ->
  (run s' = Stopped -> run s = Stopped) -> disp_ok s' -> udp_inv max s -> udp_inv max s'.
Proof. intros E1 E2 E3 E4 E5 []. split; rewrite ?E1, ?E2, ?E3; try done. auto. Qed.

Lemma udp_inv_disp max s d : udp_inv max s -> disp_ok (set_disp d s) -> udp_inv max (set_disp d s).
Proof. intros Hi Hd. by eapply udp_inv_same; [..|exact Hi]. Qed.

Lemma udp_inv_step max s s' : step max s s' -> tunnel_inv s -> udp_inv max s -> udp_inv max s'.
Proof.
  intros Hst Ht Hi. pose proof (ui_disp _ _ Hi) as Hd.
  destruct Hst; try (by eapply udp_inv_same; [..|done]).
  - by apply udp_inv_stop.
  - apply udp_inv_new; [done|]. intros Hr. apply (ti_stopped _ Ht). auto.
  - by apply udp_inv_close.
  - destruct (ui_session _ _ Hi _ _ H) as (_ & _ & Hl & Hid). rewrite H0 in Hl, Hid. cbn in Hl.
    apply udp_inv_queue; [done..|lia|]. set_solver.
  - apply udp_inv_disp; [done|]. unfold disp_ok, dispatch_recv. cbn. by destruct (DecodeDatagram data).
  - apply udp_inv_disp; [done|]. unfold disp_ok, dispatch_lookup. cbn.
    destruct (routes s !! SessionID dg) as [u|] eqn:E; [|done].
    destruct (ui_route _ _ Hi _ _ E) as (x & ? & ? & _). eauto.
  - apply udp_inv_disp; [done|]. unfold disp_ok in *. rewrite H in Hd. cbn. by destruct (us_done x).
  - unfold dispatch_send. unfold disp_ok in Hd. rewrite H in Hd. destruct Hd as (y & Hy & Hid).
    rewrite H0 in Hy. injection Hy as <-. destruct (ui_session _ _ Hi _ _ H0) as (_ & _ & Hl & Hq).
    apply udp_inv_disp; [|done]. case_bool_decide; [|done].
    apply udp_inv_queue; [done..|rewrite length_app; cbn; lia|].
    intros d [?|Hd%list_elem_of_singleton]%elem_of_app; [auto|congruence].
Qed.

Lemma client_inv_reach max s : rtc (step max) client_init s -> tunnel_inv s /\ udp_inv max s.
Proof.
  intros Hr. assert (tunnel_inv client_init /\ udp_inv max client_init) as Hi.
  { split; split; cbn; try done; try lia.
    - by intros c [?|?].
    - naive_solver.
    - rewrite map_size_empty. lia. }
  revert Hi. induction Hr as [|a b c Hs _ IH]; [done|]. intros [Ht Hu]. apply IH.
  split; [by eapply tunnel_inv_step|by eapply udp_inv_step].
Qed.

(** ** Properties *)

(** The steps of one waiting caller once there is something to return. *)
Lemma getConn_finish max s w g : tunnel_inv s -> callers s !! w = Some (GWait g) -> (g < gen s)%nat ->
  rtc (step max) s (set_caller w (getConn_check (dead s) (live s) (gen s) (stopped s)) s).
Proof.
  intros Hi Hw Hg.
  eapply rtc_l; [by eapply g_wake|]. eapply rtc_l; [apply (g_load _ _ w); cbn; by rewrite lookup_insert_eq|].
  eapply rtc_l; [apply (g_check _ _ w (live s) (gen s) (stopped s)); cbn; by rewrite lookup_insert_eq|].
  unfold set_caller, set_callers. cbn. rewrite !insert_insert_eq. apply rtc_refl.
Qed.

(** C19: no lost wake-up in [getConn].  In every interleaving, a caller that waits while
    a usable tunnel is live, or after the client has stopped, is on a channel that is
    already closed, and its own next three steps return that tunnel, or [ErrClosed].
    A connection is only returned if it was authenticated and made live, and
    [ErrClosed] only after the client stopped. *)
Theorem getconn_no_lost_wakeup max s w x : rtc (step max) client_init s -> callers s !! w = Some x ->
  match x with
  | GWait g =>
      (stopped s = true -> (g < gen s)%nat /\ exists s', rtc (step max) s s' /\
         s' = set_caller w (GDone (Err ErrClosed)) s) /\
      (forall c, live s = Some c -> c ∉ dead s -> (g < gen s)%nat /\ exists s', rtc (step max) s s' /\
         s' = set_caller w (GDone (Ok c)) s)
  | GDone (Ok c) => c ∈ dialled s
  | GDone (Err e) => e = ErrClosed -> stopped s = true
  | _ => True
  end.
Proof.
  intros Hr Hw. apply client_inv_reach in Hr as [Ht _]. pose proof (ti_callers _ Ht w x Hw) as Hok.
  destruct x as [|l g b|g|[c|e]]; try done. destruct Hok as [Hle Heq]. split.
  - intros Hs. assert (g < gen s)%nat as Hg.
    { destruct (decide (g = gen s)) as [E|]; [|lia]. destruct (Heq E). congruence. }
    split; [done|]. eexists. split; [by apply (getConn_finish _ _ w g)|]. unfold getConn_check. by rewrite Hs.
  - intros c Hl Hd. assert (stopped s = false) as Hs.
    { destruct (stopped s) eqn:E; [|done]. apply (ti_stopped _ Ht) in E. apply (ti_live _ Ht) in Hl. intuition congruence. }
    assert (g < gen s)%nat as Hg.
    { destruct (decide (g = gen s)) as [E|]; [|lia]. destruct (Heq E) as [_ H]. by apply H in Hl. }
    split; [done|]. eexists. split; [by apply (getConn_finish _ _ w g)|].
    unfold getConn_check. by rewrite Hs, Hl, bool_decide_eq_false_2.
Qed.

(** C20: UDP sessions, in every interleaving of [NewUDPSession], [Close], the dispatcher
    and [Run]'s clean-up.  At most [MaxUDPSessions] are routed; a session's queue holds
    at most 32 datagrams, all with its identifier; no two sessions ever share an
    identifier and a session is routed exactly while it is not done (until 2^64
    sessions have been created); and once the client has stopped, every session is
    done and none can be created. *)
Theorem udp_sessions_isolated max s : rtc (step max) client_init s ->
  (size (routes s) <= max)%nat /\
  (forall u x, sessions s !! u = Some x ->
     (length (us_recv x) <= recvSize)%nat /\ forall dg, dg ∈ us_recv x -> SessionID dg = us_id x) /\
  (Z.of_nat (created s) < 2 ^ 64 ->
     (forall u v x y, sessions s !! u = Some x -> sessions s !! v = Some y -> us_id x = us_id y -> u = v) /\
     (forall u x, sessions s !! u = Some x -> (us_done x = false <-> routes s !! us_id x = Some u)) /\
     (run s = Stopped -> forall u x, sessions s !! u = Some x -> us_done x = true)) /\
  (run s = Stopped -> routes s = ∅ /\ NewUDPSession max s = (Err ErrClosed, s)).
Proof.
  intros Hr. apply client_inv_reach in Hr as [Ht []]. split; [done|]. split; [|split].
  - intros u x Hu. by destruct (ui_session0 u x Hu) as (_ & _ & ? & ?).
  - intros Hc. assert (forall u x, sessions s !! u = Some x -> (us_done x = false <-> routes s !! us_id x = Some u)) as Hd.
    { intros u x Hu. split; [by apply ui_open0|]. intros (y & Hy & _ & ?)%ui_route0. congruence. }
    split; [|split; [done|]].
    + intros u v x y Hu Hv E. destruct (ui_session0 u x Hu) as (? & E1 & _), (ui_session0 v y Hv) as (? & E2 & _).
      apply session_id_inj; [lia|lia|congruence].
    + intros Hs u x Hu. destruct (us_done x) eqn:E; [done|]. apply (Hd u x Hu) in E. rewrite ui_stopped0 in E; done.
  - intros Hs. split; [auto|]. unfold NewUDPSession. rewrite (proj2 (ti_stopped _ Ht)); auto.
Qed.

(** [Send] hands the connection exactly one datagram, which decodes at the other end
    to this session, the target in wire form and the payload, and is never larger than
    an envelope may be; it does so exactly when the target is valid with a nonzero
    port, the session open, the payload within the limit and a tunnel available, and
    every failure is counted as one drop. *)
Theorem udp_send_exact id done conn send target payload err dropped out :
  0 <= id < 2 ^ 64 -> 0 <= Port target < 65536 ->
  Send id done conn send target payload = (err, dropped, out) ->
  (dropped = None <-> err = None) /\
  (is_Some out <-> Validate target = None /\ Port target <> 0 /\ done = false /\
     (length payload <= MaxUDPPayload)%nat /\ conn = None) /\
  (forall data, out = Some data -> err = send /\ (length data <= MaxUDPDatagramSize)%nat /\
     DecodeDatagram data = Ok (mkDatagram id (wire_form target) payload)).
Proof.
  intros Hid Hp. unfold Send. destruct (Validate target) as [e|] eqn:Ev.
  { intros [= <- <- <-]. split; [done|]. split; [|done]. split; [by intros []|by intros []]. }
  destruct (Z.eqb_spec (Port target) 0) as [E0|E0].
  { intros [= <- <- <-]. split; [done|]. split; [|done]. split; [by intros []|by intros (_ & ? & _)]. }
  destruct done.
  { intros [= <- <- <-]. split; [done|]. split; [|done]. split; [by intros []|by intros (_ & _ & ? & _)]. }
  case_bool_decide as Hl.
  { intros [= <- <- <-]. split; [done|]. split; [|done]. split; [by intros []|]. intros (_ & _ & _ & ? & _). lia. }
  destruct conn as [e|].
  { intros [= <- <- <-]. split; [done|]. split; [|done]. split; [by intros []|by intros (_ & _ & _ & _ & ?)]. }
  assert (valid_address target) as Hva by done.
  pose proof (EncodeDatagram_length id target payload Hva) as Hlen. unfold MaxUDPPayload in *.
  assert (length (EncodeDatagram id target payload) <= MaxUDPDatagramSize)%nat as Hsz by (unfold MaxUDPDatagramSize; lia).
  rewrite bool_decide_eq_false_2 by lia. intros E.
  assert (out = Some (EncodeDatagram id target payload) /\ err = send /\ (dropped = None <-> err = None)) as (-> & -> & Hd).
  { destruct send; apply pair_equal_spec in E as [[<- <-]%pair_equal_spec <-]; done. }
  split; [done|]. split; [split; [intros _; split_and!; done || lia|done]|].
  intros data Hdata. apply (inj Some) in Hdata as <-. split; [done|]. split; [done|].
  rewrite DecodeDatagram_body by done. by rewrite bool_decide_eq_false_2 by (unfold MaxUDPPayload; lia).
Qed.

(** ** Concrete runs *)

(** A caller waits, then a tunnel comes up. *)
Definition wait0 : client := set_caller 0 GLoad client_init.
Definition wait1 : client := set_caller 0 (GLoaded None 0 false) wait0.
Definition wait2 : client := set_caller 0 (GWait 0) wait1.
Definition wait3 : client := set_disp DIdle (set_dialled ({[7%nat]} ∪ dialled wait2) (dead wait2) (setConn 7 wait2)).

Lemma wait3_reach : rtc (step 1) client_init wait3.
Proof.
  apply rtc_l with wait0; [by apply g_call|]. apply rtc_l with wait1; [by apply (g_load _ wait0)|].
  apply rtc_l with wait2; [by apply (g_check _ wait1 0 None 0 false)|]. apply rtc_once. by apply r_up.
Qed.

Lemma getconn_no_lost_wakeup_witness : exists s', rtc (step 1) wait3 s' /\ s' = set_caller 0 (GDone (Ok 7%nat)) wait3.
Proof.
  destruct (getconn_no_lost_wakeup 1 wait3 0 (GWait 0) wait3_reach eq_refl) as [_ Hl].
  apply (Hl 7%nat); [reflexivity|set_solver].
Defined.

(** A session is opened and a datagram for it arrives. *)
Definition udp_dg : Datagram := mkDatagram 1 (mkAddress AtypIPv4 [] (map z2b [192; 0; 2; 1]) 53) (bs "reply").
Definition udp1 : client := snd (NewUDPSession 1 wait3).
Definition udp2 : client := set_disp (DReady udp_dg 1) udp1.
Definition udp3 : client := dispatch_send udp_dg 1 (mkSession 1 [] false) udp2.

Lemma udp3_reach : rtc (step 1) client_init udp3.
Proof.
  etransitivity; [apply wait3_reach|]. eapply rtc_l; [apply u_new|].
  eapply rtc_l; [apply (d_recv _ udp1 (EncodeDatagram 1 (DgAddr udp_dg) (Payload udp_dg))); reflexivity|].
  apply rtc_l with (set_disp (DFound udp_dg 1) udp1); [by apply (d_lookup _ (set_disp (DHave udp_dg) udp1) udp_dg)|].
  apply rtc_l with udp2; [by apply (d_check _ (set_disp (DFound udp_dg 1) udp1) udp_dg 1 (mkSession 1 [] false))|].
  apply rtc_once. by apply d_send.
Qed.

Lemma udp_sessions_isolated_witness : us_recv <$> sessions udp3 !! 1%nat = Some [udp_dg] /\
  (size (routes udp3) <= 1)%nat.
Proof. split; [reflexivity|]. exact (proj1 (udp_sessions_isolated 1 udp3 udp3_reach)). Defined.

Lemma udp_send_exact_witness : exists data,
  Send 1 false None None (DgAddr udp_dg) (Payload udp_dg) = (None, None, Some data) /\
  DecodeDatagram data = Ok (mkDatagram 1 (wire_form (DgAddr udp_dg)) (Payload udp_dg)).
Proof.
  eexists. split; [vm_compute; reflexivity|].
  refine (proj2 (proj2 (proj2 (proj2 (udp_send_exact 1 false None None (DgAddr udp_dg) (Payload udp_dg) None None
    (Some _) _ _ _)) _ eq_refl))); [lia|cbn; lia|vm_compute; reflexivity].
Defined.
