(* ===== verification/Socks.v ===== *)
(** * Package proxy: SOCKS5

    Models [internal/proxy/socks5.go] and [internal/proxy/socks_udp.go]: the handshake,
    the request, the replies, [handleSOCKS], [socksConnect], the UDP envelope, and the
    two loops of a UDP association with the pinned source of its client. *)
From S2P Require Import Prelude GoStd GoNet Protocol.

(** ** Constants *)
Definition socksVersion : byte := Byte.x05.
Definition methodNoAuth : byte := Byte.x00.
Definition methodNotAcceptable : byte := Byte.xff.
Definition cmdConnect : byte := Byte.x01.
Definition cmdUDPAssociate : byte := Byte.x03.
Definition repSuccess : byte := Byte.x00.
Definition repGeneralFailure : byte := Byte.x01.
Definition repNotAllowed : byte := Byte.x02.
Definition repHostUnreach : byte := Byte.x04.
Definition repCmdNotSupport : byte := Byte.x07.
Definition repAddressNotSupported : byte := Byte.x08.

(** ** The handshake and the request *)

(** Byte [i] of a full buffer. *)
Definition byte_at (b : bytes) (i : nat) : byte := default Byte.x00 (b !! i).

(** [socksHandshake] on a connection: its reading side and its writing side. *)
Definition socksHandshake (r : reader) (w : writer) : option error * reader * writer :=
  match ReadFull 2 r with
  | (Err e, r1) => (Some e, r1, w)
  | (Ok hdr, r1) =>
      if negb (beq (byte_at hdr 0) socksVersion) then (Some (ErrNew "socks: bad version"), r1, w)
      else
        match ReadFull (Z.to_nat (b2z (byte_at hdr 1))) r1 with
        | (Err e, r2) => (Some e, r2, w)
        | (Ok methods, r2) =>
            let accepted := ContainsByte methods methodNoAuth in
            match Write w [socksVersion; if accepted then methodNoAuth else methodNotAcceptable] with
            | (_, Some e, w') => (Some e, r2, w')
            | (_, None, w') =>
                ((if accepted then None else Some (ErrNew "socks: no acceptable authentication method")), r2, w')
            end
        end
  end.

(** [readSOCKSRequest]: the command and the address. *)
Definition readSOCKSRequest : rd (byte * Address) :=
  hdr ← ReadFull 3;
  if negb (beq (byte_at hdr 0) socksVersion) || negb (beq (byte_at hdr 2) Byte.x00)
  then rd_fail (ErrNew "socks: invalid request header")
  else addr ← ReadAddress;
       if beq (Atyp addr) AtypDomain && bool_decide (Host addr = [])
       then rd_fail (ErrNew "socks: empty domain")
       else mret (byte_at hdr 1, addr).

(** The bytes of [writeSOCKSReply]. *)
Definition socks_reply (rep : byte) (ip : bytes) (port : Z) : bytes :=
  match To4 ip with
  | Some v4 => [socksVersion; rep; Byte.x00; AtypIPv4] ++ v4
  | None =>
      match To16 ip with
      | Some v6 => [socksVersion; rep; Byte.x00; AtypIPv6] ++ v6
      | None => [socksVersion; rep; Byte.x00; AtypIPv4; Byte.x00; Byte.x00; Byte.x00; Byte.x00]
      end
  end ++ be16 port.

Definition writeSOCKSReply (w : writer) (rep : byte) (ip : bytes) (port : Z) : option error * writer :=
  let '(_, err, w') := Write w (socks_reply rep ip port) in (err, w').

(** A refusal: the reply is written and its error ignored. *)
Definition refuse (w : writer) (rep : byte) : writer := snd (writeSOCKSReply w rep IPv4zero 0).

(** ** handleSOCKS *)

(** What [handleSOCKS] goes on with. *)
Inductive socks_next := SocksEnd | SocksConnect (addr : Address) | SocksAssociate (addr : Address).

Definition handleSOCKS (r : reader) (w : writer) : socks_next * reader * writer :=
  match socksHandshake r w with
  | (Some _, r1, w1) => (SocksEnd, r1, w1)
  | (None, r1, w1) =>
      match readSOCKSRequest r1 with
      | (Err _, r2) => (SocksEnd, r2, refuse w1 repAddressNotSupported)
      | (Ok (cmd, addr), r2) =>
          if beq cmd cmdConnect then
            if Port addr =? 0 then (SocksEnd, r2, refuse w1 repAddressNotSupported)
            else (SocksConnect addr, r2, w1)
          else if beq cmd cmdUDPAssociate then (SocksAssociate addr, r2, w1)
          else (SocksEnd, r2, refuse w1 repCmdNotSupport)
      end
  end.

Definition dialErrToRep (e : error) : byte :=
  match errors_As_dial e with
  | Some st =>
      if st =? b2z StatusHostUnreach then repHostUnreach
      else if st =? b2z StatusNotAllowed then repNotAllowed
      else repGeneralFailure
  | None => repGeneralFailure
  end.

(** Does [countDialErr] count this error (with metrics on)? *)
Definition countDialErr (e : error) : bool :=
  if errors_Is e ErrCapacity then false
  else match errors_As_dial e with
       | Some st => negb (st =? b2z StatusNotAllowed)
       | None => true
       end.

(** [socksConnect] for the answer of [dialStream] (whether the stream is compressed):
    the relay that starts, whether the remote is closed without one, and what was
    written. *)
Definition socksConnect (dial : res bool) (w : writer) : option bool * bool * writer :=
  match dial with
  | Err e => (None, false, refuse w (dialErrToRep e))
  | Ok compressed =>
      match writeSOCKSReply w repSuccess IPv4zero 0 with
      | (Some _, w') => (None, true, w')
      | (None, w') => (Some compressed, false, w')
      end
  end.

(** ** The UDP envelope *)
Definition parseSOCKSUDP (b : bytes) : res (Address * bytes) :=
  if bool_decide (length b < 4)%nat then Err ErrUnexpectedEOF
  else if negb (beq (byte_at b 0) Byte.x00) || negb (beq (byte_at b 1) Byte.x00) || negb (beq (byte_at b 2) Byte.x00)
  then Err (ErrNew "socks: unsupported UDP reserved/fragment fields")
  else
    match ReadAddress (Reader (drop 3 b) EOF) with
    | (Err e, _) => Err e
    | (Ok addr, r) =>
        if (Port addr =? 0) || (beq (Atyp addr) AtypDomain && bool_decide (Host addr = []))
        then Err (ErrNew "socks: invalid UDP destination")
        else if bool_decide (MaxUDPPayload < length (rd_data r))%nat then Err errUDPPayloadTooLarge
        else Ok (addr, drop (length b - length (rd_data r)) b)
    end.

Definition buildSOCKSUDP (src : Address) (payload : bytes) : bytes :=
  Encode src [Byte.x00; Byte.x00; Byte.x00] ++ payload.

(** ** A UDP association *)

(** [net.UDPAddr]. *)
Record UDPAddr := mkUDPAddr { ua_ip : bytes; ua_port : Z; ua_zone : bytes }.

(** The peer of the control connection: [RemoteAddr] split, its address and zone. *)
Definition socks_peer (remote : bytes) : option (bytes * bytes) :=
  match SplitHostPort remote with
  | Err _ => None
  | Ok (host, _) =>
      match LastIndexByte host (ch "%") with
      | Some i => (fun ip => (ip, drop (S i) host)) <$> ParseIP (take i host)
      | None => (fun ip => (ip, [])) <$> ParseIP host
      end
  end.

(** [validUDPSource], with the answer of the lookup of the requested name. *)
Definition validUDPSource (a : Address) (peer : bytes) (lookup : bytes -> res (list bytes)) : bool :=
  if negb (beq (Atyp a) AtypDomain) then IsUnspecified (IP a) || IP_Equal (IP a) peer
  else match lookup (Host a) with
       | Err _ => false
       | Ok ips => existsb (fun ip => IP_Equal ip peer) ips
       end.

(** The answers of the environment to the setup of an association: the tunnel session,
    the resolved local address, and the bound socket. *)
Record assoc_env := mkAssoc {
  ae_remote : bytes; ae_local : bytes; ae_lookup : bytes -> res (list bytes);
  ae_session : option error; ae_resolve : bytes -> res bytes; ae_listen : string -> bytes -> res UDPAddr;
}.

(** What the setup of [socksUDPAssociate] leaves: a running association with the peer it
    serves and the bound address, or the end; and whether a session was opened and is
    closed again. *)
Inductive assoc_out := AssocEnd (session_closed : bool) | AssocRun (peer zone : bytes) (bound : UDPAddr).

Definition associate_setup (e : assoc_env) (requested : Address) (w : writer) : assoc_out * writer :=
  match socks_peer (ae_remote e) with
  | None => (AssocEnd false, w)
  | Some (peer, zone) =>
      if negb (validUDPSource requested peer (ae_lookup e)) then (AssocEnd false, refuse w repNotAllowed)
      else
        match ae_session e with
        | Some _ => (AssocEnd false, refuse w repGeneralFailure)
        | None =>
            match SplitHostPort (ae_local e) with
            | Err _ => (AssocEnd true, w)
            | Ok (host, _) =>
                match ae_resolve e (JoinHostPort host (bs "0")) with
                | Err _ => (AssocEnd true, w)
                | Ok laddr =>
                    match ae_listen e (if To4 laddr then "udp4" else "udp6")%string laddr with
                    | Err _ => (AssocEnd true, refuse w repGeneralFailure)
                    | Ok bound =>
                        match writeSOCKSReply w repSuccess (ua_ip bound) (ua_port bound) with
                        | (Some _, w') => (AssocEnd true, w')
                        | (None, w') => (AssocRun peer zone bound, w')
                        end
                    end
                end
            end
        end
  end.

(** The state the two loops share: the pinned [source]; and what they did: the packets
    given to [session.Send], the packets written to the client, the drops. *)
Record assoc := mkAssocState {
  as_source : option UDPAddr;
  as_sent : list (UDPAddr * Address * bytes);
  as_written : list (UDPAddr * bytes);
  as_drops : list string;
}.

Definition assoc_drop (s : assoc) (r : string) : assoc :=
  mkAssocState (as_source s) (as_sent s) (as_written s) (as_drops s ++ [r]).

Section association.
Context (peerIP peerZone : bytes) (requested : Address).

(** The source test of the receiving loop. *)
Definition bad_source (to : option UDPAddr) (from : UDPAddr) : bool :=
  negb (IP_Equal (ua_ip from) peerIP) ||
  (negb (bool_decide (peerZone = [])) && negb (bool_decide (ua_zone from = peerZone))) ||
  (negb (Port requested =? 0) && negb (ua_port from =? Port requested)) ||
  match to with
  | Some t => negb (ua_port t =? ua_port from) || negb (bool_decide (ua_zone t = ua_zone from))
  | None => false
  end.

(** One datagram read from the client's socket. *)
Definition assoc_receive (from : UDPAddr) (data : bytes) (s : assoc) : assoc :=
  if bad_source (as_source s) from then assoc_drop s "source"
  else
    match parseSOCKSUDP data with
    | Err e => assoc_drop s (if errors_Is e errUDPPayloadTooLarge then "size" else "invalid")
    | Ok (target, payload) =>
        mkAssocState (match as_source s with Some t => Some t | None => Some from end)
          (as_sent s ++ [(from, target, payload)]) (as_written s) (as_drops s)
    end.

(** One datagram received from the tunnel session; [err] is the result of the write. *)
Definition assoc_return (dg : Datagram) (err : option error) (s : assoc) : assoc :=
  match as_source s with
  | None => assoc_drop s "source"
  | Some to =>
      if bool_decide (MaxUDPPayload < length (Payload dg))%nat then assoc_drop s "size"
      else
        let s' := mkAssocState (as_source s) (as_sent s)
                    (as_written s ++ [(to, buildSOCKSUDP (DgAddr dg) (Payload dg))]) (as_drops s) in
        match err with Some _ => assoc_drop s' "send" | None => s' end
  end.

(** The two loops run concurrently; [source] is one atomic pointer, so any order of
    their iterations can happen. *)
Inductive assoc_event := FromClient (from : UDPAddr) (data : bytes) | FromTunnel (dg : Datagram) (err : option error).
Definition assoc_do (s : assoc) (e : assoc_event) : assoc :=
  match e with
  | FromClient from data => assoc_receive from data s
  | FromTunnel dg err => assoc_return dg err s
  end.
Definition assoc_run (evs : list assoc_event) : assoc := fold_left assoc_do evs (mkAssocState None [] [] []).
End association.

(** ** The handshake, read and written *)

(** A client's greeting and request on the wire. *)
Definition greeting (methods : bytes) : bytes := [socksVersion; z2b (Z.of_nat (length methods))] ++ methods.
Definition socks_request (cmd : byte) (a : Address) : bytes := [socksVersion; cmd; Byte.x00] ++ Encode a [].

Lemma socksHandshake_greeting methods rest e out : (length methods < 256)%nat ->
  socksHandshake (Reader (greeting methods ++ rest) e) (Writer out []) =
    if ContainsByte methods methodNoAuth
    then (None, Reader rest e, Writer (out ++ [socksVersion; methodNoAuth]) [])
    else (Some (ErrNew "socks: no acceptable authentication method"), Reader rest e,
          Writer (out ++ [socksVersion; methodNotAcceptable]) []).
Proof.
  intros Hl. unfold socksHandshake, greeting. rewrite <- app_assoc, ReadFull_app by done.
  change (byte_at [socksVersion; _] 0) with socksVersion. rewrite beq_refl. cbn [negb].
  change (byte_at [socksVersion; ?x] 1) with x.
  rewrite b2z_z2b_small by lia. rewrite Nat2Z.id, ReadFull_app by done.
  by destruct (ContainsByte methods methodNoAuth).
Qed.

Lemma socksHandshake_sound r w r' w' : socksHandshake r w = (None, r', w') ->
  exists methods, (length methods < 256)%nat /\ methodNoAuth ∈ methods /\
    rd_data r = greeting methods ++ rd_data r' /\ rd_end r' = rd_end r.
Proof.
  unfold socksHandshake. destruct (ReadFull 2 r) as [[hdr|] r1] eqn:E1; [|done].
  apply ReadFull_2 in E1 as (v & n & -> & Hd1 & He1).
  change (byte_at [v; n] 0) with v. change (byte_at [v; n] 1) with n.
  destruct (beq v socksVersion) eqn:Ev; cbn [negb]; [|done]. apply beq_true in Ev as ->.
  destruct (ReadFull _ r1) as [[methods|] r2] eqn:E2; [|done]. apply ReadFull_Ok in E2 as (Hl & Hd2 & He2).
  destruct (ContainsByte methods methodNoAuth) eqn:Ec.
  2: { destruct (Write _ _) as [[? [|]] ?]; done. }
  destruct (Write _ _) as [[? [|]] w2]; [done|]. intros [= <- <-]. pose proof (b2z_range n).
  exists methods. split; [lia|]. split; [by apply bool_decide_eq_true in Ec|]. split; [|congruence].
  unfold greeting. rewrite Hl, Z2Nat.id, z2b_b2z by lia. rewrite Hd1, Hd2. by rewrite <- app_assoc.
Qed.

Lemma readSOCKSRequest_sound r cmd a r' : readSOCKSRequest r = (Ok (cmd, a), r') ->
  valid_address a /\ wire_form a = a /\ rd_data r = socks_request cmd a ++ rd_data r' /\ rd_end r' = rd_end r.
Proof.
  intros (hdr & r1 & H1 & H)%rd_bind_Ok. apply ReadFull_Ok in H1 as (Hl & Hd & He).
  apply length_3 in Hl as (x & y & z & ->).
  change (byte_at [x; y; z] 0) with x in H. change (byte_at [x; y; z] 1) with y in H.
  change (byte_at [x; y; z] 2) with z in H.
  destruct (beq x socksVersion) eqn:E1; [|done]. destruct (beq z Byte.x00) eqn:E2; [|done]. cbn [negb orb] in H.
  apply beq_true in E1 as ->. apply beq_true in E2 as ->.
  apply rd_bind_Ok in H as (addr & r2 & H2 & H3). apply ReadAddress_sound in H2 as (Hv & Hw & Hd2 & He2).
  destruct (_ && _) in H3; [done|]. injection H3 as <- <- <-. split; [done|]. split; [done|].
  split; [|congruence]. unfold socks_request. rewrite Hd, Hd2. by rewrite <- app_assoc.
Qed.

(** The last [length p] bytes of a buffer that ends with [p]. *)
Lemma drop_tail {A} (l p : list A) : drop (length (l ++ p) - length p) (l ++ p) = p.
Proof. rewrite length_app, Nat.add_sub. apply drop_app_length. Qed.

(** A valid address is never an empty name. *)
Lemma wire_nonempty a : valid_address a ->
  beq (Atyp (wire_form a)) AtypDomain && bool_decide (Host (wire_form a) = []) = false.
Proof.
  intros Ha. destruct (beq (Atyp (wire_form a)) AtypDomain) eqn:Et; [|done]. apply beq_true in Et.
  destruct (Validate_cases _ (va_valid _ (wire_form_valid _ Ha))) as [[E _]|[[E _]|[_ Hh]]]; [by rewrite Et in E..|].
  rewrite bool_decide_eq_false_2; [done|]. intros E. rewrite E in Hh. cbn in Hh. lia.
Qed.

Lemma wire_port a : Port (wire_form a) = Port a.
Proof. unfold wire_form. by repeat case_match. Qed.

Lemma readSOCKSRequest_request cmd a rest e : valid_address a ->
  readSOCKSRequest (Reader (socks_request cmd a ++ rest) e) = (Ok (cmd, wire_form a), Reader rest e).
Proof.
  intros Ha. unfold readSOCKSRequest, socks_request. rewrite <- app_assoc.
  rewrite ReadFull_bind by done. change (byte_at [socksVersion; cmd; Byte.x00] 0) with socksVersion.
  change (byte_at [socksVersion; cmd; Byte.x00] 2) with Byte.x00. rewrite !beq_refl. cbn [negb orb].
  erewrite rd_bind_eq by (by apply ReadAddress_Encode). by rewrite wire_nonempty.
Qed.

Lemma parseSOCKSUDP_build a payload : valid_address a -> Port a <> 0 -> (length payload <= MaxUDPPayload)%nat ->
  parseSOCKSUDP (buildSOCKSUDP a payload) = Ok (wire_form a, payload).
Proof.
  intros Ha Hp Hl. pose proof (Encode_length a [] Ha) as [He _]. cbn [length] in He.
  unfold parseSOCKSUDP, buildSOCKSUDP. rewrite bool_decide_eq_false_2.
  2: { rewrite Encode_app, !length_app. cbn [length]. lia. }
  change (byte_at (Encode a _ ++ payload) ?i) with (byte_at [Byte.x00; Byte.x00; Byte.x00] i).
  rewrite Encode_app at 1. rewrite <- app_assoc. change (drop 3 ([Byte.x00; Byte.x00; Byte.x00] ++ ?l)) with l.
  cbn [byte_at lookup list_lookup default]. rewrite beq_refl. cbn [negb orb].
  rewrite ReadAddress_Encode by done. cbn [rd_data]. rewrite wire_port, wire_nonempty by done.
  rewrite (proj2 (Z.eqb_neq _ _) Hp), bool_decide_eq_false_2 by lia. cbn [orb]. by rewrite drop_tail.
Qed.

Lemma parseSOCKSUDP_sound b x p : parseSOCKSUDP b = Ok (x, p) ->
  b = buildSOCKSUDP x p /\ valid_address x /\ wire_form x = x /\ Port x <> 0 /\ (length p <= MaxUDPPayload)%nat.
Proof.
  unfold parseSOCKSUDP. case_bool_decide as Hl; [done|].
  destruct b as [|b0 [|b1 [|b2 b]]]; try (cbn in Hl; lia).
  change (byte_at (b0 :: ?l) 0) with b0. change (byte_at (b0 :: b1 :: ?l) 1) with b1.
  change (byte_at (b0 :: b1 :: b2 :: b) 2) with b2. change (drop 3 (b0 :: b1 :: b2 :: b)) with b.
  destruct (beq b0 Byte.x00) eqn:E0; [|done]. destruct (beq b1 Byte.x00) eqn:E1; [|done].
  destruct (beq b2 Byte.x00) eqn:E2; [|done]. apply beq_true in E0 as ->. apply beq_true in E1 as ->. apply beq_true in E2 as ->.
  cbn [negb orb]. destruct (ReadAddress _) as [[y|] r] eqn:Er; [|done].
  apply ReadAddress_sound in Er as (Hv & Hw & Hd & _). cbn [rd_data] in Hd.
  destruct (_ || _) eqn:Ep; [done|]. apply orb_false_iff in Ep as [Ep _]. apply Z.eqb_neq in Ep.
  case_bool_decide as Hs; [done|]. rewrite Hd.
  change (Byte.x00 :: Byte.x00 :: Byte.x00 :: ?l) with ([Byte.x00; Byte.x00; Byte.x00] ++ l).
  rewrite app_assoc, <- (Encode_app y [Byte.x00; Byte.x00; Byte.x00]), drop_tail.
  intros [= <- <-]. split; [done|]. split; [done|]. split; [done|]. split; [done|]. lia.
Qed.

(** ** Properties *)

(** What a client may send: a greeting, and a request for a valid address. *)
Definition greets (data : bytes) : Prop := exists ms rest, (length ms < 256)%nat /\ data = greeting ms ++ rest.
Definition requests (data : bytes) : Prop := exists cmd a rest, valid_address a /\ data = socks_request cmd a ++ rest.

Lemma socksHandshake_malformed data e w : ~ greets data -> exists err r, socksHandshake (Reader data e) w = (Some err, r, w).
Proof.
  intros Hn. unfold socksHandshake. destruct (ReadFull 2 _) as [[hdr|] r1] eqn:E1; [|eauto].
  apply ReadFull_2 in E1 as (v & n & -> & Hd1 & He1). cbn [rd_data] in Hd1.
  change (byte_at [v; n] 0) with v. change (byte_at [v; n] 1) with n.
  destruct (beq v socksVersion) eqn:Ev; cbn [negb]; [|eauto]. apply beq_true in Ev as ->.
  destruct (ReadFull _ r1) as [[methods|] r2] eqn:E2; [|eauto]. apply ReadFull_Ok in E2 as (Hl & Hd2 & _).
  destruct Hn. pose proof (b2z_range n). exists methods, (rd_data r2). split; [lia|].
  unfold greeting. rewrite Hl, Z2Nat.id, z2b_b2z by lia. rewrite Hd1, Hd2. by rewrite <- app_assoc.
Qed.

Lemma readSOCKSRequest_malformed data e : ~ requests data -> exists err r, readSOCKSRequest (Reader data e) = (Err err, r).
Proof.
  intros Hn. destruct (readSOCKSRequest _) as [[[cmd a]|err] r] eqn:E; [|eauto].
  apply readSOCKSRequest_sound in E as (Hv & _ & Hd & _). destruct Hn. by exists cmd, a, (rd_data r).
Qed.

(** C38: the SOCKS5 dialogue, for every sequence of bytes.  Bytes that are no greeting (another
    version, or cut short) end it with nothing written.  A greeting without the no-auth
    method is answered with the refusal and nothing more is read.  After an accepted
    greeting, bytes that are no request for a valid address (another version, a reserved
    byte that is not zero, an unknown or malformed address, an empty name, a truncation)
    are answered with "address not supported"; a CONNECT with a nonzero port or a UDP
    ASSOCIATE is taken up with the address as sent and nothing else written; a CONNECT to
    port 0 and any other command get their refusals.  Conversely, whatever the writer does,
    a CONNECT is only taken up after exactly these bytes. *)
Theorem socks_dialogue data e :
  let hello := [socksVersion; methodNoAuth] in
  let '(next, r', w') := handleSOCKS (Reader data e) (Writer [] []) in
  (~ greets data -> next = SocksEnd /\ w' = Writer [] []) /\
  (forall ms rest, (length ms < 256)%nat -> data = greeting ms ++ rest ->
     (ContainsByte ms methodNoAuth = false ->
        (next, r', w') = (SocksEnd, Reader rest e, Writer [socksVersion; methodNotAcceptable] [])) /\
     (ContainsByte ms methodNoAuth = true -> ~ requests rest ->
        next = SocksEnd /\ w' = Writer (hello ++ socks_reply repAddressNotSupported IPv4zero 0) []) /\
     (ContainsByte ms methodNoAuth = true -> forall cmd a more, valid_address a -> rest = socks_request cmd a ++ more ->
        (next, r', w') =
          if beq cmd cmdConnect && negb (Port a =? 0) then (SocksConnect (wire_form a), Reader more e, Writer hello [])
          else if beq cmd cmdUDPAssociate then (SocksAssociate (wire_form a), Reader more e, Writer hello [])
          else (SocksEnd, Reader more e,
                Writer (hello ++ socks_reply (if beq cmd cmdConnect then repAddressNotSupported else repCmdNotSupport) IPv4zero 0) []))) /\
  (forall r w b r' w', handleSOCKS r w = (SocksConnect b, r', w') ->
     valid_address b /\ Port b <> 0 /\
     exists ms, methodNoAuth ∈ ms /\ rd_data r = greeting ms ++ socks_request cmdConnect b ++ rd_data r').
Proof.
  cbv zeta. destruct (handleSOCKS (Reader data e) (Writer [] [])) as [[next r'] w'] eqn:E. split_and!.
  - intros Hn. unfold handleSOCKS in E. destruct (socksHandshake_malformed data e (Writer [] []) Hn) as (err & r & Hh).
    rewrite Hh in E. by injection E as <- _ <-.
  - intros ms rest Hm ->. unfold handleSOCKS in E. rewrite socksHandshake_greeting in E by done. split_and!; intros Hc; rewrite Hc in E.
    + by rewrite <- E.
    + intros Hn. destruct (readSOCKSRequest_malformed rest e Hn) as (err & r & Hr). rewrite Hr in E. by injection E as <- _ <-.
    + intros cmd a more Ha ->. rewrite readSOCKSRequest_request in E by done. rewrite <- E, wire_port.
      destruct (beq cmd cmdConnect) eqn:Ec; cbn [andb]; [|by destruct (beq cmd cmdUDPAssociate)].
      apply beq_true in Ec as ->. by destruct (Port a =? 0).
  - clear E. intros r w b r2 w2. unfold handleSOCKS. destruct (socksHandshake r w) as [[[?|] r1] w1] eqn:Eh; [done|].
    destruct (readSOCKSRequest r1) as [[[c x]|] r3] eqn:Er; [|done].
    destruct (beq c cmdConnect) eqn:Ec; [|by destruct (beq c cmdUDPAssociate)].
    destruct (Z.eqb_spec (Port x) 0); [done|]. intros [= <- <- <-]. apply beq_true in Ec as ->.
    apply socksHandshake_sound in Eh as (ms & _ & Hin & Hd & _). apply readSOCKSRequest_sound in Er as (Hv & _ & Hd2 & _).
    split; [done|]. split; [done|]. exists ms. split; [done|]. by rewrite Hd, Hd2.
Qed.

(** The SOCKS UDP envelope.  A datagram built for a valid address with a nonzero
    port and an allowed payload parses back to it; and every datagram that parses is
    exactly what would be built for its parts, so nothing in it is ignored (fragments
    and reserved bytes are refused). *)
Theorem socks_udp_roundtrip a payload b :
  (valid_address a -> Port a <> 0 -> (length payload <= MaxUDPPayload)%nat ->
     parseSOCKSUDP (buildSOCKSUDP a payload) = Ok (wire_form a, payload)) /\
  (forall x p, parseSOCKSUDP b = Ok (x, p) ->
     b = buildSOCKSUDP x p /\ valid_address x /\ Port x <> 0 /\ (length p <= MaxUDPPayload)%nat).
Proof.
  split; [apply parseSOCKSUDP_build|]. intros x p (? & ? & _ & ? & ?)%parseSOCKSUDP_sound. done.
Qed.

(** ** Associations *)

Section association_laws.
Context (peerIP peerZone : bytes) (requested : Address).
#[local] Notation run := (assoc_run peerIP peerZone requested).

(** A sender that the association may serve. *)
Definition from_peer (from : UDPAddr) : Prop :=
  IP_Equal (ua_ip from) peerIP = true /\ (peerZone = [] \/ ua_zone from = peerZone) /\
  (Port requested = 0 \/ ua_port from = Port requested).

Lemma bad_source_false to from : bad_source peerIP peerZone requested to from = false <->
  from_peer from /\ forall t, to = Some t -> ua_port t = ua_port from /\ ua_zone t = ua_zone from.
Proof.
  unfold bad_source, from_peer. rewrite !orb_false_iff, !andb_false_iff, !negb_false_iff, !bool_decide_eq_true, !Z.eqb_eq.
  destruct to as [t|]; [|naive_solver]. rewrite orb_false_iff, !negb_false_iff, bool_decide_eq_true, Z.eqb_eq. naive_solver.
Qed.

Record assoc_inv (s : assoc) : Prop := {
  av_source : forall t, as_source s = Some t -> from_peer t;
  av_none : as_source s = None -> as_sent s = [] /\ as_written s = [];
  av_sent : forall from target payload, (from, target, payload) ∈ as_sent s ->
    from_peer from /\ valid_address target /\ Port target <> 0 /\ (length payload <= MaxUDPPayload)%nat /\
    exists t, as_source s = Some t /\ ua_port t = ua_port from /\ ua_zone t = ua_zone from;
  av_written : forall to data, (to, data) ∈ as_written s -> as_source s = Some to /\
    exists a p, data = buildSOCKSUDP a p /\ (length p <= MaxUDPPayload)%nat;
}.

Lemma assoc_inv_drop s r : assoc_inv s -> assoc_inv (assoc_drop s r).
Proof. intros []. by split. Qed.

Lemma assoc_inv_do s e : assoc_inv s -> assoc_inv (assoc_do peerIP peerZone requested s e).
Proof.
  intros Hi. pose proof Hi as [V1 V2 V3 V4]. destruct e as [from data|dg err]; cbn.
  - unfold assoc_receive. destruct (bad_source _ _ _ _ _) eqn:Eb; [by apply assoc_inv_drop|].
    apply bad_source_false in Eb as [Hf Hsame].
    destruct (parseSOCKSUDP data) as [[target payload]|] eqn:Ep; [|by apply assoc_inv_drop].
    apply parseSOCKSUDP_sound in Ep as (_ & Hv & _ & Hp & Hl).
    assert (exists t, match as_source s with Some t => Some t | None => Some from end = Some t /\
      ua_port t = ua_port from /\ ua_zone t = ua_zone from) as Hsrc.
    { destruct (as_source s) as [t|]; [exists t; split; [done|by apply Hsame]|by exists from]. }
    split; cbn.
    + intros t. destruct (as_source s) as [t'|] eqn:Es; intros [= <-]; auto.
    + by destruct (as_source s).
    + intros f tg pl [Hin|Hin%list_elem_of_singleton]%elem_of_app; [|injection Hin as -> -> ->; auto].
      destruct (V3 _ _ _ Hin) as (? & ? & ? & ? & t & Ht & ?). rewrite Ht. eauto 10.
    + intros to d (Ht & ?)%V4. rewrite Ht. eauto.
  - unfold assoc_return. destruct (as_source s) as [t|] eqn:Es; [|by apply assoc_inv_drop].
    case_bool_decide as Hl; [by apply assoc_inv_drop|].
    assert (assoc_inv (mkAssocState (Some t) (as_sent s)
      (as_written s ++ [(t, buildSOCKSUDP (DgAddr dg) (Payload dg))]) (as_drops s))) as Hok.
    { split; cbn; [done|done|done|]. intros to d [Hin|Hin%list_elem_of_singleton]%elem_of_app; [auto|].
      injection Hin as -> ->. split; [done|]. exists (DgAddr dg), (Payload dg). split; [done|lia]. }
    destruct err; [by apply assoc_inv_drop|done].
Qed.

Lemma assoc_run_inv evs : assoc_inv (run evs).
Proof.
  unfold assoc_run. assert (assoc_inv (mkAssocState None [] [] [])) as H0 by (split; cbn; set_solver).
  revert H0. generalize (mkAssocState None [] [] []). induction evs as [|e evs IH]; intros s Hs; [done|].
  cbn. by apply IH, assoc_inv_do.
Qed.

(** The source never moves once it is pinned. *)
Lemma assoc_source_kept evs s t : as_source s = Some t ->
  as_source (fold_left (assoc_do peerIP peerZone requested) evs s) = Some t.
Proof.
  revert s. induction evs as [|e evs IH]; intros s Hs; [done|]. cbn. apply IH.
  destruct e; cbn; unfold assoc_receive, assoc_return; rewrite ?Hs; repeat case_match; cbn; congruence.
Qed.
End association_laws.

(** C39: a UDP association serves one client only, whatever arrives on its socket and
    from the tunnel, in any order.  Everything forwarded comes from the peer's address
    (and zone, and requested port), all from one and the same source port, with a valid
    target and a payload within the limit; everything returned goes to that pinned
    source; nothing is returned before it is known; and once pinned it never moves. *)
Theorem association_pinned peerIP peerZone requested evs later :
  let s := assoc_run peerIP peerZone requested evs in
  (forall from target payload, (from, target, payload) ∈ as_sent s ->
     from_peer peerIP peerZone requested from /\ valid_address target /\ Port target <> 0 /\
     (length payload <= MaxUDPPayload)%nat /\
     exists t, as_source s = Some t /\ ua_port t = ua_port from /\ ua_zone t = ua_zone from) /\
  (forall to data, (to, data) ∈ as_written s -> as_source s = Some to /\ from_peer peerIP peerZone requested to) /\
  (as_source s = None -> as_sent s = [] /\ as_written s = []) /\
  (forall t, as_source s = Some t -> as_source (assoc_run peerIP peerZone requested (evs ++ later)) = Some t).
Proof.
  cbv zeta. pose proof (assoc_run_inv peerIP peerZone requested evs) as [V1 V2 V3 V4].
  split; [done|]. split; [|split; [done|]].
  - intros to data [Ht _]%V4. auto.
  - intros t Ht. unfold assoc_run in *. rewrite fold_left_app. by apply assoc_source_kept.
Qed.

(** An IP address of either family on the wire. *)
Lemma read_ip atyp ip port e :
  (atyp = AtypIPv4 /\ length ip = 4%nat) \/ (atyp = AtypIPv6 /\ length ip = 16%nat) -> 0 <= port < 65536 ->
  ReadAddress (Reader (atyp :: ip ++ be16 port) e) = (Ok (mkAddress atyp [] ip port), Reader [] e).
Proof.
  intros Hip Hp. set (a := mkAddress atyp [] ip port).
  assert (valid_address a /\ wire_form a = a /\ Encode a [] = atyp :: ip ++ be16 port) as (Ha & Hw & He).
  { unfold a, wire_form, Encode. destruct Hip as [[-> Hl]|[-> Hl]]; cbn [Atyp Host IP Port].
    - rewrite beq_refl, To4_four by done. split; [|done]. split; [|done].
      unfold Validate. cbn [Atyp IP]. by rewrite beq_refl, To4_four.
    - change (beq AtypIPv6 AtypIPv4) with false. rewrite beq_refl, To16_sixteen by done. split; [|done]. split; [|done].
      unfold Validate. cbn [Atyp IP]. change (beq AtypIPv6 AtypIPv4) with false. by rewrite beq_refl, To16_sixteen. }
  rewrite <- He, <- (app_nil_r (Encode a [])), ReadAddress_Encode by done. by rewrite Hw.
Qed.

(** The address part of a reply reads back as the address it was written for. *)
Lemma socks_reply_read rep ip port e : (length ip = 4%nat \/ length ip = 16%nat) -> 0 <= port < 65536 ->
  exists a, ReadAddress (Reader (drop 3 (socks_reply rep ip port)) e) = (Ok a, Reader [] e) /\
    Port a = port /\ IP a = default ip (To4 ip).
Proof.
  intros Hl Hp. unfold socks_reply. destruct (To4 ip) as [v4|] eqn:E4; [|destruct (To16 ip) as [v6|] eqn:E6].
  - pose proof (To4_length _ _ E4). exists (mkAddress AtypIPv4 [] v4 port). split; [|done]. apply read_ip; auto.
  - pose proof (To16_length _ _ E6). exists (mkAddress AtypIPv6 [] v6 port). split; [apply read_ip; auto|].
    split; [done|]. cbn. destruct Hl as [Hl|Hl]; [by rewrite To4_four in E4|].
    rewrite To16_sixteen in E6 by done. congruence.
  - exfalso. destruct Hl as [Hl|Hl]; [by rewrite To4_four in E4|]. by rewrite To16_sixteen in E6.
Qed.

(** Setting up a UDP association.  It runs only when the control connection has an
    IP peer, the requested source is unspecified or that peer (or a name that resolves
    to it), a tunnel session and a socket were obtained, and the client was told the
    bound address, which it reads back exactly; a session that was opened without an
    association starting is closed, and a refused source never opens one. *)
Theorem associate_contract env requested w out w' : associate_setup env requested w = (out, w') ->
  match out with
  | AssocRun peer zone bound =>
      socks_peer (ae_remote env) = Some (peer, zone) /\ validUDPSource requested peer (ae_lookup env) = true /\
      ae_session env = None /\
      (wr_plan w = [] -> 0 <= ua_port bound < 65536 -> length (ua_ip bound) = 4%nat \/ length (ua_ip bound) = 16%nat ->
       exists tail a, wr_out w' = wr_out w ++ [socksVersion; repSuccess; Byte.x00] ++ tail /\
         ReadAddress (Reader tail EOF) = (Ok a, Reader [] EOF) /\
         Port a = ua_port bound /\ IP a = default (ua_ip bound) (To4 (ua_ip bound)))
  | AssocEnd closed =>
      closed = (bool_decide (is_Some (socks_peer (ae_remote env))) && bool_decide (ae_session env = None) &&
        match socks_peer (ae_remote env) with
        | Some (peer, _) => validUDPSource requested peer (ae_lookup env)
        | None => false
        end)
  end.
Proof.
  unfold associate_setup. destruct (socks_peer (ae_remote env)) as [[peer zone]|]; [|by intros [= <- <-]].
  destruct (validUDPSource requested peer (ae_lookup env)) eqn:Ev; cbn [negb].
  2: { intros [= <- <-]. by rewrite andb_false_r. }
  destruct (ae_session env); [by intros [= <- <-]|].
  destruct (SplitHostPort (ae_local env)) as [[host p]|]; [|by intros [= <- <-]].
  destruct (ae_resolve env _) as [laddr|]; [|by intros [= <- <-]].
  destruct (ae_listen env _ laddr) as [bound|]; [|by intros [= <- <-]].
  destruct (writeSOCKSReply w _ _ _) as [[e|] w1] eqn:Ew; intros [= <- <-]; [done|].
  split; [done|]. split; [done|]. split; [done|]. intros Hpl Hport Hip.
  destruct (socks_reply_read repSuccess (ua_ip bound) (ua_port bound) EOF Hip Hport) as (a & Hr & ? & ?).
  exists (drop 3 (socks_reply repSuccess (ua_ip bound) (ua_port bound))), a. split; [|done].
  unfold writeSOCKSReply, Write in Ew. rewrite Hpl in Ew. injection Ew as <-. cbn [wr_out]. f_equal.
  unfold socks_reply. by repeat case_match.
Qed.

(** ** Concrete runs *)
Definition socks_target : Address := mkAddress AtypDomain (bs "example.org") [] 443.

Lemma socks_target_valid : valid_address socks_target.
Proof. split; [vm_compute; reflexivity|cbn; lia]. Qed.

Lemma socks_dialogue_witness :
  handleSOCKS (Reader (greeting [Byte.x02; methodNoAuth] ++ socks_request cmdConnect socks_target ++ bs "data") EOF)
    (Writer [] []) = (SocksConnect socks_target, Reader (bs "data") EOF, Writer [socksVersion; methodNoAuth] []).
Proof.
  pose proof (socks_dialogue (greeting [Byte.x02; methodNoAuth] ++ socks_request cmdConnect socks_target ++ bs "data") EOF) as H.
  cbv zeta in H. destruct (handleSOCKS _ _) as [[next r'] w']. destruct H as (_ & H & _).
  apply (proj2 (proj2 (H [Byte.x02; methodNoAuth] (socks_request cmdConnect socks_target ++ bs "data") ltac:(cbn; lia) eq_refl))
    eq_refl cmdConnect socks_target (bs "data") socks_target_valid eq_refl).
Defined.

Definition example_assoc : assoc_env :=
  mkAssoc (bs "127.0.0.1:5000") (bs "127.0.0.1:1080") (fun _ => Err EOF) None
    (fun _ => Ok (map z2b [127; 0; 0; 1])) (fun _ ip => Ok (mkUDPAddr ip 4000 [])).
Definition any_source : Address := mkAddress AtypIPv4 [] (map z2b [0; 0; 0; 0]) 0.

Lemma associate_contract_witness : exists peer bound w',
  associate_setup example_assoc any_source (Writer [] []) = (AssocRun peer [] bound, w') /\
  socks_peer (ae_remote example_assoc) = Some (peer, []).
Proof.
  do 3 eexists. split; [vm_compute; reflexivity|].
  refine (proj1 (associate_contract example_assoc any_source (Writer [] []) (AssocRun _ [] (mkUDPAddr _ 4000 [])) _ _)).
  vm_compute. reflexivity.
Defined.
