(* ===== verification/Proxy.v ===== *)
(** * Package proxy: shared connection limits, the relay and the compressed connection

    Models [internal/proxy/proxy.go] (option defaults, [track] and [trackedConn] with the
    slots both listeners share, [closeConnections], [relay]) and
    [internal/proxy/compressed_conn.go] (the two codec workers behind one net.Conn). *)
From S2P Require Import Prelude Compress Relay.

(** ** Options *)
Record Options := mkOptions {
  MaxConnections : Z; HandshakeTimeout : Z; IdleTimeout : Z; HTTPResponseHeaderTimeout : Z; MaxHeaderBytes : Z;
}.

Definition proxy_defaults (o : Options) : Options :=
  mkOptions (if MaxConnections o <=? 0 then 256 else MaxConnections o)
    (if HandshakeTimeout o <=? 0 then 10 * second else HandshakeTimeout o)
    (if IdleTimeout o <=? 0 then 5 * 60 * second else IdleTimeout o)
    (if HTTPResponseHeaderTimeout o <=? 0 then 2 * 60 * second else HTTPResponseHeaderTimeout o)
    (if MaxHeaderBytes o <=? 0 then 65536 else MaxHeaderBytes o).

(** ** Tracked connections *)

(** A [trackedConn]: its slot is taken; it is in [conns]; its [once] runs and it is out
    of [conns]; its slot is free again.  [tc_closed] is the underlying connection. *)
Inductive tracking := Slotted | Listed | Delisted | Freed.
#[export] Instance tracking_eq_dec : EqDecision tracking.
Proof. solve_decision. Defined.
Record tracked := mkTracked { tc_closed : bool; tc_state : tracking }.

(** The proxy: the length of [slots], the map [conns], and every connection ever
    tracked. *)
Record proxy := mkProxy { px_slots : nat; px_conns : gset nat; px_tracked : gmap nat tracked }.
Definition proxy_init : proxy := mkProxy 0 ∅ ∅.

(** [track]: the slot, or the refusal (the connection is closed and [nil] returned). *)
Definition track_slot (max : nat) (p : proxy) : option nat * proxy :=
  if bool_decide (px_slots p < max)%nat then
    let t := fresh (dom (px_tracked p)) in
    (Some t, mkProxy (S (px_slots p)) (px_conns p) (<[t := mkTracked false Slotted]> (px_tracked p)))
  else (None, p).
Definition track_list (t : nat) (x : tracked) (p : proxy) : proxy :=
  mkProxy (px_slots p) ({[t]} ∪ px_conns p) (<[t := mkTracked (tc_closed x) Listed]> (px_tracked p)).

(** [trackedConn.Close]: the connection is closed, then [once] runs [release]: delete
    from the map under the lock, and receive from the slots. *)
Definition close_conn (t : nat) (x : tracked) (p : proxy) : proxy :=
  mkProxy (px_slots p) (px_conns p) (<[t := mkTracked true (tc_state x)]> (px_tracked p)).
Definition release_list (t : nat) (x : tracked) (p : proxy) : proxy :=
  mkProxy (px_slots p) (px_conns p ∖ {[t]}) (<[t := mkTracked (tc_closed x) Delisted]> (px_tracked p)).
Definition release_slot (t : nat) (x : tracked) (p : proxy) : proxy :=
  mkProxy (px_slots p - 1) (px_conns p) (<[t := mkTracked (tc_closed x) Freed]> (px_tracked p)).

(** The listeners, the handlers and [closeConnections], interleaved. *)
Inductive track_step (max : nat) : proxy -> proxy -> Prop :=
| tr_slot p : track_step max p (snd (track_slot max p))
| tr_list p t x : px_tracked p !! t = Some x -> tc_state x = Slotted -> track_step max p (track_list t x p)
| tr_close p t x : px_tracked p !! t = Some x -> tc_state x <> Slotted -> track_step max p (close_conn t x p)
| tr_delist p t x : px_tracked p !! t = Some x -> tc_closed x = true -> tc_state x = Listed ->
    track_step max p (release_list t x p)
| tr_free p t x : px_tracked p !! t = Some x -> tc_state x = Delisted -> track_step max p (release_slot t x p).

(** ** relay *)

Inductive relay_call := CloseWriteRemote | CloseWriteLocal | CloseLocal | CloseRemote.

(** What each copying goroutine does with its result, and the collecting loop; the
    deferred [abort] closes both connections at the end. *)
Definition relay_report (half_close : relay_call) (copy_err close_err : option error) : list relay_call * option error :=
  match copy_err with
  | Some e => ([], Some e)
  | None => ([half_close], close_err)
  end.
Definition abort_calls : list relay_call := [CloseLocal; CloseRemote].
Definition relay_collect (results : list (option error)) : list relay_call :=
  flat_map (fun r => match r with Some _ => abort_calls | None => [] end) results.
Definition relay_end (results : list (option error)) : list relay_call := relay_collect results ++ abort_calls.

Section copies.
Context `{Flate}.

(** The goroutine that copies from the application to the tunnel, and the one back. *)
Definition relay_up (compressed observing : bool) (remote : writer) (localR : list read_event) (pool : nat)
    : writer * option error := relay_send compressed observing remote localR pool.
Definition relay_down (compressed : bool) (local : writer) (remote : list read_event)
    : option (writer * option error) := relay_recv compressed local remote.
End copies.

(** [countingWriter.Write]: the bytes accepted are added to the counter. *)
Definition countingWriter_Write (w : writer) (count : Z) (b : bytes) : nat * option error * writer * Z :=
  let '(n, e, w') := Write w b in
  (n, e, w', if bool_decide (0 < n)%nat then count + Z.of_nat n else count).

(** ** compressedHTTPConn *)

(** The encoder and the decoder goroutine: copying; done copying and in [finish] after
    [abort]; decremented [remaining]. *)
Inductive worker := Copying | Aborted | Ended.
#[export] Instance worker_eq_dec : EqDecision worker.
Proof. solve_decision. Defined.

(** Who ran the [once] of [abort] first. *)
Inductive aborter := ByEncoder | ByDecoder (clean : bool) | ByClose.

(** [zc_aborted]: the pipe ends and the wire are closed, and by whom; [zc_done]: how often
    [done] was closed; [zc_waiting] and [zc_returned]: the calls of [Close]. *)
Record compressedHTTPConn := mkZ {
  zc_aborted : option aborter; zc_remaining : Z; zc_readEOF : bool; zc_done : nat;
  zc_enc : worker; zc_dec : worker; zc_decoded : option bool; zc_waiting : nat; zc_returned : nat;
}.
Definition newCompressedHTTPConn : compressedHTTPConn := mkZ None 2 false 0 Copying Copying None 0 0.

Definition zabort (who : aborter) (s : compressedHTTPConn) : compressedHTTPConn :=
  mkZ (match zc_aborted s with Some a => Some a | None => Some who end) (zc_remaining s) (zc_readEOF s) (zc_done s)
    (zc_enc s) (zc_dec s) (zc_decoded s) (zc_waiting s) (zc_returned s).
Definition set_enc w (s : compressedHTTPConn) := mkZ (zc_aborted s) (zc_remaining s) (zc_readEOF s) (zc_done s) w (zc_dec s) (zc_decoded s) (zc_waiting s) (zc_returned s).
Definition set_dec w (s : compressedHTTPConn) := mkZ (zc_aborted s) (zc_remaining s) (zc_readEOF s) (zc_done s) (zc_enc s) w (zc_decoded s) (zc_waiting s) (zc_returned s).
Definition set_close n m (s : compressedHTTPConn) := mkZ (zc_aborted s) (zc_remaining s) (zc_readEOF s) (zc_done s) (zc_enc s) (zc_dec s) (zc_decoded s) n m.

(** The decoder returned: [readEOF] is stored when it succeeded. *)
Definition decoded (ok : bool) (s : compressedHTTPConn) : compressedHTTPConn :=
  mkZ (zc_aborted s) (zc_remaining s) (ok || zc_readEOF s) (zc_done s) (zc_enc s) (zc_dec s) (Some ok)
    (zc_waiting s) (zc_returned s).

(** The atomic decrement of [finish], and the close of [done]. *)
Definition zfinish (s : compressedHTTPConn) : compressedHTTPConn :=
  let r := zc_remaining s - 1 in
  mkZ (zc_aborted s) r (zc_readEOF s) (if r =? 0 then S (zc_done s) else zc_done s)
    (zc_enc s) (zc_dec s) (zc_decoded s) (zc_waiting s) (zc_returned s).

Inductive zstep : compressedHTTPConn -> compressedHTTPConn -> Prop :=
| z_enc s : zc_enc s = Copying -> zstep s (set_enc Aborted (zabort ByEncoder s))
| z_enc_end s : zc_enc s = Aborted -> zstep s (set_enc Ended (zfinish s))
| z_dec s ok : zc_dec s = Copying -> zstep s (set_dec Aborted (zabort (ByDecoder ok) (decoded ok s)))
| z_dec_end s : zc_dec s = Aborted -> zstep s (set_dec Ended (zfinish s))
| z_close s : zstep s (set_close (S (zc_waiting s)) (zc_returned s) (zabort ByClose s))
| z_return s n : zc_waiting s = S n -> (0 < zc_done s)%nat -> zstep s (set_close n (S (zc_returned s)) s).

(** [Read], on the result of the pipe's [Read]. *)
Definition compressed_Read (s : compressedHTTPConn) (r : nat * option error) : nat * option error :=
  let '(n, err) := r in
  (n, if bool_decide (err = Some ErrClosedPipe) && zc_readEOF s then Some EOF else err).

(** ** Properties *)

Definition holds_slot (x : tracked) : bool := match tc_state x with Freed => false | _ => true end.

Record track_inv (max : nat) (p : proxy) : Prop := {
  tk_slots : px_slots p = mcount holds_slot (px_tracked p);
  tk_max : (px_slots p <= max)%nat;
  tk_conns : forall t, t ∈ px_conns p <-> exists x, px_tracked p !! t = Some x /\ tc_state x = Listed;
  tk_closed : forall t x, px_tracked p !! t = Some x -> tc_state x = Delisted \/ tc_state x = Freed -> tc_closed x = true;
}.

Lemma tk_listed max p t x : track_inv max p -> px_tracked p !! t = Some x -> (t ∈ px_conns p <-> tc_state x = Listed).
Proof. intros [] Ht. rewrite tk_conns0. split; [|eauto]. intros (y & Hy & ?). congruence. Qed.

(** A tracked connection changes state. *)
Lemma track_inv_set max p t x y n cs : track_inv max p -> px_tracked p !! t = Some x ->
  (n + (if holds_slot x then 1 else 0) = px_slots p + (if holds_slot y then 1 else 0))%nat ->
  (n <= max)%nat ->
  (forall i, i ∈ cs <-> if decide (i = t) then tc_state y = Listed else i ∈ px_conns p) ->
  (tc_state y = Delisted \/ tc_state y = Freed -> tc_closed y = true) ->
  track_inv max (mkProxy n cs (<[t := y]> (px_tracked p))).
Proof.
  intros [] Ht Hn Hm Hc Hcl. split; cbn; [|done| |].
  - pose proof (mcount_insert_old holds_slot _ t y x Ht) as H. lia.
  - intros i. rewrite Hc. destruct (decide (i = t)) as [->|Hi].
    + setoid_rewrite lookup_insert_eq. split; [eauto|]. by intros (z & [= <-] & ?).
    + rewrite tk_conns0. by setoid_rewrite lookup_insert_ne; [|done].
  - intros i z [[<- <-]|[? ?]]%lookup_insert_Some; [done|]. by apply (tk_closed0 i).
Qed.

Lemma track_inv_step max p p' : track_step max p p' -> track_inv max p -> track_inv max p'.
Proof.
  intros Hst Hi. pose proof Hi as [S M C X]. destruct Hst.
  - unfold track_slot. case_bool_decide; [|done]. cbn.
    pose proof (not_elem_of_dom_1 _ _ (is_fresh (dom (px_tracked p)))) as Hf.
    split; cbn; [|lia| |].
    + rewrite mcount_insert_new by done. cbn. lia.
    + intros i. rewrite C. split; intros (x & Hx & Hs).
      * exists x. split; [|done]. rewrite lookup_insert_ne; [done|]. congruence.
      * apply lookup_insert_Some in Hx as [[<- <-]|[? ?]]; [done|eauto].
    + intros i x [[<- <-]|[? ?]]%lookup_insert_Some; [naive_solver|by apply (X i)].
  - eapply track_inv_set; [done..| | | |]; unfold holds_slot; cbn; rewrite ?H0; [lia|lia| |by intros [|]].
    intros i. destruct (decide (i = t)); set_solver.
  - eapply track_inv_set; [done..| | | |]; unfold holds_slot; cbn; [lia|lia| |done].
    intros i. destruct (decide (i = t)) as [->|]; [by rewrite (tk_listed max p t x)|done].
  - eapply track_inv_set; [done..| | | |]; unfold holds_slot; cbn; rewrite ?H1; [lia|lia| |done].
    intros i. destruct (decide (i = t)); set_solver.
  - assert (holds_slot x = true) as Hx by (unfold holds_slot; by rewrite H0).
    pose proof (mcount_pos _ _ t x H Hx) as Hp.
    eapply track_inv_set; [done..| | | |]; rewrite ?Hx; cbn; [lia|lia| |by intros _; apply (X t x); auto].
    intros i. destruct (decide (i = t)) as [->|]; [rewrite (tk_listed max p t x), H0 by done; done|done].
Qed.

(** The local connection limit.  In every interleaving of both listeners, the
    handlers and the shutdown, at most [MaxConnections] connections hold a slot; the
    table lists exactly the live ones; a slot is freed only for a closed connection
    and once; and when every connection's close has completed, all slots are free. *)
Theorem proxy_slots max p : rtc (track_step max) proxy_init p ->
  (mcount holds_slot (px_tracked p) <= max)%nat /\
  (forall t x, px_tracked p !! t = Some x ->
     (t ∈ px_conns p <-> tc_state x = Listed) /\ (tc_state x = Freed -> tc_closed x = true)) /\
  ((forall t x, px_tracked p !! t = Some x -> tc_state x = Freed) -> px_slots p = 0%nat /\ px_conns p = ∅).
Proof.
  intros Hr. assert (track_inv max p) as Hi; [|pose proof Hi as [S M C X]].
  { assert (track_inv max proxy_init) as H0 by (split; cbn; [done|lia|set_solver|naive_solver]).
    revert H0. induction Hr; eauto using track_inv_step. }
  split; [lia|]. split.
  - intros t x Ht. split; [|by intros; apply (X t x); auto]. by apply (tk_listed max p).
  - intros Hall. split.
    + rewrite S. unfold mcount. apply map_size_empty_iff, map_empty. intros i. apply map_lookup_filter_None. right.
      intros x Hx. cbn. unfold holds_slot. by rewrite (Hall i x Hx).
    + apply set_eq. intros i. rewrite C. split; [|set_solver]. intros (x & Hx & Hs). by rewrite (Hall i x Hx) in Hs.
Qed.

(** *** The compressed connection *)

Definition running (w : worker) : Z := match w with Ended => 0 | _ => 1 end.

Record zinv (s : compressedHTTPConn) : Prop := {
  zi_remaining : zc_remaining s = running (zc_enc s) + running (zc_dec s);
  zi_done : zc_done s = if zc_remaining s =? 0 then 1%nat else 0%nat;
  zi_abort : zc_enc s <> Copying \/ zc_dec s <> Copying \/ (0 < zc_waiting s + zc_returned s)%nat -> is_Some (zc_aborted s);
  zi_decoded : is_Some (zc_decoded s) <-> zc_dec s <> Copying;
  zi_eof : zc_readEOF s = true <-> zc_decoded s = Some true;
  zi_by : forall c, zc_aborted s = Some (ByDecoder c) -> zc_decoded s = Some c;
  zi_returned : (0 < zc_returned s)%nat -> zc_done s = 1%nat;
}.

Lemma running_cases w : running w = 0 /\ w = Ended \/ running w = 1 /\ w <> Ended.
Proof. destruct w; auto. Qed.

Lemma zabort_some who s : is_Some (zc_aborted (zabort who s)).
Proof. unfold zabort. cbn. by destruct (zc_aborted s). Qed.

Lemma zinv_step s s' : zstep s s' -> zinv s -> zinv s'.
Proof.
  intros Hst [R D A X E Y T]. destruct Hst as [s H|s H|s ok H|s H|s|s n H H'];
    destruct s as [ab rem eof dn enc dec dcd wt rt]; cbn in *.
  - destruct dec; subst; cbn in *; (split; cbn; [done|done|by destruct ab|done|done| |done]); destruct ab; auto; done.
  - destruct dec; subst; cbn in *; (split; cbn; [done|done|intros _; apply A; left; done|done|done|done|]);
      intros Hp; apply T in Hp; done.
  - assert (dcd = None) as -> by (destruct dcd; [destruct (proj1 X); [eauto|done]|done]).
    assert (eof = false) as -> by (destruct eof; [discriminate (proj1 E eq_refl)|done]).
    assert (forall c, ab <> Some (ByDecoder c)) as Hb by (intros c Hc%Y; done).
    destruct enc; subst; cbn in *; (split; cbn; [done|done|by destruct ab|split; [done|eauto]|by destruct ok| |done]);
      destruct ab; intros c Hc; try (by destruct (Hb c)); congruence.
  - destruct enc; subst; cbn in *; (split; cbn; [done|done|intros _; apply A; right; left; done|by rewrite X|done|done|]);
      intros Hp; apply T in Hp; done.
  - split; cbn; [done|done|by destruct ab|done|done| |done]. destruct ab; auto; done.
  - subst wt. split; cbn; [done|done|intros _; apply A; right; right; lia|done|done|done|].
    intros _. rewrite D in *. destruct (rem =? 0); [done|lia].
Qed.

Lemma zinv_reach s : rtc zstep newCompressedHTTPConn s -> zinv s.
Proof.
  intros Hr. assert (zinv newCompressedHTTPConn) as H0.
  { split; cbn; try done; try lia.
    - intros [?|[?|?]]; [done|done|lia]. }
  revert H0. induction Hr; eauto using zinv_step.
Qed.

(** Every worker can finish, and then every [Close] returns. *)
Lemma z_finish s : zinv s -> exists s', rtc zstep s s' /\ zc_enc s' = Ended /\ zc_dec s' = Ended /\
  zc_waiting s' = zc_waiting s /\ zc_returned s' = zc_returned s.
Proof.
  intros _. assert (exists s1, rtc zstep s s1 /\ zc_enc s1 = Ended /\ zc_dec s1 = zc_dec s /\
    zc_waiting s1 = zc_waiting s /\ zc_returned s1 = zc_returned s) as (s1 & R1 & E1 & E2 & E3 & E4).
  { destruct (zc_enc s) eqn:E; [| |by exists s].
    - eexists. split; [eapply rtc_l; [by apply z_enc|]; apply rtc_once; by apply z_enc_end|done].
    - eexists. split; [apply rtc_once; by apply z_enc_end|done]. }
  destruct (zc_dec s1) eqn:E; [| |by exists s1; rewrite <- E3, <- E4].
  - eexists. split; [etransitivity; [exact R1|]; eapply rtc_l; [by apply (z_dec s1 true)|]; apply rtc_once; by apply z_dec_end|].
    cbn. by rewrite E1, E3, E4.
  - eexists. split; [etransitivity; [exact R1|]; apply rtc_once; by apply z_dec_end|]. cbn. by rewrite E1, E3, E4.
Qed.

Lemma z_return_all s : (0 < zc_done s)%nat -> exists s', rtc zstep s s' /\ zc_waiting s' = 0%nat /\
  zc_returned s' = (zc_waiting s + zc_returned s)%nat.
Proof.
  remember (zc_waiting s) as n eqn:En. revert s En. induction n as [|n IH]; intros s En Hd; [by exists s|].
  destruct (IH (set_close n (S (zc_returned s)) s)) as (s' & HR & Hw & Hret); [done|done|].
  exists s'. split; [eapply rtc_l; [by apply z_return|done]|]. split; [done|]. cbn in Hret. lia.
Qed.

(** The compressed connection for HTTP.  In every interleaving of its two codec
    workers and any number of [Close] calls, [done] is closed at most once; [Close]
    returns only after both workers have ended and both pipe ends and the wire are
    closed, and it always can return; a read on the closed pipe reports EOF exactly when
    the decoder saw a clean end of the framed stream, and any other result is passed
    on unchanged. *)
Theorem compressed_conn_close s : rtc zstep newCompressedHTTPConn s ->
  (zc_done s <= 1)%nat /\
  ((0 < zc_returned s)%nat -> zc_enc s = Ended /\ zc_dec s = Ended /\ is_Some (zc_aborted s)) /\
  (exists s', rtc zstep s s' /\ zc_waiting s' = 0%nat /\ zc_returned s' = (zc_waiting s + zc_returned s)%nat) /\
  (forall n, compressed_Read s (n, Some ErrClosedPipe) = (n, Some EOF) <-> zc_decoded s = Some true) /\
  (zc_aborted s = Some (ByDecoder true) -> zc_readEOF s = true) /\
  (forall n err, err <> Some ErrClosedPipe -> compressed_Read s (n, err) = (n, err)).
Proof.
  intros Hr%zinv_reach. pose proof Hr as [R D A X E Y T]. split; [rewrite D; case_match; lia|]. split; [|split; [|split; [|split]]].
  - intros Hp. specialize (T Hp). rewrite T in D. destruct (Z.eqb_spec (zc_remaining s) 0) as [E0|]; [|done].
    destruct (running_cases (zc_enc s)) as [[? ?]|[? ?]], (running_cases (zc_dec s)) as [[? ?]|[? ?]]; try lia.
    split; [done|]. split; [done|]. apply A. right; right. lia.
  - destruct (z_finish s Hr) as (s1 & R1 & E1 & E2 & E3 & E4).
    assert (zinv s1) as Hi1 by (clear -R1 Hr; induction R1; eauto using zinv_step).
    destruct (z_return_all s1) as (s2 & R2 & ? & ?).
    { rewrite (zi_done s1 Hi1), (zi_remaining s1 Hi1), E1, E2. apply Nat.lt_0_1. }
    exists s2. split; [by etransitivity|]. split; [done|]. congruence.
  - intros n. unfold compressed_Read. rewrite bool_decide_eq_true_2 by done. cbn [andb]. rewrite <- E.
    destruct (zc_readEOF s); split; congruence.
  - intros Ha%Y. by apply E.
  - intros n err He. unfold compressed_Read. by rewrite bool_decide_eq_false_2.
Qed.

(** ** Concrete runs *)
Definition track1 : proxy := snd (track_slot 1 proxy_init).
Definition track2 : proxy := track_list (fresh (∅ : gset nat)) (mkTracked false Slotted) track1.

Lemma track2_reach : rtc (track_step 1) proxy_init track2.
Proof.
  apply rtc_l with track1; [apply tr_slot|]. apply rtc_once. apply tr_list; vm_compute; reflexivity.
Qed.

Lemma proxy_slots_witness : px_slots track2 = 1%nat /\ (mcount holds_slot (px_tracked track2) <= 1)%nat.
Proof. split; [vm_compute; reflexivity|]. exact (proj1 (proxy_slots 1 track2 track2_reach)). Defined.

(** The decoder reaches a clean end, the encoder follows, and a [Close] is waiting. *)
Definition zrun : compressedHTTPConn := set_close 1 0 (zabort ByClose (set_dec Aborted
  (zabort (ByDecoder true) (decoded true newCompressedHTTPConn)))).

Lemma zrun_reach : rtc zstep newCompressedHTTPConn zrun.
Proof. eapply rtc_l; [by apply (z_dec _ true)|]. apply rtc_once. apply z_close. Qed.

Lemma compressed_conn_close_witness : zc_waiting zrun = 1%nat /\
  exists s', rtc zstep zrun s' /\ zc_waiting s' = 0%nat /\ zc_returned s' = 1%nat.
Proof. split; [reflexivity|]. exact (proj1 (proj2 (proj2 (compressed_conn_close zrun zrun_reach)))). Defined.
