(* ===== verification/HttpProxy.v ===== *)
(** * Package proxy: the HTTP proxy

    Models [internal/proxy/http.go]: [ensurePort] and the admission of requests by
    [httpHandler] and [httpConnect], the pool of outgoing streams of [httpTransport] with
    its shutdown, and [progressBody].  The forwarding itself is net/http/httputil's
    ReverseProxy, which is not modelled. *)
From S2P Require Import Prelude GoStd GoNet Protocol Compress Relay.

(** ** Targets *)
Definition ensurePort (hostport defaultPort : bytes) : bytes :=
  if is_ok (SplitHostPort hostport) then hostport
  else
    let host := TrimSuffix (TrimPrefix hostport (bs "[")) (bs "]") in
    if HasPrefix hostport (bs "[") && HasSuffix hostport (bs "]") && bool_decide (is_Some (ParseIP host))
    then JoinHostPort host defaultPort
    else if bool_decide (is_Some (ParseIP hostport)) then JoinHostPort hostport defaultPort
    else if negb (ContainsByte hostport (ch ":")) then JoinHostPort hostport defaultPort
    else hostport.

Definition capacityHTTPStatus (e : error) : Z := if errors_Is e ErrCapacity then 503 else 502.

(** ** Requests *)

(** The parts of an [http.Request] that the handler looks at; [hr_body] is "has a
    body". *)
Record hrequest := mkHRequest {
  hr_method : bytes; hr_host : bytes; hr_body : bool;
  url_scheme : bytes; url_host : bytes; url_user : bool;
}.

(** [rejectHTTP]: the status, and whether "Connection: close" is set. *)
Inductive hresponse :=
| Rejected (status : Z) (close : bool)
| Forwarded (target : Address)
| ConnectFailed                                   (* hijacking or the reply failed *)
| Established (target : Address) (compressed : bool).

Definition rejectHTTP (r : hrequest) (status : Z) : hresponse := Rejected status (hr_body r).

(** The address of a target, when the handler accepts it. *)
Definition http_target (hostport defaultPort : bytes) : option Address :=
  match ParseAddress (ensurePort hostport defaultPort) with
  | Err _ => None
  | Ok a => if Port a =? 0 then None else Some a
  end.

(** [httpConnect]: [dial] is the answer of [dialStream], [hijack] the error of taking
    over the connection or of writing the reply.  The second part: was the dialled
    stream closed without a relay? *)
Definition httpConnect (r : hrequest) (dial : Address -> res bool) (hijack : option error) : hresponse * bool :=
  match http_target (hr_host r) (bs "443") with
  | None => (rejectHTTP r 400, false)
  | Some a =>
      if hr_body r then (rejectHTTP r 400, false)
      else
        match dial a with
        | Err e => (rejectHTTP r (capacityHTTPStatus e), false)
        | Ok compressed =>
            match hijack with
            | Some _ => (ConnectFailed, true)
            | None => (Established a compressed, false)
            end
        end
  end.

Definition httpHandler (r : hrequest) (dial : Address -> res bool) (hijack : option error) : hresponse * bool :=
  if bool_decide (hr_method r = bs "CONNECT") then httpConnect r dial hijack
  else if negb (bool_decide (url_scheme r = bs "http")) || bool_decide (url_host r = []) || url_user r
  then (rejectHTTP r 400, false)
  else match http_target (url_host r) (bs "80") with
       | None => (rejectHTTP r 400, false)
       | Some a => (Forwarded a, false)
       end.

(** The reader that [httpConnect] gives to [relay]: the bytes already buffered behind the
    request head, then the connection. *)
Definition connect_reader (buffered : bytes) (conn : list read_event) : list read_event :=
  match buffered with
  | [] => conn
  | _ => mkRead buffered None 0 :: conn
  end.

(** ** The pool of [httpTransport] *)

(** A call of [DialContext]: past the gate; with a stream opened and counted; listed in
    [conns]; refused because the pool closes; returned (or failed). *)
Inductive dphase := PDial | POpened | PListed | PRefused | PReturned.
Record dcall := mkCall { dc_phase : dphase; dc_open : bool }.

(** [hp_dials] is the wait group, [hp_gauge] [ActiveStreams], and [hp_todo] the list that
    [closeAll] still has to close ([None] before it is called). *)
Record pool := mkPool {
  hp_closing : bool; hp_dials : nat; hp_conns : gset nat; hp_gauge : Z; hp_calls : gmap nat dcall;
  hp_todo : option (gset nat); hp_closed : bool;
}.
Definition pool_init : pool := mkPool false 0 ∅ 0 ∅ None false.

Definition set_call (i : nat) (x : dcall) (dials : nat) (cs : gset nat) (g : Z) (p : pool) : pool :=
  mkPool (hp_closing p) dials cs g (<[i := x]> (hp_calls p)) (hp_todo p) (hp_closed p).

(** The gate of [DialContext]. *)
Definition dial_gate (p : pool) : option error * pool :=
  if hp_closing p then (Some ErrNetClosed, p)
  else (None, set_call (fresh (dom (hp_calls p))) (mkCall PDial false) (S (hp_dials p)) (hp_conns p) (hp_gauge p) p).

(** The second critical section: list the new connection, or refuse it. *)
Definition dial_list (i : nat) (p : pool) : pool :=
  if hp_closing p then set_call i (mkCall PRefused true) (hp_dials p) (hp_conns p) (hp_gauge p) p
  else set_call i (mkCall PListed true) (hp_dials p) ({[i]} ∪ hp_conns p) (hp_gauge p) p.

(** [trackedConn.Close] of a listed connection: the gauge goes down once and it leaves
    the map. *)
Definition pool_close (i : nat) (x : dcall) (p : pool) : pool :=
  set_call i (mkCall (dc_phase x) false) (hp_dials p) (hp_conns p ∖ {[i]}) (hp_gauge p - 1) p.

Inductive pool_step : pool -> pool -> Prop :=
| h_gate p : pool_step p (snd (dial_gate p))
| h_fail p i x : hp_calls p !! i = Some x -> dc_phase x = PDial ->
    pool_step p (set_call i (mkCall PReturned false) (hp_dials p - 1) (hp_conns p) (hp_gauge p) p)
| h_open p i x : hp_calls p !! i = Some x -> dc_phase x = PDial ->
    pool_step p (set_call i (mkCall POpened true) (hp_dials p) (hp_conns p) (hp_gauge p + 1) p)
| h_list p i x : hp_calls p !! i = Some x -> dc_phase x = POpened -> pool_step p (dial_list i p)
| h_refuse p i x : hp_calls p !! i = Some x -> dc_phase x = PRefused ->
    pool_step p (set_call i (mkCall PReturned false) (hp_dials p - 1) (hp_conns p) (hp_gauge p - 1) p)
| h_return p i x : hp_calls p !! i = Some x -> dc_phase x = PListed ->
    pool_step p (set_call i (mkCall PReturned (dc_open x)) (hp_dials p - 1) (hp_conns p) (hp_gauge p) p)
| h_close p i x : hp_calls p !! i = Some x -> dc_phase x = PListed \/ dc_phase x = PReturned -> dc_open x = true ->
    pool_step p (pool_close i x p)
| c_begin p : hp_todo p = None ->
    pool_step p (mkPool true (hp_dials p) (hp_conns p) (hp_gauge p) (hp_calls p) (Some (hp_conns p)) (hp_closed p))
| c_next p i t : hp_todo p = Some t -> i ∈ t -> (forall x, hp_calls p !! i = Some x -> dc_open x = false) ->
    pool_step p (mkPool (hp_closing p) (hp_dials p) (hp_conns p) (hp_gauge p) (hp_calls p) (Some (t ∖ {[i]})) (hp_closed p))
| c_done p : hp_todo p = Some ∅ -> hp_dials p = 0%nat ->
    pool_step p (mkPool (hp_closing p) (hp_dials p) (hp_conns p) (hp_gauge p) (hp_calls p) (hp_todo p) true).

(** ** progressBody *)

(** The deadline calls on the client connection. *)
Inductive deadline := Extend | Clear | Expire.
Record progressBody := mkBody { pb_closed : bool; pb_eof : bool; pb_calls : list deadline; pb_inner : nat }.
Definition newProgressBody : progressBody := mkBody false false [] 0.

(** [Read] in its two critical sections: the check, and the handling of EOF.  [pb_inner]
    counts the closes of the underlying body. *)
Definition body_begin (b : progressBody) : option error * progressBody :=
  if pb_closed b then (Some ErrBodyReadAfterClose, b)
  else (None, mkBody (pb_closed b) (pb_eof b) (pb_calls b ++ [Extend]) (pb_inner b)).
Definition body_end (err : option error) (b : progressBody) : progressBody :=
  if bool_decide (err = Some EOF)
  then mkBody (pb_closed b) true (if pb_closed b then pb_calls b else pb_calls b ++ [Clear]) (pb_inner b)
  else b.
Definition body_Close (b : progressBody) : progressBody :=
  if pb_closed b then b
  else mkBody true (pb_eof b) (if pb_eof b then pb_calls b else pb_calls b ++ [Expire]) (S (pb_inner b)).
Definition finished (b : progressBody) : bool := pb_eof b.

(** [ModifyResponse]: must the connection be closed after this response? *)
Definition must_close (b : option progressBody) : bool :=
  match b with Some b => negb (finished b) | None => false end.

Inductive body_event := ReadBegin | ReadEnd (err : option error) | CloseBody.
#[export] Instance body_event_eq_dec : EqDecision body_event.
Proof. solve_decision. Defined.
Definition body_do (b : progressBody) (e : body_event) : progressBody :=
  match e with ReadBegin => snd (body_begin b) | ReadEnd err => body_end err b | CloseBody => body_Close b end.

(** ** The pool never leaks *)

Definition inflight (x : dcall) : bool := match dc_phase x with PReturned => false | _ => true end.
Definition pooled (x : dcall) : bool :=
  match dc_phase x with PListed | PReturned => dc_open x | _ => false end.
Definition phase_open (x : dcall) : Prop :=
  match dc_phase x with PDial => dc_open x = false | POpened | PRefused => dc_open x = true | _ => True end.

Record pool_inv (p : pool) : Prop := {
  pi_dials : hp_dials p = mcount inflight (hp_calls p);
  pi_gauge : hp_gauge p = Z.of_nat (mcount dc_open (hp_calls p));
  pi_conns : forall i, i ∈ hp_conns p <-> exists x, hp_calls p !! i = Some x /\ pooled x = true;
  pi_phase : forall i x, hp_calls p !! i = Some x -> phase_open x;
  pi_closing : hp_closing p = bool_decide (is_Some (hp_todo p));
  pi_todo : forall t, hp_todo p = Some t -> hp_conns p ⊆ t;
  pi_closed : hp_closed p = true -> hp_todo p = Some ∅ /\ hp_dials p = 0%nat;
}.

(** One call changes: the counters follow, and nothing is pooled once the pool closes. *)
Lemma pool_inv_call p i x y n cs g : pool_inv p -> hp_calls p !! i = Some x ->
  (n + (if inflight x then 1 else 0) = hp_dials p + (if inflight y then 1 else 0))%nat ->
  g + (if dc_open x then 1 else 0) = hp_gauge p + (if dc_open y then 1 else 0) ->
  (forall j, j ∈ cs <-> if decide (j = i) then pooled y = true else j ∈ hp_conns p) ->
  phase_open y -> (inflight y = true -> inflight x = true) ->
  (pooled y = true -> pooled x = true \/ hp_closing p = false) ->
  pool_inv (set_call i y n cs g p).
Proof.
  intros [] Hi Hn Hg Hc Hph Hfl Hpool. split; cbn; [| | | |done| |].
  - pose proof (mcount_insert_old inflight _ i y x Hi). lia.
  - pose proof (mcount_insert_old dc_open _ i y x Hi). destruct (dc_open x), (dc_open y); lia.
  - intros j. rewrite Hc. destruct (decide (j = i)) as [->|Hj].
    + setoid_rewrite lookup_insert_eq. split; [eauto|]. by intros (z & [= <-] & ?).
    + rewrite pi_conns0. by setoid_rewrite lookup_insert_ne; [|done].
  - intros j z [[<- <-]|[? ?]]%lookup_insert_Some; eauto.
  - intros t Ht j Hj. rewrite Hc in Hj. destruct (decide (j = i)) as [->|].
    + apply (pi_todo0 t Ht), pi_conns0. exists x. split; [done|]. destruct (Hpool Hj) as [|Hcl]; [done|].
      rewrite pi_closing0, Ht in Hcl. done.
    + by apply (pi_todo0 t Ht).
  - intros Hcl. destruct (pi_closed0 Hcl) as [? Hz]. split; [done|].
    assert (inflight x = false) as Hx.
    { destruct (inflight x) eqn:E; [|done]. pose proof (mcount_pos inflight _ i x Hi E). lia. }
    rewrite Hx in *. destruct (inflight y); [by discriminate Hfl|]. lia.
Qed.

Lemma pool_conns_call p i x : pool_inv p -> hp_calls p !! i = Some x -> (i ∈ hp_conns p <-> pooled x = true).
Proof. intros [] Hi. rewrite pi_conns0. split; [|eauto]. intros (y & Hy & ?). congruence. Qed.

Lemma dials_pos p i x : pool_inv p -> hp_calls p !! i = Some x -> inflight x = true -> (0 < hp_dials p)%nat.
Proof. intros [] Hx E. rewrite pi_dials0. by eapply mcount_pos. Qed.

Lemma pool_inv_step p p' : pool_step p p' -> pool_inv p -> pool_inv p'.
Proof.
  intros Hst Hi. destruct Hst as [p|p i x Hx E|p i x Hx E|p i x Hx E|p i x Hx E|p i x Hx E|p i x Hx E Ho|p Ht|p i t Ht Hin Hcl|p Ht Hd];
    try (pose proof (pi_phase _ Hi _ _ Hx) as Hph; unfold phase_open in Hph; try rewrite E in Hph;
         pose proof (pool_conns_call _ _ _ Hi Hx) as Hin; unfold pooled in Hin; try rewrite E in Hin).
  - unfold dial_gate. destruct (hp_closing p) eqn:Ec; [done|]. cbn. destruct Hi.
    pose proof (not_elem_of_dom_1 _ _ (is_fresh (dom (hp_calls p)))) as Hf.
    split; cbn; [| | | |done|done|].
    + rewrite mcount_insert_new by done. cbn. lia.
    + rewrite mcount_insert_new by done. cbn. lia.
    + intros j. rewrite pi_conns0. split; intros (z & Hz & ?).
      * exists z. rewrite lookup_insert_ne by congruence. done.
      * apply lookup_insert_Some in Hz as [[<- <-]|[? ?]]; [done|eauto].
    + intros j z [[<- <-]|[? ?]]%lookup_insert_Some; [done|eauto].
    + intros Hcl. destruct (pi_closed0 Hcl) as [Ht _]. rewrite Ht in pi_closing0. cbn in pi_closing0. congruence.
  - apply (pool_inv_call _ _ x); unfold inflight, pooled; cbn; rewrite ?E, ?Hph; try done; try lia.
    + pose proof (dials_pos p i x Hi Hx ltac:(unfold inflight; by rewrite E)). lia.
    + intros j. destruct (decide (j = i)) as [->|]; [|done]. by rewrite Hin.
  - apply (pool_inv_call _ _ x); unfold inflight, pooled; cbn; rewrite ?E, ?Hph; try done; try lia.
    intros j. destruct (decide (j = i)) as [->|]; [|done]. by rewrite Hin.
  - unfold dial_list. destruct (hp_closing p) eqn:Ec;
      apply (pool_inv_call _ _ x); unfold inflight, pooled; cbn; rewrite ?E, ?Hph; try done; try lia; auto;
      intros j; destruct (decide (j = i)) as [->|]; set_solver.
  - apply (pool_inv_call _ _ x); unfold inflight, pooled; cbn; rewrite ?E, ?Hph; try done; try lia.
    + pose proof (dials_pos p i x Hi Hx ltac:(unfold inflight; by rewrite E)). lia.
    + intros j. destruct (decide (j = i)) as [->|]; [|done]. by rewrite Hin.
  - apply (pool_inv_call _ _ x); unfold inflight, pooled; cbn; rewrite ?E; try done; try lia; auto.
    + pose proof (dials_pos p i x Hi Hx ltac:(unfold inflight; by rewrite E)). lia.
    + intros j. destruct (decide (j = i)) as [->|]; [|done]. by rewrite Hin.
  - unfold pool_close. apply (pool_inv_call _ _ x); unfold inflight, pooled, phase_open; cbn; rewrite ?Ho; try done; try lia.
    + intros j. destruct (decide (j = i)) as [->|]; [|set_solver]. destruct (dc_phase x); set_solver.
    + by destruct E as [-> | ->].
    + by destruct E as [-> | ->].
  - destruct Hi. split; cbn; try done; [by intros t [= <-]|]. intros Hcl. destruct (pi_closed0 Hcl). congruence.
  - destruct Hi. split; cbn; try done.
    + rewrite pi_closing0, Ht. done.
    + intros t' [= <-] j Hj. apply elem_of_difference. split; [by apply (pi_todo0 t Ht)|].
      intros ->%elem_of_singleton. apply pi_conns0 in Hj as (x & Hx & Hp). unfold pooled in Hp.
      rewrite (Hcl x Hx) in Hp. by destruct (dc_phase x).
    + intros Hc. destruct (pi_closed0 Hc) as [Ht' ?]. rewrite Ht in Ht'. injection Ht' as ->. set_solver.
  - destruct Hi. by split.
Qed.

Lemma pool_inv_reach p : rtc pool_step pool_init p -> pool_inv p.
Proof.
  intros Hr. assert (pool_inv pool_init) as H0.
  { split; cbn; try done. intros i. split; [set_solver|]. by intros (x & Hx%lookup_empty_Some & _). }
  revert H0. induction Hr; eauto using pool_inv_step.
Qed.

(** The pool of outgoing HTTP streams.  In every interleaving of dials, closes and
    the shutdown, the active-stream gauge is the number of open streams and the table
    lists exactly the open ones handed out; once [closeAll] has returned, no dial is
    running, every stream that was ever opened is closed, the gauge is zero, and every
    later dial is refused. *)
Theorem http_pool_closed p : rtc pool_step pool_init p ->
  hp_gauge p = Z.of_nat (mcount dc_open (hp_calls p)) /\
  (forall i x, hp_calls p !! i = Some x -> (i ∈ hp_conns p <-> pooled x = true)) /\
  (hp_closed p = true ->
     hp_conns p = ∅ /\ hp_gauge p = 0 /\ hp_dials p = 0%nat /\
     (forall i x, hp_calls p !! i = Some x -> dc_phase x = PReturned /\ dc_open x = false) /\
     dial_gate p = (Some ErrNetClosed, p)).
Proof.
  intros Hi%pool_inv_reach. pose proof Hi as []. split; [done|]. split; [intros i x; by apply pool_conns_call|].
  intros Hc. destruct (pi_closed0 Hc) as [Ht Hd]. assert (hp_conns p = ∅) as He.
  { apply set_eq. intros i. split; [|set_solver]. apply (pi_todo0 _ Ht). }
  assert (forall i x, hp_calls p !! i = Some x -> dc_phase x = PReturned /\ dc_open x = false) as Hall.
  { intros i x Hx. assert (dc_phase x = PReturned) as Hp.
    { destruct (inflight x) eqn:E; [|unfold inflight in E; by destruct (dc_phase x)].
      pose proof (mcount_pos inflight _ i x Hx E). lia. }
    split; [done|]. destruct (dc_open x) eqn:Eo; [|done].
    assert (i ∈ hp_conns p) as Hin by (apply pi_conns0; exists x; unfold pooled; by rewrite Hp).
    rewrite He in Hin. set_solver. }
  split; [done|]. split; [|split; [done|split; [done|]]].
  - rewrite pi_gauge0. apply (Z2Nat.inj_iff _ 0); [lia|lia|]. rewrite Nat2Z.id. unfold mcount.
    apply map_size_empty_iff, map_empty. intros i. apply map_lookup_filter_None. right. intros x Hx. cbn.
    by destruct (Hall i x Hx) as [_ ->].
  - unfold dial_gate. rewrite pi_closing0, Ht. done.
Qed.

(** ** Targets *)

(** The host of a printed address. *)
Definition host_text (a : Address) : bytes := if beq (Atyp a) AtypDomain then Host a else IP_String (IP a).

(** Addresses whose text has neither colon nor bracket: names and IPv4. *)
Definition plain_address (a : Address) : Prop :=
  valid_address a /\ wire_form a = a /\
  (Atyp a = AtypIPv4 \/ (Atyp a = AtypDomain /\ ParseIP (Host a) = None)).

Lemma plain_parse a : plain_address a -> ParseAddress (Address_String a) = Ok a.
Proof.
  intros (Hv & Hw & [E|[E Hip]]); [by apply ParseAddress_String_v4|by apply ParseAddress_String_domain].
Qed.

Lemma plain_text a c : plain_address a -> c = ch ":" \/ c = ch "[" \/ c = ch "]" -> ContainsByte (host_text a) c = false.
Proof.
  intros (Hv & Hw & [E|[E Hip]]) Hc; unfold host_text; rewrite E; atyp_cases.
  - pose proof (wire_v4 a Hv Hw E) as (v & Hi & Hl & _). rewrite Hi, (IP_String_v4 v v) by (by apply To4_four).
    eapply forallb_not_contains; [by apply ipv4_string_chars|]. by destruct Hc as [->|[-> | ->]].
  - eapply forallb_not_contains; [by apply domain_chars; [apply Hv|..]|]. by destruct Hc as [->|[-> | ->]].
Qed.

Lemma plain_port a p : plain_address a -> 0 <= p < 65536 -> plain_address (with_port a p).
Proof.
  intros ([Hv Hp] & Hw & Ht) Hr. split; [|split; [|done]].
  - split; [|done]. by destruct a.
  - transitivity (with_port (wire_form a) p); [|by rewrite Hw].
    unfold wire_form. destruct a as [t h i q]. cbn. by repeat case_match.
Qed.

Lemma SplitHostPort_noport h : ContainsByte h (ch ":") = false -> is_ok (SplitHostPort h) = false.
Proof. intros Hc. unfold SplitHostPort. by rewrite LastIndexByte_None. Qed.

Lemma ensurePort_plain h d : ContainsByte h (ch ":") = false -> ContainsByte h (ch "[") = false ->
  ensurePort h d = JoinHostPort h d.
Proof.
  intros Hc Hb. unfold ensurePort. rewrite SplitHostPort_noport by done.
  assert (HasPrefix h (bs "[") = false) as ->.
  { unfold HasPrefix. apply bool_decide_eq_false. intros E. destruct h as [|x h]; [done|]. cbn in E.
    injection E as ->. by rewrite ContainsByte_cons, beq_refl in Hb. }
  cbn [andb]. case_bool_decide; [done|]. by rewrite Hc.
Qed.

(** The targets of the HTTP proxy.  For every name or IPv4 address, the text with an
    explicit port gives exactly that address and port, and the text without one gives
    the scheme's default port; port zero is refused; and no target is ever accepted
    that is not a valid address. *)
Theorem http_target_exact a d s dp : plain_address a -> 0 < d < 65536 ->
  http_target (Address_String a) (Itoa d) = (if Port a =? 0 then None else Some a) /\
  http_target (host_text a) (Itoa d) = Some (with_port a d) /\
  (forall b, http_target s dp = Some b -> valid_address b /\ wire_form b = b /\ Port b <> 0).
Proof.
  intros Ha Hd. split; [|split].
  - unfold http_target. assert (ensurePort (Address_String a) (Itoa d) = Address_String a) as ->.
    { unfold ensurePort. assert (is_ok (SplitHostPort (Address_String a)) = true) as ->; [|done].
      assert (Address_String a = JoinHostPort (host_text a) (Itoa (Port a))) as ->.
      { unfold Address_String, host_text. by destruct (beq (Atyp a) AtypDomain). }
      destruct (proj1 Ha) as [_ Hp]. destruct (Itoa_spec (Port a)) as (_ & Hdg & _); [lia|].
      rewrite SplitHostPort_JoinHostPort; [done|apply plain_text; auto..|done]. }
    by rewrite plain_parse.
  - unfold http_target. rewrite ensurePort_plain by (apply plain_text; auto).
    pose proof (plain_parse _ (plain_port a d Ha ltac:(lia))) as Hp.
    assert (Address_String (with_port a d) = JoinHostPort (host_text a) (Itoa d)) as E.
    { unfold Address_String, host_text, with_port. cbn. by destruct (beq (Atyp a) AtypDomain). }
    rewrite E in Hp. rewrite Hp. cbn [Port with_port]. by rewrite (proj2 (Z.eqb_neq d 0)) by lia.
  - intros b. unfold http_target. destruct (ParseAddress _) as [x|] eqn:E; [|done].
    destruct (Z.eqb_spec (Port x) 0); [done|]. intros [= <-]. apply ParseAddress_sound in E as [? ?]. done.
Qed.

Lemma http_target_valid s d b : http_target s d = Some b -> valid_address b /\ Port b <> 0.
Proof.
  unfold http_target. destruct (ParseAddress _) as [x|] eqn:E; [|done].
  destruct (Z.eqb_spec (Port x) 0); [done|]. intros [= <-]. apply ParseAddress_sound in E as [? _]. done.
Qed.

(** What the HTTP handler lets through.  A request is forwarded only as an absolute
    http URL without user information, a tunnel is established only for a CONNECT
    without a body whose target was dialled and whose reply was written, both only for
    valid targets with a nonzero port; a dialled stream that is not relayed is closed;
    every refusal is 400, or 503 for a capacity error and 502 for other dial errors, and
    closes the connection when an unread body could follow.  The relay then sees the
    bytes buffered behind the request head first, none lost or repeated. *)
Theorem http_request_gate r dial hijack resp closed buffered conn :
  httpHandler r dial hijack = (resp, closed) ->
  match resp with
  | Forwarded a => hr_method r <> bs "CONNECT" /\ url_scheme r = bs "http" /\ url_user r = false /\
      http_target (url_host r) (bs "80") = Some a /\ valid_address a /\ Port a <> 0 /\ closed = false
  | Established a c => hr_method r = bs "CONNECT" /\ hr_body r = false /\ dial a = Ok c /\ hijack = None /\
      http_target (hr_host r) (bs "443") = Some a /\ valid_address a /\ Port a <> 0 /\ closed = false
  | ConnectFailed => closed = true /\ hr_method r = bs "CONNECT" /\ exists a c, dial a = Ok c
  | Rejected st cl => closed = false /\ cl = hr_body r /\
      (st = 400 \/ exists a e, dial a = Err e /\ st = if errors_Is e ErrCapacity then 503 else 502)
  end /\
  delivered (connect_reader buffered conn) = buffered ++ delivered conn.
Proof.
  intros E. split; [|by destruct buffered].
  revert E. unfold httpHandler. case_bool_decide as Hm.
  - unfold httpConnect. destruct (http_target (hr_host r) (bs "443")) as [a|] eqn:Et; [|intros [= <- <-]; cbn; auto].
    apply http_target_valid in Et as Hv. destruct Hv as [? ?].
    destruct (hr_body r) eqn:Eb; [intros [= <- <-]; cbn; rewrite Eb; auto|].
    destruct (dial a) as [c|e] eqn:Ed; [|intros [= <- <-]; cbn; rewrite Eb; eauto 10].
    destruct hijack; intros [= <- <-]; eauto 10.
  - destruct (_ || _) eqn:Eo; [intros [= <- <-]; cbn; auto|].
    apply orb_false_iff in Eo as [[Es%negb_false_iff%bool_decide_eq_true Eh]%orb_false_iff Eu].
    destruct (http_target (url_host r) (bs "80")) as [a|] eqn:Et; [|intros [= <- <-]; cbn; auto].
    apply http_target_valid in Et as Hv. destruct Hv. intros [= <- <-]. split_and!; done.
Qed.

(** ** progressBody *)

Definition body_run (evs : list body_event) : progressBody := fold_left body_do evs newProgressBody.

(** Where the body was closed: nothing but its closing touches the deadline later. *)
Record body_inv (b : progressBody) : Prop := {
  bi_inner : pb_inner b = if pb_closed b then 1%nat else 0%nat;
  bi_expire : pb_closed b = true -> pb_eof b = false -> last (pb_calls b) = Some Expire;
  bi_open : pb_closed b = false -> Expire ∉ pb_calls b;
}.

Lemma body_inv_do b e : body_inv b -> body_inv (body_do b e).
Proof.
  intros [I E O]. destruct e as [|err|]; cbn.
  - unfold body_begin. destruct (pb_closed b) eqn:Ec; cbn; [split; rewrite ?Ec; auto; congruence|].
    split; cbn; rewrite ?Ec; [done|done|]. intros _. specialize (O eq_refl). set_solver.
  - unfold body_end. case_bool_decide; [|by split].
    destruct (pb_closed b) eqn:Ec; split; cbn; rewrite ?Ec; try done; try congruence. intros _. specialize (O eq_refl). set_solver.
  - unfold body_Close. destruct (pb_closed b) eqn:Ec; [split; rewrite ?Ec; auto; congruence|]. split; cbn; [by rewrite I| |done].
    intros _ ->. apply last_snoc.
Qed.

Lemma body_closed_calls b evs : pb_closed b = true ->
  pb_calls (fold_left body_do evs b) = pb_calls b /\ pb_closed (fold_left body_do evs b) = true.
Proof.
  revert b. induction evs as [|e evs IH]; intros b Hb; [done|]. cbn.
  destruct (IH (body_do b e)) as [-> ->]; [|split; [|done]]; destruct e; cbn; unfold body_begin, body_end, body_Close;
    rewrite ?Hb; try done; case_bool_decide; cbn; by rewrite ?Hb.
Qed.

(** The request body under cancellation.  However reads and closes interleave, the
    underlying body is closed at most once, and once it is closed no later call moves
    the read deadline again: a body closed before its end leaves the deadline expired,
    which is what unblocks a pending read, and reads begun later fail; the connection is
    marked for closing exactly while the upload has not been read to its end. *)
Theorem progress_body evs later : let b := body_run evs in
  (pb_inner b <= 1)%nat /\
  (pb_closed b = true -> pb_calls (body_run (evs ++ later)) = pb_calls b /\
     fst (body_begin b) = Some ErrBodyReadAfterClose) /\
  (pb_closed b = true -> pb_eof b = false -> last (pb_calls b) = Some Expire) /\
  must_close (Some b) = negb (bool_decide (ReadEnd (Some EOF) ∈ evs)).
Proof.
  cbv zeta. assert (body_inv (body_run evs)) as [I E O].
  { unfold body_run. assert (body_inv newProgressBody) as H0 by (split; cbn; [done|done|set_solver]).
    revert H0. generalize newProgressBody. induction evs; intros b Hb; [done|]. cbn. eauto using body_inv_do. }
  split; [rewrite I; case_match; lia|]. split; [|split; [done|]].
  - intros Hc. split; [|unfold body_begin; by rewrite Hc]. unfold body_run in *. rewrite fold_left_app.
    by apply body_closed_calls.
  - cbn. unfold finished. f_equal. clear. unfold body_run.
    assert (forall b, pb_eof (fold_left body_do evs b) = pb_eof b || bool_decide (ReadEnd (Some EOF) ∈ evs)) as H;
      [|apply (H newProgressBody)].
    induction evs as [|e evs IH]; intros b; cbn [fold_left]; [by rewrite bool_decide_eq_false_2, orb_false_r by set_solver|].
    rewrite IH, (bool_decide_ext (ReadEnd (Some EOF) ∈ e :: evs) (ReadEnd (Some EOF) = e \/ ReadEnd (Some EOF) ∈ evs)) by apply elem_of_cons.
    rewrite bool_decide_or, orb_assoc. f_equal. destruct e as [|err|]; cbn.
    + unfold body_begin. destruct (pb_closed b); cbn; by rewrite orb_false_r.
    + unfold body_end. rewrite (bool_decide_ext (ReadEnd (Some EOF) = ReadEnd err) (err = Some EOF)) by naive_solver.
      destruct (bool_decide (err = Some EOF)); cbn; [by rewrite orb_true_r|by rewrite orb_false_r].
    + unfold body_Close. destruct (pb_closed b); cbn; by rewrite orb_false_r.
Qed.

(** ** Concrete runs *)
Definition plain_name : Address := mkAddress AtypDomain (bs "example.org") [] 8080.

Lemma plain_name_ok : plain_address plain_name.
Proof.
  split; [split; [vm_compute; reflexivity|cbn; lia]|]. split; [reflexivity|].
  right. split; [reflexivity|vm_compute; reflexivity].
Qed.

Lemma http_target_exact_witness :
  http_target (host_text plain_name) (Itoa 80) = Some (with_port plain_name 80) /\
  http_target (bs "[::1]:80") (Itoa 80) = http_target (bs "[::1]") (Itoa 80).
Proof.
  split; [|vm_compute; reflexivity].
  refine (proj1 (proj2 (http_target_exact plain_name 80 [] [] plain_name_ok _))). lia.
Defined.

Definition connect_req : hrequest := mkHRequest (bs "CONNECT") (bs "example.org:443") false [] [] false.

Lemma http_request_gate_witness : exists a, httpHandler connect_req (fun _ => Ok true) None = (Established a true, false) /\
  valid_address a /\ delivered (connect_reader (bs "x") []) = bs "x" ++ delivered [].
Proof.
  eexists. split; [vm_compute; reflexivity|].
  destruct (http_request_gate connect_req (fun _ => Ok true) None _ _ (bs "x") [] eq_refl) as [(_ & _ & _ & _ & _ & Hv & _) Hd].
  split; [exact Hv|exact Hd].
Defined.

(** A stream is pooled, then the pool is closed. *)
Definition pool1 : pool := snd (dial_gate pool_init).
Definition pool_call : nat := fresh (∅ : gset nat).
Definition pool2 : pool := set_call pool_call (mkCall POpened true) 1 ∅ 1 pool1.
Definition pool3 : pool := dial_list pool_call pool2.
Definition pool4 : pool := set_call pool_call (mkCall PReturned true) 0 (hp_conns pool3) 1 pool3.
Definition pool5 : pool := mkPool true 0 (hp_conns pool4) 1 (hp_calls pool4) (Some (hp_conns pool4)) false.
Definition pool6 : pool := pool_close pool_call (mkCall PReturned true) pool5.
Definition pool7 : pool := mkPool true 0 (hp_conns pool6) 0 (hp_calls pool6) (Some (hp_conns pool5 ∖ {[pool_call]})) false.
Definition pool8 : pool := mkPool true 0 (hp_conns pool7) 0 (hp_calls pool7) (hp_todo pool7) true.

Lemma pool8_reach : rtc pool_step pool_init pool8.
Proof.
  apply rtc_l with pool1; [apply h_gate|].
  apply rtc_l with pool2; [eapply (h_open pool1 pool_call); vm_compute; reflexivity|].
  apply rtc_l with pool3; [eapply (h_list pool2 pool_call); vm_compute; reflexivity|].
  apply rtc_l with pool4; [eapply (h_return pool3 pool_call (mkCall PListed true)); vm_compute; reflexivity|].
  apply rtc_l with pool5; [apply (c_begin pool4); vm_compute; reflexivity|].
  apply rtc_l with pool6; [apply (h_close pool5 pool_call (mkCall PReturned true)); [vm_compute; reflexivity|by right|reflexivity]|].
  apply rtc_l with pool7; [apply (c_next pool6 pool_call (hp_conns pool5)); [reflexivity|set_solver|]|].
  { intros x Hx. vm_compute in Hx. injection Hx as <-. reflexivity. }
  apply rtc_once. apply (c_done pool7); vm_compute; reflexivity.
Qed.

Lemma http_pool_closed_witness : hp_closed pool8 = true /\ hp_gauge pool8 = 0 /\ hp_conns pool8 = ∅.
Proof.
  destruct (http_pool_closed pool8 pool8_reach) as (_ & _ & Hc).
  destruct (Hc eq_refl) as (H1 & H2 & _). split; [reflexivity|]. split; [exact H2|exact H1].
Defined.
