(* ===== verification/Config.v ===== *)
(** * Package config: loading and validating the configuration

    Models [internal/config] (config.go, rotation.go) and the bounded file reads of
    [internal/safefile].  The YAML decoder and [url.Parse] are parameters: what they
    answer is an argument of the functions that call them.  An [int] field is a [Z]. *)
From S2P Require Import Prelude GoStd GoNet GoEncoding Tunnel.

(** ** safefile.Read *)

(** What the system answers about a path: opening it, its [Stat] (regular, size), its
    contents and the error its reads end with. *)
Record file := mkFile { f_open : option error; f_stat : res (bool * Z); f_data : bytes; f_err : option error }.

(** [io.ReadAll(io.LimitReader(f, n))]: a limit that is reached ends the read like an
    end of file. *)
Definition read_limited (f : file) (n : Z) : bytes * option error :=
  if n <=? Z.of_nat (length (f_data f)) then (take (Z.to_nat n) (f_data f), None) else (f_data f, f_err f).

Definition safefile_Read (f : file) (max : Z) : res bytes :=
  if max <? 1 then Err (ErrNew "invalid file limit")
  else match f_open f with
  | Some e => Err e
  | None =>
      match f_stat f with
      | Err e => Err e
      | Ok (regular, size) =>
          if negb regular then Err (ErrNew "configuration must be a regular file")
          else if max <? size then Err ErrSize
          else
            let '(b, err) := read_limited f (max + 1) in
            if max <? Z.of_nat (length b) then Err ErrSize
            else match err with Some e => Err e | None => Ok b end
      end
  end.

(** ** The settings *)

(** A Go slice: nil, or its elements.  [reflect.DeepEqual] tells nil from empty. *)
Definition slice (A : Type) : Type := option (list A).
Definition elements {A} (s : slice A) : list A := default [] s.

Record ACL := mkACL { acl_Allow : slice bytes; acl_Deny : slice bytes; AllowPorts : slice Z; DenyPorts : slice Z }.
Record Decoy := mkDecoy { Mode : bytes; Upstream : bytes; DecoyDir : bytes; SiteName : bytes }.
Record UDP := mkUDP {
  udp_MaxFlows : Z; udp_QueueSize : Z; udp_Workers : Z; udp_NewFlowsPerSecond : Z; udp_MaxPayload : Z; udp_IdleTimeoutSec : Z;
}.

Record Server := mkServerCfg {
  sv_CongestionControl : bytes; sv_PreviousPSK : bytes; sv_PreviousPSKExpires : Z;
  sv_MaxActiveStreams : Z; sv_MaxCompressedStreams : Z;
  sv_HandshakeTimeoutSec : Z; sv_RequestTimeoutSec : Z; sv_MaxConnections : Z; sv_MaxStreamsPerConnection : Z;
  sv_DNSTimeoutSec : Z; sv_DNSConcurrency : Z; sv_UDP : UDP; sv_AllowEphemeralCert : bool;
  sv_Listen : bytes; sv_PSK : bytes; sv_ALPN : bytes; sv_CertFile : bytes; sv_KeyFile : bytes;
  sv_IdleTimeoutSec : Z; sv_ACL : ACL; sv_Decoy : Decoy; sv_Allow0RTT : bool; sv_Compression : bool;
  sv_MetricsListen : bytes; sv_MaxStreamRecvWindowMB : Z; sv_MaxConnRecvWindowMB : Z;
}.

Record Client := mkClientCfg {
  cl_CongestionControl : bytes; cl_NextPin : bytes; cl_NextPinExpires : Z;
  cl_MaxActiveStreams : Z; cl_MaxCompressedStreams : Z;
  cl_HandshakeTimeoutSec : Z; cl_RequestTimeoutSec : Z; cl_MaxPendingRequests : Z; cl_MaxUDPSessions : Z;
  cl_MaxConnections : Z; cl_ProxyIdleTimeoutSec : Z; cl_HTTPResponseHeaderTimeoutSec : Z; cl_MaxHeaderBytes : Z;
  cl_AllowRemoteProxy : bool; cl_DisableSessionResumption : bool;
  cl_Server : bytes; cl_PSK : bytes; cl_Pin : bytes; cl_ALPN : bytes; cl_SOCKSListen : bytes; cl_HTTPListen : bytes;
  cl_IdleTimeoutSec : Z; cl_Enable0RTT : bool; cl_Compression : bool; cl_MetricsListen : bytes;
  cl_MaxStreamRecvWindowMB : Z; cl_MaxConnRecvWindowMB : Z;
}.

#[export] Instance ACL_eq_dec : EqDecision ACL.
Proof. solve_decision. Defined.
#[export] Instance Decoy_eq_dec : EqDecision Decoy.
Proof. solve_decision. Defined.
#[export] Instance UDP_eq_dec : EqDecision UDP.
Proof. solve_decision. Defined.
#[export] Instance Server_eq_dec : EqDecision Server.
Proof. solve_decision. Defined.

Definition alpnOr (a : bytes) : bytes := if bool_decide (a = []) then bs "h3" else a.

(** ** Checks *)

(** [if c { return errors.New(msg) }]. *)
Definition reject_if (c : bool) (msg : string) : res () := if c then Err (ErrNew msg) else Ok tt.

Definition DecodePSK (s : bytes) : res bytes :=
  if bool_decide (s = []) then Err (ErrNew "config: psk is required")
  else match DecodeString s with
  | Err e => Err (Wrapped "config: psk must be base64" e)
  | Ok b =>
      if bool_decide (256 < length b)%nat then Err (ErrNew "config: psk exceeds 256 bytes")
      else if bool_decide (length b < 16)%nat then Err (ErrNew "config: psk must be at least 16 bytes")
      else Ok b
  end.

(** [bounded] on the value its pointer argument holds: the value stored. *)
Definition bounded (p : Z) (name : string) (def mn mx : Z) : res Z :=
  let p' := if p =? 0 then def else p in
  if (p' <? mn) || (mx <? p') then Err (ErrNew ("config: out of range: " ++ name)) else Ok p'.

Definition validateEndpoint (addr : bytes) (hostRequired : bool) : res () :=
  match SplitHostPort addr with
  | Err _ => Err (ErrNew "config: invalid endpoint")
  | Ok (host, port) =>
      match Atoi port with
      | Err _ => Err (ErrNew "config: invalid endpoint")
      | Ok n => reject_if ((n <? 1) || (65535 <? n) || (hostRequired && bool_decide (host = []))) "config: invalid endpoint"
      end
  end.

(** The three timeouts [validateCommon] stores. *)
Definition validateCommon (alpn metrics : bytes) (idle handshake request stream conn : Z) : res (Z * Z * Z) :=
  reject_if (negb (bool_decide (alpn = [])) && negb (bool_decide (alpn = bs "h3"))) "config: protocol v2 requires ALPN h3";;
  (if bool_decide (metrics = []) then Ok tt else validateEndpoint metrics false);;
  idle' ← bounded idle "idle_timeout_sec" 60 5 3600;
  handshake' ← bounded handshake "handshake_timeout_sec" 10 1 120;
  request' ← bounded request "request_timeout_sec" 15 1 300;
  reject_if ((stream <? 0) || (256 <? stream) || (conn <? 0) || (1024 <? conn))
    "config: receive windows must be nonnegative and within 256/1024 MiB";;
  reject_if ((if conn =? 0 then 24 else conn) <? (if stream =? 0 then 16 else stream))
    "config: connection receive window must cover stream window";;
  Ok (idle', handshake', request').

Definition validateOverlap (now : Z) (value : bytes) (expires : Z) : res () :=
  if bool_decide (value = [])
  then reject_if (negb (IsZero expires)) "config: rotation expiry requires alternate credential"
  else reject_if (IsZero expires || After expires (now + week))
         "config: alternate credential needs expiry no more than 7 days ahead".

(** ** Loading *)

(** [load], with the decoder's answers for a file: the first document, and the error of
    decoding a second one. *)
Definition load {A} (f : file) (yaml : bytes -> res A * option error) : res A :=
  match safefile_Read f (2 ^ 20) with
  | Err e => if errors_Is e ErrSize then Err (Wrapped "config: file exceeds 1 MiB" e) else Err e
  | Ok data =>
      let '(first, second) := yaml data in
      c ← first;
      if bool_decide (second = Some EOF) then Ok c else Err (ErrNew "config: exactly one YAML document required")
  end.

(** What the code looks at of a [url.URL]. *)
Record url := mkURL { u_Scheme : bytes; u_Host : bytes; u_User : bool }.

Definition bad_upstream (parsed : res url) : bool :=
  match parsed with
  | Err _ => true
  | Ok u => bool_decide (u_Host u = []) ||
            (negb (bool_decide (u_Scheme u = bs "http")) && negb (bool_decide (u_Scheme u = bs "https"))) || u_User u
  end.

(** A path of the settings, relative to the directory of the configuration file. *)
Definition resolve_path (path p : bytes) : bytes :=
  if negb (bool_decide (p = [])) && negb (IsAbs p) then Join2 (Dir path) p else p.

Definition check_ports (l : list Z) : res () :=
  reject_if (existsb (fun p => (p <? 1) || (65535 <? p)) l) "config: ACL port outside 1..65535".

Definition check_decoy (parse : bytes -> res url) (d : Decoy) : res () :=
  if bool_decide (Mode d = bs "off") || bool_decide (Mode d = bs "builtin") then Ok tt
  else if bool_decide (Mode d = bs "dir") then reject_if (bool_decide (DecoyDir d = [])) "config: decoy dir is required"
  else if bool_decide (Mode d = bs "proxy") then reject_if (bad_upstream (parse (Upstream d))) "config: invalid decoy upstream"
  else Err (ErrNew "config: unknown decoy mode").

(** The congestion controller with its default, checked. *)
Definition check_congestion (cc : bytes) : res bytes :=
  let cc' := if bool_decide (cc = []) then bs "reno" else cc in
  reject_if (negb (bool_decide (cc' = bs "reno")) && negb (bool_decide (cc' = bs "bbr"))) "config: congestion_control must be reno or bbr";;
  Ok cc'.

(** The stream limits: the two entries of the table of checks both loaders share, and
    the check after it. *)
Definition check_streams (active compressed : Z) : res (Z * Z) :=
  let active0 := if active =? 0 then 128 else active in
  active' ← bounded active0 "max_active_streams" 128 1 4096;
  compressed' ← bounded compressed "max_compressed_streams" (Z.min 16 active0) 1 128;
  Ok (active', compressed').

Definition check_udp (u : UDP) : res UDP :=
  flows ← bounded (udp_MaxFlows u) "udp.max_flows" 256 1 65536;
  queue ← bounded (udp_QueueSize u) "udp.queue_size" 128 1 4096;
  workers ← bounded (udp_Workers u) "udp.workers" 4 1 64;
  rate ← bounded (udp_NewFlowsPerSecond u) "udp.new_flows_per_second" 32 1 4096;
  payload ← bounded (udp_MaxPayload u) "udp.max_payload" 850 1 850;
  idle ← bounded (udp_IdleTimeoutSec u) "udp.idle_timeout_sec" 60 1 3600;
  Ok (mkUDP flows queue workers rate payload idle).

(** The keys of a server: the primary, and a different previous one while it overlaps. *)
Definition check_keys (psk previous : bytes) : res () :=
  if bool_decide (previous = []) then Ok tt
  else
    old ← DecodePSK previous;
    pri ← DecodePSK psk;
    reject_if (bool_decide (old = pri)) "config: previous_psk equals primary".

(** [LoadServer] for a path, given what [load] returned for it. *)
Definition LoadServer (now : Z) (parse : bytes -> res url) (path : bytes) (loaded : res Server) : res Server :=
  c ← loaded;
  validateOverlap now (sv_PreviousPSK c) (sv_PreviousPSKExpires c);;
  check_keys (sv_PSK c) (sv_PreviousPSK c);;
  let listen := if bool_decide (sv_Listen c = []) then bs ":4242" else sv_Listen c in
  validateEndpoint listen false;;
  DecodePSK (sv_PSK c);;
  '(idle, handshake, request) ← validateCommon (sv_ALPN c) (sv_MetricsListen c) (sv_IdleTimeoutSec c)
    (sv_HandshakeTimeoutSec c) (sv_RequestTimeoutSec c) (sv_MaxStreamRecvWindowMB c) (sv_MaxConnRecvWindowMB c);
  reject_if (negb (Bool.eqb (bool_decide (sv_CertFile c = [])) (bool_decide (sv_KeyFile c = []))))
    "config: cert_file and key_file must be provided together";;
  reject_if (bool_decide (sv_CertFile c = []) && negb (sv_AllowEphemeralCert c)) "config: persistent cert_file/key_file required";;
  let cert := resolve_path path (sv_CertFile c) in
  let key := resolve_path path (sv_KeyFile c) in
  let d := sv_Decoy c in
  let decoy := mkDecoy (if bool_decide (Mode d = []) then bs "off" else Mode d) (Upstream d)
                 (resolve_path path (DecoyDir d)) (SiteName d) in
  check_decoy parse decoy;;
  check_ports (elements (AllowPorts (sv_ACL c)));;
  check_ports (elements (DenyPorts (sv_ACL c)));;
  cc ← check_congestion (sv_CongestionControl c);
  '(active, compressed) ← check_streams (sv_MaxActiveStreams c) (sv_MaxCompressedStreams c);
  conns ← bounded (sv_MaxConnections c) "max_connections" 256 1 65536;
  perconn ← bounded (sv_MaxStreamsPerConnection c) "max_streams_per_connection" 128 2 4096;
  dnst ← bounded (sv_DNSTimeoutSec c) "dns_timeout_sec" 5 1 60;
  dnsc ← bounded (sv_DNSConcurrency c) "dns_concurrency" 32 1 256;
  udp ← check_udp (sv_UDP c);
  reject_if (active <? compressed) "config: max_compressed_streams exceeds max_active_streams";;
  Ok (mkServerCfg cc (sv_PreviousPSK c) (sv_PreviousPSKExpires c) active compressed handshake request conns perconn
        dnst dnsc udp (sv_AllowEphemeralCert c) listen (sv_PSK c) (sv_ALPN c) cert key idle (sv_ACL c) decoy
        (sv_Allow0RTT c) (sv_Compression c) (sv_MetricsListen c) (sv_MaxStreamRecvWindowMB c) (sv_MaxConnRecvWindowMB c)).

(** The pin of a client is the base64 form of a SHA-256 digest. *)
Definition bad_pin (pin : bytes) : bool :=
  match DecodeString pin with Err _ => true | Ok b => negb (bool_decide (length b = 32%nat)) end.

(** A proxy listener: unless remote access is allowed, on a loopback address. *)
Definition check_listener (remote : bool) (addr : bytes) : res () :=
  if bool_decide (addr = []) then Ok tt
  else
    validateEndpoint addr false;;
    let loopback := match SplitHostPort addr with
                    | Ok (host, _) => match ParseIP host with Some ip => IsLoopback ip | None => false end
                    | Err _ => false
                    end in
    reject_if (negb remote && negb loopback) "config: proxy listeners must use a loopback IP".

Definition LoadClient (now : Z) (loaded : res Client) : res Client :=
  c ← loaded;
  match validateEndpoint (cl_Server c) true with Err e => Err (Wrapped "config: server" e) | Ok _ => Ok tt end;;
  validateOverlap now (cl_NextPin c) (cl_NextPinExpires c);;
  (if bool_decide (cl_NextPin c = []) then Ok tt
   else reject_if (bad_pin (cl_NextPin c)) "config: invalid next_pin";;
        reject_if (bool_decide (cl_NextPin c = cl_Pin c)) "config: next_pin equals current pin");;
  reject_if (bad_pin (cl_Pin c)) "config: pin must be a base64 SHA256 hash";;
  DecodePSK (cl_PSK c);;
  '(idle, handshake, request) ← validateCommon (cl_ALPN c) (cl_MetricsListen c) (cl_IdleTimeoutSec c)
    (cl_HandshakeTimeoutSec c) (cl_RequestTimeoutSec c) (cl_MaxStreamRecvWindowMB c) (cl_MaxConnRecvWindowMB c);
  let socks := if bool_decide (cl_SOCKSListen c = []) && bool_decide (cl_HTTPListen c = [])
               then bs "127.0.0.1:1080" else cl_SOCKSListen c in
  check_listener (cl_AllowRemoteProxy c) socks;;
  check_listener (cl_AllowRemoteProxy c) (cl_HTTPListen c);;
  reject_if (negb (bool_decide (socks = [])) && bool_decide (socks = cl_HTTPListen c)) "config: proxy listeners overlap";;
  cc ← check_congestion (cl_CongestionControl c);
  '(active, compressed) ← check_streams (cl_MaxActiveStreams c) (cl_MaxCompressedStreams c);
  conns ← bounded (cl_MaxConnections c) "max_connections" 256 1 65536;
  pend ← bounded (cl_MaxPendingRequests c) "max_pending_requests" 256 1 65536;
  sessions ← bounded (cl_MaxUDPSessions c) "max_udp_sessions" 128 1 65536;
  pidle ← bounded (cl_ProxyIdleTimeoutSec c) "proxy_idle_timeout_sec" 300 1 86400;
  header ← bounded (cl_HTTPResponseHeaderTimeoutSec c) "http_response_header_timeout_sec" 120 1 3600;
  size ← bounded (cl_MaxHeaderBytes c) "max_header_bytes" 65536 1024 1048576;
  reject_if (active <? compressed) "config: max_compressed_streams exceeds max_active_streams";;
  Ok (mkClientCfg cc (cl_NextPin c) (cl_NextPinExpires c) active compressed handshake request pend sessions
        conns pidle header size (cl_AllowRemoteProxy c) (cl_DisableSessionResumption c) (cl_Server c) (cl_PSK c)
        (cl_Pin c) (cl_ALPN c) socks (cl_HTTPListen c) idle (cl_Enable0RTT c) (cl_Compression c) (cl_MetricsListen c)
        (cl_MaxStreamRecvWindowMB c) (cl_MaxConnRecvWindowMB c)).

(** ** rotation.go *)

(** The settings without credential material and certificate paths. *)
Definition without_credentials (c : Server) : Server :=
  mkServerCfg (sv_CongestionControl c) [] 0 (sv_MaxActiveStreams c) (sv_MaxCompressedStreams c)
    (sv_HandshakeTimeoutSec c) (sv_RequestTimeoutSec c) (sv_MaxConnections c) (sv_MaxStreamsPerConnection c)
    (sv_DNSTimeoutSec c) (sv_DNSConcurrency c) (sv_UDP c) (sv_AllowEphemeralCert c) (sv_Listen c) [] (sv_ALPN c)
    [] [] (sv_IdleTimeoutSec c) (sv_ACL c) (sv_Decoy c) (sv_Allow0RTT c) (sv_Compression c) (sv_MetricsListen c)
    (sv_MaxStreamRecvWindowMB c) (sv_MaxConnRecvWindowMB c).

Definition SameRuntimeSettings (a b : Server) : bool := bool_decide (without_credentials a = without_credentials b).

(** ** What the checks accept *)

Lemma reject_if_Ok c msg u : reject_if c msg = Ok u <-> c = false.
Proof. unfold reject_if. destruct c, u; split; congruence. Qed.

(** The value of a setting: zero selects the default. *)
Definition setting (p def : Z) : Z := if p =? 0 then def else p.

Lemma bounded_Ok p name def mn mx q : bounded p name def mn mx = Ok q <-> q = setting p def /\ mn <= q <= mx.
Proof.
  unfold bounded. fold (setting p def). generalize (setting p def) as v. intros v.
  destruct (Z.ltb_spec v mn), (Z.ltb_spec mx v); cbn [orb]; split; intros; try (by intuition (congruence || lia)).
Qed.

Definition endpoint_ok (addr : bytes) (hostRequired : bool) : Prop :=
  exists host port n, SplitHostPort addr = Ok (host, port) /\ Atoi port = Ok n /\ 1 <= n <= 65535 /\
    (hostRequired = true -> host <> []).

Lemma validateEndpoint_Ok addr h u : validateEndpoint addr h = Ok u <-> endpoint_ok addr h.
Proof.
  unfold validateEndpoint, endpoint_ok. destruct (SplitHostPort addr) as [[host port]|e]; [|by split; [|intros (? & ? & ? & [=] & _)]].
  destruct (Atoi port) as [n|e] eqn:Ea; [|by split; [|intros (? & ? & ? & [= <- <-] & E & _); rewrite Ea in E]].
  rewrite reject_if_Ok, !orb_false_iff, !Z.ltb_ge, andb_false_iff. split.
  - intros [[? ?] Hh]. exists host, port, n. repeat split; try done. intros ->. destruct Hh as [|Hh]; [done|].
    by apply bool_decide_eq_false in Hh.
  - intros (host' & port' & n' & [= <- <-] & E & ? & Hh). rewrite Ea in E. injection E as <-. split; [lia|].
    destruct h; [right; apply bool_decide_eq_false; auto|by left].
Qed.

(** The keys: both decode to 16 to 256 bytes, and they differ. *)
Lemma DecodePSK_Ok s b : DecodePSK s = Ok b -> s <> [] /\ DecodeString s = Ok b /\ (16 <= length b <= 256)%nat.
Proof.
  unfold DecodePSK. destruct (decide (s = [])) as [->|Hs]; [done|]. rewrite bool_decide_eq_false_2 by done.
  destruct (DecodeString s) as [b'|]; [|done].
  destruct (bool_decide_reflect (256 < length b')%nat); [done|].
  destruct (bool_decide_reflect (length b' < 16)%nat); [done|]. intros [= <-]. repeat split; (done || lia).
Qed.

Definition keys_ok (psk previous : bytes) : Prop :=
  exists pri, DecodePSK psk = Ok pri /\ (previous <> [] -> exists old, DecodePSK previous = Ok old /\ old <> pri).

Lemma check_keys_Ok psk previous pri u : DecodePSK psk = Ok pri ->
  check_keys psk previous = Ok u <-> keys_ok psk previous.
Proof.
  intros Hp. unfold check_keys, keys_ok. destruct u. destruct (bool_decide_reflect (previous = [])) as [->|Hn].
  { split; [|done]. intros _. exists pri. done. }
  rewrite Hp. destruct (DecodePSK previous) as [old|e] eqn:Eo; cbn [mbind res_bind].
  - rewrite reject_if_Ok, bool_decide_eq_false. split.
    + intros Hd. exists pri. split; [done|]. intros _. by exists old.
    + intros (pri' & [= <-] & H). destruct (H Hn) as (old' & [= <-] & Hd). done.
  - split; [done|]. intros (pri' & _ & H). destruct (H Hn) as (old' & [=] & _).
Qed.

Definition overlap_ok (now : Z) (value : bytes) (expires : Z) : Prop :=
  (value = [] /\ expires = 0) \/ (value <> [] /\ expires <> 0 /\ expires <= now + week).

Lemma validateOverlap_Ok now value expires u : validateOverlap now value expires = Ok u <-> overlap_ok now value expires.
Proof.
  unfold validateOverlap, overlap_ok, IsZero, After.
  destruct (bool_decide_reflect (value = [])) as [->|Hv]; rewrite reject_if_Ok.
  - rewrite negb_false_iff, Z.eqb_eq. intuition.
  - rewrite orb_false_iff, Z.eqb_neq, Z.ltb_ge. intuition.
Qed.

(** The windows in MiB, and the connection's covers a stream's. *)
Definition windows_ok (stream conn : Z) : Prop :=
  0 <= stream <= 256 /\ 0 <= conn <= 1024 /\ setting stream 16 <= setting conn 24.

Definition common_ok (alpn metrics : bytes) (idle handshake request stream conn : Z) : Prop :=
  (alpn = [] \/ alpn = bs "h3") /\ (metrics = [] \/ endpoint_ok metrics false) /\
  5 <= idle <= 3600 /\ 1 <= handshake <= 120 /\ 1 <= request <= 300 /\ windows_ok stream conn.

(** Take a chain of checks apart; put one together. *)
Ltac inv_checks :=
  repeat (match goal with
          | H : (_ ≫= _) = Ok _ |- _ => apply bind_Ok in H; destruct H as (? & ? & H); cbv beta in H
          | H : reject_if _ _ = Ok _ |- _ => apply reject_if_Ok in H
          | H : bounded _ _ _ _ _ = Ok _ |- _ => apply bounded_Ok in H; destruct H as [-> ?]
          | H : validateEndpoint _ _ = Ok _ |- _ => apply validateEndpoint_Ok in H
          | H : validateOverlap _ _ _ = Ok _ |- _ => apply validateOverlap_Ok in H
          end).

Lemma bind_intro {A B} (m : res A) (k : A -> res B) a r : m = Ok a -> k a = r -> (m ≫= k) = r.
Proof. by intros ->. Qed.

Ltac checks :=
  repeat (lazymatch goal with
          | |- (reject_if _ _ ≫= _) = _ => apply (bind_intro _ _ tt); [apply reject_if_Ok|cbv beta]
          | |- (bounded _ _ _ _ _ ≫= _) = _ => eapply bind_intro; [apply bounded_Ok; split; [reflexivity|]|cbv beta]
          | |- (validateEndpoint _ _ ≫= _) = _ => apply (bind_intro _ _ tt); [apply validateEndpoint_Ok|cbv beta]
          | |- (validateOverlap _ _ _ ≫= _) = _ => apply (bind_intro _ _ tt); [apply validateOverlap_Ok|cbv beta]
          end).

Lemma validateCommon_Ok alpn metrics idle handshake request stream conn r :
  validateCommon alpn metrics idle handshake request stream conn = Ok r <->
  r = (setting idle 60, setting handshake 10, setting request 15) /\
  common_ok alpn metrics (setting idle 60) (setting handshake 10) (setting request 15) stream conn.
Proof.
  unfold validateCommon, common_ok, windows_ok. fold (setting conn 24). fold (setting stream 16).
  assert (negb (bool_decide (alpn = [])) && negb (bool_decide (alpn = bs "h3")) = false <-> alpn = [] \/ alpn = bs "h3") as HA.
  { rewrite andb_false_iff, !negb_false_iff, !bool_decide_eq_true. done. }
  assert (forall u, (if bool_decide (metrics = []) then Ok tt else validateEndpoint metrics false) = Ok u <->
    metrics = [] \/ endpoint_ok metrics false) as HM.
  { intros []. destruct (bool_decide_reflect (metrics = [])); [intuition|]. rewrite validateEndpoint_Ok. intuition. }
  split.
  - intros H. inv_checks. injection H as <-. split; [done|]. split; [by apply HA|].
    split; [eapply HM; eassumption|].
    repeat match goal with E : (_ || _) = false |- _ => apply orb_false_iff in E as [? ?] end.
    rewrite !Z.ltb_ge in *. lia.
  - intros [-> (H1 & H2 & ? & ? & ? & ? & ? & ?)]. checks; [by apply HA|].
    apply (bind_intro _ _ tt); [by apply HM|]. cbv beta. checks; try done.
    + rewrite !orb_false_iff, !Z.ltb_ge. lia.
    + rewrite Z.ltb_ge. lia.
Qed.

Definition ports_ok (l : list Z) : Prop := Forall (fun p => 1 <= p <= 65535) l.

Lemma check_ports_Ok l u : check_ports l = Ok u <-> ports_ok l.
Proof.
  unfold check_ports, ports_ok. rewrite reject_if_Ok. induction l as [|p l IH]; cbn [existsb]; [done|].
  rewrite orb_false_iff, IH, Forall_cons, orb_false_iff, !Z.ltb_ge. intuition lia.
Qed.

Definition upstream_ok (parsed : res url) : Prop :=
  exists u, parsed = Ok u /\ u_Host u <> [] /\ (u_Scheme u = bs "http" \/ u_Scheme u = bs "https") /\ u_User u = false.

Lemma bad_upstream_false parsed : bad_upstream parsed = false <-> upstream_ok parsed.
Proof.
  unfold bad_upstream, upstream_ok. destruct parsed as [u|e]; [|by split; [|intros (? & [=] & _)]].
  rewrite !orb_false_iff, andb_false_iff, !negb_false_iff, !bool_decide_eq_true, bool_decide_eq_false. split.
  - intros [[? ?] ?]. by exists u.
  - by intros (? & [= <-] & ? & ? & ?).
Qed.

Definition decoy_ok (parse : bytes -> res url) (d : Decoy) : Prop :=
  Mode d = bs "off" \/ Mode d = bs "builtin" \/ (Mode d = bs "dir" /\ DecoyDir d <> []) \/
  (Mode d = bs "proxy" /\ upstream_ok (parse (Upstream d))).

Lemma check_decoy_Ok parse d u : check_decoy parse d = Ok u <-> decoy_ok parse d.
Proof.
  unfold check_decoy, decoy_ok. destruct u.
  destruct (decide (Mode d = bs "off")) as [E|N1]; [rewrite (bool_decide_eq_true_2 _ E); cbn [orb]; intuition|].
  destruct (decide (Mode d = bs "builtin")) as [E|N2];
    [rewrite (bool_decide_eq_true_2 (Mode d = bs "builtin")), orb_true_r by done; intuition|].
  rewrite !(bool_decide_eq_false_2 _ N1), !(bool_decide_eq_false_2 _ N2). cbn [orb].
  destruct (decide (Mode d = bs "dir")) as [E|N3].
  { rewrite (bool_decide_eq_true_2 _ E), reject_if_Ok, bool_decide_eq_false, E. split; [intuition|].
    by intros [|[|[[]|[]]]]. }
  rewrite (bool_decide_eq_false_2 _ N3). destruct (decide (Mode d = bs "proxy")) as [E|N4].
  { rewrite (bool_decide_eq_true_2 _ E), reject_if_Ok, bad_upstream_false. intuition. }
  rewrite (bool_decide_eq_false_2 _ N4). split; [done|]. intuition.
Qed.

Definition fill (s def : bytes) : bytes := if bool_decide (s = []) then def else s.
Definition congestion_ok (cc : bytes) : Prop := cc = bs "reno" \/ cc = bs "bbr".

Lemma check_congestion_Ok cc r : check_congestion cc = Ok r <-> r = fill cc (bs "reno") /\ congestion_ok r.
Proof.
  unfold check_congestion, congestion_ok. fold (fill cc (bs "reno")). set (v := fill cc (bs "reno")).
  assert (negb (bool_decide (v = bs "reno")) && negb (bool_decide (v = bs "bbr")) = false <-> v = bs "reno" \/ v = bs "bbr") as HA.
  { by rewrite andb_false_iff, !negb_false_iff, !bool_decide_eq_true. }
  split; [intros H; inv_checks; injection H as <-; by rewrite <- HA|intros [-> ?]; checks; [by apply HA|done]].
Qed.

Definition streams_ok (active compressed : Z) : Prop := 1 <= active <= 4096 /\ 1 <= compressed <= 128.

Lemma check_streams_Ok active compressed r : check_streams active compressed = Ok r <->
  let a := setting active 128 in let k := setting compressed (Z.min 16 a) in r = (a, k) /\ streams_ok a k.
Proof.
  cbv zeta. unfold check_streams, streams_ok. fold (setting active 128).
  assert (setting (setting active 128) 128 = setting active 128) as Ea.
  { unfold setting. destruct (Z.eqb_spec active 0); [done|]. by rewrite (proj2 (Z.eqb_neq _ _)). }
  split.
  - intros H. inv_checks. rewrite Ea in *. injection H as <-. intuition.
  - intros [-> ?]. checks; rewrite ?Ea; try lia. done.
Qed.

Definition fill_udp (u : UDP) : UDP :=
  mkUDP (setting (udp_MaxFlows u) 256) (setting (udp_QueueSize u) 128) (setting (udp_Workers u) 4)
    (setting (udp_NewFlowsPerSecond u) 32) (setting (udp_MaxPayload u) 850) (setting (udp_IdleTimeoutSec u) 60).

Definition udp_ok (u : UDP) : Prop :=
  1 <= udp_MaxFlows u <= 65536 /\ 1 <= udp_QueueSize u <= 4096 /\ 1 <= udp_Workers u <= 64 /\
  1 <= udp_NewFlowsPerSecond u <= 4096 /\ 1 <= udp_MaxPayload u <= 850 /\ 1 <= udp_IdleTimeoutSec u <= 3600.

Lemma check_udp_Ok u r : check_udp u = Ok r <-> r = fill_udp u /\ udp_ok r.
Proof.
  unfold check_udp, udp_ok. split.
  - intros H. inv_checks. injection H as <-. unfold fill_udp; cbn [udp_MaxFlows udp_QueueSize udp_Workers udp_NewFlowsPerSecond udp_MaxPayload udp_IdleTimeoutSec]. done.
  - intros [-> (? & ? & ? & ? & ? & ?)]. cbn [fill_udp udp_MaxFlows udp_QueueSize udp_Workers udp_NewFlowsPerSecond udp_MaxPayload udp_IdleTimeoutSec] in *.
    checks; try done.
Qed.

Lemma Clean_nonempty p : Clean p <> [].
Proof. unfold Clean. destruct (IsAbs p); [done|]. by destruct (bool_decide_reflect (join_slash (reverse (clean_elements false (Split p slash) [])) = [])). Qed.

Lemma resolve_path_nil path p : resolve_path path p = [] <-> p = [].
Proof.
  unfold resolve_path. destruct (bool_decide_reflect (p = [])) as [->|Hp]; [done|]. cbn [negb andb].
  destruct (negb (IsAbs p)); [|done]. split; [|done]. unfold Join2.
  case_match; intros E; by destruct (Clean_nonempty _ E).
Qed.

(** ** The server's settings *)

(** The settings with every default filled in. *)
Definition fill_server (path : bytes) (c : Server) : Server :=
  let a := setting (sv_MaxActiveStreams c) 128 in
  let d := sv_Decoy c in
  mkServerCfg (fill (sv_CongestionControl c) (bs "reno")) (sv_PreviousPSK c) (sv_PreviousPSKExpires c)
    a (setting (sv_MaxCompressedStreams c) (Z.min 16 a))
    (setting (sv_HandshakeTimeoutSec c) 10) (setting (sv_RequestTimeoutSec c) 15) (setting (sv_MaxConnections c) 256)
    (setting (sv_MaxStreamsPerConnection c) 128) (setting (sv_DNSTimeoutSec c) 5) (setting (sv_DNSConcurrency c) 32)
    (fill_udp (sv_UDP c)) (sv_AllowEphemeralCert c) (fill (sv_Listen c) (bs ":4242")) (sv_PSK c) (sv_ALPN c)
    (resolve_path path (sv_CertFile c)) (resolve_path path (sv_KeyFile c)) (setting (sv_IdleTimeoutSec c) 60) (sv_ACL c)
    (mkDecoy (fill (Mode d) (bs "off")) (Upstream d) (resolve_path path (DecoyDir d)) (SiteName d))
    (sv_Allow0RTT c) (sv_Compression c) (sv_MetricsListen c) (sv_MaxStreamRecvWindowMB c) (sv_MaxConnRecvWindowMB c).

(** What a valid configuration satisfies. *)
Record server_ok (now : Z) (parse : bytes -> res url) (c : Server) : Prop := {
  so_overlap : overlap_ok now (sv_PreviousPSK c) (sv_PreviousPSKExpires c);
  so_keys : keys_ok (sv_PSK c) (sv_PreviousPSK c);
  so_listen : endpoint_ok (sv_Listen c) false;
  so_common : common_ok (sv_ALPN c) (sv_MetricsListen c) (sv_IdleTimeoutSec c) (sv_HandshakeTimeoutSec c)
    (sv_RequestTimeoutSec c) (sv_MaxStreamRecvWindowMB c) (sv_MaxConnRecvWindowMB c);
  so_cert : sv_CertFile c = [] <-> sv_KeyFile c = [];
  so_ephemeral : sv_CertFile c = [] -> sv_AllowEphemeralCert c = true;
  so_decoy : decoy_ok parse (sv_Decoy c);
  so_allow : ports_ok (elements (AllowPorts (sv_ACL c)));
  so_deny : ports_ok (elements (DenyPorts (sv_ACL c)));
  so_congestion : congestion_ok (sv_CongestionControl c);
  so_streams : streams_ok (sv_MaxActiveStreams c) (sv_MaxCompressedStreams c);
  so_compressed : sv_MaxCompressedStreams c <= sv_MaxActiveStreams c;
  so_connections : 1 <= sv_MaxConnections c <= 65536;
  so_perconn : 2 <= sv_MaxStreamsPerConnection c <= 4096;
  so_dns : 1 <= sv_DNSTimeoutSec c <= 60 /\ 1 <= sv_DNSConcurrency c <= 256;
  so_udp : udp_ok (sv_UDP c);
}.

(** Both certificate files or neither, before the paths are resolved and after. *)
Lemma cert_pair path cert key :
  negb (Bool.eqb (bool_decide (cert = [])) (bool_decide (key = []))) = false <->
  (resolve_path path cert = [] <-> resolve_path path key = []).
Proof.
  rewrite !resolve_path_nil, negb_false_iff, Bool.eqb_true_iff.
  destruct (bool_decide_reflect (cert = [])), (bool_decide_reflect (key = [])); intuition congruence.
Qed.

Lemma cert_ephemeral path cert allowed :
  bool_decide (cert = []) && negb allowed = false <-> (resolve_path path cert = [] -> allowed = true).
Proof.
  rewrite resolve_path_nil. destruct (bool_decide_reflect (cert = [])), allowed; cbn; intuition congruence.
Qed.

(** The steps of the two loaders. *)
Ltac inv_load :=
  repeat (match goal with
          | H : (_ ≫= _) = Ok _ |- _ => apply bind_Ok in H; destruct H as (? & ? & H); cbv beta in H
          | H : reject_if _ _ = Ok _ |- _ => apply reject_if_Ok in H
          | H : bounded _ _ _ _ _ = Ok _ |- _ => apply bounded_Ok in H; destruct H as [-> ?]
          | H : validateEndpoint _ _ = Ok _ |- _ => apply validateEndpoint_Ok in H
          | H : validateOverlap _ _ _ = Ok _ |- _ => apply validateOverlap_Ok in H
          | H : validateCommon _ _ _ _ _ _ _ = Ok _ |- _ => apply validateCommon_Ok in H; destruct H as [-> ?]
          | H : check_decoy _ _ = Ok _ |- _ => apply check_decoy_Ok in H
          | H : check_ports _ = Ok _ |- _ => apply check_ports_Ok in H
          | H : check_congestion _ = Ok _ |- _ => apply check_congestion_Ok in H; destruct H as [-> ?]
          | H : check_streams _ _ = Ok _ |- _ => apply check_streams_Ok in H; destruct H as [-> ?]
          | H : check_udp _ = Ok _ |- _ => apply check_udp_Ok in H; destruct H as [-> ?]
          end; cbv beta iota zeta in *).

Lemma LoadServer_sound now parse path c0 c : LoadServer now parse path (Ok c0) = Ok c ->
  c = fill_server path c0 /\ server_ok now parse c.
Proof.
  unfold LoadServer. intros H. apply bind_Ok in H as (c1 & [= <-] & H). cbv beta zeta in H.
  fold (fill (sv_Listen c0) (bs ":4242")) in H. fold (fill (Mode (sv_Decoy c0)) (bs "off")) in H.
  inv_load. injection H as <-. split; [done|].
  split; try done; [by eapply check_keys_Ok|by apply (cert_pair path)|by apply (cert_ephemeral path)|by apply Z.ltb_ge].
Qed.

Ltac run_load :=
  repeat (lazymatch goal with
          | |- (reject_if _ _ ≫= _) = _ => apply (bind_intro _ _ tt); [apply reject_if_Ok|]
          | |- (bounded _ _ _ _ _ ≫= _) = _ => eapply bind_intro; [apply bounded_Ok; split; [reflexivity|assumption]|]
          | |- (validateEndpoint _ _ ≫= _) = _ => apply (bind_intro _ _ tt); [apply validateEndpoint_Ok; assumption|]
          | |- (validateOverlap _ _ _ ≫= _) = _ => apply (bind_intro _ _ tt); [apply validateOverlap_Ok; assumption|]
          | |- (validateCommon _ _ _ _ _ _ _ ≫= _) = _ => eapply bind_intro; [apply validateCommon_Ok; split; [reflexivity|assumption]|]
          | |- (check_decoy _ _ ≫= _) = _ => apply (bind_intro _ _ tt); [apply check_decoy_Ok; assumption|]
          | |- (check_ports _ ≫= _) = _ => apply (bind_intro _ _ tt); [apply check_ports_Ok; assumption|]
          | |- (check_congestion _ ≫= _) = _ => eapply bind_intro; [apply check_congestion_Ok; split; [reflexivity|assumption]|]
          | |- (check_streams _ _ ≫= _) = _ => eapply bind_intro; [apply check_streams_Ok; split; [reflexivity|assumption]|]
          | |- (check_udp _ ≫= _) = _ => eapply bind_intro; [apply check_udp_Ok; split; [reflexivity|assumption]|]
          end; cbv beta iota zeta).

Lemma LoadServer_complete now parse path c0 : server_ok now parse (fill_server path c0) ->
  LoadServer now parse path (Ok c0) = Ok (fill_server path c0).
Proof.
  intros [? Hk ? ? Hc He ? ? ? ? ? Hlt ? ? [? ?] ?]. cbn -[setting fill_udp resolve_path fill bs LoadServer] in *.
  unfold LoadServer. apply (bind_intro _ _ c0 _ eq_refl). cbv beta zeta.
  fold (fill (sv_Listen c0) (bs ":4242")). fold (fill (Mode (sv_Decoy c0)) (bs "off")).
  destruct Hk as (pri & Hp & Hprev). run_load. apply (bind_intro _ _ tt). { apply (check_keys_Ok _ _ pri _ Hp). by exists pri. }
  cbv beta. run_load. apply (bind_intro _ _ pri _ Hp). cbv beta. run_load; [..|done].
  - by apply (cert_pair path).
  - by apply (cert_ephemeral path).
  - by apply Z.ltb_ge.
Qed.

Lemma setting_id p def : p <> 0 -> setting p def = p.
Proof. intros. unfold setting. by rewrite (proj2 (Z.eqb_neq _ _)). Qed.

Lemma fill_id s def : s <> [] -> fill s def = s.
Proof. intros. unfold fill. by rewrite bool_decide_eq_false_2. Qed.

(** A path that is empty or absolute stays as it is, and with an absolute
    configuration path every path becomes one. *)
Lemma resolve_path_idem path p : IsAbs path = true -> resolve_path path (resolve_path path p) = resolve_path path p.
Proof.
  intros Hp. unfold resolve_path at 2 3. destruct (bool_decide_reflect (p = [])) as [->|Hn]; [done|]. cbn [negb andb].
  unfold resolve_path. destruct (IsAbs p) eqn:Ep; cbn [negb]; [by rewrite Ep, andb_false_r|].
  by rewrite (IsAbs_Join2 _ _ (IsAbs_Dir _ Hp)), andb_false_r.
Qed.

Lemma endpoint_nonempty a h : endpoint_ok a h -> a <> [].
Proof. by intros (? & ? & ? & E & _) ->. Qed.

(** Filling in defaults twice changes nothing more. *)
Lemma fill_server_idem now parse path c0 : IsAbs path = true -> server_ok now parse (fill_server path c0) ->
  fill_server path (fill_server path c0) = fill_server path c0.
Proof.
  intros Hp [? ? Hl (? & ? & ? & ? & ? & ?) ? ? Hd ? ? Hcc [? ?] ? ? ? [? ?] (? & ? & ? & ? & ? & ?)].
  apply endpoint_nonempty in Hl. revert Hl Hd Hcc.
  cbn [fill_server sv_Listen sv_Decoy sv_CongestionControl]. intros Hl Hd Hcc.
  unfold fill_server at 1. cbn -[setting fill_udp resolve_path fill bs LoadServer] in *. unfold fill_udp at 1.
  cbn -[setting resolve_path fill bs] in *.
  rewrite !resolve_path_idem by done. rewrite (fill_id _ (bs ":4242")) by done.
  rewrite (fill_id _ (bs "reno")) by (by destruct Hcc as [-> | ->]).
  rewrite (fill_id _ (bs "off")) by (unfold decoy_ok in Hd; cbn [Mode] in Hd; intros E; rewrite E in Hd; intuition discriminate).
  rewrite !(setting_id (setting _ _)) by lia. done.
Qed.

(** C33: [LoadServer] exactly.  For every decoded file the result is the settings with
    every default filled in, precisely when these are valid: keys of 16 to 256 bytes
    with a distinct, unexpired-in-a-week overlap, well-formed endpoints, matching
    certificate files, a usable decoy, ports and every limit in range, and no more
    compressed than active streams; everything else is an error.  What was loaded from
    an absolute path loads again unchanged. *)
Theorem load_server_exact now parse path c0 :
  (forall c, LoadServer now parse path (Ok c0) = Ok c <->
     c = fill_server path c0 /\ server_ok now parse (fill_server path c0)) /\
  (IsAbs path = true -> forall c, LoadServer now parse path (Ok c0) = Ok c -> LoadServer now parse path (Ok c) = Ok c).
Proof.
  assert (forall c, LoadServer now parse path (Ok c0) = Ok c <->
     c = fill_server path c0 /\ server_ok now parse (fill_server path c0)) as HE.
  { intros c. split; [intros [-> ?]%LoadServer_sound; done|]. intros [-> ?]. by apply LoadServer_complete. }
  split; [done|]. intros Hp c [-> Hok]%HE. pose proof (fill_server_idem _ _ _ _ Hp Hok) as Hid.
  rewrite <- Hid at 2. apply LoadServer_complete. by rewrite Hid.
Qed.

(** ** The client's settings *)

Definition fill_client (c : Client) : Client :=
  let a := setting (cl_MaxActiveStreams c) 128 in
  mkClientCfg (fill (cl_CongestionControl c) (bs "reno")) (cl_NextPin c) (cl_NextPinExpires c)
    a (setting (cl_MaxCompressedStreams c) (Z.min 16 a))
    (setting (cl_HandshakeTimeoutSec c) 10) (setting (cl_RequestTimeoutSec c) 15) (setting (cl_MaxPendingRequests c) 256)
    (setting (cl_MaxUDPSessions c) 128) (setting (cl_MaxConnections c) 256) (setting (cl_ProxyIdleTimeoutSec c) 300)
    (setting (cl_HTTPResponseHeaderTimeoutSec c) 120) (setting (cl_MaxHeaderBytes c) 65536)
    (cl_AllowRemoteProxy c) (cl_DisableSessionResumption c) (cl_Server c) (cl_PSK c) (cl_Pin c) (cl_ALPN c)
    (if bool_decide (cl_HTTPListen c = []) then fill (cl_SOCKSListen c) (bs "127.0.0.1:1080") else cl_SOCKSListen c)
    (cl_HTTPListen c) (setting (cl_IdleTimeoutSec c) 60) (cl_Enable0RTT c) (cl_Compression c) (cl_MetricsListen c)
    (cl_MaxStreamRecvWindowMB c) (cl_MaxConnRecvWindowMB c).

(** A listener other machines cannot reach: its host is the text of a loopback
    address. *)
Definition loopback_listener (addr : bytes) : Prop :=
  exists host port ip, SplitHostPort addr = Ok (host, port) /\ ParseIP host = Some ip /\ IsLoopback ip = true.

Definition listener_ok (remote : bool) (addr : bytes) : Prop :=
  addr = [] \/ (endpoint_ok addr false /\ (remote = false -> loopback_listener addr)).

Definition pin_ok (pin : bytes) : Prop := exists digest, DecodeString pin = Ok digest /\ length digest = 32%nat.

Record client_ok (now : Z) (c : Client) : Prop := {
  co_server : endpoint_ok (cl_Server c) true;
  co_overlap : overlap_ok now (cl_NextPin c) (cl_NextPinExpires c);
  co_next : cl_NextPin c = [] \/ (pin_ok (cl_NextPin c) /\ cl_NextPin c <> cl_Pin c);
  co_pin : pin_ok (cl_Pin c);
  co_psk : exists psk, DecodePSK (cl_PSK c) = Ok psk;
  co_common : common_ok (cl_ALPN c) (cl_MetricsListen c) (cl_IdleTimeoutSec c) (cl_HandshakeTimeoutSec c)
    (cl_RequestTimeoutSec c) (cl_MaxStreamRecvWindowMB c) (cl_MaxConnRecvWindowMB c);
  co_socks : listener_ok (cl_AllowRemoteProxy c) (cl_SOCKSListen c);
  co_http : listener_ok (cl_AllowRemoteProxy c) (cl_HTTPListen c);
  co_listens : cl_SOCKSListen c <> cl_HTTPListen c;
  co_congestion : congestion_ok (cl_CongestionControl c);
  co_streams : streams_ok (cl_MaxActiveStreams c) (cl_MaxCompressedStreams c);
  co_compressed : cl_MaxCompressedStreams c <= cl_MaxActiveStreams c;
  co_limits : 1 <= cl_MaxConnections c <= 65536 /\ 1 <= cl_MaxPendingRequests c <= 65536 /\ 1 <= cl_MaxUDPSessions c <= 65536;
  co_proxy : 1 <= cl_ProxyIdleTimeoutSec c <= 86400 /\ 1 <= cl_HTTPResponseHeaderTimeoutSec c <= 3600 /\
    1024 <= cl_MaxHeaderBytes c <= 1048576;
}.

Lemma bad_pin_false pin : bad_pin pin = false <-> pin_ok pin.
Proof.
  unfold bad_pin, pin_ok. destruct (DecodeString pin) as [b|e]; [|by split; [|intros (? & [=] & _)]].
  rewrite negb_false_iff, bool_decide_eq_true. split; [eauto|]. by intros (? & [= <-] & ?).
Qed.

Lemma check_listener_Ok remote addr u : check_listener remote addr = Ok u <-> listener_ok remote addr.
Proof.
  unfold check_listener, listener_ok. destruct u. destruct (bool_decide_reflect (addr = [])) as [->|Hn]; [intuition|].
  assert (match SplitHostPort addr with
          | Ok (host, _) => match ParseIP host with Some ip => IsLoopback ip | None => false end
          | Err _ => false end = true <-> loopback_listener addr) as HL.
  { unfold loopback_listener. destruct (SplitHostPort addr) as [[host port]|]; [|by split; [|intros (? & ? & ? & [=] & _)]].
    destruct (ParseIP host) as [ip|] eqn:Ei; [|split; [done|]; intros (? & ? & ? & [= <- <-] & E & _); by rewrite Ei in E].
    split; [by exists host, port, ip|]. intros (? & ? & ? & [= <- <-] & E & ?). rewrite Ei in E. by injection E as <-. }
  split.
  - intros H. inv_load. right. split; [done|]. intros ->. apply HL. by apply negb_false_iff in H.
  - intros [|[He Hl]]; [done|]. run_load.
    destruct remote; [done|]. unfold reject_if. by rewrite (proj2 HL (Hl eq_refl)).
Qed.

Definition next_pin_ok (c : Client) : Prop := cl_NextPin c = [] \/ (pin_ok (cl_NextPin c) /\ cl_NextPin c <> cl_Pin c).

Lemma check_next_Ok c u :
  (if bool_decide (cl_NextPin c = []) then Ok tt
   else reject_if (bad_pin (cl_NextPin c)) "config: invalid next_pin";;
        reject_if (bool_decide (cl_NextPin c = cl_Pin c)) "config: next_pin equals current pin") = Ok u <-> next_pin_ok c.
Proof.
  unfold next_pin_ok. destruct u. destruct (bool_decide_reflect (cl_NextPin c = [])) as [E|Hn]; [intuition|]. split.
  - intros H. inv_load. right. split; [by apply bad_pin_false|by apply bool_decide_eq_false in H].
  - intros [|[? ?]]; [done|]. run_load; [by apply bad_pin_false|]. apply reject_if_Ok. by apply bool_decide_eq_false.
Qed.

Lemma socks_default c :
  (if bool_decide (cl_SOCKSListen c = []) && bool_decide (cl_HTTPListen c = []) then bs "127.0.0.1:1080" else cl_SOCKSListen c) =
  (if bool_decide (cl_HTTPListen c = []) then fill (cl_SOCKSListen c) (bs "127.0.0.1:1080") else cl_SOCKSListen c).
Proof. unfold fill. by destruct (bool_decide (cl_HTTPListen c = [])), (bool_decide (cl_SOCKSListen c = [])). Qed.

(** The check that the two listeners differ, with the default filled in. *)
Lemma listeners_differ (socks http : bytes) : (socks = [] -> http <> []) ->
  negb (bool_decide (socks = [])) && bool_decide (socks = http) = false <-> socks <> http.
Proof.
  intros Hd. rewrite andb_false_iff, negb_false_iff, bool_decide_eq_true, bool_decide_eq_false. intuition congruence.
Qed.

Lemma filled_listener c : let f := fill_client c in cl_SOCKSListen f = [] -> cl_HTTPListen f <> [].
Proof.
  cbn -[bs]. unfold fill. destruct (bool_decide_reflect (cl_HTTPListen c = [])); [|done].
  destruct (bool_decide_reflect (cl_SOCKSListen c = [])); done.
Qed.

Lemma LoadClient_sound now c0 c : LoadClient now (Ok c0) = Ok c -> c = fill_client c0 /\ client_ok now c.
Proof.
  unfold LoadClient. intros H. apply bind_Ok in H as (c1 & [= <-] & H). cbv beta zeta in H. rewrite socks_default in H.
  pose proof (filled_listener c0) as Hf. cbn -[bs fill] in Hf.
  inv_load. injection H as <-. split; [done|].
  assert (endpoint_ok (cl_Server c0) true) as Hs.
  { destruct (validateEndpoint (cl_Server c0) true) eqn:E; [by apply validateEndpoint_Ok in E|done]. }
  split; try done; cbn -[setting bs fill].
  - by eapply check_next_Ok.
  - by apply bad_pin_false.
  - eauto.
  - by eapply check_listener_Ok.
  - by eapply check_listener_Ok.
  - by apply listeners_differ.
  - by apply Z.ltb_ge.
Qed.

Lemma LoadClient_complete now c0 : client_ok now (fill_client c0) -> LoadClient now (Ok c0) = Ok (fill_client c0).
Proof.
  intros [Hs ? Hn Hp [psk Hk] ? Hl Hh Hd ? ? ? (? & ? & ?) (? & ? & ?)].
  pose proof (filled_listener c0) as Hf.
  cbn -[setting fill bs LoadClient] in *.
  unfold LoadClient. apply (bind_intro _ _ c0 _ eq_refl). cbv beta zeta. rewrite socks_default.
  apply (bind_intro _ _ tt). { by rewrite (proj2 (validateEndpoint_Ok _ _ tt) Hs). }
  cbv beta. run_load. apply (bind_intro _ _ tt). { by apply check_next_Ok. }
  cbv beta. run_load; [by apply bad_pin_false|]. apply (bind_intro _ _ psk _ Hk). cbv beta. run_load.
  apply (bind_intro _ _ tt). { by apply check_listener_Ok. }
  cbv beta. apply (bind_intro _ _ tt). { by apply check_listener_Ok. }
  cbv beta. run_load; [by apply listeners_differ|by apply Z.ltb_ge|done].
Qed.

Lemma fill_client_idem now c0 : client_ok now (fill_client c0) -> fill_client (fill_client c0) = fill_client c0.
Proof.
  intros [? ? ? ? ? (? & ? & ? & ? & ? & ?) ? ? Hd Hcc [? ?] ? (? & ? & ?) (? & ? & ?)]. revert Hd Hcc.
  cbn [fill_client cl_SOCKSListen cl_HTTPListen cl_CongestionControl]. intros Hd Hcc.
  unfold fill_client. cbn -[setting fill bs] in *.
  rewrite (fill_id _ (bs "reno")) by (by destruct Hcc as [-> | ->]).
  rewrite !(setting_id (setting _ _)) by lia. f_equal.
  destruct (bool_decide_reflect (cl_HTTPListen c0 = [])) as [E|]; [|done]. rewrite E in Hd. by rewrite fill_id.
Qed.

(** C34: [LoadClient] exactly.  The result is the settings with every default filled in,
    precisely when these are valid; in particular both pins are the base64 text of 32
    bytes, at least one proxy listener is on and they differ, and unless remote access
    was asked for every listener is bound to a loopback address literal.  Loading the
    result again gives the same settings. *)
Theorem load_client_exact now c0 :
  (forall c, LoadClient now (Ok c0) = Ok c <-> c = fill_client c0 /\ client_ok now (fill_client c0)) /\
  (forall c, LoadClient now (Ok c0) = Ok c -> LoadClient now (Ok c) = Ok c).
Proof.
  assert (forall c, LoadClient now (Ok c0) = Ok c <-> c = fill_client c0 /\ client_ok now (fill_client c0)) as HE.
  { intros c. split; [intros [-> ?]%LoadClient_sound; done|]. intros [-> ?]. by apply LoadClient_complete. }
  split; [done|]. intros c [-> Hok]%HE. pose proof (fill_client_idem _ _ Hok) as Hid.
  rewrite <- Hid at 2. apply LoadClient_complete. by rewrite Hid.
Qed.

(** ** Reading files *)

(** A file is read exactly when it opens, is a regular file within the limit and reads
    to its end without error: the result is its whole contents, never a part of it,
    and a file that grew past the limit after [Stat] is refused. *)
Theorem file_read_exact f max b : safefile_Read f max = Ok b <->
  1 <= max /\ f_open f = None /\ (exists size, f_stat f = Ok (true, size) /\ size <= max) /\
  b = f_data f /\ Z.of_nat (length (f_data f)) <= max /\ f_err f = None.
Proof.
  unfold safefile_Read. destruct (Z.ltb_spec max 1); [split; [done|lia]|].
  destruct (f_open f); [by split; [|intros (_ & ? & _)]|].
  destruct (f_stat f) as [[regular size]|e]; [|by split; [|intros (_ & _ & (? & [=] & _) & _)]].
  destruct regular; cbn [negb]; [|by split; [|intros (_ & _ & (? & [=] & _) & _)]].
  destruct (Z.ltb_spec max size); [split; [done|]; intros (_ & _ & (? & [= <-] & ?) & _); lia|].
  unfold read_limited. destruct (Z.leb_spec (max + 1) (Z.of_nat (length (f_data f)))).
  { rewrite (proj2 (Z.ltb_lt _ _)) by (rewrite length_take; lia). split; [done|]. intros (_ & _ & _ & _ & ? & _). lia. }
  rewrite (proj2 (Z.ltb_ge _ _)) by lia. destruct (f_err f); [by split; [|intros (_ & _ & _ & _ & _ & [=])]|]. split.
  - intros [= <-]. repeat split; try done; eauto. lia.
  - by intros (_ & _ & _ & -> & _).
Qed.

(** A configuration is what the decoder makes of the whole file, at most 1 MiB of it,
    and only when it is the only document. *)
Theorem load_exact {A} f (yaml : bytes -> res A * option error) c : load f yaml = Ok c <->
  exists data, safefile_Read f (2 ^ 20) = Ok data /\ yaml data = (Ok c, Some EOF).
Proof.
  unfold load. destruct (safefile_Read f (2 ^ 20)) as [data|e].
  - destruct (yaml data) as [first second] eqn:Ey. split.
    + intros (c' & -> & H)%bind_Ok. destruct (bool_decide_reflect (second = Some EOF)) as [->|]; [|done].
      injection H as <-. eauto.
    + intros (? & [= <-] & E). rewrite Ey in E. by injection E as -> ->.
  - split; [by destruct (errors_Is e ErrSize)|]. by intros (? & [=] & _).
Qed.
