(* ===== verification/Safefile.v ===== *)
(** * Opening configuration files

    Models [openRegular] of [internal/safefile] in its two builds (open_unix.go and
    open_other.go) and the order of [Read] around it.  The answers of the system about an
    opened file are those of [Config.file]; here a path may also be one whose opening waits
    for another process, as that of a FIFO does without O_NONBLOCK. *)
From S2P Require Import Prelude GoStd Config.

(** What a path names at one moment. *)
Record node := mkNode { nd_file : file; nd_waits : bool }.
Definition regular (n : node) : bool := match f_stat (nd_file n) with Ok (r, _) => r | Err _ => false end.
(** Opening a regular file does not wait. *)
Definition node_ok (n : node) : Prop := regular n = true -> nd_waits n = false.

(** Opening for reading; [None]: the call waits. *)
Definition sys_open (nonblock : bool) (n : node) : option (res file) :=
  if nd_waits n && negb nonblock then None
  else Some (match f_open (nd_file n) with Some e => Err e | None => Ok (nd_file n) end).

(** Unix: one open with O_NONBLOCK; what was opened is checked by [Read]. *)
Definition openRegular_unix (n : node) : option (res file) := sys_open true n.
(** Elsewhere: [os.Stat] and then [os.Open]; the path may name another file by then. *)
Definition openRegular_other (n n' : node) : option (res file) :=
  match f_stat (nd_file n) with
  | Err e => Some (Err e)
  | Ok (r, _) => if negb r then Some (Err (ErrNew "configuration must be a regular file")) else sys_open false n'
  end.

(** [Read]: the limit is checked before anything is opened. *)
Definition Read (opened : option (res file)) (max : Z) : option (res bytes) :=
  if max <? 1 then Some (Err (ErrNew "invalid file limit"))
  else match opened with
       | None => None
       | Some (Err e) => Some (Err e)
       | Some (Ok f) => Some (safefile_Read f max)
       end.

Lemma Read_sys_open nb n max : nd_waits n && negb nb = false -> Read (sys_open nb n) max = Some (safefile_Read (nd_file n) max).
Proof.
  intros Hw. unfold Read, sys_open. rewrite Hw. unfold safefile_Read.
  destruct (max <? 1); [done|]. destruct (f_open (nd_file n)) eqn:E; [done|]. by rewrite E.
Qed.

Lemma safefile_Read_regular n max b : safefile_Read (nd_file n) max = Ok b -> regular n = true /\ Z.of_nat (length b) <= max.
Proof.
  unfold safefile_Read, regular. destruct n as [f w]. cbn. destruct (max <? 1); [done|]. destruct (f_open f); [done|]. destruct (f_stat f) as [[[] size]|]; cbn; try done.
  destruct (max <? size); [done|]. destruct (read_limited f (max + 1)) as [c [e|]]; destruct (Z.ltb_spec max (Z.of_nat (length c))); try done.
  by intros [= ->].
Qed.

(** Reading a configuration file neither blocks nor reads a special file.  On Unix, whatever
    the path names (a FIFO without a writer included), [Read] returns, with exactly what
    the opened file gives.  Elsewhere it returns the same contents for a path that keeps its
    meaning, and refuses special files before opening them; only a path that was a regular
    file when it was looked at and names a special one when it is opened can make it wait.
    On both, contents are returned only of a regular file and within the limit. *)
Theorem configuration_read_safe n n' max : node_ok n -> node_ok n' ->
  Read (openRegular_unix n) max = Some (safefile_Read (nd_file n) max) /\
  (forall b, Read (openRegular_other n n) max = Some (Ok b) <-> Read (openRegular_unix n) max = Some (Ok b)) /\
  Read (openRegular_other n n) max <> None /\
  (Read (openRegular_other n n') max = None -> 1 <= max /\ regular n = true /\ regular n' = false) /\
  (forall b, Read (openRegular_other n n') max = Some (Ok b) -> regular n' = true /\ safefile_Read (nd_file n') max = Ok b /\ Z.of_nat (length b) <= max).
Proof.
  intros Hn Hn'. assert (Read (openRegular_unix n) max = Some (safefile_Read (nd_file n) max)) as Hu by (apply Read_sys_open; apply andb_false_r).
  rewrite Hu. unfold openRegular_other. split; [done|].
  assert (regular n = true -> Read (sys_open false n) max = Some (safefile_Read (nd_file n) max)) as Hreg.
  { intros Hr. apply Read_sys_open. by rewrite (Hn Hr). }
  assert (regular n = false -> forall b, safefile_Read (nd_file n) max <> Ok b) as Hnreg.
  { intros Hr b Hb. apply safefile_Read_regular in Hb as [Hb _]. by rewrite Hr in Hb. }
  unfold regular in Hreg, Hnreg |- *. destruct (f_stat (nd_file n)) as [[[] size]|e] eqn:Es; cbn [negb].
  2-3: unfold Read; case_match; split_and!; try done; intros b; split; try done; intros [= Hb]; by destruct (Hnreg eq_refl b).
  rewrite (Hreg eq_refl). split_and!; [naive_solver|done|..].
  - intros H. unfold Read, sys_open in H. destruct (Z.ltb_spec max 1); [done|]. split_and!; [lia|done|].
    destruct (nd_waits n') eqn:Ew; [|by destruct (f_open (nd_file n'))]. destruct (match f_stat (nd_file n') with Ok (r, _) => r | Err _ => false end) eqn:E; [|done].
    rewrite (Hn' E) in Ew. done.
  - intros b Hb. destruct (nd_waits n') eqn:Ew; [by unfold Read, sys_open in Hb; rewrite Ew in Hb; destruct (max <? 1)|].
    rewrite Read_sys_open in Hb by (by rewrite Ew). injection Hb as Hb.
    apply safefile_Read_regular in Hb as Hr. destruct Hr. done.
Qed.

(** A FIFO without a writer. *)
Definition fifo : node := mkNode (mkFile None (Ok (false, 0)) [] (Some EOF)) true.
Definition settings_file : node := mkNode (mkFile None (Ok (true, 3)) (bs "a: ") None) false.

Lemma configuration_read_safe_witness :
  Read (openRegular_unix fifo) 100 = Some (Err (ErrNew "configuration must be a regular file")) /\
  Read (openRegular_other settings_file fifo) 100 = None /\ Read (openRegular_other fifo fifo) 100 <> None.
Proof.
  destruct (configuration_read_safe fifo fifo 100 ltac:(done) ltac:(done)) as (Hu & _ & Ho & _). rewrite Hu.
  split_and!; [reflexivity|reflexivity|exact Ho].
Defined.
