(* ===== verification/Commands.v ===== *)
(** * The commands: from the configuration to the components

    Models [cmd/server] (main.go, reload.go), [cmd/client] (main.go), [cmd/keygen] and
    the handler choice of [internal/decoy], with [LoadOrCreateCert] of
    [internal/tunnel/tls.go]: which options a loaded configuration gives to each
    component, what a reload signal does, and what the key generator leaves behind. *)
From S2P Require Import Prelude GoStd GoNet GoEncoding Protocol Admission Acl Tunnel UdpNat Server ServerConns Client Proxy Config.

(** ** Options *)

(** [uint64(mb) << 20]. *)
Definition mib (mb : Z) : Z := Z.shiftl mb 20 mod 2 ^ 64.

(** The options [cmd/server] passes to [server.New], with the UDP part apart. *)
Definition server_options (c : Config.Server) : Server.Options :=
  Server.mkOptions (sv_CongestionControl c) (sv_MaxActiveStreams c) (sv_MaxCompressedStreams c)
    (sv_IdleTimeoutSec c * second) (sv_HandshakeTimeoutSec c * second) (sv_RequestTimeoutSec c * second)
    (sv_MaxConnections c) (sv_MaxStreamsPerConnection c) (sv_Compression c)
    (mib (sv_MaxStreamRecvWindowMB c)) (mib (sv_MaxConnRecvWindowMB c)).

Definition udp_options (c : Config.Server) : UDPOptions :=
  let u := sv_UDP c in
  mkUDPOptions (udp_MaxFlows u) (udp_QueueSize u) (udp_Workers u) (udp_NewFlowsPerSecond u) (udp_MaxPayload u)
    (udp_IdleTimeoutSec u * second).

Definition client_options (c : Config.Client) : Client.Options :=
  Client.mkOptions (cl_CongestionControl c) (cl_MaxActiveStreams c) (cl_MaxCompressedStreams c)
    (cl_IdleTimeoutSec c * second) (cl_HandshakeTimeoutSec c * second) (cl_RequestTimeoutSec c * second)
    (cl_MaxPendingRequests c) (cl_MaxUDPSessions c) (alpnOr (cl_ALPN c)) (cl_Compression c)
    (mib (cl_MaxStreamRecvWindowMB c)) (mib (cl_MaxConnRecvWindowMB c)).

Definition proxy_options (c : Config.Client) : Proxy.Options :=
  Proxy.mkOptions (cl_MaxConnections c) (cl_HandshakeTimeoutSec c * second) (cl_ProxyIdleTimeoutSec c * second)
    (cl_HTTPResponseHeaderTimeoutSec c * second) (cl_MaxHeaderBytes c).

(** ** Certificates *)
Section certs.
(** Certificate generation and [tls.X509KeyPair] with the parsed leaf: a certificate and
    its subject public key info. *)
Context `{Crypto} (generate : res (Certificate * bytes)) (keypair : bytes -> bytes -> res (Certificate * bytes)).

Definition LoadOrCreateCert (certPEM keyPEM : bytes) : res (Certificate * bytes) :=
  if bool_decide (length certPEM = 0%nat) && bool_decide (length keyPEM = 0%nat)
  then '(c, spki) ← generate; Ok (c, SPKIPin spki)
  else '(c, spki) ← keypair certPEM keyPEM; Ok (c, SPKIPin spki).

Definition readCredentialFile (f : file) : res bytes := safefile_Read f (2 ^ 20).

(** ** Reload *)
Context {B : Type} `{AdmissionOps B}.

(** The decoded keys and the certificate of a configuration, as [applyCredentials]
    obtains them. *)
Definition credentials_of (files : bytes -> file) (c : Config.Server) : res (bytes * bytes * Certificate) :=
  reject_if (bool_decide (sv_CertFile c = [])) "reload requires persistent certificate";;
  certPEM ← readCredentialFile (files (sv_CertFile c));
  keyPEM ← readCredentialFile (files (sv_KeyFile c));
  '(crt, _) ← LoadOrCreateCert certPEM keyPEM;
  pri ← DecodePSK (sv_PSK c);
  prev ← (if bool_decide (sv_PreviousPSK c = []) then Ok [] else DecodePSK (sv_PreviousPSK c));
  Ok (pri, prev, crt).

Definition applyCredentials (files : bytes -> file) (c : Config.Server) (s : server B) : option error * server B :=
  match credentials_of files c with
  | Err e => (Some e, s)
  | Ok (pri, prev, crt) => ReloadCredentials pri prev (sv_PreviousPSKExpires c) crt s
  end.

(** One signal in [watchCredentials]: at the time of the server's clock, with what
    [LoadServer] returned.  The state is the current configuration and the server. *)
Definition watch_signal (files : bytes -> file) (loaded : res Config.Server) (st : Config.Server * server B)
    : option error * (Config.Server * server B) :=
  let '(current, s) := st in
  match loaded with
  | Err e => (Some e, st)
  | Ok next =>
      if negb (SameRuntimeSettings current next) then (Some (ErrNew "SIGHUP accepts credential changes only"), st)
      else match applyCredentials files next s with
           | (Some e, s') => (Some e, (current, s'))
           | (None, s') => (None, (next, s'))
           end
  end.
End certs.

(** ** The decoy *)
Inductive decoy_site := SiteNotFound | SiteProxy (u : url) | SiteFiles (dir : bytes) | SiteBuiltin (name : bytes).

(** [decoy.Handler] as [cmd/server] calls it; the embedded templates of the built-in
    site parse. *)
Definition decoy_Handler (parse : bytes -> res url) (d : Decoy) : res decoy_site :=
  if bool_decide (Mode d = bs "off") then Ok SiteNotFound
  else if bool_decide (Mode d = bs "proxy") then
    (if bad_upstream (parse (Upstream d)) then Err (ErrNew "decoy: invalid upstream URL")
     else u ← parse (Upstream d); Ok (SiteProxy u))
  else if bool_decide (Mode d = bs "dir") then Ok (SiteFiles (DecoyDir d))
  else Ok (SiteBuiltin (if bool_decide (SiteName d = []) then bs "CloudVault" else SiteName d)).

(** The pages of the built-in site: the status and the body it serves. *)
Inductive page := PageIndex | PageLoginFailed | PageStatus | PageNone | PageUnauthorized | PageNotFound.
Definition builtin_page (method path : bytes) : Z * page :=
  if bool_decide (path = bs "/") || bool_decide (path = bs "/login") then (200, PageIndex)
  else if bool_decide (path = bs "/api/auth/login") && bool_decide (method = bs "POST") then (401, PageLoginFailed)
  else if bool_decide (path = bs "/status") || bool_decide (path = bs "/healthz") then (200, PageStatus)
  else if bool_decide (path = bs "/favicon.ico") then (204, PageNone)
  else if HasPrefix path (bs "/api/") then (401, PageUnauthorized)
  else (404, PageNotFound).

(** ** The key generator *)

(** The answers of the file system to [writeExclusive] for a path that does not exist:
    opening, the write, the close, and whether a removal succeeds. *)
Record wanswer := mkW { w_open : option error; w_n : nat; w_err : option error; w_close : option error; w_removes : bool }.

Definition ErrExist : error := ErrNew "file exists".

(** [os.OpenFile] with [O_EXCL] never opens an existing file. *)
Definition writeExclusive (path data : bytes) (a : wanswer) (fs : gmap bytes bytes) : option error * gmap bytes bytes :=
  match fs !! path with
  | Some _ => (Some ErrExist, fs)
  | None =>
      match w_open a with
      | Some e => (Some e, fs)
      | None =>
          let written := <[path := take (w_n a) data]> fs in
          let err := match w_err a with
                     | Some e => Some e
                     | None => if negb (bool_decide (w_n a = length data)) then Some ErrShortWrite else w_close a
                     end in
          match err with
          | None => (None, written)
          | Some e => (Some e, if w_removes a then delete path written else written)
          end
      end
  end.

(** What the generator prints: the pin of a new certificate, and the key. *)
Record keygen_out := mkKeygen { kg_err : option error; kg_pin : option bytes; kg_psk : option bytes; kg_fs : gmap bytes bytes }.

(** [run]: the flags, 32 random bytes, the PEM texts and pin of a generated certificate,
    the file system's answers for the key and the certificate and for the removal of the
    key, and the error of the last print. *)
Definition keygen_run (flags : res (bool * bytes)) (rand : res bytes) (gen : res (bytes * bytes * bytes))
    (ak ac : wanswer) (rm : bool) (out : option error) (fs : gmap bytes bytes) : keygen_out :=
  let fail e fs := mkKeygen (Some e) None None fs in
  match flags, rand with
  | Err e, _ => fail e fs
  | Ok _, Err e => fail e fs
  | Ok (writeCert, dir), Ok psk =>
      let print pin fs := mkKeygen out pin (Some (EncodeToString psk)) fs in
      if negb writeCert then print None fs
      else match gen with
      | Err e => fail e fs
      | Ok (certPEM, keyPEM, pin) =>
          let keyPath := Join2 dir (bs "key.pem") in
          let certPath := Join2 dir (bs "cert.pem") in
          match writeExclusive keyPath keyPEM ak fs with
          | (Some e, fs1) => fail e fs1
          | (None, fs1) =>
              match writeExclusive certPath certPEM ac fs1 with
              | (Some e, fs2) => fail e (if rm then delete keyPath fs2 else fs2)
              | (None, fs2) => print (Some pin) fs2
              end
          end
      end
  end.

(** ** The configuration and the components agree *)

Lemma positive_kept z d : 0 < z -> (if z <=? 0 then d else z) = z.
Proof. intros. by rewrite (proj2 (Z.leb_gt _ _)). Qed.

Lemma add_ports_ok ports m : ports_ok ports -> is_ok (add_ports ports m) = true.
Proof.
  intros HF. revert m. induction HF as [|p ps Hp _ IH]; intros m; cbn [add_ports]; [done|].
  rewrite (proj2 (Z.ltb_ge p 1)), (proj2 (Z.ltb_ge 65535 p)) by lia. apply IH.
Qed.

Lemma mib_exact mb : 0 <= mb <= 1024 -> mib mb = mb * 2 ^ 20.
Proof. intros. unfold mib. rewrite Z.shiftl_mul_pow2 by lia. apply Z.mod_small. change (2 ^ 64) with (2 ^ 44 * 2 ^ 20). nia. Qed.

Lemma server_options_kept now parse c : server_ok now parse c -> Server.New_options (server_options c) = server_options c.
Proof.
  intros [? ? ? (_ & _ & ? & ? & ? & ? & ? & _) ? ? ? ? ? ? [? ?] ? ? ? ? ?].
  unfold Server.New_options, server_options.
  cbn [Server.opt_CongestionControl Server.MaxActiveStreams Server.MaxCompressedStreams Server.opt_IdleTimeout
    Server.opt_HandshakeTimeout Server.RequestTimeout Server.MaxConnections Server.MaxStreamsPerConnection
    Server.Compression Server.opt_MaxStreamRecvWindow Server.opt_MaxConnRecvWindow].
  rewrite !positive_kept by (unfold second; lia). done.
Qed.

Lemma udp_options_kept now parse c : server_ok now parse c ->
  defaults (udp_options c) = mkUDPOptions (udp_MaxFlows (sv_UDP c)) (udp_QueueSize (sv_UDP c))
    (Z.min (udp_Workers (sv_UDP c)) (udp_MaxFlows (sv_UDP c))) (udp_NewFlowsPerSecond (sv_UDP c))
    (udp_MaxPayload (sv_UDP c)) (udp_IdleTimeoutSec (sv_UDP c) * second).
Proof.
  intros Hok. destruct (so_udp _ _ _ Hok) as (? & ? & ? & ? & ? & ?).
  unfold defaults, udp_options. cbn [MaxFlows QueueSize Workers NewFlowsPerSecond MaxPayload UdpNat.IdleTimeout].
  rewrite !positive_kept by (unfold second; lia).
  rewrite (proj2 (Z.leb_gt (udp_MaxPayload _) 0)) by lia. cbn [orb]. change (Z.of_nat MaxUDPPayload) with 850.
  rewrite (proj2 (Z.ltb_ge 850 _)) by lia. f_equal. destruct (Z.ltb_spec (udp_MaxFlows (sv_UDP c)) (udp_Workers (sv_UDP c))); lia.
Qed.

Lemma decoy_Handler_ok parse d : decoy_ok parse d -> is_ok (decoy_Handler parse d) = true.
Proof.
  unfold decoy_Handler. intros [-> |[-> |[[-> _]|[-> Hu]]]]; [done..|].
  change (bool_decide (bs "proxy" = bs "off")) with false. change (bool_decide (bs "proxy" = bs "proxy")) with true.
  cbv iota. rewrite (proj2 (bad_upstream_false _) Hu). by destruct Hu as (u & -> & _).
Qed.

Lemma client_options_kept now k : client_ok now k -> Client.New_options (client_options k) = client_options k.
Proof.
  intros [? ? ? ? ? (Ha & _ & ? & ? & ? & _) ? ? ? ? [? ?] ? (? & ? & ?) ?].
  unfold Client.New_options, client_options.
  cbn [Client.opt_CongestionControl Client.MaxActiveStreams Client.MaxCompressedStreams Client.opt_IdleTimeout
    Client.opt_HandshakeTimeout Client.RequestTimeout Client.MaxPendingRequests Client.MaxUDPSessions Client.ALPN
    Client.Compression Client.opt_MaxStreamRecvWindow Client.opt_MaxConnRecvWindow].
  rewrite !positive_kept by (unfold second; lia). destruct Ha as [-> | ->]; done.
Qed.

Lemma proxy_options_kept now k : client_ok now k -> proxy_defaults (proxy_options k) = proxy_options k.
Proof.
  intros [? ? ? ? ? (_ & _ & ? & ? & ? & _) ? ? ? ? ? ? (? & ? & ?) (? & ? & ?)].
  unfold proxy_defaults, proxy_options.
  cbn [Proxy.MaxConnections Proxy.HandshakeTimeout Proxy.IdleTimeout Proxy.HTTPResponseHeaderTimeout Proxy.MaxHeaderBytes].
  rewrite !positive_kept by (unfold second; lia). done.
Qed.

(** A loaded configuration is what runs.  None of the defaults inside [server.New],
    [client.New], the proxy or the UDP NAT changes a setting of a valid configuration
    (only the UDP workers are capped by the flow limit), the receive windows in bytes do
    not overflow, the access lists accept every port, and the decoy handler is built. *)
Theorem config_options now parse (c : Config.Server) (k : Config.Client) :
  server_ok now parse c -> client_ok now k ->
  Server.New_options (server_options c) = server_options c /\
  defaults (udp_options c) = mkUDPOptions (udp_MaxFlows (sv_UDP c)) (udp_QueueSize (sv_UDP c))
    (Z.min (udp_Workers (sv_UDP c)) (udp_MaxFlows (sv_UDP c))) (udp_NewFlowsPerSecond (sv_UDP c))
    (udp_MaxPayload (sv_UDP c)) (udp_IdleTimeoutSec (sv_UDP c) * second) /\
  mib (sv_MaxStreamRecvWindowMB c) = sv_MaxStreamRecvWindowMB c * 2 ^ 20 /\
  mib (sv_MaxConnRecvWindowMB c) = sv_MaxConnRecvWindowMB c * 2 ^ 20 /\
  is_ok (add_ports (Config.elements (AllowPorts (sv_ACL c))) ∅) = true /\
  is_ok (add_ports (Config.elements (DenyPorts (sv_ACL c))) ∅) = true /\
  is_ok (decoy_Handler parse (sv_Decoy c)) = true /\
  Client.New_options (client_options k) = client_options k /\
  proxy_defaults (proxy_options k) = proxy_options k.
Proof.
  intros Hs Hk. destruct (so_common _ _ _ Hs) as (_ & _ & _ & _ & _ & ? & ?).
  split_and!; [by eapply server_options_kept|by eapply udp_options_kept|apply mib_exact; lia|apply mib_exact; lia
    |apply add_ports_ok, Hs|apply add_ports_ok, Hs|apply decoy_Handler_ok, Hs|by eapply client_options_kept|by eapply proxy_options_kept].
Qed.

(** ** Reloading *)
Section reload.
Context `{Crypto} (generate : res (Certificate * bytes)) (keypair : bytes -> bytes -> res (Certificate * bytes)).
Context {B : Type} `{AdmissionOps B} (parse : bytes -> res url) (path : bytes).

(** The server runs with the keys of this configuration. *)
Definition runs_with (c : Config.Server) (s : server B) : Prop :=
  DecodePSK (sv_PSK c) = Ok (primary (snap s)) /\ expires (snap s) = sv_PreviousPSKExpires c /\
  (if decide (sv_PreviousPSK c = []) then previous (snap s) = []
   else DecodePSK (sv_PreviousPSK c) = Ok (previous (snap s))).

(** The keys a configuration names, as they are decoded. *)
Definition keys_of (c : Config.Server) (pri prev : bytes) : Prop :=
  DecodePSK (sv_PSK c) = Ok pri /\
  (if decide (sv_PreviousPSK c = []) then prev = [] else DecodePSK (sv_PreviousPSK c) = Ok prev).

Lemma credentials_of_keys files c pri prev crt : credentials_of generate keypair files c = Ok (pri, prev, crt) -> keys_of c pri prev.
Proof.
  unfold credentials_of, keys_of. intros H1. inv_load. destruct x2 as [crt' pin]. inv_load. injection H1 as -> -> ->.
  match goal with E : (if bool_decide _ then _ else _) = Ok _ |- _ => rename E into HP end.
  split; [done|]. destruct (decide (sv_PreviousPSK c = [])) as [E|N].
  - rewrite bool_decide_eq_true_2 in HP by done. congruence.
  - by rewrite bool_decide_eq_false_2 in HP.
Qed.

(** The rules of [LoadServer] for keys are those of [Update]. *)
Lemma loaded_keys_valid now c pri prev crt : server_ok now parse c -> keys_of c pri prev ->
  snapshot_ok now (mkSnap pri prev (sv_PreviousPSKExpires c) crt) <-> cert_chain crt <> [] /\ has_private_key crt = true.
Proof.
  intros Hok [Hp Hv]. destruct (so_keys _ _ _ Hok) as (pri' & Hp' & Hold). rewrite Hp in Hp'. injection Hp' as <-.
  destruct (DecodePSK_Ok _ _ Hp) as (_ & _ & ?). unfold snapshot_ok. cbn [primary previous expires cert].
  destruct (so_overlap _ _ _ Hok) as [[E Ex]|(N & Ex & Ew)].
  - rewrite decide_True in Hv by done. subst prev. rewrite Ex. intuition.
  - rewrite decide_False in Hv by done. destruct (Hold N) as (old & Ho & Hne). rewrite Hv in Ho. injection Ho as <-.
    destruct (DecodePSK_Ok _ _ Hv) as (_ & _ & ?). intuition.
Qed.

Lemma SameRuntimeSettings_refl c : SameRuntimeSettings c c = true.
Proof. by apply bool_decide_eq_true. Qed.

Lemma SameRuntimeSettings_options a b : SameRuntimeSettings a b = true ->
  server_options a = server_options b /\ udp_options a = udp_options b /\ sv_ACL a = sv_ACL b /\ sv_Decoy a = sv_Decoy b /\
  sv_Listen a = sv_Listen b /\ sv_MetricsListen a = sv_MetricsListen b.
Proof.
  intros E%bool_decide_eq_true.
  change (server_options a) with (server_options (without_credentials a)). change (udp_options a) with (udp_options (without_credentials a)).
  change (sv_ACL a) with (sv_ACL (without_credentials a)). change (sv_Decoy a) with (sv_Decoy (without_credentials a)).
  change (sv_Listen a) with (sv_Listen (without_credentials a)). change (sv_MetricsListen a) with (sv_MetricsListen (without_credentials a)).
  rewrite E. done.
Qed.

Lemma SameRuntimeSettings_trans a b c :
  SameRuntimeSettings a b = true -> SameRuntimeSettings b c = true -> SameRuntimeSettings a c = true.
Proof. unfold SameRuntimeSettings. rewrite !bool_decide_eq_true. congruence. Qed.

(** A signal leaves everything as it was, or installs what the new configuration says. *)
Lemma watch_signal_cases files loaded current (s : server B) err current' s' :
  watch_signal generate keypair files loaded (current, s) = (err, (current', s')) ->
  (err <> None /\ current' = current /\ s' = s) \/
  (err = None /\ exists pri prev crt, loaded = Ok current' /\ SameRuntimeSettings current current' = true /\
     credentials_of generate keypair files current' = Ok (pri, prev, crt) /\
     snapshot_ok (clock s) (mkSnap pri prev (sv_PreviousPSKExpires current') crt) /\
     s' = set_creds (mkSnap pri prev (sv_PreviousPSKExpires current') crt) (clock s) s).
Proof.
  unfold watch_signal. destruct loaded as [next|e]; [|intros [= <- <- <-]; by left].
  destruct (SameRuntimeSettings current next) eqn:ES; cbn [negb]; [|intros [= <- <- <-]; by left].
  unfold applyCredentials.
  destruct (credentials_of generate keypair files next) as [[[pri prev] crt]|e] eqn:EC; [|intros [= <- <- <-]; by left].
  destruct (ReloadCredentials_cases pri prev (sv_PreviousPSKExpires next) crt s) as [[e ->]|(new & EU & ->)]; intros [= <- <- <-]; [by left|right].
  split; [done|]. destruct (Update_spec (clock s) (snap s) pri prev (sv_PreviousPSKExpires next) crt) as [[Hs E]|[_ [e E]]];
    rewrite E in EU; [injection EU as <-|done]. by exists pri, prev, crt.
Qed.

Lemma watch_signal_runs files loaded current s err current' s' : runs_with current s ->
  watch_signal generate keypair files loaded (current, s) = (err, (current', s')) ->
  runs_with current' s' /\ SameRuntimeSettings current current' = true.
Proof.
  intros Hrun [(_ & -> & ->)|(_ & pri & prev & crt & _ & ? & [Hp Hv]%credentials_of_keys & _ & ->)]%watch_signal_cases.
  - split; [done|apply SameRuntimeSettings_refl].
  - done.
Qed.

(** C28: a reload is all or nothing.  A signal either changes nothing, or installs the
    keys of the configuration just loaded, whose other settings are those the server
    runs with; it succeeds exactly when the file loads, changes credentials only, and
    its certificate can be read and has a key: a configuration that [LoadServer]
    accepted is never refused for its keys.  Afterwards exactly the new keys are
    accepted. *)
Theorem credential_reload files raw current s err current' s' :
  runs_with current s ->
  watch_signal generate keypair files (LoadServer (clock s) parse path raw) (current, s) = (err, (current', s')) ->
  runs_with current' s' /\ SameRuntimeSettings current current' = true /\
  (err <> None -> current' = current /\ s' = s) /\
  (err = None <-> exists next pri prev crt, LoadServer (clock s) parse path raw = Ok next /\
     SameRuntimeSettings current next = true /\ credentials_of generate keypair files next = Ok (pri, prev, crt) /\
     cert_chain crt <> [] /\ has_private_key crt = true) /\
  (err = None -> forall id, accepts s' id = true <->
     id = sha256 (primary (snap s')) \/ id = sha256 (previous (snap s')) /\ previous (snap s') <> [] /\ clock s' < expires (snap s')).
Proof.
  intros Hrun HW. destruct (watch_signal_runs _ _ _ _ _ _ _ Hrun HW) as [? ?]. split; [done|]. split; [done|].
  destruct (watch_signal_cases _ _ _ _ _ _ _ HW) as [(He & -> & ->)|(-> & pri & prev & crt & HL & HS & HC & Hs & ->)].
  - split; [done|]. split; [|done]. split; [done|]. intros (next & pri & prev & crt & HL & HS & HC & Hcert).
    exfalso. apply He. unfold watch_signal, applyCredentials, ReloadCredentials in HW. rewrite HL, HS, HC in HW. cbn [negb] in HW.
    assert (server_ok (clock s) parse next) as Hok.
    { destruct raw as [c0|]; [|done]. by destruct (LoadServer_sound _ _ _ _ _ HL). }
    destruct (Update_spec (clock s) (snap s) pri prev (sv_PreviousPSKExpires next) crt) as [[_ E]|[Hn _]];
      [rewrite E in HW; congruence|].
    by apply (loaded_keys_valid _ _ _ _ crt Hok (credentials_of_keys _ _ _ _ _ HC)) in Hcert.
  - split; [done|]. split; [|intros _ id; apply Accepts_spec]. split; [|done]. intros _.
    exists current', pri, prev, crt. split; [done|]. split; [done|]. split; [done|].
    destruct Hs as (_ & ? & ? & _). done.
Qed.

(** A history of signals: the time, the file system and the decoded file of each. *)
Fixpoint watchCredentials (evs : list (Z * (bytes -> file) * res Config.Server)) (st : Config.Server * server B)
    : Config.Server * server B :=
  match evs with
  | [] => st
  | (t, files, raw) :: evs' =>
      let '(current, s) := st in
      watchCredentials evs'
        (snd (watch_signal generate keypair files (LoadServer t parse path raw) (current, set_creds (snap s) t s)))
  end.

(** However often the credentials are reloaded, the server always runs with the keys
    of one loaded configuration and with the limits, listeners, access lists and decoy
    it was started with. *)
Theorem reload_history evs c0 s0 : runs_with c0 s0 ->
  let '(c, s) := watchCredentials evs (c0, s0) in
  runs_with c s /\ server_options c = server_options c0 /\ udp_options c = udp_options c0 /\
  sv_ACL c = sv_ACL c0 /\ sv_Decoy c = sv_Decoy c0 /\ sv_Listen c = sv_Listen c0 /\ sv_MetricsListen c = sv_MetricsListen c0.
Proof.
  intros Hrun. destruct (watchCredentials evs (c0, s0)) as [c s] eqn:EW.
  assert (runs_with c s /\ SameRuntimeSettings c0 c = true) as [? HS].
  2:{ split; [done|]. destruct (SameRuntimeSettings_options _ _ HS) as (? & ? & ? & ? & ? & ?). done. }
  revert c0 s0 Hrun EW. induction evs as [|[[t files] raw] evs IH]; intros c0 s0 Hrun EW; cbn [watchCredentials] in EW.
  { injection EW as <- <-. split; [done|apply SameRuntimeSettings_refl]. }
  destruct (watch_signal generate keypair files (LoadServer t parse path raw) (c0, set_creds (snap s0) t s0)) as [err [c1 s1]] eqn:E1.
  destruct (watch_signal_runs _ _ _ _ _ _ _ (Hrun : runs_with c0 (set_creds (snap s0) t s0)) E1) as [Hr1 HS1].
  destruct (IH c1 s1 Hr1 EW) as [? ?]. split; [done|]. by eapply SameRuntimeSettings_trans.
Qed.
End reload.

(** ** Keys and certificates *)

Lemma EncodeToString_nonempty s : s <> [] -> EncodeToString s <> [].
Proof. by destruct s as [|a [|b [|c s]]]. Qed.

(** A generated key is a valid key of a configuration, and decodes to itself. *)
Lemma DecodePSK_encoded psk : (16 <= length psk <= 256)%nat -> DecodePSK (EncodeToString psk) = Ok psk.
Proof.
  intros Hl. unfold DecodePSK. rewrite bool_decide_eq_false_2.
  - rewrite DecodeString_EncodeToString. by rewrite !bool_decide_eq_false_2 by lia.
  - apply EncodeToString_nonempty. by intros ->; cbn in Hl; lia.
Qed.

Lemma writeExclusive_cases path data a fs err fs' : w_removes a = true -> writeExclusive path data a fs = (err, fs') ->
  (err = None /\ fs !! path = None /\ fs' = <[path := data]> fs) \/ (err <> None /\ fs' = fs).
Proof.
  intros Hr. unfold writeExclusive. rewrite Hr. destruct (fs !! path) as [old|] eqn:Ef; [intros [= <- <-]; by right|].
  destruct (w_open a); [intros [= <- <-]; by right|].
  assert (delete path (<[path := take (w_n a) data]> fs) = fs) as Hdel by by apply delete_insert_id.
  destruct (w_err a); [rewrite Hdel; intros [= <- <-]; by right|].
  destruct (bool_decide_reflect (w_n a = length data)) as [E|]; cbn [negb]; [|rewrite Hdel; intros [= <- <-]; by right].
  rewrite E, firstn_all in *. destruct (w_close a); [rewrite Hdel; intros [= <- <-]; by right|]. intros [= <- <-]. by left.
Qed.

Lemma key_cert_paths dir : Join2 dir (bs "key.pem") <> Join2 dir (bs "cert.pem").
Proof.
  destruct (Join2_suffix dir (bs "key.pem")) as [q ->]; [done|]. destruct (Join2_suffix dir (bs "cert.pem")) as [r ->]; [done|].
  intros E. apply (f_equal (fun l => take 5 (reverse l))) in E. rewrite !reverse_app in E. discriminate E.
Qed.

(** The key generator.  Where removals work, whatever else fails it leaves either
    the file system as it was or both new files complete, and it never touches a file
    that existed; on success the printed key decodes, by the rules of the
    configuration, to the random bytes, and a certificate that was asked for is there
    with its pin printed. *)
Theorem keygen_exact writeCert dir psk gen ak ac out fs :
  length psk = 32%nat -> w_removes ak = true -> w_removes ac = true ->
  let o := keygen_run (Ok (writeCert, dir)) (Ok psk) gen ak ac true out fs in
  let both certPEM keyPEM := <[Join2 dir (bs "cert.pem") := certPEM]> (<[Join2 dir (bs "key.pem") := keyPEM]> fs) in
  ((kg_fs o = fs /\ kg_pin o = None) \/
   exists certPEM keyPEM pin, writeCert = true /\ gen = Ok (certPEM, keyPEM, pin) /\ kg_pin o = Some pin /\
     fs !! Join2 dir (bs "key.pem") = None /\ fs !! Join2 dir (bs "cert.pem") = None /\ kg_fs o = both certPEM keyPEM) /\
  (kg_err o = None -> (exists text, kg_psk o = Some text /\ DecodePSK text = Ok psk) /\ (writeCert = true -> is_Some (kg_pin o))).
Proof.
  intros Hl Hk Hc. cbv zeta. unfold keygen_run.
  assert (DecodePSK (EncodeToString psk) = Ok psk) as Hp by (apply DecodePSK_encoded; lia).
  destruct writeCert; cbn [negb]; [|by split; [left|intros _; split; [eexists|]]].
  destruct gen as [[[certPEM keyPEM] pin]|e]; [|by split; [left|]].
  destruct (writeExclusive _ keyPEM ak fs) as [err1 fs1] eqn:E1.
  apply (writeExclusive_cases _ _ _ _ _ _ Hk) in E1 as [(-> & Hn1 & ->)|[He ->]]; [|destruct err1; [by split; [left|]|done]].
  destruct (writeExclusive _ certPEM ac _) as [err2 fs2] eqn:E2.
  apply (writeExclusive_cases _ _ _ _ _ _ Hc) in E2 as [(-> & Hn2 & ->)|[He ->]].
  - cbn [kg_fs kg_pin kg_err kg_psk]. split; [|intros _; split; eauto]. right. exists certPEM, keyPEM, pin.
    rewrite lookup_insert_ne in Hn2 by apply key_cert_paths. done.
  - destruct err2 as [e|]; [|done]. cbn [kg_fs kg_pin kg_err]. rewrite delete_insert_id by done. by split; [left|].
Qed.

(** The pin of a certificate is a valid pin of a client configuration, and a client with
    it accepts that certificate. *)
Theorem pin_usable `{CryptoLaws} now spki : pin_ok (SPKIPin spki) /\
  VerifyConnection now (SPKIPin spki) [] 0 [spki] = None.
Proof.
  split.
  - exists (sha256 spki). split; [apply DecodeString_EncodeToString|apply sha256_length].
  - unfold VerifyConnection. by rewrite bool_decide_eq_true_2.
Qed.

(** The text ["AAA...AB="] of a pin: 32 zero bytes with a bit set in the padding. *)
Definition loose_pin : bytes := replicate 42 (ch "A") ++ bs "B=".

(** Some texts pass the check of a configured pin although no certificate has them as
    its pin: the check decodes the text and ignores the bits left over, while
    [VerifyConnection] compares texts. *)
Theorem loose_pin_never_matches `{Crypto} : pin_ok loose_pin /\ forall spki, SPKIPin spki <> loose_pin.
Proof.
  split.
  - exists (replicate 32 Byte.x00). by split; vm_compute.
  - intros spki E. unfold SPKIPin in E. pose proof (DecodeString_EncodeToString (sha256 spki)) as Hd. rewrite E in Hd.
    assert (DecodeString loose_pin = Ok (replicate 32 Byte.x00)) as Hz by (vm_compute; reflexivity).
    rewrite Hz in Hd. injection Hd as Hs. rewrite <- Hs in E. vm_compute in E. discriminate E.
Qed.

(** An empty file, as after a truncation. *)
Definition empty_file : file := mkFile None (Ok (true, 0)) [] None.

(** Credential files that exist but are empty do not fail the reload: although a path is
    configured, the certificate that is installed is a newly generated one. *)
Theorem reload_empty_files `{Crypto} generate keypair files (c : Config.Server) crt spki pri :
  sv_CertFile c <> [] -> files (sv_CertFile c) = empty_file -> files (sv_KeyFile c) = empty_file ->
  generate = Ok (crt, spki) -> DecodePSK (sv_PSK c) = Ok pri -> sv_PreviousPSK c = [] ->
  credentials_of generate keypair files c = Ok (pri, [], crt).
Proof.
  intros Hc Hf Hk Hg Hp Ho. unfold credentials_of, readCredentialFile. rewrite (bool_decide_eq_false_2 _ Hc), Hf, Hk, Hg, Hp.
  by rewrite (bool_decide_eq_true_2 _ Ho).
Qed.

(** ** Concrete runs *)
#[local] Existing Instance toy_crypto.
#[local] Existing Instance toy_laws.

Definition example_psk : bytes := bs "0123456789abcdef0123456789abcdef".
Definition no_url (_ : bytes) : res url := Err EOF.
Definition raw_server (psk cert : bytes) : Config.Server :=
  mkServerCfg [] [] 0 0 0 0 0 0 0 0 0 (mkUDP 0 0 0 0 0 0) false [] (EncodeToString psk) [] cert (bs "key.pem") 0
    (mkACL None None (Some [443]) None) (mkDecoy [] [] [] []) false true [] 0 0.
Definition raw_client : Config.Client :=
  mkClientCfg [] [] 0 0 0 0 0 0 0 0 0 0 0 false false (bs "example.org:4242") (EncodeToString example_psk)
    (EncodeToString example_psk) [] [] [] 0 false true [] 0 0.

Definition config_path : bytes := bs "/etc/wanopt/server.yaml".
Definition example_cfg : Config.Server := fill_server config_path (raw_server example_psk (bs "cert.pem")).

Lemma example_loads : LoadServer (99 * second) no_url config_path (Ok (raw_server example_psk (bs "cert.pem"))) = Ok example_cfg /\
  sv_CertFile example_cfg = bs "/etc/wanopt/cert.pem" /\ sv_MaxCompressedStreams example_cfg = 16.
Proof. by split_and!; vm_compute. Qed.

(** Only an absolute path makes a configuration load again as it is: from a relative one the
    certificate's path is joined with the directory a second time. *)
Example example_relative :
  let path := bs "conf/server.yaml" in
  let once := fill_server path (raw_server example_psk (bs "cert.pem")) in
  let twice := fill_server path once in
  LoadServer (99 * second) no_url path (Ok (raw_server example_psk (bs "cert.pem"))) = Ok once /\
  LoadServer (99 * second) no_url path (Ok once) = Ok twice /\
  sv_CertFile once = bs "conf/cert.pem" /\ sv_CertFile twice = bs "conf/conf/cert.pem".
Proof. by split_and!; vm_compute. Qed.

Lemma example_server_ok : server_ok (99 * second) no_url example_cfg.
Proof. exact (proj2 (LoadServer_sound _ _ _ _ _ (proj1 example_loads))). Qed.

Lemma example_client_ok : client_ok (99 * second) (fill_client raw_client).
Proof. apply (LoadClient_sound (99 * second) raw_client). vm_compute. reflexivity. Qed.

Lemma config_options_witness :
  Server.New_options (server_options example_cfg) = server_options example_cfg /\
  UdpNat.Workers (defaults (udp_options example_cfg)) = 4.
Proof.
  destruct (config_options (99 * second) no_url example_cfg (fill_client raw_client) example_server_ok example_client_ok)
    as (H1 & H2 & _). split; [exact H1|]. rewrite H2. vm_compute. reflexivity.
Defined.

Definition pem_files (_ : bytes) : file := mkFile None (Ok (true, 3)) (bs "PEM") None.
Definition example_cert : Certificate := mkCert [bs "der"] true.
Definition pem_pair (_ _ : bytes) : res (Certificate * bytes) := Ok (example_cert, bs "spki").
Definition reload_server : server Budget :=
  server_init (mkSnap example_psk [] 0 example_cert) (99 * second) example_budget example_budget.

Lemma example_runs : runs_with example_cfg reload_server.
Proof. repeat split; vm_compute; reflexivity. Qed.

(** A reload to another key. *)
Definition next_psk : bytes := bs "fedcba9876543210".

Lemma credential_reload_witness : exists current' s',
  watch_signal (Err EOF) pem_pair pem_files
    (LoadServer (99 * second) no_url config_path (Ok (raw_server next_psk (bs "cert.pem")))) (example_cfg, reload_server) =
    (None, (current', s')) /\ runs_with current' s'.
Proof.
  do 2 eexists. split; [vm_compute; reflexivity|].
  refine (proj1 (credential_reload (Err EOF) pem_pair no_url config_path pem_files
    (Ok (raw_server next_psk (bs "cert.pem"))) example_cfg reload_server None _ _ example_runs _)). vm_compute. reflexivity.
Defined.

Lemma reload_history_witness :
  let '(c, s) := watchCredentials (Err EOF) pem_pair no_url config_path
    [(98 * second, pem_files, Err EOF); (99 * second, pem_files, Ok (raw_server next_psk (bs "cert.pem")))]
    (example_cfg, reload_server) in
  runs_with c s /\ primary (snap s) = next_psk.
Proof.
  pose proof (reload_history (Err EOF) pem_pair no_url config_path
    [(98 * second, pem_files, Err EOF); (99 * second, pem_files, Ok (raw_server next_psk (bs "cert.pem")))]
    example_cfg reload_server example_runs) as H.
  destruct (watchCredentials _ _ _ _ _ _) as [c s] eqn:E. destruct H as [H _]. split; [exact H|].
  vm_compute in E. injection E as <- <-. reflexivity.
Defined.

Definition good_write (n : nat) : wanswer := mkW None n None None true.

Lemma keygen_exact_witness :
  let o := keygen_run (Ok (true, bs "out")) (Ok example_psk) (Ok (bs "CERT", bs "KEY", bs "PIN")) (good_write 3) (good_write 2) true None ∅ in
  kg_fs o = ∅ /\ kg_pin o = None.
Proof.
  destruct (keygen_exact true (bs "out") example_psk (Ok (bs "CERT", bs "KEY", bs "PIN")) (good_write 3) (good_write 2) None ∅
    eq_refl eq_refl eq_refl) as [[H|(c & k & p & _ & _ & H & _)] _]; [exact H|]. vm_compute in H. discriminate H.
Defined.

Lemma reload_empty_files_witness :
  credentials_of (Ok (example_cert, bs "new")) pem_pair (fun _ => empty_file) example_cfg = Ok (example_psk, [], example_cert).
Proof.
  apply (reload_empty_files (Ok (example_cert, bs "new")) pem_pair (fun _ => empty_file) example_cfg example_cert (bs "new") example_psk);
    [vm_compute; discriminate|reflexivity|reflexivity|reflexivity|vm_compute; reflexivity|reflexivity].
Defined.
