(* ===== verification/Cover.v ===== *)
(** * The cover site

    Models [internal/decoy/decoy.go]: what a request that is not for the tunnel is
    answered with.  html/template, net/http's file server and the reverse proxy are
    parameters: the parsed templates and their rendering, and the answers of the two
    library handlers. *)
From S2P Require Import Prelude GoStd GoNet Config Commands.

(** ** UTF-8 *)

Definition in_range (lo hi : Z) (b : byte) : bool := (lo <=? b2z b) && (b2z b <=? hi).
Definition continuation : byte -> bool := in_range 128 191.

(** [utf8.RuneError], encoded. *)
Definition RuneError : bytes := [Byte.xef; Byte.xbf; Byte.xbd].

(** The bounds of the second byte of a sequence, by its first; the number of bytes. *)
Definition rune_shape (b0 : byte) : option (nat * (Z * Z)) :=
  let z := b2z b0 in
  if (194 <=? z) && (z <=? 223) then Some (2%nat, (128, 191))
  else if z =? 224 then Some (3%nat, (160, 191))
  else if z =? 237 then Some (3%nat, (128, 159))
  else if (225 <=? z) && (z <=? 239) then Some (3%nat, (128, 191))
  else if z =? 240 then Some (4%nat, (144, 191))
  else if (241 <=? z) && (z <=? 243) then Some (4%nat, (128, 191))
  else if z =? 244 then Some (4%nat, (128, 143))
  else None.

(** [string([]rune(s)[:1])]: the first rune, encoded again; [None] is the panic of the
    slice of an empty string. *)
Definition first_rune (s : bytes) : option bytes :=
  match s with
  | [] => None
  | b0 :: rest =>
      if b2z b0 <? 128 then Some [b0]
      else match rune_shape b0 with
      | None => Some RuneError
      | Some (n, (lo, hi)) =>
          let tail := take (n - 1) rest in
          if bool_decide (length tail = (n - 1)%nat) && in_range lo hi (default Byte.x00 (head tail)) && forallb continuation (drop 1 tail)
          then Some (b0 :: tail) else Some RuneError
      end
  end.

(** ** Responses *)
Record http_reply := mkReply { hp_status : Z; hp_headers : list (bytes * bytes); hp_body : bytes }.

Definition content_type (t : string) : bytes * bytes := (bs "Content-Type", bs t).
Definition html : bytes * bytes := content_type "text/html; charset=utf-8".
Definition app_json : bytes * bytes := content_type "application/json".

(** [http.Error]. *)
Definition http_Error (msg : string) (code : Z) : http_reply :=
  mkReply code [content_type "text/plain; charset=utf-8"; (bs "X-Content-Type-Options", bs "nosniff")] (bs msg ++ [Byte.x0a]).

(** ** The built-in site *)
Section site.
Context {template : Type} (render : template -> list (bytes * bytes) -> bytes).

Record builtinSite := mkSite { bt_index : template; bt_notFound : template; bt_data : list (bytes * bytes) }.

Definition siteNameOr (siteName : bytes) : bytes := if bool_decide (siteName = []) then bs "CloudVault" else siteName.

(** [builtin]: the two templates as [ParseFS] gave them; [None] is a panic. *)
Definition builtin (index notFound : res template) (siteName : bytes) : option (res builtinSite) :=
  let siteName := siteNameOr siteName in
  match index, notFound with
  | Err e, _ => Some (Err e)
  | _, Err e => Some (Err e)
  | Ok i, Ok n => initial ← first_rune siteName; Some (Ok (mkSite i n [(bs "SiteName", siteName); (bs "Initial", initial)]))
  end.

Definition login_failed : bytes :=
  bs "{" ++ field "error" ++ quoted (bs "invalid_credentials") ++ bs "," ++ field "message" ++ quoted (bs "Invalid username or password") ++ bs "}".
Definition status_ok : bytes :=
  bs "{" ++ field "status" ++ quoted (bs "ok") ++ bs "," ++ field "version" ++ quoted (bs "3.2.1") ++ bs "," ++ field "maintenance" ++ bs "false}".
Definition unauthorized : bytes := bs "{" ++ field "error" ++ quoted (bs "unauthorized") ++ bs "}".

(** [builtinSite.ServeHTTP]: the page, with its headers and body. *)
Definition builtin_ServeHTTP (s : builtinSite) (method path : bytes) : http_reply :=
  let '(status, page) := builtin_page method path in
  match page with
  | PageIndex => mkReply status [html; (bs "Cache-Control", bs "no-store")] (render (bt_index s) (bt_data s))
  | PageLoginFailed => mkReply status [app_json] login_failed
  | PageStatus => mkReply status [app_json] status_ok
  | PageNone => mkReply status [] []
  | PageUnauthorized => mkReply status [app_json] unauthorized
  | PageNotFound => mkReply status [html] (render (bt_notFound s) (bt_data s))
  end.

(** ** Handler *)

(** A decoy as [Handler] builds it: the choice of [decoy_Handler] with, for the built-in
    site, its templates and data. *)
Inductive decoy := DecoyNotFound | DecoyProxy (u : url) | DecoyFiles (dir : bytes) | DecoyBuiltin (s : builtinSite).

Definition Handler (parse : bytes -> res url) (index notFound : res template) (d : Decoy) : option (res decoy) :=
  match decoy_Handler parse d with
  | Err e => Some (Err e)
  | Ok SiteNotFound => Some (Ok DecoyNotFound)
  | Ok (SiteProxy u) => Some (Ok (DecoyProxy u))
  | Ok (SiteFiles dir) => Some (Ok (DecoyFiles dir))
  | Ok (SiteBuiltin _) => r ← builtin index notFound (SiteName d); Some (s ← r; Ok (DecoyBuiltin s))
  end.

(** What a request is answered with; the answers of the reverse proxy and of the file
    server are arguments. *)
Definition decoy_ServeHTTP (upstream : url -> bytes -> bytes -> http_reply) (files : bytes -> bytes -> bytes -> http_reply)
    (d : decoy) (method path : bytes) : http_reply :=
  match d with
  | DecoyNotFound => http_Error "404 page not found" 404
  | DecoyProxy u => upstream u method path
  | DecoyFiles dir => files dir method path
  | DecoyBuiltin s => builtin_ServeHTTP s method path
  end.

(** ** Facts *)
Lemma first_rune_nonempty s : s <> [] -> exists r, first_rune s = Some r /\ r <> [].
Proof.
  intros Hs. destruct s as [|b s]; [done|]. cbn [first_rune]. destruct (_ <? 128); [eauto|].
  destruct (rune_shape b) as [[n [lo hi]]|]; [|by eexists]. destruct (_ && _); by eexists.
Qed.

Lemma siteNameOr_nonempty n : siteNameOr n <> [].
Proof. unfold siteNameOr. by case_bool_decide. Qed.

Lemma builtin_ok i n name : exists s initial, builtin (Ok i) (Ok n) name = Some (Ok s) /\ initial <> [] /\
  bt_data s = [(bs "SiteName", siteNameOr name); (bs "Initial", initial)].
Proof.
  destruct (first_rune_nonempty (siteNameOr name) (siteNameOr_nonempty name)) as (r & Hr & Hne). unfold builtin. rewrite Hr. cbn. eauto.
Qed.

Definition has_header (name : bytes) (r : http_reply) : bool := existsb (fun h => bool_decide (fst h = name)) (hp_headers r).

(** The built-in cover site.  With templates that parse it is built for every site name,
    the empty one and invalid text included, and always has a non-empty initial.  It
    answers every request, with one of the statuses of a small site; a body comes with a
    content type, and only the icon has neither; credentials are always refused; and
    pages other than the two templates do not depend on the configuration. *)
Theorem cover_site parse i n d method path : Mode d <> bs "off" -> Mode d <> bs "proxy" -> Mode d <> bs "dir" ->
  exists s, Handler parse (Ok i) (Ok n) d = Some (Ok (DecoyBuiltin s)) /\
    let r := builtin_ServeHTTP s method path in
    hp_status r ∈ [200; 204; 401; 404] /\
    (has_header (bs "Content-Type") r = false -> hp_status r = 204 /\ hp_body r = []) /\
    (HasPrefix path (bs "/api/") = true -> hp_status r = 401) /\
    (forall s', hp_status r <> 404 -> path <> bs "/" -> path <> bs "/login" -> builtin_ServeHTTP s' method path = r).
Proof.
  intros H1 H2 H3. destruct (builtin_ok i n (SiteName d)) as (s & r & Hb & _). exists s. split.
  { unfold Handler, decoy_Handler. rewrite !bool_decide_eq_false_2 by done. cbv iota. by rewrite Hb. }
  cbv zeta. unfold builtin_ServeHTTP, builtin_page.
  destruct (bool_decide_reflect (path = bs "/")) as [->|]; cbn [orb]; [by split_and!; [set_solver|..]|].
  destruct (bool_decide_reflect (path = bs "/login")) as [->|]; cbn [orb]; [by split_and!; [set_solver|..]|].
  destruct (_ && _); [by split_and!; [set_solver|..]|].
  destruct (bool_decide_reflect (path = bs "/status")) as [->|]; cbn [orb]; [by split_and!; [set_solver|..]|].
  destruct (bool_decide_reflect (path = bs "/healthz")) as [->|]; cbn [orb]; [by split_and!; [set_solver|..]|].
  destruct (bool_decide_reflect (path = bs "/favicon.ico")) as [->|]; [by split_and!; [set_solver|..]|].
  destruct (HasPrefix path (bs "/api/")); split_and!; try done; set_solver.
Qed.
End site.

Lemma cover_site_witness : exists s, Handler (template := unit) (fun _ => Err EOF) (Ok tt) (Ok tt) (mkDecoy (bs "builtin") [] [] []) = Some (Ok (DecoyBuiltin s)) /\
  hp_status (builtin_ServeHTTP (fun _ _ => bs "page") s (bs "GET") (bs "/api/x")) = 401.
Proof.
  destruct (cover_site (template := unit) (fun _ _ => bs "page") (fun _ => Err EOF) tt tt (mkDecoy (bs "builtin") [] [] []) (bs "GET") (bs "/api/x"))
    as (s & Hs & _ & _ & Ha & _); [discriminate..|]. exists s. split; [exact Hs|]. apply Ha. reflexivity.
Defined.
