(* ===== verification/Probing.v ===== *)
(** * What a stranger learns from the server

    Models [handleControl] of [internal/server/server.go] as a whole, and composes it with
    the gate [serveHTTP], the connection table of [ServerConns] and the cover site of
    [Cover] into everything a peer without a key can see: the answers to its requests and
    the end of its attempts to authenticate.  The server's keys, its other connections
    and their streams, its budgets and its clock change underneath as they like. *)
From S2P Require Import Prelude GoStd GoNet Protocol Admission Tunnel Server ServerConns Commands Cover.

(** ** handleControl *)

(** How the handler ends: what it wrote, the code and text that close the connection,
    whether the connection was tracked as authenticated, the failure it counted, and the
    phase in which its readiness callback left the connection. *)
Record control_out := mkControlOut {
  co_written : bytes; co_close : Z * string; co_tracked : bool; co_failure : option error; co_phase : phase;
}.

(** The callback: [authKey.Store], [Accepts], [close(authed)].  Its calls are the [Ready]
    events; without one the key stays unset. *)
Definition ready_phase (accepted : bytes -> bool) (log : list event) : phase :=
  match omap (fun e => match e with Ready id => Some id | Wrote _ => None end) log with
  | [] => Refused None
  | id :: _ => if accepted id then Authed id else Refused (Some id)
  end.

(** The whole handler: the keying material, the credentials at the time of the proof, the
    answer of [Accepts] in the readiness callback, and the stream. *)
Definition handleControl `{Crypto} (now : Z) (creds : credentialSnapshot) (accepted : bytes -> bool) (exporter : res bytes) (s : io)
    : control_out :=
  let '(err, s') :=
    match exporter with
    | Err e => (Some e, s)
    | Ok x => Authenticate now creds s x
                (Some (fun id => if accepted id then None else Some (ErrNew "tunnel: key revoked during authentication")))
    end in
  match err with
  | Some e => mkControlOut (wr_out (io_out s')) (1, "authentication failed"%string) false (Some e) (ready_phase accepted (io_log s'))
  | None => let '(w, _) := control_loop (rd_data (io_in s')) (io_out s') in
            mkControlOut (wr_out w) (0, "control stream closed"%string) true None (ready_phase accepted (io_log s'))
  end.

(** ** Who makes a step *)

Section actors.
Context {B : Type} `{AdmissionOps B} `{Crypto} (maxConns maxStreams : nat).
Implicit Types (s : server B).
#[local] Notation step := (step maxConns maxStreams).

(** The steps of the handlers that the peer of connection [c] sets in motion: its requests
    and its authentication. *)
Inductive handler_step (c : nat) : server B -> server B -> Prop :=
| h_request s x rq : conns s !! c = Some x -> cn_life x <> Spawned -> handler_step c s (snd (serveHTTP maxStreams c rq s))
| h_auth_fail s x : conns s !! c = Some x -> cn_phase x = Control -> handler_step c s (upd_conn c (with_phase (Refused None)) s)
| h_store s x id : conns s !! c = Some x -> cn_phase x = Control -> handler_step c s (upd_conn c (with_phase (Stored id)) s)
| h_check s x id : conns s !! c = Some x -> cn_phase x = Stored id ->
    handler_step c s (upd_conn c (with_phase (if accepts s id then Checked id else Refused (Some id))) s)
| h_authed s x id : conns s !! c = Some x -> cn_phase x = Checked id -> handler_step c s (upd_conn c (with_phase (Authed id)) s).

(** Everything else: connections that come and go, running streams, credentials,
    revocation, time. *)
Inductive shared_step : server B -> server B -> Prop :=
| h_accept s : shared_step s (accept_conn maxConns s)
| h_register s c x : conns s !! c = Some x -> cn_life x = Spawned -> scan s = None -> shared_step s (upd_conn c (with_life Registered) s)
| h_codec s sid st : streams s !! sid = Some st -> st_codec st = None -> shared_step s (take_codec sid st s)
| h_end s sid st : streams s !! sid = Some st -> shared_step s (end_stream sid st s)
| h_close s c : shared_step s (upd_conn c (with_open false) s)
| h_leave s c x : conns s !! c = Some x -> cn_life x = Registered -> scan s = None -> shared_step s (leave_conn c s)
| h_reload s pri prev exp crt : shared_step s (snd (ReloadCredentials pri prev exp crt s))
| h_scan_begin s : scan s = None -> shared_step s (scan_begin s)
| h_scan s p c x : scan s = Some p -> c ∈ ps_todo p -> conns s !! c = Some x -> shared_step s (scan_conn p c x s)
| h_scan_end s p : scan s = Some p -> ps_todo p = ∅ -> shared_step s (scan_end p s)
| h_revoke s c : c ∈ closing s -> shared_step s (set_closing (closing s ∖ {[c]}) (upd_conn c (with_open false) s))
| h_tick s t : clock s < t -> shared_step s (set_creds (snap s) t s).

(** Together they are the steps of the server. *)
Lemma step_actor s s' : step s s' <-> shared_step s s' \/ exists c, handler_step c s s'.
Proof.
  split.
  - intros []; first [left; by econstructor | right; eexists; by econstructor].
  - intros [[]|[c []]]; by econstructor.
Qed.

(** What happens without the peer of connection [c]. *)
Definition foreign (c : nat) s s' : Prop := shared_step s s' \/ exists c', c' <> c /\ handler_step c' s s'.

Lemma foreign_step c s s' : foreign c s s' -> step s s'.
Proof. intros [Hs|(c' & _ & Hs)]; apply step_actor; eauto. Qed.

Lemma upd_conn_phase s c c' g : c' <> c \/ (forall x, cn_phase (g x) = cn_phase x) ->
  cn_phase <$> conns (upd_conn c' g s) !! c = cn_phase <$> conns s !! c.
Proof.
  intros Hg. cbn. destruct (decide (c' = c)) as [->|Hne]; [|by rewrite lookup_alter_ne].
  rewrite lookup_alter_eq. destruct Hg as [?|Hg]; [done|]. destruct (conns s !! c); cbn; [by rewrite Hg|done].
Qed.

(** None of that changes how far the control stream of [c] is. *)
Lemma foreign_phase c s s' : is_Some (conns s !! c) -> foreign c s s' -> cn_phase <$> conns s' !! c = cn_phase <$> conns s !! c.
Proof.
  intros Hc [Hs|(c' & Hne & Hs)].
  - destruct Hs as [s|s c' x Hx Hl Hn|s sid st Hs Hk|s sid st Hs|s c'|s c' x Hx Hl Hn|s pri prev exp crt|s Hn|s p c' x Hp Hin Hx|s p Hp Ht|s c' Hin|s t Ht];
      try (apply upd_conn_phase; by right); try done.
    + unfold accept_conn. case_bool_decide; [|done]. cbn. rewrite lookup_insert_ne; [done|].
      intros E. apply (is_fresh (dom (conns s))). rewrite E. by apply elem_of_dom.
    + unfold take_codec. by destruct (ad_try _) as [[l|] k].
    + by destruct (ReloadCredentials_cases pri prev exp crt s) as [[e ->]|(new & _ & ->)].
    + unfold scan_conn. by destruct (revoked s x).
  - destruct Hs as [s x rq Hx Hl|s x Hx Hp|s x id Hx Hp|s x id Hx Hp|s x id Hx Hp]; try (apply upd_conn_phase; by left).
    unfold serveHTTP. destruct (_ || _); [done|]. destruct (negb _); [done|]. rewrite Hx. destruct (bool_decide _).
    + destruct (cn_phase x); try done. destruct (rq_http3 rq); apply upd_conn_phase; by left.
    + unfold serve_proxy. destruct (cn_phase x); try done. destruct (negb _); [done|]. destruct (ad_try _) as [[l|] a]; [|done].
      destruct (negb _); [done|]. destruct (negb _); [done|]. apply (upd_conn_phase s c c'). by left.
Qed.
End actors.

(** ** The stranger *)

(** What it does on its connection: a request, with its path, or bytes on the control
    stream it opened. *)
Inductive probe := Ask (rq : request) (path : bytes) | Speak (data : bytes) (e : error).

(** What it sees: a page of the cover site, a status of the gate, the control stream
    opening, or the bytes written to it and the connection closing. *)
Inductive seen := Page (r : http_reply) | Status (code : Z) | Opened | ClosedAfter (out : bytes) (code : Z) (text : string).

(** A probe with its answer, and whether the server then tracked the connection as an
    authenticated one. *)
Record exchange := mkExchange { ex_probe : probe; ex_seen : seen; ex_tracked : bool }.

Section probing.
Context {B : Type} `{AdmissionLaws B} `{Crypto} (maxConns maxStreams : nat) (site : bytes -> bytes -> http_reply).
Implicit Types (s : server B).
#[local] Notation step := (step maxConns maxStreams).

(** The answer of the gate, as it is visible; a proxied stream would show itself as an
    opened stream. *)
Definition visible (rq : request) (path : bytes) (r : response) : seen :=
  match r with
  | RDecoy => Page (site (rq_method rq) path)
  | RStatus code => Status code
  | RControl | RProxy _ => Opened
  end.

(** The bytes are no proof of a key that is active now. *)
Definition no_proof s (exporter : res bytes) (data : bytes) : Prop :=
  forall x, exporter = Ok x -> select_key (clock s) (snap s) x (take proofLen data) = None.

(** The state after the handler of the control stream: the phase its callback left, and
    the connection closed. *)
Definition after_control (c : nat) (out : control_out) s : server B := upd_conn c (fun x => with_open false (with_phase (co_phase out) x)) s.

(** A run of the server in which the peer of connection [c] makes the exchanges [evs]; it
    is a stranger: its bytes prove no active key.  Between them anything may happen that
    is not the work of that peer.  Answers reach it while the connection is open. *)
Inductive probed (c : nat) : list exchange -> server B -> server B -> Prop :=
| pb_end s : probed c [] s s
| pb_other evs s s1 s2 : foreign maxConns maxStreams c s s1 -> probed c evs s1 s2 -> probed c evs s s2
| pb_ask evs s s1 s2 x rq path r : conns s !! c = Some x -> cn_open x = true -> cn_life x <> Spawned ->
    serveHTTP maxStreams c rq s = (r, s1) -> probed c evs s1 s2 ->
    probed c (mkExchange (Ask rq path) (visible rq path r) false :: evs) s s2
| pb_speak evs s s2 x data e plan exporter : conns s !! c = Some x -> cn_open x = true -> cn_phase x = Control ->
    no_proof s exporter data ->
    let out := handleControl (clock s) (snap s) (accepts s) exporter (mkIO (Reader data e) (Writer [] plan) []) in
    probed c evs (after_control c out s) s2 ->
    probed c (mkExchange (Speak data e) (ClosedAfter (co_written out) (co_close out).1 (co_close out).2) (co_tracked out) :: evs) s s2.

(** A peer that connects.  If [accept_conn] gave it no entry in the table, [Serve] closed its
    connection with code 1 and "connection capacity reached" ([None]); otherwise it has a
    connection on which it probes. *)
Definition admitted s : option conn := conns (accept_conn maxConns s) !! fresh (dom (conns s)).
Inductive session : option (list exchange) -> server B -> server B -> Prop :=
| se_refused s : admitted s = None -> session None s (accept_conn maxConns s)
| se_admitted evs s s' x : admitted s = Some x -> probed (fresh (dom (conns s))) evs (accept_conn maxConns s) s' ->
    session (Some evs) s s'.

(** *** The reference: what a server without any key or user would show *)

(** The answer to a request, by whether the connection's control stream was used. *)
Definition cover_ask (used : bool) (rq : request) (path : bytes) : seen * bool :=
  if negb (bool_decide (rq_method rq = bs "CONNECT")) ||
     (negb (bool_decide (rq_host rq = ControlAuthority)) && negb (bool_decide (rq_host rq = ProxyAuthority)))
  then (Page (site (rq_method rq) path), used)
  else if negb (bool_decide (rq_version rq = Itoa (b2z Version))) then (Status 400, used)
  else if bool_decide (rq_host rq = ControlAuthority) then
    if used then (Status 409, used) else if rq_http3 rq then (Opened, true) else (Status 505, true)
  else (Status 403, used).

Fixpoint cover_view (used : bool) (ps : list probe) : list seen :=
  match ps with
  | [] => []
  | Ask rq path :: ps => let '(v, used) := cover_ask used rq path in v :: cover_view used ps
  | Speak _ _ :: ps => ClosedAfter [] 1 "authentication failed" :: cover_view used ps
  end.

(** *** Proof *)

Definition stranger (p : phase) : bool := match p with NoControl | Control | Refused None => true | _ => false end.
Definition used_of (p : phase) : bool := match p with NoControl => false | _ => true end.

Lemma handleControl_stranger s exporter data e plan : no_proof s exporter data ->
  let out := handleControl (clock s) (snap s) (accepts s) exporter (mkIO (Reader data e) (Writer [] plan) []) in
  co_written out = [] /\ co_close out = (1, "authentication failed"%string) /\ co_tracked out = false /\ co_phase out = Refused None.
Proof.
  intros Hno. cbv zeta. unfold handleControl, Authenticate. destruct exporter as [x|err]; [|done].
  destruct (readProof _) as [[got|err] s'] eqn:Er.
  - apply readProof_Ok in Er as (E1 & E2 & E3 & E4 & E5). cbn [io_in rd_data] in E2.
    assert (take proofLen data = got) as Et by (rewrite E2, take_app_le, take_ge by lia; done).
    pose proof (Hno x eq_refl) as Hx. rewrite Et in Hx. rewrite Hx. cbn. by rewrite E4, E5.
  - apply readProof_Err in Er as [E1 E2]. cbn. by rewrite E1, E2.
Qed.

Lemma serveHTTP_stranger c x rq path s r s1 : conns s !! c = Some x -> stranger (cn_phase x) = true ->
  serveHTTP maxStreams c rq s = (r, s1) ->
  exists x1, conns s1 !! c = Some x1 /\ stranger (cn_phase x1) = true /\
    cover_ask (used_of (cn_phase x)) rq path = (visible rq path r, used_of (cn_phase x1)).
Proof.
  intros Hc Hs. unfold serveHTTP, cover_ask. destruct (_ || _); [intros [= <- <-]; eauto|].
  destruct (negb _); [intros [= <- <-]; eauto|]. rewrite Hc.
  destruct (bool_decide _).
  - destruct (cn_phase x) as [| |id|id|id|[id|]] eqn:Ep; try done; [|intros [= <- <-]; exists x; by rewrite Ep..].
    destruct (rq_http3 rq); intros [= <- <-]; cbn; rewrite lookup_alter_eq, Hc; cbn; eauto.
  - unfold serve_proxy. destruct (cn_phase x) as [| |id|id|id|[id|]] eqn:Ep; try done; intros [= <- <-]; exists x; by rewrite Ep.
Qed.

(** Every session is a run of the server. *)
Lemma probed_rtc c evs s s' : probed c evs s s' -> rtc step s s'.
Proof.
  intros HP. induction HP as [s|evs s s1 s2 Hst HP IH|evs s s1 s2 x rq path r Hx Ho Hl Hr HP IH|evs s s2 x data e plan exporter Hx Ho Hp Hno out HP IH].
  - apply rtc_refl.
  - eapply rtc_l; [by eapply foreign_step|done].
  - eapply rtc_l; [|exact IH]. change s1 with (r, s1).2. rewrite <- Hr. by eapply v_request.
  - destruct (handleControl_stranger s exporter data e plan Hno) as (_ & _ & _ & E4). fold out in E4.
    eapply rtc_l; [by eapply v_auth_fail|]. eapply rtc_l; [apply v_close|]. unfold after_control in IH. rewrite E4 in IH.
    match goal with |- rtc _ ?a _ => replace a with (upd_conn c (fun x => with_open false (with_phase (Refused None) x)) s) end; [done|].
    unfold upd_conn, set_conns. cbn. f_equal. apply map_eq. intros k.
    destruct (decide (c = k)) as [<-|Hne]; [rewrite !lookup_alter_eq; by destruct (conns s !! c)|by rewrite !lookup_alter_ne].
Qed.

Lemma probed_view c evs s s' x : probed c evs s s' -> conns s !! c = Some x -> stranger (cn_phase x) = true ->
  ex_seen <$> evs = cover_view (used_of (cn_phase x)) (ex_probe <$> evs) /\ Forall (fun e => ex_tracked e = false) evs /\
  exists x', conns s' !! c = Some x' /\ stranger (cn_phase x') = true.
Proof.
  intros HP. revert x. induction HP as [s|evs s s1 s2 Hst HP IH|evs s s1 s2 y rq path r Hy Ho Hl Hr HP IH|evs s s2 y data e plan exporter Hy Ho Hp Hno out HP IH];
    intros x Hc Hs; cbn [fmap list_fmap ex_probe ex_seen cover_view].
  - eauto.
  - pose proof (foreign_phase maxConns maxStreams c s s1 ltac:(eauto) Hst) as Hph. rewrite Hc in Hph.
    destruct (conns s1 !! c) as [x1|] eqn:Hc1; [|done]. injection Hph as Hph. rewrite <- Hph in *. by apply IH.
  - destruct (serveHTTP_stranger c x rq path s r s1 Hc Hs Hr) as (x1 & Hc1 & Hs1 & ->). destruct (IH x1 Hc1 Hs1) as (E & HF & ?).
    split_and!; [by f_equal|by constructor|done].
  - destruct (handleControl_stranger s exporter data e plan Hno) as (E1 & E2 & E3 & E4). fold out in E1, E2, E3, E4.
    destruct (IH (with_open false (with_phase (Refused None) y))) as (E & HF & ?);
      [unfold after_control; cbn; by rewrite lookup_alter_eq, Hy, E4|done|].
    rewrite Hy in Hc. injection Hc as <-. rewrite E1, E2, Hp. split_and!; [by f_equal|by constructor|done].
Qed.

Lemma admitted_room s : admitted s = if decide (slots s < maxConns)%nat then Some (mkConn true Spawned NoControl 0) else None.
Proof.
  unfold admitted, accept_conn. destruct (decide _); [rewrite bool_decide_eq_true_2|rewrite bool_decide_eq_false_2]; try done.
  - apply lookup_insert_eq.
  - apply not_elem_of_dom, is_fresh.
Qed.

Lemma session_view evs s s' : session (Some evs) s s' ->
  rtc step s s' /\ ex_seen <$> evs = cover_view false (ex_probe <$> evs) /\
  Forall (fun e => ex_tracked e = false) evs /\
  exists x, conns s' !! fresh (dom (conns s)) = Some x /\ stranger (cn_phase x) = true.
Proof.
  inversion 1 as [|evs0 s0 s0' x Hx HP]; subst.
  assert (admitted s = Some (mkConn true Spawned NoControl 0)) as Hc.
  { rewrite admitted_room in *. by destruct (decide _). }
  split; [eapply rtc_l; [apply v_accept|by eapply probed_rtc]|]. by apply (probed_view _ _ _ _ _ HP Hc).
Qed.
End probing.

(** C12: a stranger learns nothing but whether there is room.  Take any two servers (other
    keys, other users, other budgets and limits) with the same cover site, and a peer that
    connects to each: requests of any kind, and attempts to authenticate whose bytes prove no
    active key.  It is turned away, with a fixed text, exactly when the limit of connections
    is reached.  On a connection it is given, whatever else happens in the server meanwhile,
    it gets the answers of a server without keys and users, in which the only
    sign of the tunnel is that its control stream opens once and the connection closes
    after it with nothing written; so the same probes get the same answers from both
    servers.  No key is ever stored for its connection, let alone accepted, and it is never
    tracked as an authenticated one. *)
Theorem stranger_learns_nothing {B1 B2} `{AdmissionLaws B1} `{AdmissionLaws B2} `{Crypto} mc1 ms1 mc2 ms2 site
    (s1 s1' : server B1) (s2 s2' : server B2) o1 o2 :
  session mc1 ms1 site o1 s1 s1' -> session mc2 ms2 site o2 s2 s2' ->
  (o1 = None <-> (mc1 <= slots s1)%nat) /\
  forall evs1, o1 = Some evs1 ->
    rtc (step mc1 ms1) s1 s1' /\
    ex_seen <$> evs1 = cover_view site false (ex_probe <$> evs1) /\
    Forall (fun e => ex_tracked e = false) evs1 /\
    (exists x, conns s1' !! fresh (dom (conns s1)) = Some x /\ authKey (cn_phase x) = None /\ forall id, cn_phase x <> Authed id) /\
    forall evs2, o2 = Some evs2 -> ex_probe <$> evs1 = ex_probe <$> evs2 -> ex_seen <$> evs1 = ex_seen <$> evs2.
Proof.
  intros HS1 HS2. split.
  { inversion HS1 as [? Ha|? ? ? ? Ha]; subst; rewrite admitted_room in Ha; destruct (decide _); split; try done; lia. }
  intros evs1 ->. destruct (session_view mc1 ms1 site evs1 s1 s1' HS1) as (Hr & E1 & HF & x & Hx & Hs).
  split_and!; [done|done|done| |].
  - exists x. split; [done|]. destruct (cn_phase x) as [| |id|id|id|[id|]]; done.
  - intros evs2 -> E. destruct (session_view mc2 ms2 site evs2 s2 s2' HS2) as (_ & E2 & _). by rewrite E1, E2, E.
Qed.

(** ** Two servers with different keys *)
#[local] Existing Instance toy_crypto.

Definition probe_server (creds : credentialSnapshot) : server Budget :=
  mkServer creds (99 * second) 0 ∅ (mkBudget 1 0 None ∅) (mkBudget 1 0 None ∅) ∅ None ∅ false.
Definition other_snapshot : credentialSnapshot := mkSnap old_key [] 0 (mkCert [] false).
Definition ask_page : request := mkRequest (bs "GET") (bs "example.org") [] true.
Definition ask_tunnel (host : bytes) : request := mkRequest (bs "CONNECT") host (Itoa (b2z Version)) true.
Definition probes : list probe :=
  [Ask ask_page (bs "/"); Ask (ask_tunnel ProxyAuthority) []; Ask (ask_tunnel ControlAuthority) []; Speak (bs "guess") EOF].
Definition probe_site (method path : bytes) : http_reply := mkReply 200 [] path.
Definition probe_conn : nat := fresh (dom (∅ : gmap nat conn)).

Lemma probe_run creds : no_proof (probe_server creds) (Ok []) (bs "guess") ->
  exists evs s', session 1 1 probe_site (Some evs) (probe_server creds) s' /\ ex_probe <$> evs = probes.
Proof.
  intros Hno. do 2 eexists. split.
  - eapply se_admitted; [reflexivity|].
    eapply pb_other; [left; apply (h_register _ _ probe_conn (mkConn true Spawned NoControl 0)); reflexivity|].
    eapply (pb_ask _ _ _ _ _ _ _ _ (mkConn true Registered NoControl 0) ask_page (bs "/")); [reflexivity|reflexivity|done|reflexivity|].
    eapply (pb_ask _ _ _ _ _ _ _ _ (mkConn true Registered NoControl 0) (ask_tunnel ProxyAuthority) []); [reflexivity|reflexivity|done|reflexivity|].
    eapply (pb_ask _ _ _ _ _ _ _ _ (mkConn true Registered NoControl 0) (ask_tunnel ControlAuthority) []); [reflexivity|reflexivity|done|reflexivity|].
    eapply (pb_speak _ _ _ _ _ _ _ (mkConn true Registered Control 0) (bs "guess") EOF [] (Ok [])); [reflexivity|reflexivity|reflexivity|exact Hno|].
    apply pb_end.
  - reflexivity.
Defined.

Lemma stranger_learns_nothing_witness : exists evs1 evs2 s1' s2',
  session 1 1 probe_site (Some evs1) (probe_server example_snapshot) s1' /\
  session 1 1 probe_site (Some evs2) (probe_server other_snapshot) s2' /\
  ex_probe <$> evs1 = probes /\ ex_seen <$> evs1 = ex_seen <$> evs2.
Proof.
  destruct (probe_run example_snapshot ltac:(intros x [= <-]; vm_compute; reflexivity)) as (evs1 & s1' & HP1 & E1).
  destruct (probe_run other_snapshot ltac:(intros x [= <-]; vm_compute; reflexivity)) as (evs2 & s2' & HP2 & E2).
  exists evs1, evs2, s1', s2'. split; [exact HP1|]. split; [exact HP2|]. split; [exact E1|].
  destruct (stranger_learns_nothing 1 1 1 1 probe_site (probe_server example_snapshot) s1' (probe_server other_snapshot) s2'
    (Some evs1) (Some evs2) HP1 HP2) as [_ HV]. destruct (HV evs1 eq_refl) as (_ & _ & _ & _ & HE). apply (HE evs2 eq_refl). congruence.
Defined.
