(* ===== verification/Provision.v ===== *)
(** * Certificates: from the key generator to the TLS handshake

    Models the rest of [internal/tunnel/tls.go] ([GenerateSelfSigned], [EncodeCertPEM],
    the tls.Config values) with [TLSConfig] of [internal/tunnel/credentials.go], and
    composes them: what [cmd/keygen] writes and prints is what the server loads and a
    client accepts.  The X.509 library is a parameter with the laws the code relies on;
    [encoding/pem] is executable. *)
From S2P Require Import Prelude GoStd GoNet GoEncoding Protocol Admission Acl Tunnel UdpNat Server ServerConns Client Proxy Config Commands.

(** ** encoding/pem *)
Definition newline : byte := Byte.x0a.

(** The base64 text broken into lines of 64 characters; [used] is the length of the
    current line. *)
Fixpoint pem_lines (used : nat) (s : bytes) : bytes :=
  match s with
  | [] => if bool_decide (used = 0%nat) then [] else [newline]
  | c :: s' => if bool_decide (S used = 64%nat) then c :: newline :: pem_lines 0 s' else c :: pem_lines (S used) s'
  end.

(** [pem.EncodeToMemory] of a block without headers. *)
Definition EncodeToMemory (typ data : bytes) : bytes :=
  bs "-----BEGIN " ++ typ ++ bs "-----" ++ [newline] ++ pem_lines 0 (EncodeToString data) ++
  bs "-----END " ++ typ ++ bs "-----" ++ [newline].

(** ** crypto/x509 and crypto/ecdsa *)

(** The template of [GenerateSelfSigned]. *)
Record template := mkTemplate { t_serial : Z; t_name : bytes; t_notBefore : Z; t_notAfter : Z }.

(** An ECDSA key and its SubjectPublicKeyInfo, self-signed certificates and their leaf's
    public key, and the encoding of keys and pairs. *)
Class X509 := {
  ec_key : Type;
  spki : ec_key -> bytes;
  CreateCertificate : template -> ec_key -> res bytes;
  ParseCertificate : bytes -> res bytes;
  MarshalECPrivateKey : ec_key -> res bytes;
  X509KeyPair : bytes -> bytes -> res (list bytes * ec_key);
}.

(** A certificate carries the public key it was created for, and a pair that was encoded
    to PEM loads again. *)
Class X509Laws `{X509} := {
  x509_created : forall t k der, CreateCertificate t k = Ok der -> ParseCertificate der = Ok (spki k);
  x509_pair : forall t k der kder, CreateCertificate t k = Ok der -> MarshalECPrivateKey k = Ok kder ->
    X509KeyPair (EncodeToMemory (bs "CERTIFICATE") der) (EncodeToMemory (bs "EC PRIVATE KEY") kder) = Ok ([der], k);
}.

(** A [tls.Certificate] with its private key and parsed leaf. *)
Record key_cert `{X509} := mkKeyCert { kc_chain : list bytes; kc_key : ec_key; kc_leaf : bytes }.

Section certs.
Context `{X509} `{Crypto}.

Definition hour : Z := 3600 * second.

(** [GenerateSelfSigned], for the answers of the random source: a key and a serial. *)
Definition GenerateSelfSigned (key : res ec_key) (serial : res Z) (now : Z) : res (key_cert * bytes) :=
  k ← key; n ← serial;
  der ← CreateCertificate (mkTemplate n (bs "wanopt") (now - hour) (now + 10 * 365 * 24 * hour)) k;
  leaf ← ParseCertificate der;
  Ok (mkKeyCert _ [der] k leaf, SPKIPin leaf).

Definition EncodeCertPEM (c : key_cert) : res (bytes * bytes) :=
  let certPEM := EncodeToMemory (bs "CERTIFICATE") (default [] (head (kc_chain c))) in
  der ← MarshalECPrivateKey (kc_key c);
  Ok (certPEM, EncodeToMemory (bs "EC PRIVATE KEY") der).

(** What [run] of the key generator makes of them. *)
Definition keygen_pair (key : res ec_key) (serial : res Z) (now : Z) : res (bytes * bytes * bytes) :=
  '(c, pin) ← GenerateSelfSigned key serial now;
  '(certPEM, keyPEM) ← EncodeCertPEM c;
  Ok (certPEM, keyPEM, pin).

(** The two branches of [LoadOrCreateCert], as a certificate of the credential snapshot
    and its leaf. *)
Definition generated (key : res ec_key) (serial : res Z) (now : Z) : res (Certificate * bytes) :=
  '(c, _) ← GenerateSelfSigned key serial now; Ok (mkCert (kc_chain c) true, kc_leaf c).
Definition loaded (certPEM keyPEM : bytes) : res (Certificate * bytes) :=
  '(chain, _) ← X509KeyPair certPEM keyPEM;
  leaf ← ParseCertificate (default [] (head chain));
  Ok (mkCert chain true, leaf).

(** ** tls.Config *)

(** What the sources set: the fixed certificates or [GetCertificate] on the published
    snapshot, the protocols, and the client's verification. *)
Record tls_Config := mkTLS {
  tls_Certificates : list Certificate; tls_GetCertificate : option (credentialSnapshot -> Certificate);
  tls_MinVersion : Z; tls_NextProtos : list bytes; tls_InsecureSkipVerify : bool; tls_SessionCache : bool;
  tls_VerifyConnection : option (Z -> list bytes -> option error);
}.
Definition VersionTLS13 : Z := 772.
Definition DefaultALPN : bytes := bs "h3".

Definition ServerTLSConfig (c : Certificate) (alpn : bytes) : tls_Config :=
  mkTLS [c] None VersionTLS13 [alpn] false false None.
(** [ServerCredentials.TLSConfig]. *)
Definition credentials_TLSConfig (alpn : bytes) : tls_Config :=
  mkTLS [] (Some cert) VersionTLS13 [alpn] false false None.
Definition ClientTLSConfigWithRotation (pin nextPin : bytes) (expires : Z) (alpn : bytes) (cache : bool) : tls_Config :=
  mkTLS [] None VersionTLS13 [alpn] true cache (Some (fun now peer => VerifyConnection now pin nextPin expires peer)).
Definition ClientTLSConfig (pin alpn : bytes) (cache : bool) : tls_Config :=
  ClientTLSConfigWithRotation pin [] 0 alpn cache.

(** The certificate a server configuration presents, and the public keys of its chain as
    the client's TLS stack parses them. *)
Definition presented (c : tls_Config) (s : credentialSnapshot) : option Certificate :=
  match tls_GetCertificate c with Some f => Some (f s) | None => head (tls_Certificates c) end.
Definition peer_keys (c : Certificate) : option (list bytes) :=
  mapM (fun der => match ParseCertificate der with Ok k => Some k | Err _ => None end) (cert_chain c).

(** A full handshake between the two configurations at a time: both speak TLS 1.3, agree
    on a protocol, and the client verifies the pin itself. *)
Definition handshake_ok (now : Z) (client server : tls_Config) (s : credentialSnapshot) : bool :=
  (tls_MinVersion client =? tls_MinVersion server) &&
  existsb (fun p => bool_decide (p ∈ tls_NextProtos server)) (tls_NextProtos client) &&
  match presented server s, tls_VerifyConnection client with
  | Some c, Some verify => match peer_keys c with Some keys => bool_decide (verify now keys = None) | None => false end
  | _, _ => false
  end.
End certs.

(** ** Facts *)

Lemma EncodeToMemory_nonempty typ data : EncodeToMemory typ data <> [].
Proof. done. Qed.

Section facts.
Context `{X509Laws} `{CryptoLaws}.

(** A generated pair, encoded, loads as the same certificate with the printed pin. *)
Lemma keygen_pair_loads key serial now certPEM keyPEM pin : keygen_pair key serial now = Ok (certPEM, keyPEM, pin) ->
  exists der k, loaded certPEM keyPEM = Ok (mkCert [der] true, spki k) /\ pin = SPKIPin (spki k) /\
    ParseCertificate der = Ok (spki k) /\ certPEM <> [] /\ keyPEM <> [].
Proof.
  unfold keygen_pair, GenerateSelfSigned, EncodeCertPEM.
  intros ([kc pn] & (k & -> & (n & -> & (der & Hc & (leaf & Hl & Hk)%bind_Ok)%bind_Ok)%bind_Ok)%bind_Ok & HE)%bind_Ok.
  injection Hk as <- <-. cbn [kc_chain kc_key head default] in HE.
  apply bind_Ok in HE as ([cp kp] & (kder & Hm & [= <- <-])%bind_Ok & [= <- <- <-]).
  pose proof (x509_created _ _ _ Hc) as Hp. rewrite Hl in Hp. injection Hp as ->.
  exists der, k. unfold loaded. cbn [from_option]. rewrite (x509_pair _ _ _ _ Hc Hm). cbn. rewrite Hl. done.
Qed.

Lemma client_accepts now pin nextPin exp alpn cache scfg s c keys leaf rest : presented scfg s = Some c ->
  peer_keys c = Some keys -> keys = leaf :: rest -> tls_MinVersion scfg = VersionTLS13 -> tls_NextProtos scfg = [alpn] ->
  handshake_ok now (ClientTLSConfigWithRotation pin nextPin exp alpn cache) scfg s = true <->
  (SPKIPin leaf = pin \/ nextPin <> [] /\ SPKIPin leaf = nextPin /\ now < exp).
Proof.
  intros Hp Hk -> Hv Hn. unfold handshake_ok, ClientTLSConfigWithRotation.
  cbn [tls_MinVersion tls_NextProtos tls_VerifyConnection existsb]. rewrite Hp, Hk, Hv, Hn.
  rewrite bool_decide_eq_true_2 by set_solver. cbn [andb orb]. change (VersionTLS13 =? VersionTLS13) with true. cbn [andb].
  rewrite bool_decide_eq_true, (proj1 (pin_rotation now pin nextPin exp (leaf :: rest))). split.
  - by intros (? & ? & [= <- <-] & ?).
  - eauto.
Qed.
End facts.

(** ** The key generator, the server and the client *)

(** The files of a map, each a regular file that reads to its end. *)
Definition disk (fs : gmap bytes bytes) (path : bytes) : file :=
  match fs !! path with
  | Some data => mkFile None (Ok (true, Z.of_nat (length data))) data None
  | None => mkFile (Some (ErrNew "no such file")) (Err EOF) [] None
  end.

Lemma readCredentialFile_disk fs path data : fs !! path = Some data -> Z.of_nat (length data) <= 2 ^ 20 ->
  readCredentialFile (disk fs path) = Ok data.
Proof.
  intros Hf Hl. apply file_read_exact. unfold disk. rewrite Hf. cbn [f_open f_stat f_data f_err].
  split_and!; [lia|done|eauto|done..].
Qed.

Lemma writeExclusive_ok path data a fs fs' : writeExclusive path data a fs = (None, fs') ->
  fs !! path = None /\ fs' = <[path := data]> fs.
Proof.
  unfold writeExclusive. destruct (fs !! path); [done|]. destruct (w_open a); [done|]. destruct (w_err a); [done|].
  destruct (bool_decide_reflect (w_n a = length data)) as [->|]; [|done]. cbn [negb]. destruct (w_close a); [done|].
  rewrite firstn_all. by intros [= <-].
Qed.

(** Equal pins come from equal digests. *)
Lemma SPKIPin_digest `{Crypto} a b : SPKIPin a = SPKIPin b -> sha256 a = sha256 b.
Proof.
  unfold SPKIPin. intros E. pose proof (DecodeString_EncodeToString (sha256 a)) as D.
  rewrite E, DecodeString_EncodeToString in D. by injection D.
Qed.

Section provision.
Context `{X509Laws} `{CryptoLaws} {B : Type} `{AdmissionOps B}.

(** C24: provisioning works end to end.  After a run of the key generator that succeeded with
    [-cert], a server configured with the two files it wrote and the key it printed
    obtains exactly that key and a certificate with a private key; the pin it printed is
    one the client's configuration accepts, and a client with that pin completes the
    handshake with the server at any time, while it refuses every server whose public
    key has another digest. *)
Theorem provisioning dir psk key serial t ak ac rm fs gen' : length psk = 32%nat ->
  let o := keygen_run (Ok (true, dir)) (Ok psk) (keygen_pair key serial t) ak ac rm None fs in
  kg_err o = None -> (forall p data, kg_fs o !! p = Some data -> Z.of_nat (length data) <= 2 ^ 20) ->
  exists pin text crt leaf, kg_pin o = Some pin /\ kg_psk o = Some text /\ pin_ok pin /\
    has_private_key crt = true /\ cert_chain crt <> [] /\
    (forall c : Config.Server, sv_CertFile c = Join2 dir (bs "cert.pem") -> sv_KeyFile c = Join2 dir (bs "key.pem") ->
       sv_PSK c = text -> sv_PreviousPSK c = [] -> sv_CertFile c <> [] ->
       credentials_of gen' loaded (disk (kg_fs o)) c = Ok (psk, [], crt)) /\
    (forall now alpn cache pri prev exp,
       handshake_ok now (ClientTLSConfig pin alpn cache) (credentials_TLSConfig alpn) (mkSnap pri prev exp crt) = true) /\
    (forall now other rest, sha256 other <> sha256 leaf -> VerifyConnection_single now pin (other :: rest) <> None).
Proof.
  intros Hl. cbv zeta. unfold keygen_run.
  destruct (keygen_pair key serial t) as [[[certPEM keyPEM] pin]|] eqn:EK; [|done].
  destruct (keygen_pair_loads _ _ _ _ _ _ EK) as (der & k & Hload & -> & Hpc & Hc & Hk).
  cbn [negb]. destruct (writeExclusive _ keyPEM ak fs) as [[e|] fs1] eqn:E1; [done|].
  apply writeExclusive_ok in E1 as [_ ->].
  destruct (writeExclusive _ certPEM ac _) as [[e|] fs2] eqn:E2; [done|].
  apply writeExclusive_ok in E2 as [_ ->]. cbn [kg_err kg_fs kg_pin kg_psk].
  intros _ Hsize. set (fs' := <[_ := certPEM]> _) in *.
  assert (fs' !! Join2 dir (bs "cert.pem") = Some certPEM) as Hfc by apply lookup_insert_eq.
  assert (fs' !! Join2 dir (bs "key.pem") = Some keyPEM) as Hfk.
  { unfold fs'. rewrite lookup_insert_ne by (intros E; by apply (key_cert_paths dir)). apply lookup_insert_eq. }
  exists (SPKIPin (spki k)), (EncodeToString psk), (mkCert [der] true), (spki k).
  split_and!; [done..| |done|done| | |].
  - exists (sha256 (spki k)). split; [apply DecodeString_EncodeToString|apply sha256_length].
  - intros c E3 E4 E5 E6 E7. unfold credentials_of. rewrite (bool_decide_eq_false_2 _ E7), E3, E4, E5, E6.
    rewrite (readCredentialFile_disk _ _ _ Hfc) by eauto. rewrite (readCredentialFile_disk _ _ _ Hfk) by eauto.
    cbn [reject_if mbind res_bind]. unfold LoadOrCreateCert. rewrite (bool_decide_eq_false_2 (length certPEM = 0%nat)) by (by destruct certPEM).
    cbn [andb]. rewrite Hload. cbn [mbind res_bind]. rewrite DecodePSK_encoded by lia. done.
  - intros now alpn cache pri prev exp. unfold ClientTLSConfig.
    apply (client_accepts now _ [] 0 alpn cache _ _ (mkCert [der] true) [spki k] (spki k) []); try done; [|by left].
    unfold peer_keys. cbn. by rewrite Hpc.
  - intros now other rest Hne HV. unfold VerifyConnection_single in HV. apply (proj1 (pin_rotation now _ [] 0 _)) in HV as (? & ? & [= <- <-] & [E|(? & _)]); [|done].
    by apply Hne, SPKIPin_digest.
Qed.

(** C25: certificate rotation without downtime.  The server presents the certificate of the
    snapshot its clients authenticate against, so a reload switches both at once; a
    client that knows the old pin and, until a time, the next one, completes the
    handshake before the reload at any time and after it until that time, and a client
    that knows the old pin only refuses the new certificate unless the digests agree. *)
Theorem certificate_rotation files raw parse path current (s : server B) current' s' old_leaf new_leaf old new gen' now alpn cache
    pinExp next : runs_with current s ->
  watch_signal gen' loaded files (LoadServer (clock s) parse path raw) (current, s) = (None, (current', s')) ->
  peer_keys (cert (snap s)) = Some (old_leaf :: old) -> peer_keys (cert (snap s')) = Some (new_leaf :: new) ->
  next = SPKIPin new_leaf ->
  let both := ClientTLSConfigWithRotation (SPKIPin old_leaf) next pinExp alpn cache in
  handshake_ok now both (credentials_TLSConfig alpn) (snap s) = true /\
  (now < pinExp -> handshake_ok now both (credentials_TLSConfig alpn) (snap s') = true) /\
  (sha256 new_leaf <> sha256 old_leaf ->
     handshake_ok now (ClientTLSConfig (SPKIPin old_leaf) alpn cache) (credentials_TLSConfig alpn) (snap s') = false) /\
  exists pri prev crt, credentials_of gen' loaded files current' = Ok (pri, prev, crt) /\ snap s' = mkSnap pri prev (sv_PreviousPSKExpires current') crt.
Proof.
  intros Hrun HW Hold Hnew ->. cbv zeta.
  assert (forall p nx e sn c k leaf, cert sn = c -> peer_keys c = Some (leaf :: k) ->
    handshake_ok now (ClientTLSConfigWithRotation p nx e alpn cache) (credentials_TLSConfig alpn) sn = true <->
    (SPKIPin leaf = p \/ nx <> [] /\ SPKIPin leaf = nx /\ now < e)) as HH.
  { intros p nx e sn c k leaf Hc Hk. apply (client_accepts now p nx e alpn cache _ sn c (leaf :: k) leaf k); try done.
    unfold presented. cbn. by rewrite Hc. }
  split_and!.
  - apply (HH _ _ _ _ _ _ _ eq_refl Hold). by left.
  - intros Hn. apply (HH _ _ _ _ _ _ _ eq_refl Hnew). right. split_and!; [|done..].
    apply EncodeToString_nonempty. intros E. pose proof (sha256_length new_leaf) as L. rewrite E in L. discriminate L.
  - intros Hne. apply not_true_is_false. intros Ht. apply (HH _ _ _ _ _ _ _ eq_refl Hnew) in Ht as [E|(? & _)]; [|done].
    by apply Hne, SPKIPin_digest.
  - destruct (watch_signal_cases _ _ _ _ _ _ _ _ _ HW) as [(? & _)|(_ & pri & prev & crt & _ & _ & HC & _ & ->)]; [done|].
    exists pri, prev, crt. split; [done|]. by destruct s.
Qed.
End provision.

(** ** Concrete runs *)
#[local] Existing Instance toy_crypto.
#[local] Existing Instance toy_laws.

(** Two keys; a key, its public key and its certificate are the same bytes, and a pair
    loads when it is the PEM text of one of them. *)
Definition toy_keys : list bytes := [bs "first key"; bs "second key"].
Definition toy_PEM (k : bytes) : bytes * bytes := (EncodeToMemory (bs "CERTIFICATE") k, EncodeToMemory (bs "EC PRIVATE KEY") k).

#[local] Instance toy_x509 : X509 := {|
  ec_key := bytes; spki := fun k => k;
  CreateCertificate := fun _ k => if bool_decide (k ∈ toy_keys) then Ok k else Err EOF; ParseCertificate := fun der => Ok der;
  MarshalECPrivateKey := fun k => Ok k;
  X509KeyPair := fun certPEM keyPEM =>
    match find (fun k => bool_decide (toy_PEM k = (certPEM, keyPEM))) toy_keys with Some k => Ok ([k], k) | None => Err EOF end |}.

#[local] Instance toy_x509_laws : X509Laws.
Proof.
  split; cbn [CreateCertificate ParseCertificate spki X509KeyPair MarshalECPrivateKey toy_x509].
  - intros t k der. case_bool_decide; [|done]. by intros [= <-].
  - intros t k der kder. case_bool_decide as Hk; [|done]. intros [= <-] [= <-].
    apply elem_of_cons in Hk as [-> |Hk%list_elem_of_singleton]; [|subst k]; vm_compute; reflexivity.
Qed.

Definition example_files (dir : bytes) : gmap bytes bytes :=
  kg_fs (keygen_run (Ok (true, dir)) (Ok example_psk) (keygen_pair (Ok (bs "first key")) (Ok 7) 0)
    (good_write (length (snd (toy_PEM (bs "first key"))))) (good_write (length (fst (toy_PEM (bs "first key"))))) true None ∅).

Lemma small_files : map_Forall (fun _ data => Z.of_nat (length data) <= 2 ^ 20) (example_files (bs "/etc/wanopt")).
Proof. apply (bool_decide_unpack _). by vm_compute. Qed.

Definition provisioned : Config.Server := fill_server config_path (raw_server example_psk (bs "cert.pem")).

Lemma provisioning_witness : exists crt,
  credentials_of (Err EOF) loaded (disk (example_files (bs "/etc/wanopt"))) provisioned = Ok (example_psk, [], crt) /\ has_private_key crt = true.
Proof.
  destruct (@provisioning toy_x509 _ toy_crypto _ (bs "/etc/wanopt") example_psk (Ok (bs "first key")) (Ok 7) 0
    (good_write (length (snd (toy_PEM (bs "first key"))))) (good_write (length (fst (toy_PEM (bs "first key"))))) true ∅ (Err EOF))
    as (pin & text & crt & leaf & _ & Ht & _ & Hk & _ & H1 & _);
    [reflexivity|vm_compute; reflexivity|exact small_files|].
  exists crt. split; [|exact Hk]. apply H1; [vm_compute; reflexivity|vm_compute; reflexivity| |reflexivity|vm_compute; discriminate].
  vm_compute in Ht. injection Ht as <-. vm_compute. reflexivity.
Defined.

(** A server that runs with the first certificate, and files that hold the second. *)
Definition rotating_server : server Budget :=
  server_init (mkSnap example_psk [] 0 (mkCert [bs "first key"] true)) (99 * second) example_budget example_budget.
Definition second_files (path : bytes) : file :=
  let '(c, k) := toy_PEM (bs "second key") in
  let data := if bool_decide (path = bs "/etc/wanopt/cert.pem") then c else k in
  mkFile None (Ok (true, Z.of_nat (length data))) data None.

Lemma certificate_rotation_witness : exists current' s',
  watch_signal (Err EOF) loaded second_files (LoadServer (99 * second) no_url config_path (Ok (raw_server example_psk (bs "cert.pem"))))
    (example_cfg, rotating_server) = (None, (current', s')) /\
  handshake_ok 5 (ClientTLSConfigWithRotation (SPKIPin (bs "first key")) (SPKIPin (bs "second key")) 9 DefaultALPN true)
    (credentials_TLSConfig DefaultALPN) (snap s') = true.
Proof.
  do 2 eexists. split; [vm_compute; reflexivity|].
  refine (proj1 (proj2 (certificate_rotation second_files (Ok (raw_server example_psk (bs "cert.pem"))) no_url config_path example_cfg
    rotating_server _ _ (bs "first key") (bs "second key") [] [] (Err EOF) 5 DefaultALPN true 9 (SPKIPin (bs "second key")) _ _ _ _ _)) _);
    [repeat split; vm_compute; reflexivity|vm_compute; reflexivity|reflexivity|vm_compute; reflexivity|reflexivity|lia].
Defined.
