(* ===== verification/Mains.v ===== *)
(** * The two processes

    Models what [cmd/server/main.go] and [cmd/client/main.go] do around the components:
    the start-up checks in their order, the construction of the server ([server.New],
    [ListenAndServe], [ServePacketConn] of internal/server/server.go) and of the client
    ([client.New] of internal/client/client.go), and the life of the process: the
    workers, the termination signal, the error channel and the exit status. *)
From S2P Require Import Prelude GoStd GoNet GoEncoding Protocol Admission Acl Tunnel UdpNat Server ServerConns Client Proxy Config Commands Provision.

(** ** server.New *)

(** What [New] builds: the options with their defaults, the TLS configuration, the
    published credentials, the two budgets, the resolver, the UDP options, the decoy, and
    the capacity of the connection slots. *)
Record server_parts := mkParts {
  sp_options : Server.Options; sp_tls : tls_Config; sp_credentials : credentialSnapshot;
  sp_active : Budget; sp_codecs : Budget; sp_resolver : Resolver; sp_udp : UDPOptions; sp_decoy : decoy_site; sp_slots : Z;
}.

(** [server.New]; [None] is a panic of [admission.New]. *)
Definition server_New (o : Server.Options) (alpn psk prev : bytes) (exp : Z) (crt : Certificate) (list : policy)
    (resolver : option Resolver) (udp : UDPOptions) (decoy : option decoy_site) : option server_parts :=
  let o := Server.New_options o in
  let alpn := if bool_decide (alpn = []) then DefaultALPN else alpn in
  '(a, c) ← New_budgets o;
  Some (mkParts o (credentials_TLSConfig alpn) (NewServerCredentials psk prev exp crt) a c
    (default (NewResolver list (5 * second) 32) resolver) udp (default SiteNotFound decoy) (Server.MaxConnections o)).

(** ** ListenAndServe *)
Inductive closed_resource := TransportClosed | PacketClosed.

(** [ServePacketConn]: the answer of [Listen] on the transport, and what [Serve] returns;
    the deferred closes run in either case.  [None] is the panic of [quicConfig]. *)
Definition ServePacketConn (conf : option quic_Config) (listen serve : option error)
    : option (option error * list closed_resource) :=
  _ ← conf;
  Some (match listen with Some e => Some e | None => serve end, [TransportClosed; PacketClosed]).
Definition ListenAndServe (packet : option error) (conf : option quic_Config) (listen serve : option error)
    : option (option error * list closed_resource) :=
  match packet with
  | Some e => Some (Some e, [])
  | None => ServePacketConn conf listen serve
  end.

(** ** The start of cmd/server *)
Inductive start_failure :=
| FailConfig (e : error) | FailCongestion | FailReadCert (e : error) | FailReadKey (e : error)
| FailCertificate (e : error) | FailACL (e : error) | FailDecoy (e : error).

Section start.
Context `{Unicode} `{Crypto} (generate : res (Certificate * bytes)) (keypair : bytes -> bytes -> res (Certificate * bytes)).
Context (bbr : option (quic_Config -> quic_Config)) (parse : bytes -> res url) (files : bytes -> file).

(** The certificate texts: nothing without configured files. *)
Definition read_pair (c : Config.Server) : start_failure + (bytes * bytes) :=
  if bool_decide (sv_CertFile c = []) then inr ([], [])
  else match readCredentialFile (files (sv_CertFile c)) with
  | Err e => inl (FailReadCert e)
  | Ok certPEM => match readCredentialFile (files (sv_KeyFile c)) with
                  | Err e => inl (FailReadKey e)
                  | Ok keyPEM => inr (certPEM, keyPEM)
                  end
  end.

(** The result of a decoding whose error [main] ignores. *)
Definition decoded_or_nil (r : res bytes) : bytes := match r with Ok b => b | Err _ => [] end.

(** From the loaded configuration to the server and the pin it prints. *)
Definition server_start (cfg : res Config.Server) : start_failure + (Config.Server * bytes * option server_parts) :=
  match cfg with
  | Err e => inl (FailConfig e)
  | Ok c =>
      if negb (CongestionAvailable bbr (sv_CongestionControl c)) then inl FailCongestion
      else
        let psk := decoded_or_nil (DecodePSK (sv_PSK c)) in
        let prev := if bool_decide (sv_PreviousPSK c = []) then [] else decoded_or_nil (DecodePSK (sv_PreviousPSK c)) in
        match read_pair c with
        | inl f => inl f
        | inr (certPEM, keyPEM) =>
            match LoadOrCreateCert generate keypair certPEM keyPEM with
            | Err e => inl (FailCertificate e)
            | Ok (crt, pin) =>
                match Acl.New (Config.elements (acl_Allow (sv_ACL c))) (Config.elements (acl_Deny (sv_ACL c)))
                        (Config.elements (AllowPorts (sv_ACL c))) (Config.elements (DenyPorts (sv_ACL c))) with
                | Err e => inl (FailACL e)
                | Ok policy =>
                    match decoy_Handler parse (sv_Decoy c) with
                    | Err e => inl (FailDecoy e)
                    | Ok site =>
                        inr (c, pin, server_New (server_options c) (alpnOr (sv_ALPN c)) psk prev (sv_PreviousPSKExpires c) crt
                          (Some policy) (Some (NewResolver (Some policy) (sv_DNSTimeoutSec c * second) (sv_DNSConcurrency c)))
                          (udp_options c) (Some site))
                    end
                end
            end
        end
  end.
End start.

(** ** The start of cmd/client *)
Record client_parts := mkClientParts {
  cp_options : Client.Options; cp_tls : tls_Config; cp_quic : quic_Config; cp_active : Budget; cp_codecs : Budget;
  cp_proxy : Proxy.Options; cp_slots : Z;
}.

(** [client.New]: [None] is the panic of a budget or of the QUIC configuration. *)
Definition client_New `{Crypto} (bbr : option (quic_Config -> quic_Config)) (o : Client.Options) (pin nextPin : bytes) (exp : Z) (noResume : bool)
    (popt : Proxy.Options) : option client_parts :=
  let o := Client.New_options o in
  conf ← quicConf bbr o;
  a ← Admission.New (Client.MaxActiveStreams o) true;
  k ← Admission.New (Client.MaxCompressedStreams o) true;
  let popt := proxy_defaults popt in
  Some (mkClientParts o (ClientTLSConfigWithRotation pin nextPin exp (Client.ALPN o) (negb noResume)) conf a k popt
    (Proxy.MaxConnections popt)).

Definition client_start `{Crypto} (bbr : option (quic_Config -> quic_Config)) (cfg : res Config.Client)
    : start_failure + (Config.Client * bytes * option client_parts) :=
  match cfg with
  | Err e => inl (FailConfig e)
  | Ok c =>
      if negb (CongestionAvailable bbr (cl_CongestionControl c)) then inl FailCongestion
      else inr (c, decoded_or_nil (DecodePSK (cl_PSK c)),
                client_New bbr (client_options c) (cl_Pin c) (cl_NextPin c) (cl_NextPinExpires c) (cl_DisableSessionResumption c)
                  (proxy_options c))
  end.

(** ** Starting up *)

Lemma quic_conf_some bbr o : CongestionAvailable bbr (CongestionControl o) = true -> is_Some (NewQUICConfig bbr o).
Proof.
  intros Hc. unfold NewQUICConfig, configureCongestion. rewrite Hc. cbn [negb].
  destruct (bool_decide_reflect (CongestionControl o = bs "bbr")) as [E|]; [|done].
  unfold CongestionAvailable in Hc. rewrite E in Hc. cbn in Hc. destruct bbr; [done|]. done.
Qed.

Lemma budget_some n : 1 <= n -> Admission.New n true = Some (mkBudget (Z.to_nat n) 0 (Some 0) ∅).
Proof. intros. unfold Admission.New. by rewrite (proj2 (Z.ltb_ge _ _)). Qed.

Lemma acl_ports_ok `{Unicode} allow deny ap dp : ports_ok ap -> ports_ok dp ->
  is_ok (parseRules allow) = true -> is_ok (parseRules deny) = true -> is_ok (Acl.New allow deny ap dp) = true.
Proof.
  intros Ha Hd. unfold Acl.New. pose proof (add_ports_ok ap ∅ Ha). pose proof (add_ports_ok dp ∅ Hd).
  destruct (parseRules allow); [|done]. destruct (parseRules deny); [|done]. cbn.
  destruct (add_ports ap ∅); [|done]. cbn. by destruct (add_ports dp ∅).
Qed.

(** *** What a configuration asks of the server, setting by setting *)

Record configured (c : Config.Server) (o : Server.Options) (u : UDPOptions) : Prop := {
  cf_congestion : Server.opt_CongestionControl o = sv_CongestionControl c;
  cf_active : Server.MaxActiveStreams o = sv_MaxActiveStreams c;
  cf_compressed : Server.MaxCompressedStreams o = sv_MaxCompressedStreams c;
  cf_idle : Server.opt_IdleTimeout o = sv_IdleTimeoutSec c * 10 ^ 9;
  cf_handshake : Server.opt_HandshakeTimeout o = sv_HandshakeTimeoutSec c * 10 ^ 9;
  cf_request : Server.RequestTimeout o = sv_RequestTimeoutSec c * 10 ^ 9;
  cf_connections : Server.MaxConnections o = sv_MaxConnections c;
  cf_streams : Server.MaxStreamsPerConnection o = sv_MaxStreamsPerConnection c;
  cf_compression : Server.Compression o = sv_Compression c;
  cf_stream_window : Server.opt_MaxStreamRecvWindow o = sv_MaxStreamRecvWindowMB c * 2 ^ 20;
  cf_conn_window : Server.opt_MaxConnRecvWindow o = sv_MaxConnRecvWindowMB c * 2 ^ 20;
  cf_flows : MaxFlows u = udp_MaxFlows (sv_UDP c);
  cf_queue : QueueSize u = udp_QueueSize (sv_UDP c);
  cf_workers : Workers u = udp_Workers (sv_UDP c);
  cf_rate : NewFlowsPerSecond u = udp_NewFlowsPerSecond (sv_UDP c);
  cf_payload : MaxPayload u = udp_MaxPayload (sv_UDP c);
  cf_udp_idle : UdpNat.IdleTimeout u = udp_IdleTimeoutSec (sv_UDP c) * 10 ^ 9;
}.

(** The resolver applies the access list, within the configured limits. *)
Definition resolves `{Unicode} (c : Config.Server) (r : Resolver) : Prop := exists policy,
  Acl.New (Config.elements (acl_Allow (sv_ACL c))) (Config.elements (acl_Deny (sv_ACL c)))
    (Config.elements (AllowPorts (sv_ACL c))) (Config.elements (DenyPorts (sv_ACL c))) = Ok policy /\
  rs_policy r = Some policy /\ Z.of_nat (rs_slots r) = sv_DNSConcurrency c /\ rs_timeout r = sv_DNSTimeoutSec c * 10 ^ 9.

(** The texts of the certificate and its key: those of the configured files. *)
Definition pair_texts (files : bytes -> file) (c : Config.Server) (certPEM keyPEM : bytes) : Prop :=
  if decide (sv_CertFile c = []) then certPEM = [] /\ keyPEM = []
  else readCredentialFile (files (sv_CertFile c)) = Ok certPEM /\ readCredentialFile (files (sv_KeyFile c)) = Ok keyPEM.

Lemma server_configured now parse c : server_ok now parse c -> configured c (server_options c) (udp_options c).
Proof.
  intros Hok. destruct (so_common _ _ _ Hok) as (_ & _ & _ & _ & _ & ? & ?). split; try done; apply mib_exact; lia.
Qed.

Lemma read_pair_texts files c certPEM keyPEM : read_pair files c = inr (certPEM, keyPEM) -> pair_texts files c certPEM keyPEM.
Proof.
  unfold read_pair, pair_texts. destruct (bool_decide_reflect (sv_CertFile c = [])) as [E|E].
  - intros [= <- <-]. by rewrite decide_True.
  - rewrite decide_False by done. destruct (readCredentialFile (files (sv_CertFile c))); [|done].
    destruct (readCredentialFile (files (sv_KeyFile c))); [|done]. by intros [= <- <-].
Qed.

(** The server of [New] for a valid configuration. *)
Lemma server_New_ok now parse c psk prev crt list res_ dec : server_ok now parse c ->
  exists p, server_New (server_options c) (alpnOr (sv_ALPN c)) psk prev (sv_PreviousPSKExpires c) crt list (Some res_) (udp_options c) (Some dec) = Some p /\
    sp_options p = server_options c /\ sp_credentials p = mkSnap psk prev (sv_PreviousPSKExpires c) crt /\
    limit (sp_active p) = Z.to_nat (sv_MaxActiveStreams c) /\ limit (sp_codecs p) = Z.to_nat (sv_MaxCompressedStreams c) /\
    sp_tls p = credentials_TLSConfig DefaultALPN /\ sp_resolver p = res_ /\ sp_udp p = udp_options c /\ sp_decoy p = dec /\
    sp_slots p = sv_MaxConnections c.
Proof.
  intros Hok. unfold server_New. rewrite (server_options_kept _ _ _ Hok). destruct (so_streams _ _ _ Hok) as [? ?].
  unfold New_budgets. cbn [server_options Server.MaxActiveStreams Server.MaxCompressedStreams]. rewrite !budget_some by lia.
  eexists. split; [reflexivity|]. split_and!; try done. cbn. destruct (so_common _ _ _ Hok) as [[-> | ->] _]; done.
Qed.

(** C26: starting the server.  For a configuration that was loaded, start-up can fail only
    because the build has no such congestion controller, a certificate file cannot be read
    or the texts read do not load, or a host rule of the access list is invalid; the keys,
    ports, decoy and limits never stop it, and nothing panics.  A server that starts has
    every option, limit and UDP setting as configured, in nanoseconds and bytes; resolves
    with the configured access list and DNS limits; shows the configured decoy; runs with
    the configured keys (so every later reload preserves them); and presents the
    certificate loaded from the configured files (or generated without them), whose pin
    it printed. *)
Theorem server_starts `{Unicode} `{Crypto} generate keypair bbr parse files now path raw c : LoadServer now parse path (Ok raw) = Ok c ->
  let host_rules := is_ok (parseRules (Config.elements (acl_Allow (sv_ACL c)))) = true /\
                    is_ok (parseRules (Config.elements (acl_Deny (sv_ACL c)))) = true in
  match server_start generate keypair bbr parse files (LoadServer now parse path (Ok raw)) with
  | inl f =>
      match f with
      | FailCongestion => sv_CongestionControl c = bs "bbr" /\ bbr = None
      | FailReadCert e => sv_CertFile c <> [] /\ readCredentialFile (files (sv_CertFile c)) = Err e
      | FailReadKey e => sv_CertFile c <> [] /\ readCredentialFile (files (sv_KeyFile c)) = Err e
      | FailCertificate e => exists certPEM keyPEM, pair_texts files c certPEM keyPEM /\ LoadOrCreateCert generate keypair certPEM keyPEM = Err e
      | FailACL _ => ~ host_rules
      | FailConfig _ | FailDecoy _ => False
      end
  | inr (c', pin, parts) => c' = c /\ exists p, parts = Some p /\
      configured c (sp_options p) (sp_udp p) /\ sp_slots p = sv_MaxConnections c /\
      limit (sp_active p) = Z.to_nat (sv_MaxActiveStreams c) /\ limit (sp_codecs p) = Z.to_nat (sv_MaxCompressedStreams c) /\
      resolves c (sp_resolver p) /\ decoy_Handler parse (sv_Decoy c) = Ok (sp_decoy p) /\
      tls_NextProtos (sp_tls p) = [DefaultALPN] /\ tls_MinVersion (sp_tls p) = VersionTLS13 /\ is_Some (quicConfig bbr (sp_options p)) /\
      (exists crt certPEM keyPEM, pair_texts files c certPEM keyPEM /\ LoadOrCreateCert generate keypair certPEM keyPEM = Ok (crt, pin) /\
         presented (sp_tls p) (sp_credentials p) = Some crt) /\
      (forall t (a k : Budget), runs_with c (server_init (sp_credentials p) t a k))
  end.
Proof.
  intros HL. cbv zeta. rewrite HL. destruct (LoadServer_sound _ _ _ _ _ HL) as [_ Hok]. cbn [server_start].
  destruct (CongestionAvailable bbr _) eqn:Ec; cbn [negb].
  2:{ destruct (so_congestion _ _ _ Hok) as [E|E]; rewrite E in Ec; [done|]. split; [done|]. by destruct bbr. }
  destruct (read_pair files c) as [f|[certPEM keyPEM]] eqn:ER.
  { unfold read_pair in ER. destruct (bool_decide_reflect (sv_CertFile c = [])); [done|].
    destruct (readCredentialFile (files (sv_CertFile c))) eqn:E1; [|injection ER as <-; done].
    destruct (readCredentialFile (files (sv_KeyFile c))) eqn:E2; [done|]. injection ER as <-. done. }
  apply read_pair_texts in ER. destruct (LoadOrCreateCert _ _ _ _) as [[crt pin]|e] eqn:EL; [|eauto].
  destruct (Acl.New _ _ _ _) as [pol|e] eqn:EA.
  2:{ intros [H1 H2]. pose proof (acl_ports_ok _ _ _ _ (so_allow _ _ _ Hok) (so_deny _ _ _ Hok) H1 H2) as HX. by rewrite EA in HX. }
  pose proof (decoy_Handler_ok _ _ (so_decoy _ _ _ Hok)) as HD. destruct (decoy_Handler parse _) as [site|]; [|done].
  destruct (server_New_ok now parse c (decoded_or_nil (DecodePSK (sv_PSK c)))
    (if bool_decide (sv_PreviousPSK c = []) then [] else decoded_or_nil (DecodePSK (sv_PreviousPSK c))) crt (Some pol)
    (NewResolver (Some pol) (sv_DNSTimeoutSec c * second) (sv_DNSConcurrency c)) site Hok)
    as (p & -> & Ho & Hs & Ha & Hk & Ht & Hr & Hu & Hd & Hn).
  split; [done|]. exists p. rewrite Hs, Ho, Ht, Hr, Hu, Hd. destruct (so_dns _ _ _ Hok) as [? ?]. split_and!; try done.
  - by eapply server_configured.
  - exists pol. unfold NewResolver, second. cbn. rewrite !(proj2 (Z.leb_gt _ 0)) by lia. split_and!; [done|done|lia|done].
  - by apply quic_conf_some.
  - by exists crt, certPEM, keyPEM.
  - intros t a k. unfold runs_with. cbn [snap server_init primary previous expires].
    destruct (so_keys _ _ _ Hok) as (pri & Hp & Hold). rewrite Hp. split_and!; [done..|].
    destruct (decide (sv_PreviousPSK c = [])) as [E|N]; [by rewrite bool_decide_eq_true_2|].
    rewrite bool_decide_eq_false_2 by done. destruct (Hold N) as (old & -> & _). done.
Qed.

(** Starting the client: a loaded configuration fails only for a congestion controller
    the build does not have; otherwise its key decodes, nothing panics, the limits are
    the configured ones, and the client speaks the protocol every server speaks. *)
Theorem client_starts `{Crypto} bbr now raw c : LoadClient now (Ok raw) = Ok c ->
  match client_start bbr (LoadClient now (Ok raw)) with
  | inl f => f = FailCongestion /\ cl_CongestionControl c = bs "bbr" /\ bbr = None
  | inr (c', psk, parts) => c' = c /\ DecodePSK (cl_PSK c) = Ok psk /\ exists p, parts = Some p /\
      cp_options p = client_options c /\ cp_proxy p = proxy_options c /\ cp_slots p = cl_MaxConnections c /\
      limit (cp_active p) = Z.to_nat (cl_MaxActiveStreams c) /\ limit (cp_codecs p) = Z.to_nat (cl_MaxCompressedStreams c) /\
      tls_NextProtos (cp_tls p) = [DefaultALPN]
  end.
Proof.
  intros HL. rewrite HL. destruct (LoadClient_sound _ _ _ HL) as [_ Hok]. cbn [client_start].
  destruct (CongestionAvailable bbr _) eqn:Ec; cbn [negb].
  2:{ destruct (co_congestion _ _ Hok) as [E|E]; rewrite E in Ec; [done|]. split_and!; [done..|]. by destruct bbr. }
  split; [done|]. split; [by destruct (co_psk _ _ Hok) as [psk ->]|].
  unfold client_New. rewrite (client_options_kept _ _ Hok), (proxy_options_kept _ _ Hok). destruct (co_streams _ _ Hok) as [? ?].
  destruct (quic_conf_some bbr (mkQUICOptions (cl_CongestionControl c) true (cl_IdleTimeoutSec c * second) (cl_HandshakeTimeoutSec c * second)
    (mib (cl_MaxStreamRecvWindowMB c)) (mib (cl_MaxConnRecvWindowMB c)) (-1)) Ec) as [q Hq].
  unfold quicConf. change (NewQUICConfig bbr _) with (NewQUICConfig bbr (mkQUICOptions (cl_CongestionControl c) true (cl_IdleTimeoutSec c * second)
    (cl_HandshakeTimeoutSec c * second) (mib (cl_MaxStreamRecvWindowMB c)) (mib (cl_MaxConnRecvWindowMB c)) (-1))). rewrite Hq. cbn [mbind option_bind].
  change (Client.MaxActiveStreams (client_options c)) with (cl_MaxActiveStreams c).
  change (Client.MaxCompressedStreams (client_options c)) with (cl_MaxCompressedStreams c). rewrite !budget_some by lia.
  eexists. split; [reflexivity|]. split_and!; try done. cbn. destruct (co_common _ _ Hok) as [[-> | ->] _]; done.
Qed.

(** ** The life of a process

    The goroutines that [main] starts ([workers]): the metrics endpoint, the tunnel
    ([Run]) and the two listeners of the client, or the metrics endpoint and the reload
    watcher of the server.  A listener of the client puts its result on [errCh] before it
    is done; the server's [main] serves itself. *)
Inductive role := RoleMetrics | RoleRun | RoleSOCKS | RoleHTTP | RoleWatcher.
#[export] Instance role_eq_dec : EqDecision role.
Proof. solve_decision. Defined.
#[export] Instance role_countable : Countable role.
Proof.
  refine (inj_countable' (fun r => match r with RoleMetrics => 0 | RoleRun => 1 | RoleSOCKS => 2 | RoleHTTP => 3 | RoleWatcher => 4 end)
    (fun n => match n with 0 => RoleMetrics | 1 => RoleRun | 2 => RoleSOCKS | 3 => RoleHTTP | _ => RoleWatcher end) _).
  by intros [].
Defined.

Inductive pworker := PRunning | PSending (err : option error) | PDone.
(** [main]: serving or selecting; before [stop()] with the flag [failed]; waiting for the
    workers; at its end. *)
Inductive pmain := MainActive | MainStop (failed : bool) | MainWait (failed : bool) | MainExit (failed : bool).

Record process := mkProcess {
  pr_ctx : bool; pr_main : pmain; pr_workers : gmap role pworker; pr_errCh : list (option error);
  pr_returned : list (option error);    (* every result a listener (or the server) returned *)
}.
Definition set_main m p := mkProcess (pr_ctx p) m (pr_workers p) (pr_errCh p) (pr_returned p).
Definition set_worker r w p := mkProcess (pr_ctx p) (pr_main p) (<[r := w]> (pr_workers p)) (pr_errCh p) (pr_returned p).
Definition cancel p := mkProcess true (pr_main p) (pr_workers p) (pr_errCh p) (pr_returned p).

Definition is_listener (r : role) : bool := match r with RoleSOCKS | RoleHTTP => true | _ => false end.

(** The workers of the client and of the server, by what is configured. *)
Definition client_process (metrics socks http : bool) : process :=
  mkProcess false MainActive
    ((if metrics then <[RoleMetrics := PRunning]> else id) ((if socks then <[RoleSOCKS := PRunning]> else id)
      ((if http then <[RoleHTTP := PRunning]> else id) {[RoleRun := PRunning]}))) [] [].
Definition server_process (metrics : bool) : process :=
  mkProcess false MainActive ((if metrics then <[RoleMetrics := PRunning]> else id) {[RoleWatcher := PRunning]}) [] [].

(** A worker's function returned: a listener goes on to send its error. *)
Definition worker_returns (r : role) (err : option error) (p : process) : process :=
  if is_listener r
  then set_worker r (PSending err) (mkProcess (pr_ctx p) (pr_main p) (pr_workers p) (pr_errCh p) (pr_returned p ++ [err]))
  else set_worker r PDone p.

(** [errCh <- err] on a channel of capacity two. *)
Definition errCh_cap : nat := 2.
Definition send_result (r : role) (err : option error) (p : process) : process :=
  set_worker r PDone (mkProcess (pr_ctx p) (pr_main p) (pr_workers p) (pr_errCh p ++ [err]) (pr_returned p)).

(** The client's [select], by its two cases, and the return of the server's
    [ListenAndServe]. *)
Definition receive_result (p : process) : option process :=
  match pr_errCh p with
  | [] => None
  | err :: rest => Some (mkProcess (pr_ctx p) (MainStop (bool_decide (is_Some err))) (pr_workers p) rest (pr_returned p))
  end.
Definition serve_returns (err : option error) (p : process) : process :=
  mkProcess (pr_ctx p) (MainStop (bool_decide (is_Some err) && negb (pr_ctx p))) (pr_workers p) (pr_errCh p) (pr_returned p ++ [err]).

(** The steps that happen by themselves once the context is done: workers return (every
    component's own theorem), results are sent and received, and [main] goes on. *)
Inductive exit_step (server : bool) : process -> process -> Prop :=
| e_return p r err : pr_ctx p = true -> pr_workers p !! r = Some PRunning -> exit_step server p (worker_returns r err p)
| e_send p r err : pr_workers p !! r = Some (PSending err) -> (length (pr_errCh p) < errCh_cap)%nat -> exit_step server p (send_result r err p)
| e_select p : server = false -> pr_main p = MainActive -> pr_ctx p = true -> exit_step server p (set_main (MainStop false) p)
| e_serve p err : server = true -> pr_main p = MainActive -> pr_ctx p = true -> exit_step server p (serve_returns err p)
| e_stop p f : pr_main p = MainStop f -> exit_step server p (set_main (MainWait f) (cancel p))
| e_wait p f : pr_main p = MainWait f -> (forall r w, pr_workers p !! r = Some w -> w = PDone) -> exit_step server p (set_main (MainExit f) p).

Inductive process_step (server : bool) : process -> process -> Prop :=
| p_exit p p' : exit_step server p p' -> process_step server p p'
| p_signal p : process_step server p (cancel p)
| p_return p r err : pr_workers p !! r = Some PRunning -> process_step server p (worker_returns r err p)
| p_receive p p' : server = false -> pr_main p = MainActive -> receive_result p = Some p' -> process_step server p p'
| p_serve p err : server = true -> pr_main p = MainActive -> process_step server p (serve_returns err p).

(** *** Invariant *)
Definition unfinished (w : pworker) : bool := match w with PDone => false | _ => true end.
Definition unfinished_at (m : gmap role pworker) (r : role) : nat :=
  match m !! r with Some w => if unfinished w then 1 else 0 | None => 0 end.
Definition failed_of (m : pmain) : option bool := match m with MainActive => None | MainStop f | MainWait f | MainExit f => Some f end.

(** The channel has room for every listener that is not done, and what is on it was
    returned by one. *)
Record process_inv (p : process) : Prop := {
  pi_room : (length (pr_errCh p) + unfinished_at (pr_workers p) RoleSOCKS + unfinished_at (pr_workers p) RoleHTTP <= errCh_cap)%nat;
  pi_send : forall r err, pr_workers p !! r = Some (PSending err) -> is_listener r = true /\ err ∈ pr_returned p;
  pi_sent : forall err, err ∈ pr_errCh p -> err ∈ pr_returned p;
  pi_failed : failed_of (pr_main p) = Some true -> exists e, Some e ∈ pr_returned p;
  pi_stopped : match pr_main p with MainWait _ | MainExit _ => pr_ctx p = true | _ => True end;
  pi_exit : forall f, pr_main p = MainExit f -> forall r w, pr_workers p !! r = Some w -> w = PDone;
}.

Lemma unfinished_at_insert m r w r' : unfinished_at (<[r := w]> m) r' = if decide (r = r') then (if unfinished w then 1 else 0)%nat else unfinished_at m r'.
Proof. unfold unfinished_at. destruct (decide (r = r')) as [->|]; [by rewrite lookup_insert_eq|by rewrite lookup_insert_ne]. Qed.

Lemma unfinished_at_le m r w : m !! r = Some w -> unfinished w = true -> unfinished_at m r = 1%nat.
Proof. unfold unfinished_at. by intros -> ->. Qed.

Lemma inv_return r err p : process_inv p -> pr_workers p !! r = Some PRunning -> process_inv (worker_returns r err p).
Proof.
  intros [R S T F C X] Hr. pose proof (unfinished_at_le _ _ _ Hr eq_refl) as Hu.
  assert (forall f, pr_main p <> MainExit f) as Hx by (intros f Hm; by discriminate (X f Hm r PRunning Hr)).
  unfold worker_returns. destruct (is_listener r) eqn:El; split; cbn [set_worker pr_errCh pr_workers pr_returned pr_main pr_ctx]; try done.
  - rewrite !unfinished_at_insert. repeat case_decide; simplify_eq; cbn [unfinished]; lia.
  - intros r' e [[<- [= <-]]|[_ Hs]]%lookup_insert_Some; [split; [done|set_solver]|]. destruct (S _ _ Hs). split; [done|set_solver].
  - intros e He. apply T in He. set_solver.
  - intros Hf. destruct (F Hf) as [e He]. exists e. set_solver.
  - intros f Hm. by destruct (Hx f).
  - rewrite !unfinished_at_insert. repeat case_decide; simplify_eq; cbn [unfinished]; lia.
  - intros r' e [[_ [=]]|[_ Hs]]%lookup_insert_Some. by apply S.
  - intros f Hm. by destruct (Hx f).
Qed.

Lemma inv_send r err p : process_inv p -> pr_workers p !! r = Some (PSending err) -> process_inv (send_result r err p).
Proof.
  intros [R S T F C X] Hr. destruct (S _ _ Hr) as [Hl Hin]. pose proof (unfinished_at_le _ _ _ Hr eq_refl) as Hu.
  split; cbn [send_result set_worker pr_errCh pr_workers pr_returned pr_main pr_ctx]; try done.
  - rewrite !unfinished_at_insert, length_app. repeat case_decide; simplify_eq; cbn [unfinished length]; try lia. by destruct r.
  - intros r' e [[_ [=]]|[_ Hs]]%lookup_insert_Some. by apply S.
  - intros e [He| ->%list_elem_of_singleton]%elem_of_app; auto.
  - intros f Hm r' w [[_ <-]|[_ Hw]]%lookup_insert_Some; [done|]. by eapply X.
Qed.

(** [main] moves on, when its new phase is justified. *)
Lemma inv_main m p : process_inv p -> failed_of m = Some false \/ failed_of m = failed_of (pr_main p) ->
  match m with MainWait _ | MainExit _ => pr_ctx p = true | _ => True end ->
  (forall f, m = MainExit f -> forall r w, pr_workers p !! r = Some w -> w = PDone) -> process_inv (set_main m p).
Proof.
  intros [R S T F C X] Hf Hc Hx. split; cbn [set_main pr_errCh pr_workers pr_returned pr_main pr_ctx]; try done.
  intros E. apply F. destruct Hf; congruence.
Qed.

Lemma inv_cancel p : process_inv p -> process_inv (cancel p).
Proof. intros []. split; cbn; try done. by destruct (pr_main p). Qed.

Lemma inv_serve err p : process_inv p -> pr_main p = MainActive -> process_inv (serve_returns err p).
Proof.
  intros [R S T F C X] Hm. split; cbn [serve_returns pr_errCh pr_workers pr_returned pr_main pr_ctx failed_of]; try done.
  - intros r e Hs. destruct (S _ _ Hs). split; [done|set_solver].
  - intros e He. apply T in He. set_solver.
  - intros [= E]. apply andb_true_iff in E as [[e ->]%bool_decide_eq_true _]. exists e. set_solver.
Qed.

Lemma process_inv_exit server p p' : exit_step server p p' -> process_inv p -> process_inv p'.
Proof.
  intros Hst Hi. pose proof Hi as [R S T F C X].
  destruct Hst as [p r err Hc Hr|p r err Hr Hl|p _ Hm Hc|p err _ Hm Hc|p f Hm|p f Hm Hd].
  - by apply inv_return.
  - by apply inv_send.
  - apply inv_main; auto. done.
  - by apply inv_serve.
  - apply inv_main; [by apply inv_cancel|right; cbn; by rewrite Hm|done|done].
  - rewrite Hm in C. apply inv_main; [done|right; cbn; by rewrite Hm|done|]. intros _ _. apply Hd.
Qed.

Lemma process_inv_step server p p' : process_step server p p' -> process_inv p -> process_inv p'.
Proof.
  intros Hst Hi. destruct Hst as [p p' Hst|p|p r err Hr|p p' _ Hm Hr|p err _ Hm].
  - by eapply process_inv_exit.
  - by apply inv_cancel.
  - by apply inv_return.
  - unfold receive_result in Hr. destruct (pr_errCh p) as [|err rest] eqn:Ee; [done|]. injection Hr as <-.
    destruct Hi as [R S T F C X]. rewrite Ee in *. split; cbn [pr_errCh pr_workers pr_returned pr_main pr_ctx failed_of]; try done.
    + cbn in R. lia.
    + intros e He. apply T. by right.
    + intros [= [e ->]%bool_decide_eq_true]. exists e. apply T. by left.
  - by apply inv_serve.
Qed.

(** Work left until the process ends. *)
Definition main_left (m : pmain) : nat := match m with MainActive => 3 | MainStop _ => 2 | MainWait _ => 1 | MainExit _ => 0 end.
Definition running (w : pworker) : bool := match w with PRunning => true | _ => false end.
Definition process_left (p : process) : nat :=
  (mcount running (pr_workers p) + mcount unfinished (pr_workers p) + main_left (pr_main p))%nat.

Lemma exit_step_less server p p' : exit_step server p p' -> (process_left p' < process_left p)%nat.
Proof.
  intros Hst. unfold process_left.
  destruct Hst as [p r err Hc Hr|p r err Hr Hl|p _ Hm Hc|p err _ Hm Hc|p f Hm|p f Hm Hd]; try (cbn; rewrite Hm; cbn; lia).
  - unfold worker_returns. destruct (is_listener r); cbn [set_worker pr_workers pr_main].
    + pose proof (mcount_insert_old running _ r (PSending err) _ Hr). pose proof (mcount_insert_old unfinished _ r (PSending err) _ Hr). cbn in *. lia.
    + pose proof (mcount_insert_old running _ r PDone _ Hr). pose proof (mcount_insert_old unfinished _ r PDone _ Hr). cbn in *. lia.
  - cbn [send_result set_worker pr_workers pr_main].
    pose proof (mcount_insert_old running _ r PDone _ Hr). pose proof (mcount_insert_old unfinished _ r PDone _ Hr). cbn in *. lia.
Qed.

Lemma exit_progress server p : process_inv p -> pr_ctx p = true \/ pr_main p <> MainActive -> (forall f, pr_main p <> MainExit f) ->
  exists p', exit_step server p p'.
Proof.
  intros [R S T F C X] Hc Hne. destruct (pr_main p) as [|f|f|f] eqn:Hm; [|eauto using e_stop| |by destruct (Hne f)].
  { destruct Hc as [Hc|]; [|done]. destruct server; [by exists (serve_returns None p); apply e_serve|]. eauto using e_select. }
  destruct (decide (map_Forall (fun _ w => unfinished w = false) (pr_workers p))) as [Hall|Hex].
  - exists (set_main (MainExit f) p). apply e_wait; [done|]. intros r w Hw. specialize (Hall r w Hw). by destruct w.
  - apply map_not_Forall in Hex as (r & w & Hw & Hu); [|apply _]. destruct w as [|err|]; [by exists (worker_returns r None p); apply e_return| |done].
    exists (send_result r err p). apply e_send; [done|]. destruct (S _ _ Hw) as [Hl _].
    pose proof (unfinished_at_le _ _ _ Hw eq_refl) as H1. destruct r; try done; rewrite H1 in R; unfold errCh_cap in *; lia.
Qed.

Lemma process_inv_init_client m s h : process_inv (client_process m s h).
Proof.
  assert (forall r w, pr_workers (client_process m s h) !! r = Some w -> w = PRunning) as Hw.
  { intros r w. unfold client_process, id. cbn [pr_workers]. destruct m, s, h; rewrite ?lookup_insert_Some, ?lookup_singleton_Some; naive_solver. }
  split; try done; [|intros r err Hr; by discriminate (Hw _ _ Hr)].
  unfold unfinished_at. destruct m, s, h; vm_compute; lia.
Qed.

Lemma process_inv_init_server m : process_inv (server_process m).
Proof.
  assert (forall r w, pr_workers (server_process m) !! r = Some w -> w = PRunning) as Hw.
  { intros r w. unfold server_process, id. cbn [pr_workers]. destruct m; rewrite ?lookup_insert_Some, ?lookup_singleton_Some; naive_solver. }
  split; try done; [|intros r err Hr; by discriminate (Hw _ _ Hr)]. destruct m; vm_compute; lia.
Qed.

(** C27: the process ends, and its exit status is right.  In every interleaving of signals,
    workers and [main], of either process and whatever listeners are configured: a
    listener never blocks on the error channel; when [main] ends, every worker has; it
    ends with status 1 only after a listener (or the server) returned an error; and once
    the context is done, or [main] has left its [select], there is always a next step towards the end, each of which
    leaves less to do, so the process always terminates. *)
Theorem process_ends server metrics socks http p :
  rtc (process_step server) (if server then server_process metrics else client_process metrics socks http) p ->
  (forall r err, pr_workers p !! r = Some (PSending err) -> (length (pr_errCh p) < errCh_cap)%nat) /\
  (forall f, pr_main p = MainExit f -> (forall r w, pr_workers p !! r = Some w -> w = PDone) /\
     (f = true -> exists e, Some e ∈ pr_returned p)) /\
  (pr_ctx p = true \/ pr_main p <> MainActive -> (forall f, pr_main p <> MainExit f) -> exists p', exit_step server p p') /\
  (forall p', exit_step server p p' -> (process_left p' < process_left p)%nat).
Proof.
  intros HR. assert (process_inv p) as Hi.
  { assert (process_inv (if server then server_process metrics else client_process metrics socks http)) as H0.
    { destruct server; [apply process_inv_init_server|apply process_inv_init_client]. }
    revert H0. induction HR; eauto using process_inv_step. }
  pose proof Hi as [R S T F C X]. split_and!.
  - intros r err Hr. destruct (S _ _ Hr) as [Hl _]. pose proof (unfinished_at_le _ _ _ Hr eq_refl) as H1.
    destruct r; try done; rewrite H1 in R; unfold errCh_cap in *; lia.
  - intros f Hm. split; [by eapply X|]. intros ->. apply F. by rewrite Hm.
  - by apply exit_progress.
  - apply exit_step_less.
Qed.

(** ** Concrete runs *)
#[local] Existing Instance toy_crypto.

Definition proc1 : process := worker_returns RoleSOCKS (Some EOF) (client_process false true true).
Lemma proc1_reach : rtc (process_step false) (client_process false true true) proc1.
Proof. apply rtc_once, p_return. reflexivity. Qed.

Lemma process_ends_witness : (length (pr_errCh proc1) < errCh_cap)%nat.
Proof. apply (proj1 (process_ends false false true true proc1 proc1_reach) RoleSOCKS (Some EOF)). reflexivity. Defined.

Lemma client_starts_witness : exists c psk p, LoadClient (99 * second) (Ok raw_client) = Ok c /\
  client_start None (LoadClient (99 * second) (Ok raw_client)) = inr (c, psk, Some p) /\ cp_slots p = cl_MaxConnections c.
Proof.
  assert (LoadClient (99 * second) (Ok raw_client) = Ok (fill_client raw_client)) as HL by (vm_compute; reflexivity).
  pose proof (client_starts None (99 * second) raw_client (fill_client raw_client) HL) as H.
  destruct (client_start None (LoadClient (99 * second) (Ok raw_client))) as [f|[[c psk] parts]] eqn:E.
  - destruct H as (_ & H & _). vm_compute in H. discriminate H.
  - destruct H as (-> & _ & p & -> & _ & _ & Hs & _). exists (fill_client raw_client), psk, p.
    split; [exact HL|]. split; [reflexivity|exact Hs].
Defined.

#[local] Instance ascii_unicode : Unicode := {| map_to_lower := id; trim_space_func := id |}.

Lemma server_starts_witness : exists pin p,
  server_start (Err EOF) pem_pair None no_url pem_files (LoadServer (99 * second) no_url config_path (Ok (raw_server example_psk (bs "cert.pem")))) =
    inr (example_cfg, pin, Some p) /\ configured example_cfg (sp_options p) (sp_udp p).
Proof.
  pose proof (server_starts (Err EOF) pem_pair None no_url pem_files (99 * second) config_path _ example_cfg (proj1 example_loads)) as H.
  destruct (server_start _ _ _ _ _ _) as [f|[[c pin] parts]] eqn:E; [vm_compute in E; discriminate E|].
  destruct H as (-> & p & -> & Ho & _). exists pin, p. split; [reflexivity|exact Ho].
Defined.
