(* ===== verification/Metrics.v ===== *)
(** * Package metrics

    Models [internal/metrics] (metrics.go, operations.go): the counters with their
    bounded label sets, the registration of tunnel connections, and what a scrape
    collects from them.  The Prometheus registry and its HTTP endpoint are a library;
    a counter is an integer, which is exact for a float64 below 2^53. *)
From S2P Require Import Prelude GoStd Admission Compress.

(** ** State *)
Record stream_counts := mkStreams { ActiveStreams : Z; StreamsTotal : Z; DialErrors : Z; Reconnects : Z }.
Record metrics := mkMetrics {
  udpDrops : gmap string Z; udpPackets : gmap string Z; rejected : gmap string Z; failures : gmap (string * string) Z;
  controller : gmap string Z; latency : gmap string Z;
  up : Z; down : Z; udpFlows : Z; codecFallback : Z; ActiveBudget : Z; CodecBudget : Z; codec : Stats; streams : stream_counts;
}.
Definition metrics_New : metrics := mkMetrics ∅ ∅ ∅ ∅ ∅ ∅ 0 0 0 0 0 0 zeroStats (mkStreams 0 0 0 0).

(** [WithLabelValues(k).Inc()] on a counter vector. *)
Definition inc {K} `{Countable K} (k : K) (m : gmap K Z) : gmap K Z := <[k := default 0 (m !! k) + 1]> m.

Definition set_udpDrops x m := mkMetrics x (udpPackets m) (rejected m) (failures m) (controller m) (latency m) (up m) (down m) (udpFlows m) (codecFallback m) (ActiveBudget m) (CodecBudget m) (codec m) (streams m).
Definition set_udpPackets x m := mkMetrics (udpDrops m) x (rejected m) (failures m) (controller m) (latency m) (up m) (down m) (udpFlows m) (codecFallback m) (ActiveBudget m) (CodecBudget m) (codec m) (streams m).
Definition set_rejected x m := mkMetrics (udpDrops m) (udpPackets m) x (failures m) (controller m) (latency m) (up m) (down m) (udpFlows m) (codecFallback m) (ActiveBudget m) (CodecBudget m) (codec m) (streams m).
Definition set_failures x m := mkMetrics (udpDrops m) (udpPackets m) (rejected m) x (controller m) (latency m) (up m) (down m) (udpFlows m) (codecFallback m) (ActiveBudget m) (CodecBudget m) (codec m) (streams m).
Definition set_controller x m := mkMetrics (udpDrops m) (udpPackets m) (rejected m) (failures m) x (latency m) (up m) (down m) (udpFlows m) (codecFallback m) (ActiveBudget m) (CodecBudget m) (codec m) (streams m).
Definition set_latency x m := mkMetrics (udpDrops m) (udpPackets m) (rejected m) (failures m) (controller m) x (up m) (down m) (udpFlows m) (codecFallback m) (ActiveBudget m) (CodecBudget m) (codec m) (streams m).
Definition set_bytes u d m := mkMetrics (udpDrops m) (udpPackets m) (rejected m) (failures m) (controller m) (latency m) u d (udpFlows m) (codecFallback m) (ActiveBudget m) (CodecBudget m) (codec m) (streams m).
Definition set_levels f k a c m := mkMetrics (udpDrops m) (udpPackets m) (rejected m) (failures m) (controller m) (latency m) (up m) (down m) f k a c (codec m) (streams m).
Definition set_codec x m := mkMetrics (udpDrops m) (udpPackets m) (rejected m) (failures m) (controller m) (latency m) (up m) (down m) (udpFlows m) (codecFallback m) (ActiveBudget m) (CodecBudget m) x (streams m).

Definition set_streams x m := mkMetrics (udpDrops m) (udpPackets m) (rejected m) (failures m) (controller m) (latency m) (up m) (down m) (udpFlows m) (codecFallback m) (ActiveBudget m) (CodecBudget m) (codec m) x.

(** ** Operations *)

(** Keep a label of the list, or fold it into [other]. *)
Definition label (known : list string) (l : string) : string := if bool_decide (l ∈ known) then l else "other".

Definition dropReasons : list string :=
  ["invalid"; "source"; "size"; "send"; "receive"; "queue"; "auth"; "acl"; "dns"; "limit"; "rate"; "closed"].
Definition rejectedResources : list string := ["stream"; "connection"; "pending"].
Definition failureStages : list string := ["connect"; "auth"; "open"; "dial"; "relay"; "heartbeat"].
Definition observedStages : list string := ["open"; "auth"; "heartbeat"].

Definition AddUp (n : Z) (m : metrics) : metrics := if 0 <? n then set_bytes (up m + n) (down m) m else m.
Definition AddDown (n : Z) (m : metrics) : metrics := if 0 <? n then set_bytes (up m) (down m + n) m else m.

Definition UDPDrop (reason : string) (m : metrics) : metrics := set_udpDrops (inc (label dropReasons reason) (udpDrops m)) m.
Definition UDPDatagram (direction : string) (n : Z) (m : metrics) : metrics :=
  let direction := if bool_decide (direction <> "up") then "down" else direction in
  let m := set_udpPackets (inc direction (udpPackets m)) m in
  if bool_decide (direction = "up") then AddUp n m else AddDown n m.
Definition UDPFlow (delta : Z) (m : metrics) : metrics :=
  set_levels (udpFlows m + delta) (codecFallback m) (ActiveBudget m) (CodecBudget m) m.

Definition BudgetChange (isCodec : bool) (d : Z) (m : metrics) : metrics :=
  if isCodec then set_levels (udpFlows m) (codecFallback m) (ActiveBudget m) (CodecBudget m + d) m
  else set_levels (udpFlows m) (codecFallback m) (ActiveBudget m + d) (CodecBudget m) m.
Definition Rejected (resource : string) (m : metrics) : metrics := set_rejected (inc (label rejectedResources resource) (rejected m)) m.
Definition CodecFallback (m : metrics) : metrics :=
  set_levels (udpFlows m) (codecFallback m + 1) (ActiveBudget m) (CodecBudget m) m.

(** The reason of a failure: the first class of the error that applies. *)
Definition failure_reason (e : error) : string :=
  if errors_Is e ErrCapacity then "capacity"
  else if errors_Is e Canceled then "canceled"
  else if errors_Is e DeadlineExceeded || is_timeout e then "timeout"
  else "error".
Definition Failure (stage : string) (err : option error) (m : metrics) : metrics :=
  match err with
  | None => m
  | Some e => set_failures (inc (label failureStages stage, failure_reason e) (failures m)) m
  end.

Definition Compression (s : Stats) (m : metrics) : metrics :=
  let c := codec m in
  set_codec (mkStats (InputBytes c + InputBytes s) (OutputBytes c + OutputBytes s) (Attempted c + Attempted s)
    (Skipped c + Skipped s) (Compressed c + Compressed s) (EncodeTime c + EncodeTime s)) m.
Definition Controller (mode : string) (m : metrics) : metrics :=
  set_controller (<[(if bool_decide (mode <> "bbr") then "reno" else mode) := 1]> (controller m)) m.
(** [Observe] adds a sample to the histogram of a stage: the number of samples. *)
Definition Observe (stage : string) (m : metrics) : metrics := set_latency (inc (label observedStages stage) (latency m)) m.

(** [countWriter.Write]: the wrapped writer's result, and the bytes it took counted. *)
Definition countWriter_Write (upward : bool) (w : writer) (b : bytes) (m : metrics) : nat * option error * writer * metrics :=
  let '(n, err, w') := Write w b in
  (n, err, w', if bool_decide (0 < n)%nat then (if upward then set_bytes (up m + Z.of_nat n) (down m) m
                                                 else set_bytes (up m) (down m + Z.of_nat n) m) else m).

(** The increments and decrements the other packages make on the public gauges and
    counters: a stream begins ([StreamsTotal], [ActiveStreams]) and ends, a dial fails, a
    tunnel is retried. *)
Definition stream_begin (m : metrics) : metrics :=
  let c := streams m in set_streams (mkStreams (ActiveStreams c + 1) (StreamsTotal c + 1) (DialErrors c) (Reconnects c)) m.
Definition stream_end (m : metrics) : metrics :=
  let c := streams m in set_streams (mkStreams (ActiveStreams c - 1) (StreamsTotal c) (DialErrors c) (Reconnects c)) m.
Definition dial_error (m : metrics) : metrics :=
  let c := streams m in set_streams (mkStreams (ActiveStreams c) (StreamsTotal c) (DialErrors c + 1) (Reconnects c)) m.
Definition reconnect (m : metrics) : metrics :=
  let c := streams m in set_streams (mkStreams (ActiveStreams c) (StreamsTotal c) (DialErrors c) (Reconnects c + 1)) m.

(** The calls of the other packages. *)
Inductive mop :=
| MStreamBegin | MStreamEnd | MDialError | MReconnect
| MAddUp (n : Z) | MAddDown (n : Z) | MUDPDrop (reason : string) | MUDPDatagram (direction : string) (n : Z)
| MUDPFlow (d : Z) | MBudget (isCodec : bool) (d : Z) | MRejected (resource : string) | MFallback
| MFailure (stage : string) (err : option error) | MCompression (s : Stats) | MController (mode : string) | MObserve (stage : string).

Definition mdo (m : metrics) (o : mop) : metrics :=
  match o with
  | MStreamBegin => stream_begin m | MStreamEnd => stream_end m | MDialError => dial_error m | MReconnect => reconnect m
  | MAddUp n => AddUp n m | MAddDown n => AddDown n m | MUDPDrop r => UDPDrop r m | MUDPDatagram d n => UDPDatagram d n m
  | MUDPFlow d => UDPFlow d m | MBudget c d => BudgetChange c d m | MRejected r => Rejected r m | MFallback => CodecFallback m
  | MFailure s e => Failure s e m | MCompression s => Compression s m | MController c => Controller c m | MObserve s => Observe s m
  end.
Definition mrun (ops : list mop) : metrics := fold_left mdo ops metrics_New.

(** ** Tunnel connections *)

(** The registered connections, their gauge, the resumptions counted, and every cleanup
    function handed out: the connection it owns, and whether it ran. *)
Record tracker := mkTracker {
  tr_conns : gset nat; tr_gauge : Z; tr_resumed : Z; tr_handles : gmap nat (nat * bool);
}.
Definition tracker_New : tracker := mkTracker ∅ 0 0 ∅.

(** [trackConnection]: the cleanup function of a connection already registered does
    nothing ([None]). *)
Definition trackConnection (c : nat) (resumed : bool) (t : tracker) : option nat * tracker :=
  if bool_decide (c ∈ tr_conns t) then (None, t)
  else let h := fresh (dom (tr_handles t)) in
       (Some h, mkTracker ({[c]} ∪ tr_conns t) (tr_gauge t + 1) (tr_resumed t + (if resumed then 1 else 0))
                  (<[h := (c, false)]> (tr_handles t))).

(** The cleanup function [h]. *)
Definition finish_connection (h : nat) (t : tracker) : tracker :=
  match tr_handles t !! h with
  | Some (c, false) => mkTracker (tr_conns t ∖ {[c]}) (tr_gauge t - 1) (tr_resumed t) (<[h := (c, true)]> (tr_handles t))
  | _ => t
  end.

Inductive track_op := TTrack (c : nat) (resumed : bool) | TFinish (h : nat).
Definition track_do (t : tracker) (o : track_op) : tracker :=
  match o with TTrack c r => snd (trackConnection c r t) | TFinish h => finish_connection h t end.

(** What a scrape reads of one connection, and [Collect] over them in some order:
    the largest RTT, the sums of windows and losses. *)
Record conn_stats := mkConnStats { SmoothedRTT : Z; CongestionWindow : Z; PacketsLost : Z }.
Definition collect1 (acc : Z * Z * Z) (s : conn_stats) : Z * Z * Z :=
  let '(maxRTT, cwnd, lost) := acc in
  (if maxRTT <? SmoothedRTT s then SmoothedRTT s else maxRTT,
   (cwnd + CongestionWindow s) mod 2 ^ 64, (lost + PacketsLost s) mod 2 ^ 64).
Definition Collect (l : list conn_stats) : Z * Z * Z := fold_left collect1 l (0, 0, 0).

(** ** Counters count *)

(** The label an operation counts under, per vector. *)
Definition drop_label (o : mop) : option string := match o with MUDPDrop r => Some (label dropReasons r) | _ => None end.
Definition rejected_label (o : mop) : option string := match o with MRejected r => Some (label rejectedResources r) | _ => None end.
Definition packet_label (o : mop) : option string :=
  match o with MUDPDatagram d _ => Some (if bool_decide (d = "up") then "up" else "down") | _ => None end.
Definition failure_label (o : mop) : option (string * string) :=
  match o with MFailure s (Some e) => Some (label failureStages s, failure_reason e) | _ => None end.
Definition up_bytes (o : mop) : Z :=
  match o with MAddUp n => Z.max 0 n | MUDPDatagram d n => if bool_decide (d = "up") then Z.max 0 n else 0 | _ => 0 end.
Definition down_bytes (o : mop) : Z :=
  match o with MAddDown n => Z.max 0 n | MUDPDatagram d n => if bool_decide (d = "up") then 0 else Z.max 0 n | _ => 0 end.
Definition sum_of {A} (f : A -> Z) (l : list A) : Z := foldr (fun a s => f a + s) 0 l.
Definition times {A K} `{EqDecision K} (g : A -> option K) (k : K) (l : list A) : Z :=
  sum_of (fun a => if decide (g a = Some k) then 1 else 0) l.

Lemma sum_of_snoc {A} (f : A -> Z) l a : sum_of f (l ++ [a]) = sum_of f l + f a.
Proof. unfold sum_of. induction l as [|b l IH]; cbn; [lia|]. rewrite IH. lia. Qed.

Lemma mrun_snoc ops o : mrun (ops ++ [o]) = mdo (mrun ops) o.
Proof. apply fold_left_app. Qed.

(** A vector that every operation increments under its own label counts exactly the
    operations with that label, and has no other labels. *)
Lemma vector_exact {K} `{Countable K} (f : metrics -> gmap K Z) (g : mop -> option K) : f metrics_New = ∅ ->
  (forall m o, f (mdo m o) = match g o with Some k => inc k (f m) | None => f m end) -> forall ops k,
  default 0 (f (mrun ops) !! k) = times g k ops /\ (is_Some (f (mrun ops) !! k) -> exists o, o ∈ ops /\ g o = Some k).
Proof.
  intros H0 Hs ops k. unfold times. induction ops as [|o ops [IH1 IH2]] using rev_ind.
  { unfold mrun. cbn. rewrite H0, lookup_empty. split; [done|]. by intros []. }
  rewrite mrun_snoc, sum_of_snoc, Hs. destruct (g o) as [k'|] eqn:Eg.
  - unfold inc. destruct (decide (k' = k)) as [->|Hne].
    + rewrite lookup_insert_eq, decide_True, <- IH1 by done. cbn. split; [lia|]. intros _. exists o. split; [set_solver|done].
    + rewrite lookup_insert_ne, decide_False by congruence. split; [lia|]. intros Hk. destruct (IH2 Hk) as (o' & ? & ?).
      exists o'. split; [set_solver|done].
  - rewrite decide_False by done. split; [lia|]. intros Hk. destruct (IH2 Hk) as (o' & ? & ?). exists o'. split; [set_solver|done].
Qed.

Lemma label_known known l : label known l ∈ known ++ ["other"].
Proof. unfold label. destruct (bool_decide_reflect (l ∈ known)); set_solver. Qed.

Lemma failure_reason_known e : failure_reason e ∈ ["capacity"; "canceled"; "timeout"; "error"].
Proof. unfold failure_reason. repeat case_match; set_solver. Qed.

(** A vector whose labels are all in a list without repetitions is no larger. *)
Lemma labels_bounded {K} `{Countable K} (m : gmap K Z) (l : list K) : NoDup l ->
  (forall k, is_Some (m !! k) -> k ∈ l) -> (size m <= length l)%nat.
Proof.
  intros Hn Hl. rewrite <- (size_dom (D := gset K)), <- (size_list_to_set (C := gset K) l Hn).
  apply subseteq_size. intros k Hk%elem_of_dom. by apply elem_of_list_to_set, Hl.
Qed.

(** The stages and reasons of failures. *)
Definition failureLabels : list (string * string) :=
  flat_map (fun s => map (pair s) ["capacity"; "canceled"; "timeout"; "error"]) (failureStages ++ ["other"]).

Lemma failure_label_known s e : (label failureStages s, failure_reason e) ∈ failureLabels.
Proof.
  pose proof (label_known failureStages s) as H1. pose proof (failure_reason_known e) as H2.
  apply list_elem_of_In, in_flat_map. exists (label failureStages s). split; [by apply list_elem_of_In|].
  apply in_map. by apply list_elem_of_In.
Qed.

Lemma failureLabels_NoDup : NoDup failureLabels.
Proof. apply (bool_decide_unpack _). by vm_compute. Qed.

Lemma UDPDatagram_up n m : UDPDatagram "up" n m = AddUp n (set_udpPackets (inc "up" (udpPackets m)) m).
Proof. done. Qed.

Lemma UDPDatagram_down d n m : d <> "up" -> UDPDatagram d n m = AddDown n (set_udpPackets (inc "down" (udpPackets m)) m).
Proof. intros N. unfold UDPDatagram. by rewrite (bool_decide_eq_true_2 _ N). Qed.

Lemma bytes_exact ops : up (mrun ops) = sum_of up_bytes ops /\ down (mrun ops) = sum_of down_bytes ops.
Proof.
  induction ops as [|o ops [IH1 IH2]] using rev_ind; [done|]. rewrite mrun_snoc, !sum_of_snoc, <- IH1, <- IH2.
  generalize (mrun ops). intros m. destruct o; cbn [mdo up_bytes down_bytes]; try (split; cbn -[Z.max]; lia).
  - unfold AddUp. destruct (Z.ltb_spec 0 n); cbn -[Z.max]; lia.
  - unfold AddDown. destruct (Z.ltb_spec 0 n); cbn -[Z.max]; lia.
  - destruct (decide (direction = "up")) as [->|N].
    + rewrite UDPDatagram_up, (bool_decide_eq_true_2 ("up" = "up")) by done. unfold AddUp.
      destruct (Z.ltb_spec 0 n); cbn -[Z.max]; lia.
    + rewrite (UDPDatagram_down _ _ _ N), (bool_decide_eq_false_2 _ N). unfold AddDown.
      destruct (Z.ltb_spec 0 n); cbn -[Z.max]; lia.
  - destruct isCodec; cbn -[Z.max]; lia.
  - destruct err; cbn -[Z.max]; lia.
Qed.

(** One operation on one vector, by cases on what the operation tests. *)
Ltac step_vector :=
  cbn [mdo drop_label rejected_label failure_label packet_label];
  try match goal with |- context [UDPDatagram ?d _ _] => destruct (decide (d = "up")) as [-> | N];
    [rewrite UDPDatagram_up|rewrite (UDPDatagram_down _ _ _ N), ?(bool_decide_eq_false_2 _ N)] end;
  unfold AddUp, AddDown, UDPDrop, UDPFlow, BudgetChange, Rejected, CodecFallback, Failure, Compression, Controller, Observe, AddUp, AddDown;
  repeat match goal with
         | |- context [if 0 <? ?n then _ else _] => destruct (0 <? n)
         | |- context [match ?e with Some _ => _ | None => _ end] => is_var e; destruct e
         | |- context [if ?b then _ else _] => is_var b; destruct b
         end; reflexivity.

(** The counters are exact and their cardinality is bounded.  After any calls, each
    vector holds for every label the number of calls that name it (a reason or stage
    outside the documented ones counts as [other]), so no call is lost or counted
    twice; whatever the callers pass there are at most 13 drop reasons, 4 resources and
    28 failure classes; and the byte counters are the sums of the relayed payloads. *)
Theorem metrics_exact ops : let m := mrun ops in
  (forall l, default 0 (udpDrops m !! l) = times drop_label l ops) /\
  (forall l, default 0 (rejected m !! l) = times rejected_label l ops) /\
  (forall l, default 0 (failures m !! l) = times failure_label l ops) /\
  (forall l, default 0 (udpPackets m !! l) = times packet_label l ops) /\
  (size (udpDrops m) <= 13)%nat /\ (size (rejected m) <= 4)%nat /\ (size (failures m) <= 28)%nat /\ (size (udpPackets m) <= 2)%nat /\
  up m = sum_of up_bytes ops /\ down m = sum_of down_bytes ops.
Proof.
  cbv zeta.
  pose proof (vector_exact udpDrops drop_label eq_refl ltac:(intros m []; step_vector) ops) as V1.
  pose proof (vector_exact rejected rejected_label eq_refl ltac:(intros m []; step_vector) ops) as V2.
  pose proof (vector_exact failures failure_label eq_refl ltac:(intros m []; step_vector) ops) as V3.
  pose proof (vector_exact udpPackets packet_label eq_refl ltac:(intros m []; step_vector) ops) as V4.
  split_and!; try (intros l; apply V1 || apply V2 || apply V3 || apply V4); try apply bytes_exact.
  - apply (labels_bounded _ (dropReasons ++ ["other"])); [apply (bool_decide_unpack _); by vm_compute|].
    intros k Hk. destruct (proj2 (V1 k) Hk) as (o & _ & E). destruct o; try done. injection E as <-. apply label_known.
  - apply (labels_bounded _ (rejectedResources ++ ["other"])); [apply (bool_decide_unpack _); by vm_compute|].
    intros k Hk. destruct (proj2 (V2 k) Hk) as (o & _ & E). destruct o; try done. injection E as <-. apply label_known.
  - apply (labels_bounded _ failureLabels failureLabels_NoDup).
    intros k Hk. destruct (proj2 (V3 k) Hk) as (o & _ & E). destruct o as [| | | | | | | | | | | |stage [e|]| | |]; try done.
    injection E as <-. apply failure_label_known.
  - apply (labels_bounded _ ["up"; "down"]); [apply (bool_decide_unpack _); by vm_compute|].
    intros k Hk. destruct (proj2 (V4 k) Hk) as (o & _ & E). destruct o; try done. injection E as <-. case_bool_decide; set_solver.
Qed.

(** ** Tracked connections *)

(** The registered connections are exactly those of the cleanup functions that have not
    run, one for each. *)
Record tracker_inv (t : tracker) : Prop := {
  ti_gauge : tr_gauge t = Z.of_nat (size (tr_conns t));
  ti_owner : forall c, c ∈ tr_conns t <-> exists h, tr_handles t !! h = Some (c, false);
  ti_unique : forall h h' c, tr_handles t !! h = Some (c, false) -> tr_handles t !! h' = Some (c, false) -> h = h';
  ti_resumed : 0 <= tr_resumed t <= Z.of_nat (size (tr_handles t));
}.

Lemma tracker_inv_track c r t : tracker_inv t -> tracker_inv (snd (trackConnection c r t)).
Proof.
  intros [Hg Ho Hu Hr]. unfold trackConnection. destruct (bool_decide_reflect (c ∈ tr_conns t)) as [|Hc]; [done|].
  set (h := fresh (dom (tr_handles t))).
  assert (tr_handles t !! h = None) as Hh by (apply not_elem_of_dom, is_fresh).
  split; cbn [snd tr_conns tr_gauge tr_resumed tr_handles].
  - rewrite size_union, size_singleton by set_solver. lia.
  - intros c'. rewrite elem_of_union, elem_of_singleton, Ho. split.
    + intros [->|[k Hk]]; [by exists h; rewrite lookup_insert_eq|]. exists k. rewrite lookup_insert_ne; congruence.
    + intros [k Hk]. destruct (decide (h = k)) as [<-|]; [rewrite lookup_insert_eq in Hk; left; congruence|].
      rewrite lookup_insert_ne in Hk by done. right. eauto.
  - assert (forall k, tr_handles t !! k = Some (c, false) -> False) as Hno by (intros k Hk; apply Hc, Ho; eauto).
    intros k k' c'. rewrite !lookup_insert_Some. intros [[<- E]|[? Hk]] [[<- E']|[? Hk']]; [done|..|by eapply Hu];
      exfalso; eapply Hno; naive_solver.
  - rewrite map_size_insert_None by done. destruct r; lia.
Qed.

Lemma tracker_inv_finish h t : tracker_inv t -> tracker_inv (finish_connection h t).
Proof.
  intros [Hg Ho Hu Hr]. unfold finish_connection. destruct (tr_handles t !! h) as [[c []]|] eqn:Eh; [done| |done].
  assert (c ∈ tr_conns t) as Hc by (apply Ho; eauto).
  split; cbn [tr_conns tr_gauge tr_resumed tr_handles].
  - rewrite size_difference, size_singleton by set_solver.
    assert (size (tr_conns t) <> 0)%nat by (intros E%size_empty_iff; set_solver). lia.
  - intros c'. rewrite elem_of_difference, not_elem_of_singleton, Ho. split.
    + intros [[k Hk] Hne]. exists k. rewrite lookup_insert_ne; congruence.
    + intros [k Hk]. rewrite lookup_insert_Some in Hk. destruct Hk as [[_ [=]]|[Hne Hk]].
      split; [eauto|]. intros ->. by apply Hne, (Hu h k c).
  - intros k k' c'. rewrite !lookup_insert_Some. intros [[_ [=]]|[_ Hk]] [[_ [=]]|[_ Hk']]. by eapply Hu.
  - rewrite map_size_insert_Some by done. done.
Qed.

Lemma tracker_inv_run ops t : tracker_inv t -> tracker_inv (fold_left track_do ops t).
Proof.
  revert t. induction ops as [|o ops IH]; intros t Ht; [done|]. cbn. apply IH.
  destruct o; [by apply tracker_inv_track|by apply tracker_inv_finish].
Qed.

(** Connection accounting.  After any registrations and cleanups, in any order and
    however often a cleanup runs, the gauge is the number of registered connections;
    a connection is registered exactly while one cleanup function owns it, so a
    connection registered twice is counted once and a late second call of an old
    cleanup never removes a new registration. *)
Theorem connections_tracked ops h c r : let t := fold_left track_do ops tracker_New in
  tr_gauge t = Z.of_nat (size (tr_conns t)) /\
  (c ∈ tr_conns t <-> exists h, tr_handles t !! h = Some (c, false)) /\
  (c ∈ tr_conns t -> trackConnection c r t = (None, t)) /\
  (tr_handles t !! h = Some (c, false) -> tr_conns (finish_connection h t) = tr_conns t ∖ {[c]} /\
     tr_gauge (finish_connection h t) = tr_gauge t - 1) /\
  (tr_handles t !! h = Some (c, true) -> finish_connection h t = t).
Proof.
  cbv zeta. assert (tracker_inv (fold_left track_do ops tracker_New)) as [Hg Ho _ _].
  { apply tracker_inv_run. split; [done| |done|done]. intros c'. cbn. split; [set_solver|]. by intros (? & ?%lookup_empty_Some). }
  set (t := fold_left track_do ops tracker_New) in *. split; [done|]. split; [done|]. split.
  - intros Hc. unfold trackConnection. by rewrite bool_decide_eq_true_2.
  - unfold finish_connection. split; [by intros ->|by intros ->].
Qed.

(** A scrape does not depend on the order in which the connections are visited. *)
Lemma collect1_comm acc a b : collect1 (collect1 acc a) b = collect1 (collect1 acc b) a.
Proof.
  destruct acc as [[m w] l]. unfold collect1. f_equal; [f_equal|].
  - destruct (Z.ltb_spec m (SmoothedRTT a)), (Z.ltb_spec m (SmoothedRTT b)); cbn;
      repeat match goal with |- context [?x <? ?y] => destruct (Z.ltb_spec x y) end; lia.
  - rewrite !Z.add_mod_idemp_l by lia. f_equal. lia.
  - rewrite !Z.add_mod_idemp_l by lia. f_equal. lia.
Qed.

Theorem collect_order l l' : Permutation l l' -> Collect l = Collect l'.
Proof.
  unfold Collect. generalize (0, 0, 0). intros acc HP. revert acc. induction HP as [|s l l' _ IH|a b l|l1 l2 l3 _ IH1 _ IH2]; intros acc; cbn.
  - done.
  - apply IH.
  - by rewrite collect1_comm.
  - by rewrite IH1.
Qed.
