(* ===== verification/Registry.v ===== *)
(** * Package metrics: the registry and the endpoint

    Models [New], the [factory], [Describe], [Writer] and [Serve] of
    [internal/metrics/metrics.go].  The Prometheus registry is a parameter with its
    documented law: [MustRegister] panics when a descriptor is invalid or a name is taken.
    The theorem that [New] never panics is what makes every other component able to hold
    a [*Metrics]. *)
From S2P Require Import Prelude GoStd Compress Metrics.

(** ** Descriptors *)
Inductive metric_kind := KGauge | KCounter | KHistogram | KConst.
Record desc := mkDesc {
  d_name : string; d_kind : metric_kind; d_const : list (string * string); d_labels : list string;
}.

(** A metric name and label names that Prometheus accepts, and no label given twice. *)
Definition name_byte (first : bool) (c : byte) : bool :=
  is_lower c || is_upper c || beq c (ch "_") || beq c (ch ":") || (negb first && is_digit c).
Definition valid_metric_name (s : string) : bool :=
  match bs s with [] => false | c :: rest => name_byte true c && forallb (name_byte false) rest end.
Definition valid_desc (d : desc) : bool :=
  valid_metric_name (d_name d) && forallb valid_metric_name (map fst (d_const d) ++ d_labels d) &&
  bool_decide (NoDup (map fst (d_const d) ++ d_labels d)).

(** ** The registry *)
Class Registry (R : Type) := {
  NewRegistry : R;
  MustRegister : list desc -> R -> option R;      (* a collector's descriptors; [None] is the panic *)
  registered_names : R -> gset string;
}.
Class RegistryLaws (R : Type) `{Registry R} := {
  reg_empty : registered_names NewRegistry = ∅;
  reg_accepts : forall ds r, Forall (fun d => valid_desc d = true) ds -> NoDup (map d_name ds) ->
    (forall d, d ∈ ds -> d_name d ∉ registered_names r) ->
    exists r', MustRegister ds r = Some r' /\ registered_names r' = list_to_set (map d_name ds) ∪ registered_names r;
}.

(** ** New *)
Section New.
Context (side : string).

(** [promauto] and the methods of [factory]: constant label [side] on everything. *)
Definition cl : list (string * string) := [("side", side)].
Definition gauge (name : string) : desc := mkDesc name KGauge cl [].
Definition counter (name : string) : desc := mkDesc name KCounter cl [].
Definition counterVec (name : string) (labels : list string) : desc := mkDesc name KCounter cl labels.

(** [Describe] of the connection collector. *)
Definition Describe : list desc :=
  [mkDesc "wanopt_tunnel_rtt_seconds" KConst cl []; mkDesc "wanopt_congestion_window_bytes" KConst cl [];
   mkDesc "wanopt_lost_packets" KConst cl []].

(** The collectors that [New] registers, in order. *)
Definition New_collectors (goCollector : list desc) : list (list desc) :=
  [[gauge "wanopt_admitted_streams"]; [gauge "wanopt_admitted_codecs"];
   [counterVec "wanopt_admission_rejected_total" ["resource"]];
   [counterVec "wanopt_operation_failures_total" ["stage"; "reason"]];
   [counter "wanopt_codec_capacity_fallback_total"]; [counter "wanopt_compression_input_bytes_total"];
   [counter "wanopt_compression_output_bytes_total"]; [counter "wanopt_compression_attempts_total"];
   [counter "wanopt_compression_skipped_total"]; [counter "wanopt_compression_blocks_total"];
   [counter "wanopt_compression_encode_seconds_total"];
   [gauge "wanopt_active_streams"]; [counter "wanopt_streams_total"]; [counter "wanopt_dial_errors_total"];
   [counterVec "wanopt_relay_bytes_total" ["dir"]]; [counter "wanopt_tunnel_reconnects_total"];
   [counter "wanopt_tls_resumptions_total"]; [gauge "wanopt_tunnel_connections"];
   [counterVec "wanopt_udp_dropped_total" ["reason"]]; [counterVec "wanopt_udp_datagrams_total" ["dir"]];
   [gauge "wanopt_udp_flows"];
   [mkDesc "wanopt_congestion_controller" KGauge cl ["algorithm"]];
   [mkDesc "wanopt_operation_seconds" KHistogram cl ["stage"]];
   Describe; goCollector].

Definition register_all {R} `{Registry R} (cs : list (list desc)) (r : R) : option R :=
  foldl (fun o ds => r ← o; MustRegister ds r) (Some r) cs.
Definition New {R} `{Registry R} (goCollector : list desc) : option R := register_all (New_collectors goCollector) NewRegistry.
End New.

(** The label values that the methods pass to [WithLabelValues], by metric: a count other
    than the declared one panics. *)
Definition label_uses : list (string * nat) :=
  [("wanopt_admission_rejected_total", 1%nat); ("wanopt_operation_failures_total", 2%nat); ("wanopt_relay_bytes_total", 1%nat);
   ("wanopt_udp_dropped_total", 1%nat); ("wanopt_udp_datagrams_total", 1%nat); ("wanopt_congestion_controller", 1%nat);
   ("wanopt_operation_seconds", 1%nat)]%string.

(** The number of labels a metric is declared with. *)
Definition declared_labels (side name : string) : option nat :=
  (fun d => length (d_labels d)) <$> find (fun d => bool_decide (d_name d = name)) (concat (New_collectors side [])).

(** ** Writer: the counting writer of a direction, or the writer itself without metrics *)
Definition Writer_Write (direction : string) (m : option metrics) (w : writer) (b : bytes) : nat * option error * writer * option metrics :=
  match m with
  | None => let '(n, e, w') := Write w b in (n, e, w', None)
  | Some m => let '(n, e, w', m') := countWriter_Write (bool_decide (direction = "up")) w b m in (n, e, w', Some m')
  end.

(** ** Serve: nothing for an empty address; the shutdown of the server is not an error *)
Definition ErrServerClosed : error := ErrNew "http: Server closed".
Definition metrics_Serve (addr : bytes) (ListenAndServe : bytes -> option error) : option error :=
  if bool_decide (addr = []) then None
  else match ListenAndServe addr with
       | Some e => if bool_decide (e = ErrServerClosed) then None else Some e
       | None => None
       end.

(** ** New never panics *)

Lemma register_all_ok {R} `{RegistryLaws R} cs r : Forall (fun d => valid_desc d = true) (concat cs) -> NoDup (map d_name (concat cs)) ->
  (forall d, d ∈ concat cs -> d_name d ∉ registered_names r) ->
  exists r', register_all cs r = Some r' /\ registered_names r' = list_to_set (map d_name (concat cs)) ∪ registered_names r.
Proof.
  unfold register_all. revert r. induction cs as [|ds cs IH]; intros r Hv Hn Hf; cbn [foldl concat].
  { exists r. split; [done|]. set_solver. }
  cbn [concat] in Hv, Hn, Hf. apply Forall_app in Hv as [Hv1 Hv2]. rewrite map_app in Hn. apply NoDup_app in Hn as (Hn1 & Hd & Hn2).
  destruct (reg_accepts ds r Hv1 Hn1) as (r1 & E1 & N1); [intros d Hin; apply Hf; set_solver|].
  assert (forall d, d ∈ concat cs -> d_name d ∉ registered_names r1) as Hf2.
  { intros d Hin. rewrite N1, not_elem_of_union, elem_of_list_to_set. split; [|apply Hf; set_solver].
    intros Hx. apply (Hd _ Hx). by apply list_elem_of_In, in_map, list_elem_of_In. }
  destruct (IH r1 Hv2 Hn2 Hf2) as (r2 & E2 & N2). exists r2.
  cbn [mbind option_bind]. rewrite E1. split; [exact E2|]. rewrite N2, N1, map_app, list_to_set_app_L. set_solver.
Qed.

Definition wanopt_prefixed (s : string) : bool := HasPrefix (bs s) (bs "wanopt_").

(** [metrics.New] never panics and no counting method does.  Whatever the side, and with
    any Go collector whose metrics are valid, distinct and not called [wanopt_...],
    every registration of [New] is accepted and the registry then holds exactly the 26
    names of the package and the collector's; and every vector is declared with as many
    labels as the methods pass values. *)
Theorem metrics_New_registers {R} `{RegistryLaws R} side goCollector :
  Forall (fun d => valid_desc d = true /\ wanopt_prefixed (d_name d) = false) goCollector -> NoDup (map d_name goCollector) ->
  exists r, New (R := R) side goCollector = Some r /\
    registered_names r = list_to_set (map d_name (concat (New_collectors side []))) ∪ list_to_set (map d_name goCollector) /\
    size (registered_names r) = (26 + length goCollector)%nat /\
    Forall (fun u => declared_labels side (fst u) = Some (snd u)) label_uses.
Proof.
  intros Hg Hgn.
  assert (concat (New_collectors side goCollector) = concat (New_collectors side []) ++ goCollector) as Ec by (cbn; by rewrite app_nil_r).
  set (own := concat (New_collectors side [])) in *.
  assert (Forall (fun d => valid_desc d = true /\ wanopt_prefixed (d_name d) = true) own) as Hown.
  { unfold own. cbn. repeat (constructor; [split; vm_compute; reflexivity|]). constructor. }
  assert (NoDup (map d_name own)) as Hn.
  { change (map d_name own) with (map d_name (concat (New_collectors "" []))). apply (bool_decide_unpack _). by vm_compute. }
  assert (forall x, x ∈ map d_name own -> x ∈ map d_name goCollector -> False) as Hdisj.
  { intros x. rewrite !list_elem_of_In, !in_map_iff. intros (d & <- & Hd%list_elem_of_In) (e & Ee & He%list_elem_of_In).
    rewrite Forall_forall in Hown, Hg. destruct (Hown d Hd) as [_ H1]. destruct (Hg e He) as [_ H2]. congruence. }
  assert (length own = 26%nat) as Hlen by reflexivity.
  assert (Forall (fun u => declared_labels side (fst u) = Some (snd u)) label_uses) as Huses by (repeat constructor).
  clearbody own.
  destruct (register_all_ok (New_collectors side goCollector) NewRegistry) as (r & E & N); rewrite ?Ec, ?map_app in *.
  - apply Forall_app. split; (eapply Forall_impl; [done|]); by intros d [].
  - apply NoDup_app. split_and!; [done| |done]. intros x ? ?. by apply (Hdisj x).
  - intros d _. rewrite reg_empty. set_solver.
  - exists r. rewrite N, reg_empty, list_to_set_app_L, union_empty_r_L. split_and!; [done|done| |].
    + rewrite size_union by (apply elem_of_disjoint; intros x; rewrite !elem_of_list_to_set; apply Hdisj).
      by rewrite !size_list_to_set, !length_map, Hlen.
    + done.
Qed.

(** ** A concrete registry *)
#[local] Instance set_registry : Registry (gset string) := {|
  NewRegistry := ∅;
  MustRegister := fun ds r =>
    if forallb valid_desc ds && bool_decide (NoDup (map d_name ds)) && forallb (fun d => bool_decide (d_name d ∉ r)) ds
    then Some (list_to_set (map d_name ds) ∪ r) else None;
  registered_names := id |}.
#[local] Instance set_registry_laws : RegistryLaws (gset string).
Proof.
  split; [done|]. intros ds r Hv Hn Hf. cbn. rewrite (proj2 (forallb_forall valid_desc ds)), bool_decide_eq_true_2 by
    (done || (intros d Hd; rewrite Forall_forall in Hv; by apply Hv, list_elem_of_In)). cbn [andb].
  rewrite (proj2 (forallb_forall _ ds)); [by eexists|]. intros d Hd. apply bool_decide_eq_true, Hf. by apply list_elem_of_In.
Qed.

Lemma metrics_New_registers_witness : exists r, New (R := gset string) "server" [mkDesc "go_goroutines" KGauge [] []] = Some r /\
  size (registered_names r) = 27%nat.
Proof.
  destruct (metrics_New_registers (R := gset string) "server" [mkDesc "go_goroutines" KGauge [] []]) as (r & H1 & _ & H2 & _);
    [repeat constructor|apply (bool_decide_unpack _); vm_compute; reflexivity|]. exists r. split; [exact H1|exact H2].
Defined.
