(* ===== verification/Conns.v ===== *)
(** * Package proxy: the wrappers around connections

    Models the connection types that [internal/proxy] stacks on a [net.Conn]:
    [closeWrite], [idleConn] and [trackedConn] of proxy.go, [meteredConn] and
    [progressResponseWriter] of http.go.  A connection is a record of operations over a
    state, as a Go interface value is; a wrapper is a function on such records that adds
    its own state, and the stack of the HTTP transport is their composition. *)
From S2P Require Import Prelude Compress Metrics.

(** ** net.Conn *)
Record net_conn (W : Type) := mkNetConn {
  nc_Read : nat -> W -> bytes * option error * W;      (* into a buffer of that length *)
  nc_Write : bytes -> W -> nat * option error * W;
  nc_Close : W -> option error * W;
  nc_SetDeadline : Z -> W -> W;
  nc_CloseWrite : option (W -> option error * W);      (* does it implement closeWriter? *)
}.
Arguments mkNetConn {W}. Arguments nc_Read {W}. Arguments nc_Write {W}. Arguments nc_Close {W}.
Arguments nc_SetDeadline {W}. Arguments nc_CloseWrite {W}.

Definition closeWrite {W} (c : net_conn W) (w : W) : option error * W :=
  match nc_CloseWrite c with
  | Some f => f w
  | None => (Some (ErrNew "proxy: connection does not support half-close"), w)
  end.

(** ** idleConn *)
Section idle.
Context {W : Type} (now : W -> Z) (timeout : Z).

Definition touch (c : net_conn W) (w : W) : W :=
  if 0 <? timeout then nc_SetDeadline c (now w + timeout) w else w.

Definition idle_Read (c : net_conn W) (len : nat) (w : W) : bytes * option error * W :=
  let '(b, e, w') := nc_Read c len (touch c w) in
  (b, e, if bool_decide (0 < length b)%nat then touch c w' else w').
Definition idle_Write (c : net_conn W) (b : bytes) (w : W) : nat * option error * W :=
  let '(n, e, w') := nc_Write c b (touch c w) in
  (n, e, if bool_decide (0 < n)%nat then touch c w' else w').

Definition idleConn (c : net_conn W) : net_conn W :=
  mkNetConn (idle_Read c) (idle_Write c) (nc_Close c) (nc_SetDeadline c) (Some (closeWrite c)).
End idle.

(** An operation of the wrapped connection, beside the state a wrapper adds. *)
Definition on_inner {W S A} (f : W -> A * W) (ws : W * S) : A * (W * S) :=
  let '(a, w') := f (fst ws) in (a, (w', snd ws)).

(** ** meteredConn: the metrics, and whether its [once] has run *)
Section metered.
Context {W : Type}.

Definition metered_Read (c : net_conn W) (len : nat) (ws : W * (metrics * bool)) : bytes * option error * (W * (metrics * bool)) :=
  let '(w, (m, once)) := ws in
  let '(b, e, w') := nc_Read c len w in
  (b, e, (w', (if bool_decide (0 < length b)%nat then AddDown (Z.of_nat (length b)) m else m, once))).
Definition metered_Write (c : net_conn W) (b : bytes) (ws : W * (metrics * bool)) : nat * option error * (W * (metrics * bool)) :=
  let '(w, (m, once)) := ws in
  let '(n, e, w') := nc_Write c b w in
  (n, e, (w', (if bool_decide (0 < n)%nat then AddUp (Z.of_nat n) m else m, once))).
Definition metered_Close (c : net_conn W) (ws : W * (metrics * bool)) : option error * (W * (metrics * bool)) :=
  let '(w, (m, once)) := ws in
  let '(e, w') := nc_Close c w in
  (e, (w', (if once then m else stream_end m, true))).

Definition meteredConn (c : net_conn W) : net_conn (W * (metrics * bool)) :=
  mkNetConn (metered_Read c) (metered_Write c) (metered_Close c)
    (fun t ws => (nc_SetDeadline c t (fst ws), snd ws)) (Some (on_inner (closeWrite c))).

(** ** trackedConn: the table that lists it, and its [once] *)
Definition tracked_Close (t : nat) (c : net_conn W) (ws : W * (gset nat * bool)) : option error * (W * (gset nat * bool)) :=
  let '(w, (table, once)) := ws in
  let '(e, w') := nc_Close c w in
  (e, (w', (if once then table else table ∖ {[t]}, true))).

Definition trackedConn (t : nat) (c : net_conn W) : net_conn (W * (gset nat * bool)) :=
  mkNetConn (fun len ws => let '(b, e, w) := nc_Read c len (fst ws) in (b, e, (w, snd ws)))
    (fun b ws => let '(n, e, w) := nc_Write c b (fst ws) in (n, e, (w, snd ws)))
    (tracked_Close t c) (fun d ws => (nc_SetDeadline c d (fst ws), snd ws)) (Some (on_inner (closeWrite c))).
End metered.

(** What [DialContext] of [httpTransport] returns for a dialled stream, with metrics on. *)
Definition poolConn {W} (now : W -> Z) (timeout : Z) (t : nat) (c : net_conn W) : net_conn (W * (metrics * bool) * (gset nat * bool)) :=
  trackedConn t (meteredConn (idleConn now timeout c)).

(** ** progressResponseWriter *)

(** [Write]: the write deadline is set, then the response is written. *)
Definition progress_Write {W} (now : W -> Z) (setWriteDeadline : Z -> W -> W) (write : bytes -> W -> nat * option error * W)
    (timeout : Z) (p : bytes) (w : W) : nat * option error * W :=
  write p (setWriteDeadline (now w + timeout) w).

(** ** Calls *)
Inductive call := CallRead (len : nat) | CallWrite (b : bytes) | CallClose | CallSetDeadline (t : Z) | CallCloseWrite.
Inductive answer := AnsRead (b : bytes) (e : option error) | AnsWrite (n : nat) (e : option error) | AnsErr (e : option error) | AnsUnit.

Definition do_call {W} (c : net_conn W) (k : call) (w : W) : answer * W :=
  match k with
  | CallRead len => let '(b, e, w') := nc_Read c len w in (AnsRead b e, w')
  | CallWrite b => let '(n, e, w') := nc_Write c b w in (AnsWrite n e, w')
  | CallClose => let '(e, w') := nc_Close c w in (AnsErr e, w')
  | CallSetDeadline t => (AnsUnit, nc_SetDeadline c t w)
  | CallCloseWrite => let '(e, w') := closeWrite c w in (AnsErr e, w')
  end.
Fixpoint run_calls {W} (c : net_conn W) (ks : list call) (w : W) : list answer * W :=
  match ks with
  | [] => ([], w)
  | k :: ks => let '(r, w1) := do_call c k w in let '(rs, w2) := run_calls c ks w1 in (r :: rs, w2)
  end.

Definition is_close (k : call) : bool := match k with CallClose => true | _ => false end.
Definition read_count (r : answer) : Z := match r with AnsRead b _ => Z.of_nat (length b) | _ => 0 end.
Definition write_count (r : answer) : Z := match r with AnsWrite n _ => Z.of_nat n | _ => 0 end.

(** ** The stack is transparent and accounts exactly *)

(** What a call with this answer does to the metrics. *)
Definition metered_effect (k : call) (r : answer) (m : metrics) (once : bool) : metrics * bool :=
  match k, r with
  | CallRead _, AnsRead b _ => (if bool_decide (0 < length b)%nat then AddDown (Z.of_nat (length b)) m else m, once)
  | CallWrite _, AnsWrite n _ => (if bool_decide (0 < n)%nat then AddUp (Z.of_nat n) m else m, once)
  | CallClose, _ => (if once then m else stream_end m, true)
  | _, _ => (m, once)
  end.

Lemma metered_call {W} (c : net_conn W) k w m once :
  do_call (meteredConn c) k (w, (m, once)) =
    let '(r, w') := do_call c k w in (r, (w', metered_effect k r m once)).
Proof.
  destruct k; cbn.
  - by destruct (nc_Read c len w) as [[? ?] ?].
  - by destruct (nc_Write c b w) as [[? ?] ?].
  - by destruct (nc_Close c w).
  - done.
  - unfold on_inner. cbn. by destruct (closeWrite c w).
Qed.

Lemma tracked_call {W} t (c : net_conn W) k w table once :
  do_call (trackedConn t c) k (w, (table, once)) =
    let '(r, w') := do_call c k w in
    (r, (w', if is_close k then (if once then table else table ∖ {[t]}, true) else (table, once))).
Proof.
  destruct k; cbn.
  - by destruct (nc_Read c len w) as [[? ?] ?].
  - by destruct (nc_Write c b w) as [[? ?] ?].
  - by destruct (nc_Close c w).
  - done.
  - unfold on_inner. cbn. by destruct (closeWrite c w).
Qed.

(** The metrics before and after, when [rd] bytes were read, [wr] written and the
    connection was closed for the first time. *)
Definition accounted (m m' : metrics) (rd wr : Z) (first_close : bool) : Prop :=
  down m' = down m + rd /\ up m' = up m + wr /\
  ActiveStreams (streams m') = ActiveStreams (streams m) - (if first_close then 1 else 0) /\
  StreamsTotal (streams m') = StreamsTotal (streams m).

Lemma accounted_trans m1 m2 m3 r1 r2 w1 w2 f1 f2 : f1 && f2 = false -> accounted m1 m2 r1 w1 f1 -> accounted m2 m3 r2 w2 f2 ->
  accounted m1 m3 (r1 + r2) (w1 + w2) (f1 || f2).
Proof. unfold accounted. destruct f1, f2; cbn; try done; lia. Qed.

Lemma metered_effect_accounted {W} (c : net_conn W) k w r w' m once m' once' :
  do_call c k w = (r, w') -> metered_effect k r m once = (m', once') ->
  accounted m m' (read_count r) (write_count r) (is_close k && negb once) /\ once' = once || is_close k.
Proof.
  intros Hd. unfold accounted, metered_effect. destruct k; cbn in Hd |- *.
  - destruct (nc_Read c len w) as [[b e] w1]. injection Hd as <- <-. intros [= <- <-]. cbn [read_count write_count]. rewrite orb_false_r.
    case_bool_decide; [unfold AddDown; rewrite (proj2 (Z.ltb_lt _ _)) by lia|]; cbn; split; (lia || done).
  - destruct (nc_Write c b w) as [[n e] w1]. injection Hd as <- <-. intros [= <- <-]. cbn [read_count write_count]. rewrite orb_false_r.
    case_bool_decide; [unfold AddUp; rewrite (proj2 (Z.ltb_lt _ _)) by lia|]; cbn; split; (lia || done).
  - destruct (nc_Close c w) as [e w1]. injection Hd as <- <-. intros [= <- <-]. rewrite orb_true_r.
    destruct once; cbn; split; (lia || done).
  - injection Hd as <- <-. intros [= <- <-]. rewrite orb_false_r. cbn. split; (lia || done).
  - destruct (closeWrite c w) as [e w1]. injection Hd as <- <-. intros [= <- <-]. rewrite orb_false_r. cbn. split; (lia || done).
Qed.

Lemma metered_run {W} (c : net_conn W) ks w m once rs w' m' once' :
  run_calls (meteredConn c) ks (w, (m, once)) = (rs, (w', (m', once'))) ->
  run_calls c ks w = (rs, w') /\ once' = once || existsb is_close ks /\
  accounted m m' (sum_of read_count rs) (sum_of write_count rs) (existsb is_close ks && negb once).
Proof.
  revert w m once rs. induction ks as [|k ks IH]; intros w m once rs; cbn [run_calls existsb].
  { intros [= <- <- <- <-]. rewrite orb_false_r. split_and!; [done..|]. unfold accounted. cbn. lia. }
  rewrite metered_call. destruct (do_call c k w) as [r w1] eqn:Ed.
  destruct (metered_effect k r m once) as [m1 once1] eqn:Ee.
  destruct (metered_effect_accounted c k w r w1 m once m1 once1 Ed Ee) as [Ha ->].
  destruct (run_calls (meteredConn c) ks _) as [rs1 [w2 [m2 once2]]] eqn:Er. intros [= <- <- <- <-].
  destruct (IH _ _ _ _ Er) as (-> & -> & Hb). split; [done|]. split; [by rewrite orb_assoc|].
  replace ((is_close k || existsb is_close ks) && negb once)
    with ((is_close k && negb once) || (existsb is_close ks && negb (once || is_close k))) by (by destruct (is_close k), once, (existsb is_close ks)).
  cbn. eapply accounted_trans; [by destruct (is_close k), once, (existsb is_close ks)|done|done].
Qed.

Lemma tracked_run {W} t (c : net_conn W) ks w table once rs w' table' once' :
  run_calls (trackedConn t c) ks (w, (table, once)) = (rs, (w', (table', once'))) ->
  run_calls c ks w = (rs, w') /\ table' = if existsb is_close ks && negb once then table ∖ {[t]} else table.
Proof.
  revert w table once rs. induction ks as [|k ks IH]; intros w table once rs; cbn [run_calls existsb].
  { intros [= <- <- <- <-]. done. }
  rewrite tracked_call. destruct (do_call c k w) as [r w1].
  destruct (run_calls (trackedConn t c) ks _) as [rs1 [w2 [tb2 once2]]] eqn:Er. intros [= <- <- <- <-].
  destruct (is_close k); destruct (IH _ _ _ _ Er) as [-> ->]; (split; [done|]); [|done].
  rewrite andb_false_r. cbn. by destruct once.
Qed.

(** A stream of the HTTP transport behaves as the stream it wraps and is accounted
    exactly.  Whatever calls are made on it, the caller sees precisely the answers of
    the idle-timeout connection inside; the relayed-bytes counters grow by the bytes
    those answers report, and the first [Close], and no other call, takes it out of the
    active-stream gauge and of the table, however often it is closed. *)
Theorem pool_conn_accounting {W} (now : W -> Z) timeout t (c : net_conn W) ks w m table rs w' m' o1 table' o2 :
  run_calls (poolConn now timeout t c) ks (w, (m, false), (table, false)) = (rs, (w', (m', o1), (table', o2))) ->
  run_calls (idleConn now timeout c) ks w = (rs, w') /\
  down m' = down m + sum_of read_count rs /\ up m' = up m + sum_of write_count rs /\
  ActiveStreams (streams m') = ActiveStreams (streams m) - (if existsb is_close ks then 1 else 0) /\
  table' = (if existsb is_close ks then table ∖ {[t]} else table).
Proof.
  intros [H1 H2]%tracked_run. apply metered_run in H1 as (H1 & _ & Hd & Hu & Ha & _).
  rewrite andb_true_r in *. done.
Qed.

(** ** Idle timeouts of a relay

    The two copying goroutines of [relay] over two [idleConn]s that share one deadline
    per connection.  A direction is [true] from the application to the tunnel; the
    connection [false] is the application's, [true] the tunnel's, so direction [d] reads
    from [negb d] and writes to [d]. *)
Inductive copy_phase := CopyIdle | CopyReading | CopyGot (read_at : Z) | CopyWriting (read_at : Z) | CopyEnded.

(** [ir_deadline]: the deadline of each connection; [ir_last]: when it was last touched;
    [ir_chunks]: the direction of each chunk relayed so far and when it was read. *)
Record idle_relay := mkIdleRelay {
  ir_now : Z; ir_deadline : bool -> option Z; ir_last : bool -> option Z; ir_phase : bool -> copy_phase;
  ir_chunks : list (bool * Z);
}.
Definition idle_relay_init (t : Z) : idle_relay := mkIdleRelay t (fun _ => None) (fun _ => None) (fun _ => CopyIdle) [].

Definition upd {A} (k : bool) (v : A) (f : bool -> A) : bool -> A := fun x => if Bool.eqb x k then v else f x.

(** [touch] of connection [c]. *)
Definition touch_conn (T : Z) (c : bool) (s : idle_relay) : idle_relay :=
  mkIdleRelay (ir_now s) (if 0 <? T then upd c (Some (ir_now s + T)) (ir_deadline s) else ir_deadline s)
    (upd c (Some (ir_now s)) (ir_last s)) (ir_phase s) (ir_chunks s).
Definition set_phase (d : bool) (p : copy_phase) (s : idle_relay) : idle_relay :=
  mkIdleRelay (ir_now s) (ir_deadline s) (ir_last s) (upd d p (ir_phase s)) (ir_chunks s).
Definition add_chunk (d : bool) (read_at : Z) (s : idle_relay) : idle_relay :=
  mkIdleRelay (ir_now s) (ir_deadline s) (ir_last s) (ir_phase s) (ir_chunks s ++ [(d, read_at)]).
Definition pass_time (k : Z) (s : idle_relay) : idle_relay :=
  mkIdleRelay (ir_now s + k) (ir_deadline s) (ir_last s) (ir_phase s) (ir_chunks s).

(** Would an operation blocked on [c] fail with a timeout now? *)
Definition expired (s : idle_relay) (c : bool) : bool :=
  match ir_deadline s c with Some t => t <=? ir_now s | None => false end.

Inductive idle_step (T : Z) : idle_relay -> idle_relay -> Prop :=
| i_time s k : 0 < k -> idle_step T s (pass_time k s)
| i_read s d : ir_phase s d = CopyIdle -> idle_step T s (set_phase d CopyReading (touch_conn T (negb d) s))
| i_data s d : ir_phase s d = CopyReading -> idle_step T s (set_phase d (CopyGot (ir_now s)) (touch_conn T (negb d) s))
| i_empty s d : ir_phase s d = CopyReading -> idle_step T s (set_phase d CopyIdle s)
| i_end s d : ir_phase s d <> CopyIdle -> idle_step T s (set_phase d CopyEnded s)
| i_read_cut s d : ir_phase s d = CopyReading -> expired s (negb d) = true -> idle_step T s (set_phase d CopyEnded s)
| i_write s d t : ir_phase s d = CopyGot t -> idle_step T s (set_phase d (CopyWriting t) (touch_conn T d s))
| i_taken s d t : ir_phase s d = CopyWriting t -> idle_step T s (add_chunk d t (set_phase d CopyIdle (touch_conn T d s)))
| i_write_cut s d t : ir_phase s d = CopyWriting t -> expired s d = true -> idle_step T s (set_phase d CopyEnded s).

(** Is an operation blocked on connection [c]? *)
Definition blocked_on (s : idle_relay) (c : bool) : Prop :=
  ir_phase s (negb c) = CopyReading \/ exists t, ir_phase s c = CopyWriting t.

(** Connection [c] was touched at [t] or later. *)
Definition touched_since (s : idle_relay) (c : bool) (t : Z) : Prop := exists l, ir_last s c = Some l /\ t <= l <= ir_now s.

Record idle_inv (T : Z) (s : idle_relay) : Prop := {
  id_deadline : forall c, ir_deadline s c = if 0 <? T then (fun l => l + T) <$> ir_last s c else None;
  id_last : forall c l, ir_last s c = Some l -> l <= ir_now s;
  id_reading : forall d, ir_phase s d = CopyReading -> is_Some (ir_last s (negb d));
  id_got : forall d t, ir_phase s d = CopyGot t \/ ir_phase s d = CopyWriting t -> touched_since s (negb d) t;
  id_writing : forall d t, ir_phase s d = CopyWriting t -> touched_since s d t;
  id_chunks : forall d t, (d, t) ∈ ir_chunks s -> forall c, touched_since s c t;
}.

Lemma upd_eq {A} k (v : A) f : upd k v f k = v.
Proof. unfold upd. by rewrite eqb_reflx. Qed.
Lemma upd_ne {A} k k' (v : A) f : k <> k' -> upd k v f k' = f k'.
Proof. unfold upd. intros. rewrite (proj2 (eqb_false_iff k' k)) by congruence. done. Qed.

(** Touching keeps the order of times, and nothing else moves the deadlines. *)
Lemma touched_since_touch T s c c' t : touched_since s c t -> touched_since (touch_conn T c' s) c t.
Proof.
  intros (l & Hl & ?). unfold touched_since. cbn. destruct (decide (c' = c)) as [->|].
  - rewrite upd_eq. exists (ir_now s). split; [done|lia].
  - rewrite upd_ne by done. eauto.
Qed.
Lemma touched_now T s c t : t <= ir_now s -> touched_since (touch_conn T c s) c t.
Proof. intros. exists (ir_now s). cbn. rewrite upd_eq. split; [done|lia]. Qed.

Lemma idle_inv_touch T s c : idle_inv T s -> idle_inv T (touch_conn T c s).
Proof.
  intros [D L R G W K]. split; cbn [touch_conn ir_deadline ir_last ir_now ir_phase ir_chunks];
    try (intros; apply touched_since_touch; eauto); try done.
  - intros c'. destruct (decide (c = c')) as [->|].
    + rewrite upd_eq. destruct (0 <? T) eqn:E; [by rewrite upd_eq|]. by rewrite D.
    + rewrite (upd_ne c c' _ (ir_last s)) by done. destruct (0 <? T) eqn:E; [rewrite upd_ne by done|]; apply D.
  - intros c' l. destruct (decide (c = c')) as [->|]; [rewrite upd_eq; intros [= <-]; lia|rewrite upd_ne by done; apply L].
  - intros d Hd. destruct (decide (c = negb d)) as [->|]; [by rewrite upd_eq|rewrite upd_ne by done; by apply R].
Qed.

(** A phase change that its new phase justifies. *)
Lemma idle_inv_phase T s d p : idle_inv T s ->
  (p = CopyReading -> is_Some (ir_last s (negb d))) ->
  (forall t, p = CopyGot t \/ p = CopyWriting t -> touched_since s (negb d) t) ->
  (forall t, p = CopyWriting t -> touched_since s d t) -> idle_inv T (set_phase d p s).
Proof.
  intros [D L R G W K] H1 H2 H3. split; cbn [set_phase ir_deadline ir_last ir_now ir_phase ir_chunks]; try done.
  - intros d'. destruct (decide (d = d')) as [->|]; [rewrite upd_eq; auto|rewrite upd_ne by done; apply R].
  - intros d' t. destruct (decide (d = d')) as [->|]; [rewrite upd_eq; apply H2|rewrite upd_ne by done; apply G].
  - intros d' t. destruct (decide (d = d')) as [->|]; [rewrite upd_eq; apply H3|rewrite upd_ne by done; apply W].
Qed.

Lemma idle_inv_step T s s' : idle_step T s s' -> idle_inv T s -> idle_inv T s'.
Proof.
  intros Hst Hi. pose proof Hi as [D L R G W K].
  destruct Hst as [s k Hk|s d Hp|s d Hp|s d Hp|s d Hp|s d Hp He|s d t Hp|s d t Hp|s d t Hp He].
  - assert (forall c t, touched_since s c t -> touched_since (pass_time k s) c t) as Hm.
    { intros c t (l & ? & ?). exists l. cbn. split; [done|lia]. }
    split; cbn; eauto; intros c l Hl; apply L in Hl; lia.
  - apply idle_inv_phase; [by apply idle_inv_touch|intros _; cbn; by rewrite upd_eq|by intros t [|]|done].
  - apply idle_inv_phase; [by apply idle_inv_touch|done| |done]. intros t [[= <-]|[=]]. by apply touched_now.
  - apply idle_inv_phase; [done|done|by intros t [|]|done].
  - apply idle_inv_phase; [done|done|by intros t [|]|done].
  - apply idle_inv_phase; [done|done|by intros t [|]|done].
  - apply idle_inv_phase; [by apply idle_inv_touch|done| |].
    + intros t' [[=]|[= <-]]. apply touched_since_touch, G. auto.
    + intros t' [= <-]. apply touched_now. destruct (G d t ltac:(auto)) as (l & _ & ?). lia.
  - destruct (idle_inv_phase T (touch_conn T d s) d CopyIdle) as []; [by apply idle_inv_touch|done|by intros ? [|]|done|].
    split; try done. intros d' t' [Hc|[= -> ->]%list_elem_of_singleton]%elem_of_app c; [by eapply id_chunks0|].
    destruct (decide (c = d)) as [->|]; apply touched_since_touch; [by apply W|].
    assert (c = negb d) as -> by (by destruct c, d). apply G. auto.
  - apply idle_inv_phase; [done|done|by intros ? [|]|done].
Qed.

Lemma idle_inv_reach T t0 s : rtc (idle_step T) (idle_relay_init t0) s -> idle_inv T s.
Proof.
  intros HR. assert (idle_inv T (idle_relay_init t0)) as H0.
  { split; cbn; try done; [by intros; destruct (0 <? T)|by intros d t [|]|set_solver]. }
  revert H0. induction HR; eauto using idle_inv_step.
Qed.

(** C31: idle timeouts.  In every interleaving of the two directions of a relay and of the
    passing of time: an operation blocked on a connection can be cut exactly when nothing
    has touched that connection for the idle timeout (never when it is off), so a silent
    peer cannot hold the relay; and no connection can be cut while any chunk, in either
    direction, was read and relayed within that time: a one-way transfer keeps the quiet
    direction alive. *)
Theorem idle_relay_timeout T t0 s c : rtc (idle_step T) (idle_relay_init t0) s ->
  (0 < T -> blocked_on s c -> exists l, ir_last s c = Some l /\ l <= ir_now s /\ (expired s c = true <-> l + T <= ir_now s)) /\
  (expired s c = true -> 0 < T /\ forall d t, (d, t) ∈ ir_chunks s -> t + T <= ir_now s).
Proof.
  intros HR. destruct (idle_inv_reach _ _ _ HR) as [D L R G W K]. unfold expired. rewrite D. split.
  - intros HT Hb. rewrite (proj2 (Z.ltb_lt _ _) HT).
    assert (exists l, ir_last s c = Some l /\ l <= ir_now s) as (l & Hl & ?).
    { destruct Hb as [Hr|[t Hw]].
      - apply R in Hr as [l Hl]. rewrite negb_involutive in Hl. eauto.
      - apply W in Hw as (l & Hl & ?). exists l. split; [done|lia]. }
    exists l. rewrite Hl. cbn. split_and!; [done|lia|]. apply Z.leb_le.
  - destruct (Z.ltb_spec 0 T) as [HT|]; [|done]. destruct (ir_last s c) as [l|] eqn:El; [|done]. cbn.
    intros Hx%Z.leb_le. split; [done|]. intros d t Hc. destruct (K d t Hc c) as (l' & Hl' & ?). rewrite El in Hl'.
    injection Hl' as <-. lia.
Qed.

(** ** Concrete runs *)

(** A connection over a clock and a log of deadlines that answers every read with "ab"
    after two ticks and takes one byte of every write after one. *)
Definition toy_conn : net_conn (Z * list Z) :=
  mkNetConn (fun len '(t, l) => (take len (bs "ab"), None, (t + 2, l))) (fun b '(t, l) => (Nat.min 1 (length b), None, (t + 1, l)))
    (fun w => (None, w)) (fun d '(t, l) => (t, l ++ [d])) None.
Definition toy_calls : list call := [CallRead 8; CallWrite (bs "xyz"); CallCloseWrite; CallClose; CallClose].

Lemma pool_conn_accounting_witness :
  let '(rs, (w, (m, _), (table, _))) := run_calls (poolConn fst 10 7 toy_conn) toy_calls ((0, []), (stream_begin metrics_New, false), ({[7%nat]}, false)) in
  w = (3, [10; 12; 12; 13]) /\ down m = 2 /\ up m = 1 /\ ActiveStreams (streams m) = 0 /\ table = {[7%nat]} ∖ {[7%nat]} /\
  length rs = 5%nat.
Proof.
  destruct (run_calls _ _ _) as [rs [[w [m o1]] [table o2]]] eqn:E.
  destruct (pool_conn_accounting fst 10 7 toy_conn toy_calls (0, []) (stream_begin metrics_New) {[7%nat]} rs w m o1 table o2 E)
    as (H1 & H2 & H3 & H4 & H5).
  vm_compute in H1. injection H1 as <- <-. rewrite H2, H3, H4, H5. split_and!; reflexivity.
Defined.

Definition idle1 : idle_relay := set_phase false CopyReading (touch_conn 10 true (idle_relay_init 0)).
Definition idle2 : idle_relay := pass_time 10 idle1.

Lemma idle2_reach : rtc (idle_step 10) (idle_relay_init 0) idle2.
Proof. apply rtc_l with idle1; [by apply (i_read 10 (idle_relay_init 0) false)|]. apply rtc_once. by apply i_time. Qed.

Lemma idle_relay_timeout_witness : expired idle1 true = false /\ exists l, ir_last idle2 true = Some l /\ (expired idle2 true = true <-> l + 10 <= 10).
Proof.
  split; [reflexivity|]. destruct (proj1 (idle_relay_timeout 10 0 idle2 true idle2_reach)) as (l & H1 & _ & H2);
    [lia|left; reflexivity|]. exists l. split; [exact H1|exact H2].
Defined.
