(* ===== verification/HttpServe.v ===== *)
(** * The HTTP proxy at work

    Completes [internal/proxy/http.go] and [proxy.go] around the pieces of [HttpProxy],
    [Proxy] and [Conns]: the limited listener, the result of [serveHTTP], the transport
    with its limits and the whole of its [DialContext], and the forwarding of a plain
    request.  net/http's reverse proxy and transport are represented by the calls they
    document: [Rewrite], one round trip, then [ErrorHandler] or [ModifyResponse]. *)
From S2P Require Import Prelude GoStd GoNet Protocol Client Socks Proxy HttpProxy Metrics Registry.

(** ** limitedListener *)

(** [Accept]: the outcomes of the inner listener in turn, each with the state of the proxy
    at that moment; a refused connection is closed and the loop goes on.  The result is
    [None] while the inner listener still blocks; the number counts the refused. *)
Fixpoint limited_Accept (max : nat) (accepts : list (proxy * option error)) (p : proxy) : option (res nat) * proxy * nat :=
  match accepts with
  | [] => (None, p, 0%nat)
  | (p, Some e) :: _ => (Some (Err e), p, 0%nat)
  | (p, None) :: rest =>
      match track_slot max p with
      | (None, p) => let '(r, p', n) := limited_Accept max rest p in (r, p', S n)
      | (Some t, p) => (Some (Ok t), track_list t (mkTracked false Slotted) p, 0%nat)
      end
  end.

(** ** serveHTTP *)

(** What [ServeHTTP] and [serveHTTP] return: the error of listening, or that of
    [srv.Serve], unless the server was closed or the context is done. *)
Definition serveHTTP_result (listen serve : option error) (ctx_done : bool) : option error :=
  match listen with
  | Some e => Some e
  | None => match serve with
            | Some e => if errors_Is e ErrServerClosed || ctx_done then None else Some e
            | None => None
            end
  end.

(** ** httpTransport *)
Record transport := mkTransport {
  tr_DisableKeepAlives : bool; tr_MaxIdleConns : Z; tr_MaxIdleConnsPerHost : Z; tr_MaxConnsPerHost : Z;
  tr_IdleConnTimeout : Z; tr_ResponseHeaderTimeout : Z; tr_MaxResponseHeaderBytes : Z;
}.

(** The limits; [client] is the client's options, if there is a client. *)
Definition httpTransport (o : Proxy.Options) (client : option Client.Options) : transport :=
  let idle := Proxy.MaxConnections o in
  let idle := match client with Some c => Z.min idle (HTTPIdleCapacity c) | None => idle end in
  mkTransport (idle =? 0) (Z.max 1 idle) (Z.max 1 (Z.min 16 idle)) (Proxy.MaxConnections o)
    (Proxy.IdleTimeout o) (Proxy.HTTPResponseHeaderTimeout o) (Proxy.MaxHeaderBytes o).

(** ** DialContext *)

(** The connection it returns, from the outside in. *)
Inductive layer := LTracked | LMetered | LIdle | LCodec | LStream.
#[export] Instance layer_eq_dec : EqDecision layer.
Proof. solve_decision. Defined.

Record dial_out := mkDialOut { do_result : res (list layer); do_metrics : option metrics; do_dialled : list Address }.

(** [closing1] and [closing2]: is the pool closing at the first and at the second lock? *)
Definition transport_DialContext (closing1 closing2 : bool) (addr : bytes) (dialStream : Address -> res bool) (m : option metrics) : dial_out :=
  if closing1 then mkDialOut (Err ErrNetClosed) m []
  else match ParseAddress addr with
  | Err _ => mkDialOut (Err (ErrNew "proxy: invalid HTTP target")) m []
  | Ok a =>
      if Port a =? 0 then mkDialOut (Err (ErrNew "proxy: invalid HTTP target")) m []
      else match dialStream a with
      | Err e => mkDialOut (Err e) (if countDialErr e then dial_error <$> m else m) [a]
      | Ok compressed =>
          let c := LIdle :: (if compressed then [LCodec; LStream] else [LStream]) in
          let c := LTracked :: (if m then LMetered :: c else c) in
          let m := stream_begin <$> m in
          if closing2 then mkDialOut (Err ErrNetClosed) (stream_end <$> m) [a]   (* tracked.Close() *)
          else mkDialOut (Ok c) m [a]
      end
  end.

(** ** Forwarding *)

(** The request that goes upstream: its URL's host, its Host header, and whether it asks
    for the connection to be closed. *)
Record out_request := mkOutReq { oq_url_host : bytes; oq_host : bytes; oq_close : bool }.
Definition Rewrite (q : out_request) : out_request := mkOutReq (oq_url_host q) (oq_url_host q) false.

(** The response that goes back: the status, whether "Connection: close" is set by the
    proxy, and the body. *)
Record fresponse := mkFResp { fr_status : Z; fr_close : bool; fr_body : bytes }.

(** The reverse proxy on an accepted request: [body] is the request body as it stands when
    the response arrives. *)
Definition forward_http (r : hrequest) (body : option progressBody) (answer : res (Z * bytes)) : fresponse :=
  match answer with
  | Err e => mkFResp (capacityHTTPStatus e) (hr_body r) (bs "upstream unavailable" ++ [Byte.x0a])
  | Ok (status, b) => mkFResp status (must_close body) b
  end.

(** The whole handler on a plain request: the checks, then the round trip, on a connection
    it may have to dial. *)
Definition http_plain (r : hrequest) (close : bool) (roundTrip : out_request -> res (Z * bytes)) (body : option progressBody)
    : hresponse + (out_request * fresponse) :=
  match httpHandler r (fun _ => Err ErrClosed) None with
  | (Forwarded _, _) =>
      let q := Rewrite (mkOutReq (url_host r) (hr_host r) close) in
      inr (q, forward_http r body (roundTrip q))
  | (resp, _) => inl resp
  end.

(** ** Properties *)

(** The limited listener hands out only connections that hold a slot and are listed; an
    error it returns is the inner listener's; and it closed exactly the connections that
    found every slot taken. *)
Lemma limited_Accept_spec max accepts p0 r p n : limited_Accept max accepts p0 = (r, p, n) ->
  (n <= length accepts)%nat /\ Forall (fun a => (max <= px_slots a.1)%nat /\ a.2 = None) (take n accepts) /\
  match r with
  | None => n = length accepts
  | Some (Err e) => (snd <$> accepts !! n) = Some (Some e)
  | Some (Ok t) => px_tracked p !! t = Some (mkTracked false Listed) /\ t ∈ px_conns p /\ (px_slots p <= max)%nat
  end.
Proof.
  revert p0 n. induction accepts as [|[q [e|]] rest IH]; intros p0 n; cbn [limited_Accept].
  - intros [= <- <- <-]. by split_and!; [lia|..].
  - intros [= <- <- <-]. by split_and!; [lia|..].
  - unfold track_slot. case_bool_decide as Hs.
    + intros [= <- <- <-]. split_and!; [lia|done|..]; cbn; [by rewrite lookup_insert_eq|set_solver|lia].
    + destruct (limited_Accept max rest q) as [[r' p'] k] eqn:E. intros [= <- <- <-]. destruct (IH _ _ E) as (H1 & H2 & H3).
      split_and!; [cbn; lia|constructor; [cbn; split; [lia|done]|done]|].
      destruct r' as [[t|e]|]; [done|done|cbn; lia].
Qed.

(** Idle connections leave room.  Whatever the options, the transport keeps at most half of
    the client's streams (and, with compression, half of its codecs) as idle connections,
    never more than the proxy's own limit, and none at all when that half is zero; so a
    request for another destination always finds stream and codec capacity that idle
    connections do not hold. *)
Theorem idle_headroom o c : let c := Client.New_options c in let o := proxy_defaults o in
  let tr := httpTransport o (Some c) in
  let kept := if tr_DisableKeepAlives tr then 0 else tr_MaxIdleConns tr in
  0 <= kept /\ 2 * kept <= Client.MaxActiveStreams c /\ kept < Client.MaxActiveStreams c /\ kept <= Proxy.MaxConnections o /\
  (Client.Compression c = true -> 2 * kept <= Client.MaxCompressedStreams c /\ kept < Client.MaxCompressedStreams c) /\
  1 <= tr_MaxIdleConnsPerHost tr <= 16.
Proof.
  cbv zeta. set (c' := Client.New_options c). set (o' := proxy_defaults o).
  assert (1 <= Client.MaxActiveStreams c') as Ha by (subst c'; unfold Client.New_options; cbn; case_match; bool_props; lia).
  assert (1 <= Client.MaxCompressedStreams c') as Hz.
  { subst c'. unfold Client.New_options. cbn. repeat case_match; bool_props; lia. }
  assert (1 <= Proxy.MaxConnections o') as Hm by (subst o'; unfold proxy_defaults; cbn; case_match; bool_props; lia).
  clearbody c' o'. unfold httpTransport, HTTPIdleCapacity. cbn.
  pose proof (Z.quot_pos (Client.MaxActiveStreams c') 2 ltac:(lia) ltac:(lia)). pose proof (Z.quot_pos (Client.MaxCompressedStreams c') 2 ltac:(lia) ltac:(lia)).
  pose proof (Z.mul_quot_le (Client.MaxActiveStreams c') 2 ltac:(lia) ltac:(lia)). pose proof (Z.mul_quot_le (Client.MaxCompressedStreams c') 2 ltac:(lia) ltac:(lia)).
  set (idle := Z.min _ _). assert (0 <= idle) by (subst idle; case_match; lia).
  destruct (Z.eqb_spec idle 0) as [E|Hne]; split_and!; try lia; try (subst idle; case_match; lia).
  all: intros Hc; subst idle; rewrite Hc in *; lia.
Qed.

(** ** Forwarding on a new connection *)

(** The transport's round trip when no idle connection fits: it dials the address it forms
    of the URL's host ([canonicalAddr], of net/http), and then exchanges request and
    response on the connection; a failed dial is the error of the round trip. *)
Section fresh.
  Context (canonicalAddr : bytes -> bytes) (closing1 closing2 : bool) (dialStream : Address -> res bool) (m : option metrics).
  Context (exchange : list layer -> out_request -> res (Z * bytes)).

Definition fresh_dial (q : out_request) : dial_out := transport_DialContext closing1 closing2 (canonicalAddr (oq_url_host q)) dialStream m.
Definition fresh_roundTrip (q : out_request) : res (Z * bytes) :=
  match do_result (fresh_dial q) with Err e => Err e | Ok c => exchange c q end.

(** What a dial promises: at most one stream, to the address as it parses, never to port 0
    and never once the pool is closing; the connection is listed, metered and decoded
    exactly as configured and negotiated; the gauge of active streams counts exactly the
    connections handed out. *)
Definition dial_promise (addr : bytes) (d : dial_out) : Prop :=
  (forall a, a ∈ do_dialled d -> ParseAddress addr = Ok a /\ Port a <> 0 /\ closing1 = false /\ do_dialled d = [a]) /\
  match do_result d with
  | Ok c => closing2 = false /\ head c = Some LTracked /\ last c = Some LStream /\ LIdle ∈ c /\ (LMetered ∈ c <-> is_Some m) /\
      (exists a comp, do_dialled d = [a] /\ dialStream a = Ok comp /\ (LCodec ∈ c <-> comp = true)) /\
      do_metrics d = stream_begin <$> m
  | Err e => (ActiveStreams ∘ streams) <$> do_metrics d = (ActiveStreams ∘ streams) <$> m /\
      (DialErrors ∘ streams) <$> do_metrics d = (fun x => DialErrors (streams x) +
         if existsb (fun a => match dialStream a with Err e => countDialErr e | Ok _ => false end) (do_dialled d) then 1 else 0) <$> m
  end.

Lemma dial_context_promise addr : dial_promise addr (transport_DialContext closing1 closing2 addr dialStream m).
Proof using Type.
  clear canonicalAddr exchange. unfold dial_promise, transport_DialContext. destruct closing1 eqn:E1; cbn.
  { split; [set_solver|]. destruct m; cbn; rewrite ?Z.add_0_r; done. }
  destruct (ParseAddress addr) as [a|e] eqn:Ea; cbn.
  2: { split; [set_solver|]. destruct m; cbn; rewrite ?Z.add_0_r; done. }
  destruct (Z.eqb_spec (Port a) 0) as [|Hp]; cbn.
  { split; [set_solver|]. destruct m; cbn; rewrite ?Z.add_0_r; done. }
  destruct (dialStream a) as [comp|e] eqn:Ed; [destruct closing2 eqn:E2|]; cbn.
  - split; [intros b ->%list_elem_of_singleton; done|]. rewrite Ed. destruct m; cbn; split; try done; do 2 f_equal; lia.
  - split; [intros b ->%list_elem_of_singleton; done|]. split_and!; try done; try by destruct m, comp.
    + destruct m, comp; set_solver.
    + destruct m, comp; split; intros H; try done; try set_solver; by destruct H.
    + exists a, comp. split_and!; [done|done|]. destruct m, comp; set_solver.
  - split; [intros b ->%list_elem_of_singleton; done|]. rewrite Ed. destruct (countDialErr e), m; cbn; split; try done; f_equal; lia.
Qed.

(** C32: forwarding a plain request.  It is refused with 400 exactly when its URL is not an
    absolute http URL without user and with a valid target; otherwise what goes upstream
    names the URL's host as its Host and does not ask to close the connection.  A failed
    dial is answered with 503 for capacity and 502 for anything else, as is a failed
    exchange, and the connection is closed when an unread body could follow; a response
    passes with its status and body unchanged, and closes the connection exactly when the
    upload it answers is incomplete.  The dial keeps its promise throughout. *)
Theorem http_forward_contract r close body : hr_method r <> bs "CONNECT" ->
  match http_plain r close fresh_roundTrip body with
  | inl resp => resp = rejectHTTP r 400 /\
      (url_scheme r <> bs "http" \/ url_host r = [] \/ url_user r = true \/ http_target (url_host r) (bs "80") = None)
  | inr (q, f) => url_scheme r = bs "http" /\ url_user r = false /\ is_Some (http_target (url_host r) (bs "80")) /\
      oq_host q = url_host r /\ oq_url_host q = url_host r /\ oq_close q = false /\
      dial_promise (canonicalAddr (url_host r)) (fresh_dial q) /\
      match fresh_roundTrip q with
      | Ok (status, b) => f = mkFResp status (if body is Some x then negb (pb_eof x) else false) b /\
          exists c, do_result (fresh_dial q) = Ok c /\ exchange c q = Ok (status, b)
      | Err e => fr_close f = hr_body r /\ (fr_status f = 503 <-> errors_Is e ErrCapacity = true) /\ (fr_status f = 503 \/ fr_status f = 502)
      end
  end.
Proof using Type.
  intros Hm. unfold http_plain, httpHandler. rewrite bool_decide_eq_false_2 by done.
  destruct (_ || _ || url_user r) eqn:Eo.
  { split; [done|]. rewrite !orb_true_iff, negb_true_iff, bool_decide_eq_false, bool_decide_eq_true in Eo. naive_solver. }
  apply orb_false_iff in Eo as [[Es%negb_false_iff%bool_decide_eq_true Eh]%orb_false_iff Eu].
  destruct (http_target _ _) as [a|] eqn:Et; [|cbn; auto 10].
  split_and!; try done.
  { apply dial_context_promise. }
  unfold forward_http. destruct (fresh_roundTrip _) as [[st b]|e] eqn:Er.
  - split; [done|]. unfold fresh_roundTrip in Er. destruct (do_result _) as [c|]; [by exists c|done].
  - cbn. unfold capacityHTTPStatus. destruct (errors_Is e ErrCapacity); split_and!; auto; done.
Qed.
End fresh.

(** A request for a name on port 8080: the client is out of streams. *)
Definition plain_req : hrequest := mkHRequest (bs "POST") (bs "other") true (bs "http") (bs "example.org:8080") false.
Definition plain_dial (a : Address) : res bool := Err ErrCapacity.

Lemma http_forward_contract_witness :
  let rt := fresh_roundTrip id false false plain_dial (Some metrics_New) (fun _ _ => Ok (200, [])) in
  exists q f, http_plain plain_req true rt (Some newProgressBody) = inr (q, f) /\ fr_status f = 503 /\ fr_close f = true /\
    oq_host q = bs "example.org:8080".
Proof.
  cbv zeta. eexists _, _. split; [vm_compute; reflexivity|].
  pose proof (http_forward_contract id false false plain_dial (Some metrics_New) (fun _ _ => Ok (200, [])) plain_req true (Some newProgressBody) ltac:(done)) as H.
  vm_compute in H. destruct H as (_ & _ & _ & Hh & _ & _ & _ & Hc & Hs & _). split_and!; [by apply Hs|exact Hc|exact Hh].
Defined.
