(* ===== verification/Serving.v ===== *)
(** * Accept loops and their shutdown

    Models the lifetime of the accepting sides: [serveSOCKS] with [closeConnections] of
    package proxy, [Serve] with [handleConn] and [closeConnections] of package server,
    which share one shape, and the request gate of [serveHTTP].  That a handler returns
    once its connection is closed (its reads and writes fail) is the meaning of [s_end].  Each step is one
    critical section, channel operation or system call; the steps of the loop, the
    workers and the callbacks of the context interleave freely. *)
From S2P Require Import Prelude.

(** ** The accept loop *)

(** Where the loop stands: in [Accept]; with an admitted connection; in the deferred
    function, closing the listed connections; waiting for the workers; returned. *)
Inductive loop := Accepting | Holding (c : nat) | ClosingAll | Waiting | Returned.

(** The worker of a connection: not started, in its handler, returned. *)
Inductive worker := NotStarted | Running | Ended.

Record serving := mkServing {
  sv_loop : loop; sv_cancelled : bool; sv_listening : bool; sv_conns : gmap nat (bool * worker);
}.
Definition serving_init : serving := mkServing Accepting false true ∅.

Definition set_loop l s := mkServing l (sv_cancelled s) (sv_listening s) (sv_conns s).
Definition set_conn c x s := mkServing (sv_loop s) (sv_cancelled s) (sv_listening s) (<[c := x]> (sv_conns s)).

(** The context ends: by its parent, or by the deferred function. *)
Definition cancel_serving s := mkServing (sv_loop s) true (sv_listening s) (sv_conns s).
Definition close_listener s := mkServing (sv_loop s) (sv_cancelled s) false (sv_conns s).

(** [Accept] returned a connection that was admitted. *)
Definition accept_held s : serving :=
  let c := fresh (dom (sv_conns s)) in set_loop (Holding c) (set_conn c (true, NotStarted) s).

(** The deferred function up to the list of [closeConnections]. *)
Definition begin_shutdown s : serving := set_loop ClosingAll (close_listener (cancel_serving s)).

(** One connection of the list of [closeConnections] (or the callback of its handler). *)
Definition close_listed (c : nat) (w : worker) s : serving := set_conn c (false, w) s.

(** Steps that shutdown alone makes happen, once the context is done: connections are
    closed ([closeConnections] and the callbacks of the handlers), a handler whose
    connection is closed ends, and the loop waits for the handlers and returns. *)
Inductive shut_step : serving -> serving -> Prop :=
| s_close s c w : sv_cancelled s = true -> sv_conns s !! c = Some (true, w) -> shut_step s (close_listed c w s)
| s_closed s : sv_loop s = ClosingAll -> shut_step s (set_loop Waiting s)
| s_end s c : sv_cancelled s = true -> sv_conns s !! c = Some (false, Running) -> shut_step s (set_conn c (false, Ended) s)
| s_wait s : sv_loop s = Waiting -> (forall c o, sv_conns s !! c <> Some (o, Running)) -> shut_step s (set_loop Returned s).

(** All steps.  [checks]: the loop looks at the context again before it starts a worker
    (the SOCKS loop does). *)
Inductive serve_step (checks : bool) : serving -> serving -> Prop :=
| s_shut s s' : shut_step s s' -> serve_step checks s s'
| s_cancel s : serve_step checks s (cancel_serving s)
| s_listener s : sv_cancelled s = true -> serve_step checks s (close_listener s)
| s_accept s : sv_loop s = Accepting -> sv_listening s = true -> serve_step checks s (accept_held s)
| s_start s c o : sv_loop s = Holding c -> (checks = true -> sv_cancelled s = false) -> sv_conns s !! c = Some (o, NotStarted) ->
    serve_step checks s (set_loop Accepting (set_conn c (o, Running) s))
| s_refuse s c o : sv_loop s = Holding c -> checks = true -> sv_cancelled s = true -> sv_conns s !! c = Some (o, NotStarted) ->
    serve_step checks s (begin_shutdown (set_conn c (false, Ended) s))
| s_fail s : sv_loop s = Accepting -> serve_step checks s (begin_shutdown s)
| s_finish s c o : sv_conns s !! c = Some (o, Running) -> serve_step checks s (set_conn c (false, Ended) s).

(** ** Invariant *)

Definition shutting (s : serving) : bool := match sv_loop s with ClosingAll | Waiting | Returned => true | _ => false end.

Record serve_inv (s : serving) : Prop := {
  vi_held : forall c o, sv_conns s !! c = Some (o, NotStarted) -> sv_loop s = Holding c;
  vi_ended : forall c o, sv_conns s !! c = Some (o, Ended) -> o = false;
  vi_shut : shutting s = true -> sv_cancelled s = true /\ sv_listening s = false;
  vi_done : sv_loop s = Returned -> forall c o, sv_conns s !! c <> Some (o, Running);
}.

(** Work left in a shutdown: closings, ends and phases. *)
Definition is_open (x : bool * worker) : bool := fst x.
Definition is_running (x : bool * worker) : bool := match snd x with Running => true | _ => false end.
Definition work_left (s : serving) : nat :=
  (mcount is_open (sv_conns s) + mcount is_running (sv_conns s) +
   match sv_loop s with ClosingAll => 2 | Waiting => 1 | _ => 0 end)%nat.

Ltac conn_cases :=
  repeat match goal with
         | H : <[_ := _]> _ !! _ = Some _ |- _ => apply lookup_insert_Some in H; destruct H as [[? ?]|[? ?]]
         end; simplify_eq; try done.

Lemma shut_step_inv s s' : shut_step s s' -> serve_inv s -> serve_inv s'.
Proof.
  intros Hst [Hh He Hs Hd]. destruct Hst as [s c w Hc Hw|s Hl|s c Hc Hw|s Hl Hn];
    split; cbn [close_listed set_conn set_loop sv_loop sv_cancelled sv_listening sv_conns shutting] in *.
  - intros c' o H. conn_cases; eauto.
  - intros c' o H. conn_cases; eauto.
  - done.
  - intros Hr c' o H. conn_cases; by eapply Hd.
  - intros c' o H. specialize (Hh c' o H). congruence.
  - done.
  - intros _. apply Hs. unfold shutting. by rewrite Hl.
  - done.
  - intros c' o H. conn_cases; eauto.
  - intros c' o H. conn_cases; eauto.
  - done.
  - intros Hr c' o H. conn_cases; by eapply Hd.
  - intros c' o H. specialize (Hh c' o H). congruence.
  - done.
  - intros _. apply Hs. unfold shutting. by rewrite Hl.
  - done.
Qed.

Lemma serve_step_inv checks s s' : serve_step checks s s' -> serve_inv s -> serve_inv s'.
Proof.
  intros Hst Hi. pose proof Hi as [Hh He Hs Hd]. destruct Hst as [s s' Hst|s|s Hc|s Hl Hn|s c o Hl Hk Hc|s c o Hl Hk Hx Hc|s Hl|s c o Hc].
  - by eapply shut_step_inv.
  - by split; [..|intros H; split; [|apply Hs]|].
  - by split; [..|intros H; destruct (Hs H)|].
  - assert (sv_conns s !! fresh (dom (sv_conns s)) = None) as Hf by (apply not_elem_of_dom, is_fresh).
    split; cbn; try done; intros c' o H; conn_cases; eauto. specialize (Hh c' o H0). congruence.
  - split; cbn; try done; intros c' o' H; conn_cases; eauto. specialize (Hh c' o' H0). congruence.
  - split; cbn; try done; intros c' o' H; conn_cases; eauto. specialize (Hh c' o' H0). congruence.
  - split; cbn; try done; intros c' o' H; eauto. specialize (Hh c' o' H). congruence.
  - split; cbn in *; try done; [intros c' o' H|intros c' o' H|intros Hr c' o' H]; conn_cases; eauto. by eapply Hd.
Qed.

Lemma serve_inv_reach checks s : rtc (serve_step checks) serving_init s -> serve_inv s.
Proof.
  intros HR. assert (serve_inv serving_init) as Hi by (split; cbn; try done; intros ? ? ?; by rewrite lookup_empty in *).
  revert Hi. induction HR as [|s1 s2 s3 Hst _ IH]; [done|]. intros Hi. apply IH. by eapply serve_step_inv.
Qed.

Lemma shut_step_work s s' : shut_step s s' -> shutting s = true -> shutting s' = true /\ (work_left s' < work_left s)%nat.
Proof.
  intros Hst Hsh. destruct Hst as [s c w Hc Hw|s Hl|s c Hc Hw|s Hl Hn]; unfold work_left;
    cbn [close_listed set_conn set_loop sv_loop sv_conns shutting].
  - split; [done|]. pose proof (mcount_insert_old is_open _ c (false, w) _ Hw) as H1.
    pose proof (mcount_insert_old is_running _ c (false, w) _ Hw) as H2. destruct w; cbn in H1, H2; lia.
  - rewrite Hl. split; [done|lia].
  - split; [done|]. pose proof (mcount_insert_old is_open _ c (false, Ended) _ Hw) as H1.
    pose proof (mcount_insert_old is_running _ c (false, Ended) _ Hw) as H2. cbn in H1, H2. lia.
  - rewrite Hl. split; [done|lia].
Qed.

(** A shutdown that has not returned can always go on by itself. *)
Lemma shut_progress s : serve_inv s -> shutting s = true -> sv_loop s <> Returned -> exists s', shut_step s s'.
Proof.
  intros [_ _ Hs _] Hsh Hr. destruct (Hs Hsh) as [Hc _].
  destruct (sv_loop s) eqn:El; try done; [unfold shutting in Hsh; by rewrite El in Hsh..|eauto using s_closed|].
  destruct (decide (mcount is_running (sv_conns s) = 0%nat)) as [Hz|Hz].
  - exists (set_loop Returned s). apply s_wait; [done|]. intros c o Hk.
    pose proof (mcount_pos is_running _ _ _ Hk eq_refl). lia.
  - assert (exists c x, sv_conns s !! c = Some x /\ is_running x = true) as (c & [o w] & Hk & Hw).
    { unfold mcount in Hz. apply map_size_non_empty_iff, map_choose in Hz as (c & x & [? ?]%map_lookup_filter_Some). eauto. }
    destruct w; try done. destruct o; eauto using s_close, s_end.
Qed.

(** C29: an accept loop shuts down completely and on its own.  In every interleaving of
    accepting, handlers, cancellation and their callbacks: when the loop has returned,
    every connection it accepted is closed and every handler has ended; and from the
    moment it stops accepting, closing connections and ending handlers whose connection
    is closed is always enough to go on and every such step leaves less to do, so no
    peer and no handler can keep the loop from returning. *)
Theorem serve_shutdown checks s : rtc (serve_step checks) serving_init s ->
  (sv_loop s = Returned -> sv_listening s = false /\ forall c o w, sv_conns s !! c = Some (o, w) -> o = false /\ w = Ended) /\
  (shutting s = true -> sv_loop s <> Returned -> exists s', shut_step s s') /\
  (shutting s = true -> forall s', shut_step s s' -> shutting s' = true /\ (work_left s' < work_left s)%nat).
Proof.
  intros HR. pose proof (serve_inv_reach _ _ HR) as Hi. split; [|split; [by apply shut_progress|intros Hs s' Hst; by apply shut_step_work]].
  intros Hl. pose proof Hi as [Hh He Hs Hd].
  split; [apply Hs; unfold shutting; by rewrite Hl|]. intros c o [| |] Hk.
  - specialize (Hh c o Hk). congruence.
  - by destruct (Hd Hl c o).
  - split; [by eapply He|done].
Qed.

(** ** The request gate of serveHTTP *)

(** A request handler: before the gate, past it, turned away, returned. *)
Inductive handler := AtGate | Inside | TurnedAway | Left.
Inductive gloop := GServing | GStopping | GWaited.
Record gate := mkGate { g_loop : gloop; g_stopping : bool; g_workers : nat; g_handlers : gmap nat handler }.
Definition gate_init : gate := mkGate GServing false 0 ∅.

(** The critical section of the handler: [workers.Add(1)] only while not stopping. *)
Definition enter (h : nat) (s : gate) : gate :=
  if g_stopping s then mkGate (g_loop s) true (g_workers s) (<[h := TurnedAway]> (g_handlers s))
  else mkGate (g_loop s) false (S (g_workers s)) (<[h := Inside]> (g_handlers s)).
Definition leave (h : nat) (s : gate) : gate :=
  mkGate (g_loop s) (g_stopping s) (pred (g_workers s)) (<[h := Left]> (g_handlers s)).

(** [net/http] may call the handler at any time, also during the shutdown. *)
Inductive gate_step : gate -> gate -> Prop :=
| g_request s : gate_step s (mkGate (g_loop s) (g_stopping s) (g_workers s) (<[fresh (dom (g_handlers s)) := AtGate]> (g_handlers s)))
| g_enter s h : g_handlers s !! h = Some AtGate -> gate_step s (enter h s)
| g_leave s h : g_handlers s !! h = Some Inside -> gate_step s (leave h s)
| g_stop s : g_loop s = GServing -> gate_step s (mkGate GStopping true (g_workers s) (g_handlers s))
| g_wait s : g_loop s = GStopping -> g_workers s = 0%nat -> gate_step s (mkGate GWaited (g_stopping s) (g_workers s) (g_handlers s)).

Definition inside (x : handler) : bool := match x with Inside => true | _ => false end.

Record gate_inv (s : gate) : Prop := {
  gi_workers : g_workers s = mcount inside (g_handlers s);
  gi_stopping : g_stopping s = match g_loop s with GServing => false | _ => true end;
  gi_waited : g_loop s = GWaited -> g_workers s = 0%nat;
}.

Lemma gate_step_inv s s' : gate_step s s' -> gate_inv s -> gate_inv s' /\ (g_stopping s = true -> (g_workers s' <= g_workers s)%nat /\ g_stopping s' = true).
Proof.
  intros Hst [Hw Hs Hd]. destruct Hst as [s|s h Hh|s h Hh|s Hl|s Hl Hz].
  - assert (g_handlers s !! fresh (dom (g_handlers s)) = None) as Hf by (apply not_elem_of_dom, is_fresh).
    split; [|done]. split; cbn [g_workers g_handlers g_stopping g_loop]; [by rewrite mcount_insert_new|done|done].
  - unfold enter. pose proof (mcount_insert_old inside _ h Inside _ Hh) as H1.
    pose proof (mcount_insert_old inside _ h TurnedAway _ Hh) as H2. cbn in H1, H2.
    destruct (g_stopping s) eqn:Es; (split; [|done]); split; cbn [g_workers g_handlers g_stopping g_loop]; try done; [lia..|].
    intros Hl. by rewrite Hl in Hs.
  - pose proof (mcount_insert_old inside _ h Left _ Hh) as H1. pose proof (mcount_pos inside _ _ _ Hh eq_refl) as H2. cbn in H1.
    split; [|intros ?; cbn; split; [lia|done]]. split; cbn [leave g_workers g_handlers g_stopping g_loop]; [lia|done|].
    intros Hl. specialize (Hd Hl). lia.
  - split; [|done]. split; cbn; done.
  - split; [|done]. split; cbn; try done. by rewrite Hs, Hl.
Qed.

Lemma gate_inv_reach s : rtc gate_step gate_init s -> gate_inv s.
Proof.
  intros HR. assert (gate_inv gate_init) as Hi by (split; cbn; [by rewrite mcount_empty|done..]).
  revert Hi. induction HR as [|s1 s2 s3 Hst _ IH]; [done|]. intros Hi. by apply IH, (gate_step_inv _ _ Hst).
Qed.

Lemma gate_stays s s' : rtc gate_step s s' -> gate_inv s -> g_stopping s = true -> (g_workers s' <= g_workers s)%nat /\ gate_inv s'.
Proof.
  intros HR. induction HR as [s|s1 s2 s3 Hst _ IH]; intros Hi Hs; [done|].
  destruct (gate_step_inv _ _ Hst Hi) as [Hi2 Hk]. destruct (Hk Hs) as [? Hs2]. destruct (IH Hi2 Hs2). split; [lia|done].
Qed.

(** The gate of the HTTP proxy.  Once it stops, the number of handlers inside never
    grows again, so [Wait] cannot miss one; when [Wait] has returned no handler is
    inside, and none will be in any later interleaving, although the HTTP server may
    still call them. *)
Theorem http_gate s : rtc gate_step gate_init s ->
  g_workers s = mcount inside (g_handlers s) /\
  (g_stopping s = true -> forall s', rtc gate_step s s' -> (g_workers s' <= g_workers s)%nat) /\
  (g_loop s = GWaited -> forall s' h, rtc gate_step s s' -> g_handlers s' !! h <> Some Inside).
Proof.
  intros HR. pose proof (gate_inv_reach _ HR) as Hi. pose proof Hi as [Hw Hs Hd]. split; [done|]. split.
  - intros Hst s' HR'. by apply (gate_stays _ _ HR').
  - intros Hl s' h HR' Hh. rewrite Hl in Hs. destruct (gate_stays _ _ HR' Hi Hs) as [Hle [Hw' _ _]].
    pose proof (mcount_pos inside _ _ _ Hh eq_refl). specialize (Hd Hl). lia.
Qed.

(** ** Concrete runs *)
Definition serve1 : serving := accept_held serving_init.
Definition serve2 : serving := set_loop Accepting (set_conn 0 (true, Running) serve1).
Definition serve3 : serving := begin_shutdown serve2.

Lemma serve3_reach : rtc (serve_step true) serving_init serve3.
Proof.
  apply rtc_l with serve1; [by apply s_accept|].
  apply rtc_l with serve2; [by apply (s_start true serve1 0 true)|]. apply rtc_once. by apply s_fail.
Qed.

Lemma serve_shutdown_witness : work_left serve3 = 4%nat /\ exists s', shut_step serve3 s'.
Proof.
  split; [reflexivity|]. apply (proj1 (proj2 (serve_shutdown true serve3 serve3_reach))); [reflexivity|discriminate].
Defined.

Definition gate1 : gate := mkGate GServing false 0 {[ 0%nat := AtGate ]}.
Definition gate2 : gate := mkGate GStopping true 0 {[ 0%nat := AtGate ]}.
Definition gate3 : gate := mkGate GWaited true 0 {[ 0%nat := AtGate ]}.

Lemma gate3_reach : rtc gate_step gate_init gate3.
Proof.
  apply rtc_l with gate1; [apply (g_request gate_init)|].
  apply rtc_l with gate2; [by apply (g_stop gate1)|]. apply rtc_once. by apply (g_wait gate2).
Qed.

Lemma http_gate_witness : g_handlers (enter 0 gate3) !! 0%nat <> Some Inside.
Proof.
  apply (proj2 (proj2 (http_gate gate3 gate3_reach)) eq_refl (enter 0 gate3) 0%nat).
  apply rtc_once. apply g_enter. reflexivity.
Defined.
