(* ===== verification/Bench.v ===== *)
(** * The benchmark tool's integrity checks

    Models [tools/wanbench]: the fixtures and their limits, the generator of a timed
    upload ([timedFixture]), the origin's handlers, the checks that make a transfer count
    as a success, and the bounded sample of latencies.  The hexadecimal SHA-256 of a body
    is a parameter; requests go through net/http, whose answers are arguments. *)
From S2P Require Import Prelude GoStd.

Definition streamLimit : Z := 16 * 2 ^ 30.
Definition fixtureLimit : Z := 8 * 2 ^ 20.

(** ** Fixtures *)

(** The check of [fixtures] on the requested sizes, with the sum so far. *)
Fixpoint check_sizes (sum : Z) (sizes : list Z) : res () :=
  match sizes with
  | [] => Ok tt
  | n :: rest =>
      if (n <? 1) || (fixtureLimit <? n) then Err (ErrNew "fixture size outside 1..8MiB")
      else if fixtureLimit <? sum + n then Err (ErrNew "sum of fixture sizes exceeds 8MiB")
      else check_sizes (sum + n) rest
  end.

Section bench.
Context (digest : bytes -> bytes).

(** ** timedFixture *)

(** The generator: the end of its time once the first read started it, the position in
    the block, and everything it emitted (what its hash has absorbed). *)
Record timedFixture := mkTimed { tf_until : option Z; tf_offset : nat; tf_sent : bytes; tf_finished : bool }.
Definition newTimedFixture : timedFixture := mkTimed None 0 [] false.
Definition tf_total (f : timedFixture) : Z := Z.of_nat (length (tf_sent f)).

(** One [Read] into a buffer of [len] bytes. *)
Definition timed_Read (block : bytes) (duration now : Z) (ctx : option error) (len : nat) (f : timedFixture)
    : bytes * option error * timedFixture :=
  let until := default (now + duration) (tf_until f) in
  let f := mkTimed (Some until) (tf_offset f) (tf_sent f) (tf_finished f) in
  match ctx with
  | Some e => ([], Some e, f)
  | None =>
      if negb (now <? until) || (streamLimit <=? tf_total f)
      then ([], Some EOF, mkTimed (Some until) (tf_offset f) (tf_sent f) true)
      else if bool_decide (len = 0%nat) then ([], None, f)
      else
        let n := Nat.min len (length block - tf_offset f) in
        let n := if streamLimit - tf_total f <? Z.of_nat n then Z.to_nat (streamLimit - tf_total f) else n in
        let p := take n (drop (tf_offset f) block) in
        (p, None, mkTimed (Some until) ((tf_offset f + n) mod length block) (tf_sent f ++ p) (tf_finished f))
  end.

Definition timed_run (block : bytes) (duration : Z) (reads : list (Z * option error * nat)) : timedFixture :=
  fold_left (fun f '(now, ctx, len) => snd (timed_Read block duration now ctx len f)) reads newTimedFixture.

(** ** The origin *)

(** The body of an upload as the handler reads it, cut at one byte past the limit, and
    its answer: the byte count and digest, or an error status. *)
Definition origin_post (limit : Z) (body : bytes) (err : option error) : Z + (Z * bytes) :=
  let got := if limit + 1 <=? Z.of_nat (length body) then take (Z.to_nat (limit + 1)) body else body in
  let err := if limit + 1 <=? Z.of_nat (length body) then None else err in
  match err with
  | Some _ => inl 400
  | None => if limit <? Z.of_nat (length got) then inl 400 else inr (Z.of_nat (length got), digest got)
  end.

(** The timed download of [streamHandler]: for each turn of the loop the clock, and what
    the write took and returned.  The trailer is set only when the loop ends by time or
    by the limit. *)
Fixpoint origin_stream (block : bytes) (until : Z) (sent : bytes) (writes : list (Z * nat * option error))
    : bytes * option (Z * bytes) :=
  match writes with
  | [] => (sent, None)
  | (now, n, err) :: rest =>
      if (now <? until) && (Z.of_nat (length sent) <? streamLimit) then
        let b := if streamLimit - Z.of_nat (length sent) <? Z.of_nat (length block)
                 then take (Z.to_nat (streamLimit - Z.of_nat (length sent))) block else block in
        let n := Nat.min n (length b) in
        let sent := sent ++ take n b in
        match err with
        | Some _ => (sent, None)
        | None => if bool_decide (n = 0%nat) then (sent, None) else origin_stream block until sent rest
        end
      else (sent, Some (Z.of_nat (length sent), digest sent))
  end.

(** ** What counts as a success *)

(** The end of [transfer] for a finite body: the status, the read error, the fixture's
    digest named by a download, and the count and digest compared. *)
Definition check_transfer (get : bool) (status : Z) (body : bytes) (header : bytes) (count : Z) (got : bytes)
    (err : option error) : option error :=
  if negb (status =? 200) then Some (ErrNew "HTTP status")
  else if get && negb (bool_decide (header = digest body)) then Some (ErrNew "origin fixture mismatch")
  else match err with
  | Some e => Some e
  | None => if negb (count =? Z.of_nat (length body)) || negb (bool_decide (got = digest body))
            then Some (ErrNew "checksum or length mismatch") else None
  end.

(** The end of [streamTransfer] for an upload: the answer of the origin against the
    generator's snapshot. *)
Definition check_upload (f : timedFixture) (status : Z) (bytes_ : Z) (hash : bytes) (err : option error) : res Z :=
  if negb (status =? 200) then Err (ErrNew "stream HTTP status")
  else match err with
  | Some e => Err e
  | None =>
      if negb (tf_finished f) || negb (bytes_ =? tf_total f) || negb (bool_decide (hash = digest (tf_sent f)))
      then Err (ErrNew "stream upload incomplete or checksum mismatch")
      else if tf_total f <=? 0 then Err (ErrNew "empty stream") else Ok (tf_total f)
  end.

(** And for a download: what was read against the trailer ([None]: absent). *)
Definition check_download (read : bytes) (err : option error) (status : Z) (trailer : option (Z * bytes)) : res Z :=
  if negb (status =? 200) then Err (ErrNew "stream HTTP status")
  else match err, trailer with
  | Some e, _ => Err e
  | None, None => Err (ErrNew "stream trailer length/checksum mismatch")
  | None, Some (n, hash) =>
      let count := Z.of_nat (length read) in
      if negb (count =? n) || negb (bool_decide (digest read = hash)) then Err (ErrNew "stream trailer length/checksum mismatch")
      else if count <=? 0 then Err (ErrNew "empty stream") else Ok count
  end.

(** ** Samples *)

(** [sample]: a reservoir of 4096 latencies; [i] is the random index below the number
    of requests. *)
Definition sample {A} (v : A) (i : Z) (requests : Z) (samples : list A) : Z * list A :=
  let requests := requests + 1 in
  (requests, if Z.of_nat (length samples) <? 4096 then samples ++ [v]
             else if i <? 4096 then <[Z.to_nat i := v]> samples else samples).

(** ** Facts *)

(** The block repeated for ever, up to a length. *)
Definition repeated (block : bytes) (n : nat) : bytes := map (fun i => nth (i mod length block) block Byte.x00) (seq 0 n).

Lemma repeated_app block n m : (n mod length block + m <= length block)%nat -> block <> [] ->
  repeated block (n + m) = repeated block n ++ take m (drop (n mod length block) block).
Proof.
  intros Hm Hb. unfold repeated. rewrite seq_app, map_app. f_equal. cbn [Nat.add].
  assert (0 < length block)%nat as Hl by (destruct block; [done|cbn; lia]).
  set (r := (n mod length block)%nat) in *.
  assert (forall j, (j < m)%nat -> ((n + j) mod length block = r + j)%nat) as Hmod.
  { intros j Hj. rewrite (Nat.div_mod_eq n (length block)) at 1. fold r.
    replace (length block * (n / length block) + r + j)%nat with (r + j + (n / length block) * length block)%nat by lia.
    rewrite Nat.Div0.mod_add. apply Nat.mod_small. lia. }
  apply (list_eq_same_length _ _ m); [rewrite length_take, length_drop; lia|by rewrite length_map, length_seq|].
  intros j x y Hj. rewrite list_lookup_fmap, lookup_seq_lt by done. cbn. rewrite Hmod by done. intros [= <-].
  rewrite lookup_take_lt, lookup_drop by done. intros Hy. by apply nth_lookup_Some with (d := Byte.x00) in Hy.
Qed.

Lemma length_repeated block n : length (repeated block n) = n.
Proof. unfold repeated. by rewrite length_map, length_seq. Qed.

(** What a generator has emitted: the block over and over, from its start. *)
Definition timed_inv (block : bytes) (f : timedFixture) : Prop :=
  tf_sent f = repeated block (length (tf_sent f)) /\ tf_offset f = (length (tf_sent f) mod length block)%nat /\
  tf_total f <= streamLimit.

Lemma timed_Read_inv block duration now ctx len f : block <> [] -> timed_inv block f ->
  let '(p, err, f') := timed_Read block duration now ctx len f in
  timed_inv block f' /\ tf_sent f' = tf_sent f ++ p /\ (length p <= len)%nat /\
  (err = Some EOF -> tf_finished f' = true \/ ctx = Some EOF) /\
  (err = None -> (0 < len)%nat -> p <> []).
Proof.
  intros Hb (Hs & Ho & Ht). unfold timed_Read. cbn [tf_offset tf_sent tf_finished tf_until].
  assert (0 < length block)%nat as Hl by (destruct block; [done|cbn; lia]).
  pose proof (Nat.mod_upper_bound (length (tf_sent f)) (length block) ltac:(lia)) as Hub.
  destruct ctx as [e|]; [rewrite app_nil_r; repeat split; cbn; try done; try lia; intros [= ->]; by right|].
  change (tf_total (mkTimed _ _ (tf_sent f) _)) with (tf_total f).
  destruct (negb _ || _) eqn:Estop; [rewrite app_nil_r; repeat split; cbn; try done; try lia; by left|].
  apply orb_false_iff in Estop as [_ Elim%Z.leb_gt].
  destruct (bool_decide_reflect (len = 0%nat)) as [->|Hn]; [rewrite app_nil_r; repeat split; cbn; try done; lia|].
  set (n := if _ <? _ then _ else _).
  assert (((0 < n <= len) /\ n <= length block - tf_offset f)%nat /\ Z.of_nat n <= streamLimit - tf_total f) as ((Hn1 & Hn2) & Hn3).
  { subst n. destruct (Z.ltb_spec (streamLimit - tf_total f) (Z.of_nat (Nat.min len (length block - tf_offset f)))); lia. }
  clearbody n. set (p := take n (drop (tf_offset f) block)).
  assert (length p = n) as Hp by (subst p; rewrite length_take, length_drop; lia).
  assert (tf_sent f ++ p = repeated block (length (tf_sent f) + n)) as HR.
  { rewrite repeated_app by (rewrite <- ?Ho; (lia || done)). by rewrite <- Hs, <- Ho. }
  split; [|split; [done|split; [lia|split; [done|]]]].
  - split; [|split]; cbn [tf_sent tf_offset]; [by rewrite length_app, Hp|rewrite length_app, Hp, Ho; apply Nat.Div0.add_mod_idemp_l|].
    unfold tf_total in *. cbn [tf_sent]. rewrite length_app. lia.
  - intros _ _ E. apply (f_equal length) in E. rewrite Hp in E. cbn in E. lia.
Qed.

Lemma timed_run_inv block duration reads : block <> [] -> timed_inv block (timed_run block duration reads).
Proof.
  intros Hb. unfold timed_run.
  assert (timed_inv block newTimedFixture) as Hi.
  { split; [done|]. split; [cbn; symmetry; apply Nat.Div0.mod_0_l|by vm_compute]. }
  revert Hi. generalize newTimedFixture. induction reads as [|[[now ctx] len] reads IH]; intros f Hi; [done|]. cbn. apply IH.
  pose proof (timed_Read_inv block duration now ctx len f Hb Hi) as HR. by destruct (timed_Read _ _ _ _ _ _) as [[? ?] ?], HR.
Qed.

(** An upload that counts as a success was complete and intact.  The generator emits the
    block over and over, at most 16 GiB of it, and has come to its own end; the bytes the
    origin received are as many, and have the digest of exactly those emitted: they are
    the same bytes unless the digest collides. *)
Theorem upload_integrity block duration reads received status n : block <> [] ->
  let f := timed_run block duration reads in
  check_upload f status (Z.of_nat (length received)) (digest received) None = Ok n ->
  tf_finished f = true /\ n = Z.of_nat (length received) /\ 0 < n <= streamLimit /\
  digest received = digest (repeated block (length received)) /\ tf_sent f = repeated block (length received).
Proof.
  intros Hb f. unfold check_upload. destruct (status =? 200); cbn [negb]; [|done].
  destruct (timed_run_inv block duration reads Hb) as (Hs & _ & Ht). fold f in Hs, Ht.
  destruct (tf_finished f); cbn [negb orb]; [|done].
  destruct (Z.eqb_spec (Z.of_nat (length received)) (tf_total f)) as [El|]; cbn [negb orb]; [|done].
  destruct (bool_decide_reflect (digest received = digest (tf_sent f))) as [Ed|]; cbn [negb]; [|done].
  destruct (Z.leb_spec (tf_total f) 0); [done|]. intros [= <-].
  assert (length received = length (tf_sent f)) as E by (unfold tf_total in El; lia).
  rewrite E, <- Hs. unfold tf_total in *. repeat split; (done || lia).
Qed.

Lemma origin_stream_trailer block until sent writes out n hash :
  origin_stream block until sent writes = (out, Some (n, hash)) -> n = Z.of_nat (length out) /\ hash = digest out.
Proof.
  revert sent. induction writes as [|[[now k] err] writes IH]; intros sent; cbn [origin_stream]; [done|].
  destruct ((now <? until) && _); [|by intros [= <- <- <-]]. destruct err; [done|]. case_bool_decide; [done|]. apply IH.
Qed.

(** A download counts as a success only when it has the length and the digest of the
    whole stream the origin sent. *)
Theorem download_integrity block until writes read status n :
  let '(out, trailer) := origin_stream block until [] writes in
  check_download read None status trailer = Ok n ->
  n = Z.of_nat (length out) /\ length read = length out /\ digest read = digest out /\ 0 < n.
Proof.
  destruct (origin_stream block until [] writes) as [out [[m hash]|]] eqn:E; unfold check_download.
  2:{ by destruct (status =? 200). }
  destruct (origin_stream_trailer _ _ _ _ _ _ _ E) as [-> ->]. destruct (status =? 200); cbn [negb]; [|done].
  destruct (Z.eqb_spec (Z.of_nat (length read)) (Z.of_nat (length out))) as [El|]; cbn [negb orb]; [|done].
  destruct (bool_decide_reflect (digest read = digest out)) as [Ed|]; cbn [negb]; [|done].
  destruct (Z.leb_spec (Z.of_nat (length read)) 0); [done|]. intros [= <-]. repeat split; (done || lia).
Qed.

(** The sample never exceeds its bound, whatever indices are drawn. *)
Theorem sample_bounded {A} (vs : list (A * Z)) :
  let '(requests, samples) := fold_left (fun s '(v, i) => sample v i (fst s) (snd s)) vs (0, []) in
  requests = Z.of_nat (length vs) /\ Z.of_nat (length samples) = Z.min requests 4096.
Proof.
  enough (forall s, Z.of_nat (length (snd s)) = Z.min (fst s) 4096 -> 0 <= fst s ->
    let '(requests, samples) := fold_left (fun s '(v, i) => sample v i (fst s) (snd s)) vs s in
    requests = fst s + Z.of_nat (length vs) /\ Z.of_nat (length samples) = Z.min requests 4096) as H by (apply (H (0, [])); cbn; lia).
  induction vs as [|[v i] vs IH]; intros [r l] Hl Hr; cbn [fold_left fst snd length] in *; [split; [lia|done]|].
  assert (Z.of_nat (length (snd (sample v i r l))) = Z.min (r + 1) 4096) as H1.
  { unfold sample. cbn [snd]. destruct (Z.ltb_spec (Z.of_nat (length l)) 4096); [rewrite length_app; cbn; lia|].
    destruct (i <? 4096); rewrite ?length_insert; lia. }
  specialize (IH (sample v i r l) H1 ltac:(cbn; lia)). destruct (fold_left _ vs _) as [requests samples].
  cbn [fst sample] in IH. split; [lia|]. by destruct IH.
Qed.

(** The sizes of accepted fixtures add up to at most 8 MiB. *)
Theorem sizes_bounded sizes : check_sizes 0 sizes = Ok tt ->
  Forall (fun n => 1 <= n <= fixtureLimit) sizes /\ foldr Z.add 0 sizes <= fixtureLimit.
Proof.
  enough (forall sum, sum <= fixtureLimit -> check_sizes sum sizes = Ok tt ->
    Forall (fun n => 1 <= n <= fixtureLimit) sizes /\ sum + foldr Z.add 0 sizes <= fixtureLimit) as H.
  { intros E. apply (H 0); [unfold fixtureLimit; lia|done]. }
  induction sizes as [|n sizes IH]; intros sum Hs; cbn [check_sizes foldr]; [split; [done|lia]|].
  destruct (Z.ltb_spec n 1), (Z.ltb_spec fixtureLimit n); cbn [orb]; try done.
  destruct (Z.ltb_spec fixtureLimit (sum + n)); [done|]. intros E. destruct (IH (sum + n) ltac:(lia) E). split; [by constructor|lia].
Qed.
End bench.
