(* ===== verification/BenchRun.v ===== *)
(** * The benchmark tool: fixtures, transfers and the measurement

    Models the rest of [tools/wanbench]: the fixture texts ([data], [fixtures]), the
    origin's router ([originHandler]), one request of a worker ([newWorker],
    [transfer]), the limits and the concurrent measurement of [run], and the quantiles
    with the rounding of float64.  Random draws, gzip and the hexadecimal SHA-256 are
    parameters; net/http is represented by the responses it delivers. *)
From stdpp Require Import sorting.
From S2P Require Import Prelude GoStd GoNet Bench.

(** ** data *)

(** The draws for one line of the log text: minute, second, service, request id, item,
    duration and size. *)
Record draw := mkDraw { dr_min : Z; dr_sec : Z; dr_api : Z; dr_id : Z; dr_item : Z; dr_ms : Z; dr_bytes : Z }.

(** The verbs [%02d] and [%016x]. *)
Definition pad2 (z : Z) : bytes := if z <? 10 then ch "0" :: Itoa z else Itoa z.
Definition hex16 (z : Z) : bytes := map (fun i => hex_char (Z.land (Z.shiftr z (4 * (15 - Z.of_nat i))) 15)) (seq 0 16).

Definition log_line (d : draw) : bytes :=
  bs "{" ++ field "timestamp" ++ quoted (bs "2026-10-18T00:" ++ pad2 (dr_min d) ++ bs ":" ++ pad2 (dr_sec d) ++ bs "Z") ++
  bs "," ++ field "level" ++ quoted (bs "info") ++ bs "," ++ field "service" ++ quoted (bs "api-" ++ Itoa (dr_api d)) ++
  bs "," ++ field "request_id" ++ quoted (hex16 (dr_id d)) ++ bs "," ++ field "method" ++ quoted (bs "GET") ++
  bs "," ++ field "path" ++ quoted (bs "/v1/items/" ++ Itoa (dr_item d)) ++ bs "," ++ field "status" ++ bs "200," ++
  field "duration_ms" ++ Itoa (dr_ms d) ++ bs "," ++ field "bytes" ++ Itoa (dr_bytes d) ++ bs "}" ++ [Byte.x0a].

Section data.
Context (random : nat -> bytes) (draws : nat -> draw) (gzip : bytes -> bytes).

(** The loop that appends lines until there are [n] bytes; [fuel] bounds its turns. *)
Fixpoint fill_text (fuel : nat) (i n : nat) (out : bytes) : bytes :=
  match fuel with
  | O => out
  | S fuel => if bool_decide (length out < n)%nat then fill_text fuel (S i) n (out ++ log_line (draws i)) else out
  end.

Definition data (kind : bytes) (n : nat) : bytes :=
  let b := if bool_decide (kind = bs "text") || bool_decide (kind = bs "gzip") then take n (fill_text n 0 n []) else random n in
  if bool_decide (kind = bs "gzip") then gzip b else b.

(** ** fixtures *)
Context (digest : bytes -> bytes).

Definition kinds : list bytes := [bs "text"; bs "random"; bs "gzip"].
Definition fixture_key (kind : bytes) (n : Z) : bytes := kind ++ bs ":" ++ Itoa n.
Definition add_size (m : gmap bytes (bytes * bytes)) (n : Z) : gmap bytes (bytes * bytes) :=
  fold_left (fun m kind => let b := data kind (Z.to_nat n) in <[fixture_key kind n := (b, digest b)]> m) kinds m.
Definition fixtures (sizes : list Z) : res (gmap bytes (bytes * bytes)) :=
  _ ← check_sizes 0 sizes; Ok (fold_left add_size sizes ∅).

(** ** originHandler *)
Record bench_request := mkBReq {
  bq_method : bytes; bq_path : bytes; bq_kind : bytes; bq_bytes : bytes; bq_duration : res Z; bq_body : bytes; bq_body_err : option error;
}.

(** A response as the client's transport delivers it: the body and the error its reading
    ends with, the fixture digest of the header, the trailers of a timed download, the
    JSON object of an upload's answer, and [Close]. *)
Record bench_response := mkBResp {
  bp_status : Z; bp_sha : bytes; bp_body : bytes; bp_err : option error; bp_trailer : option (Z * bytes);
  bp_json : res (Z * bytes); bp_close : bool;
}.
Definition plain (status : Z) (body : bytes) : bench_response := mkBResp status [] body None None (Err (ErrNew "json")) false.
Definition json (out : Z * bytes) : bench_response := mkBResp 200 [] [] None None (Ok out) false.

Definition uploadLimit : Z := 32 * 2 ^ 20.

Definition serve_transfer (f : gmap bytes (bytes * bytes)) (r : bench_request) : bench_response :=
  if bool_decide (bq_method r = bs "POST") then
    match origin_post digest uploadLimit (bq_body r) (bq_body_err r) with
    | inl status => plain status (bs "body exceeds limit or read failed")
    | inr out => json out
    end
  else if negb (bool_decide (bq_method r = bs "GET")) then plain 405 (bs "method")
  else match f !! (bq_kind r ++ bs ":" ++ bq_bytes r) with
       | None => plain 400 (bs "fixture not prebuilt")
       | Some (body, hash) => mkBResp 200 hash body None None (Err (ErrNew "json")) false
       end.

(** [streamHandler] at time [now]; [writes] are the outcomes of its writes. *)
Definition streamHandler (f : gmap bytes (bytes * bytes)) (now : Z) (writes : list (Z * nat * option error)) (r : bench_request)
    : bench_response :=
  if bool_decide (bq_method r = bs "POST") then
    match origin_post digest streamLimit (bq_body r) (bq_body_err r) with
    | inl status => plain status (bs "stream read failed or limit exceeded")
    | inr out => json out
    end
  else if negb (bool_decide (bq_method r = bs "GET")) then plain 405 (bs "method")
  else match bq_duration r, f !! (bq_kind r ++ bs ":" ++ bq_bytes r) with
       | Ok d, Some (body, _) =>
           if (d <=? 0) || (2 * 60 * second <? d) then plain 400 (bs "invalid streaming fixture or duration")
           else let '(sent, trailer) := origin_stream digest body (now + d) [] writes in
                mkBResp 200 [] sent None trailer (Err (ErrNew "json")) false
       | _, _ => plain 400 (bs "invalid streaming fixture or duration")
       end.

(** The routes. *)
Definition originHandler (f : gmap bytes (bytes * bytes)) (now : Z) (writes : list (Z * nat * option error)) (r : bench_request)
    : bench_response :=
  if bool_decide (bq_path r = bs "/stream") then streamHandler f now writes r
  else if bool_decide (bq_path r = bs "/ping") then plain 200 (bs "ok")
  else if bool_decide (bq_path r = bs "/transfer") then serve_transfer f r
  else plain 404 (bs "404 page not found").

(** ** A worker *)
Record bench_options := mkBOpt {
  bo_streaming : bool; bo_kind : bytes; bo_direction : bytes; bo_n : Z; bo_repeats : Z; bo_concurrency : Z; bo_abortAfter : Z;
  bo_warm : bool; bo_duration : Z; bo_timeout : Z; bo_slowRead : Z; bo_slowWrite : Z;
}.
Record bworker := mkBWorker {
  bw_lastBytes : Z; bw_requests : Z; bw_bytes : Z; bw_samples : list Z; bw_reused : bool; bw_closed : bool;
}.
Definition newBWorker : bworker := mkBWorker 0 0 0 [] true false.

(** [newWorker]: a proxy URL that does not parse, or the ping. *)
Definition newWorker (proxy_bad : bool) (ping : res bench_response) : res bworker :=
  if proxy_bad then Err (ErrNew "invalid proxy URL")
  else match ping with
  | Err e => Err e
  | Ok p => if bool_decide (is_Some (bp_err p)) || negb (bp_status p =? 200) then Err (ErrNew "ping failed") else Ok newBWorker
  end.

Definition errAborted : error := ErrNew "intentional abort".

(** The request of a finite transfer. *)
Definition transfer_request (o : bench_options) (body : bytes) : bench_request :=
  mkBReq (bo_direction o) (bs "/transfer") (bo_kind o) (Itoa (bo_n o)) (Err (ErrNew "duration")) (if bool_decide (bo_direction o = bs "POST") then body else []) None.

(** The connection trace of a response. *)
Definition trace_conn (reused : bool) (p : bench_response) (w : bworker) : bworker :=
  mkBWorker (bw_lastBytes w) (bw_requests w) (bw_bytes w) (bw_samples w) (bw_reused w && reused) (bw_closed w || bp_close p).
Definition set_lastBytes (n : Z) (w : bworker) : bworker :=
  mkBWorker n (bw_requests w) (bw_bytes w) (bw_samples w) (bw_reused w) (bw_closed w).

(** [streamTransfer]: the response or the error of [Do], whether the connection was
    reused, and the generator of an upload as [snapshot] finds it. *)
Definition streamTransfer (o : bench_options) (generated : timedFixture) (answer : res bench_response) (reused : bool) (w : bworker)
    : option error * bworker :=
  match answer with
  | Err e => (Some e, w)
  | Ok p =>
      let w := trace_conn reused p w in
      let count :=
        if bool_decide (bo_direction o = bs "GET") then check_download digest (bp_body p) (bp_err p) (bp_status p) (bp_trailer p)
        else match bp_json p with
             | Ok (n, h) => check_upload digest generated (bp_status p) n h (bp_err p)
             | Err e => check_upload digest generated (bp_status p) 0 [] (Some e)
             end in
      match count with
      | Err e => (Some e, w)
      | Ok n => (None, set_lastBytes n w)
      end
  end.

(** The rest of [transfer], for a finite body. *)
Definition finite_transfer (o : bench_options) (body : bytes) (abort : Z) (answer : res bench_response) (reused : bool) (w : bworker)
    : option error * bworker :=
  match answer with
  | Err e => (Some e, w)
  | Ok p =>
      let w := trace_conn reused p w in
      if 0 <? abort then
        if negb (bool_decide (bo_direction o = bs "GET")) then (Some (ErrNew "abort mode requires GET"), w)
        else if Z.of_nat (length (bp_body p)) <? abort then (Some (default EOF (bp_err p)), w)
        else (Some errAborted, w)
      else
        let get := bool_decide (bo_direction o = bs "GET") in
        let '(count, got, err) :=
          if get then (Z.of_nat (length (bp_body p)), digest (bp_body p), bp_err p)
          else match bp_json p with
               | Ok (n, h) => (n, h, bp_err p)
               | Err e => (0, [], Some e)
               end in
        match check_transfer digest get (bp_status p) body (bp_sha p) count got err with
        | Some e => (Some e, w)
        | None => (None, set_lastBytes count w)
        end
  end.

Definition transfer (o : bench_options) (body : bytes) (generated : timedFixture) (abort : Z) (answer : res bench_response)
    (reused : bool) (w : bworker) : option error * bworker :=
  if bo_streaming o then
    if 0 <? abort then (Some (ErrNew "abort probe requires finite mode"), w) else streamTransfer o generated answer reused w
  else finite_transfer o body abort answer reused w.

(** [w.sample(v)]: the counters and the reservoir; [i] is the random index. *)
Definition worker_sample (v i : Z) (w : bworker) : bworker :=
  let '(requests, samples) := sample v i (bw_requests w) (bw_samples w) in
  mkBWorker (bw_lastBytes w) requests (bw_bytes w + bw_lastBytes w) samples (bw_reused w) (bw_closed w).

(** ** The limits of [run] *)
Definition millisecond : Z := 10 ^ 6.
Definition check_options (o : bench_options) : option error :=
  if (bo_n o <? 1) || (fixtureLimit <? bo_n o) || (bo_concurrency o <? 1) || (16 <? bo_concurrency o) || (bo_repeats o <? 1) ||
     (bo_duration o <? 0) || (24 * 3600 * second <? bo_duration o) || (bo_timeout o <=? 0) ||
     (bo_slowRead o <? 0) || (100 * millisecond <? bo_slowRead o) || (bo_slowWrite o <? 0) || (100 * millisecond <? bo_slowWrite o)
  then Some (ErrNew "invalid benchmark limits")
  else if negb (bool_decide (bo_kind o ∈ kinds)) then Some (ErrNew "invalid kind")
  else if negb (bool_decide (bo_direction o ∈ [bs "GET"; bs "POST"])) then Some (ErrNew "direction must be GET or POST")
  else if (bo_abortAfter o <? 0) || (bo_n o <=? bo_abortAfter o) then Some (ErrNew "abort-after must be smaller than payload")
  else if bo_streaming o && ((bo_duration o <=? 0) || (2 * 60 * second <? bo_duration o) ||
            (bo_timeout o <? bo_duration o + 5 * second) || (0 <? bo_abortAfter o))
  then Some (ErrNew "stream mode needs duration<=2m, timeout>=duration+5s, and no abort probe")
  else None.

(** ** The preparation of [run]

    The workers are made one after the other, then each in turn is probed and warmed;
    what happens to worker [i] is an argument. *)
Record preparation := mkPrep { pr_ping : res bench_response; pr_abort : res bench_response; pr_warm : res bench_response; pr_reused : bool * bool }.

Fixpoint new_workers (proxy_bad : bool) (ps : list preparation) : res (list bworker) :=
  match ps with
  | [] => Ok []
  | p :: ps => w ← newWorker proxy_bad (pr_ping p); ws ← new_workers proxy_bad ps; Ok (w :: ws)
  end.

Definition warm_worker (o : bench_options) (body : bytes) (p : preparation) (w : bworker) : res bworker :=
  w ← (if 0 <? bo_abortAfter o then
         match transfer o body newTimedFixture (bo_abortAfter o) (pr_abort p) (fst (pr_reused p)) w with
         | (Some e, w) => if errors_Is e errAborted then Ok w else Err (Wrapped "abort probe" e)
         | (None, _) => Err (ErrNew "abort probe: %!w(<nil>)")
         end
       else Ok w);
  if bo_warm o then
    match finite_transfer o body 0 (pr_warm p) (snd (pr_reused p)) w with
    | (Some e, _) => Err e
    | (None, w) => Ok w
    end
  else Ok w.

Fixpoint warm_workers (o : bench_options) (body : bytes) (ps : list preparation) (ws : list bworker) : res (list bworker) :=
  match ps, ws with
  | p :: ps, w :: ws => w ← warm_worker o body p w; ws ← warm_workers o body ps ws; Ok (w :: ws)
  | _, _ => Ok []
  end.

(** [run] up to the measurement: the limits, the workers, the warm-up. *)
Definition run_setup (o : bench_options) (body : bytes) (proxy_bad : bool) (ps : nat -> preparation) : res (list bworker) :=
  match check_options o with
  | Some e => Err e
  | None => let ps := map ps (seq 0 (Z.to_nat (bo_concurrency o))) in
            ws ← new_workers proxy_bad ps; warm_workers o body ps ws
  end.
End data.

(** ** The measurement

    The workers of [run], each in its loop: the next turn, a failure on its way to the
    channel [errs] (whose capacity is the number of workers), or the end. *)
Inductive bphase := BLoop | BSend (e : error) | BDone.
Record bslot := mkBSlot { sl_i : Z; sl_worker : bworker; sl_phase : bphase }.
Record brun := mkBRun { rn_now : Z; rn_cancelled : bool; rn_workers : gmap nat bslot; rn_errs : list error }.

Section measurement.
Context (digest : bytes -> bytes) (o : bench_options) (body : bytes) (deadline : Z) (cap : nat).

(** The conditions of the loop at turn [i]. *)
Definition continues (now i : Z) : bool :=
  ((i <? bo_repeats o) || (0 <? bo_duration o)) && negb ((0 <? bo_duration o) && (0 <? i) && negb (now <? deadline)).

Definition set_slot (k : nat) (x : bslot) (s : brun) : brun := mkBRun (rn_now s) (rn_cancelled s) (<[k := x]> (rn_workers s)) (rn_errs s).

(** One turn: the transfer, then the sample or the failure. *)
Definition bench_turn (generated : timedFixture) (answer : res bench_response) (reused : bool) (elapsed draw : Z) (x : bslot) : bslot :=
  match transfer digest o body generated 0 answer reused (sl_worker x) with
  | (None, w) => mkBSlot (sl_i x + 1) (worker_sample elapsed draw w) BLoop
  | (Some e, w) => mkBSlot (sl_i x) w (BSend e)
  end.

(** A failure reported: [errs <- err], then [cancel()]. *)
Definition report_failure (k : nat) (e : error) (x : bslot) (s : brun) : brun :=
  mkBRun (rn_now s) true (<[k := mkBSlot (sl_i x) (sl_worker x) BDone]> (rn_workers s)) (rn_errs s ++ [e]).

Inductive bench_work : brun -> brun -> Prop :=
| b_turn s k x generated answer reused elapsed draw : rn_workers s !! k = Some x -> sl_phase x = BLoop -> continues (rn_now s) (sl_i x) = true ->
    bench_work s (set_slot k (bench_turn generated answer reused elapsed draw x) s)
| b_report s k x e : rn_workers s !! k = Some x -> sl_phase x = BSend e -> (length (rn_errs s) < cap)%nat ->
    bench_work s (report_failure k e x s)
| b_end s k x : rn_workers s !! k = Some x -> sl_phase x = BLoop -> continues (rn_now s) (sl_i x) = false ->
    bench_work s (set_slot k (mkBSlot (sl_i x) (sl_worker x) BDone) s).
Inductive bench_step : brun -> brun -> Prop :=
| b_work s s' : bench_work s s' -> bench_step s s'
| b_time s t : 0 < t -> bench_step s (mkBRun (rn_now s + t) (rn_cancelled s) (rn_workers s) (rn_errs s)).

(** The workers as [run] starts them. *)
Definition bench_start (now : Z) (ws : list bworker) : brun := mkBRun now false ((fun w => mkBSlot 0 w BLoop) <$> map_seq 0 ws) [].

(** What [run] adds up, and its verdict. *)
Definition bench_total (f : bworker -> Z) (s : brun) : Z := map_fold (fun _ x acc => f (sl_worker x) + acc) 0 (rn_workers s).
Definition integrity (s : brun) : bool := bool_decide (rn_errs s = []).

(** *** Invariant *)
Definition busy (x : bslot) : bool := match sl_phase x with BDone => false | _ => true end.
Definition slot_ok (now : Z) (clean : bool) (x : bslot) : Prop :=
  bw_requests (sl_worker x) = sl_i x /\ 0 <= sl_i x /\ (bo_streaming o = false -> bw_bytes (sl_worker x) = sl_i x * Z.of_nat (length body)) /\
  Z.of_nat (length (bw_samples (sl_worker x))) = Z.min (sl_i x) 4096 /\
  (bo_duration o <= 0 -> sl_i x <= bo_repeats o) /\
  (sl_phase x = BDone -> clean = true -> if 0 <? bo_duration o then 0 < sl_i x /\ deadline <= now else sl_i x = bo_repeats o).

Record bench_inv (s : brun) : Prop := {
  bi_room : (length (rn_errs s) + mcount busy (rn_workers s) <= cap)%nat;
  bi_slots : forall k x, rn_workers s !! k = Some x -> slot_ok (rn_now s) (integrity s) x;
}.

Lemma finite_transfer_keeps abort answer reused w err w' : finite_transfer digest o body abort answer reused w = (err, w') ->
  bw_requests w' = bw_requests w /\ bw_bytes w' = bw_bytes w /\ bw_samples w' = bw_samples w /\
  (err = None -> bw_lastBytes w' = Z.of_nat (length body)).
Proof.
  unfold finite_transfer. destruct answer as [p|e]; [|by intros [= <- <-]].
  destruct (0 <? abort); [destruct (negb _); [|destruct (_ <? abort)]; by intros [= <- <-]|].
  destruct (if bool_decide _ then _ else _) as [[count got] err0] eqn:Ec.
  destruct (check_transfer _ _ _ _ _ _ _ _) as [e|] eqn:Et; intros [= <- <-]; [done|]. split_and!; try done. intros _. cbn.
  unfold check_transfer in Et. destruct (negb _); [done|]. destruct (_ && _); [done|]. destruct err0; [done|].
  destruct (Z.eqb_spec count (Z.of_nat (length body))); [done|]. done.
Qed.

Lemma streamTransfer_keeps generated answer reused w err w' : streamTransfer digest o generated answer reused w = (err, w') ->
  bw_requests w' = bw_requests w /\ bw_bytes w' = bw_bytes w /\ bw_samples w' = bw_samples w.
Proof.
  unfold streamTransfer. destruct answer as [p|e]; [|by intros [= <- <-]]. destruct (if bool_decide _ then _ else _); by intros [= <- <-].
Qed.

Lemma transfer_keeps generated abort answer reused w err w' : transfer digest o body generated abort answer reused w = (err, w') ->
  bw_requests w' = bw_requests w /\ bw_bytes w' = bw_bytes w /\ bw_samples w' = bw_samples w /\
  (err = None -> bo_streaming o = false -> bw_lastBytes w' = Z.of_nat (length body)).
Proof.
  unfold transfer. destruct (bo_streaming o).
  - destruct (0 <? abort); [by intros [= <- <-]|]. intros E%streamTransfer_keeps. naive_solver.
  - intros E%finite_transfer_keeps. naive_solver.
Qed.

Lemma bench_turn_ok now c c' generated answer reused elapsed draw x : slot_ok now c x -> sl_phase x = BLoop -> continues now (sl_i x) = true ->
  slot_ok now c' (bench_turn generated answer reused elapsed draw x).
Proof.
  intros (Hr & Hi & Hb & Hs & Hm & _) Hp Hc. unfold bench_turn.
  destruct (transfer _ _ _ _ _ _ _ _) as [err w] eqn:Et. apply transfer_keeps in Et as (E1 & E2 & E3 & E4).
  destruct err as [e|]; unfold slot_ok; cbn [sl_i sl_worker sl_phase].
  - rewrite E1, E2, E3. by split_and!.
  - unfold worker_sample, sample. cbn [bw_requests bw_bytes bw_samples]. rewrite E1, E2, E3, Hr.
    split_and!; try lia; try done.
    + intros Hns. rewrite (E4 eq_refl Hns), (Hb Hns). lia.
    + destruct (Z.ltb_spec (Z.of_nat (length (bw_samples (sl_worker x)))) 4096); [rewrite length_app; cbn; lia|].
      destruct (draw <? 4096); rewrite ?length_insert; lia.
    + intros Hd. specialize (Hm Hd). unfold continues in Hc. rewrite (proj2 (Z.ltb_ge 0 _) Hd) in Hc. cbn in Hc.
      rewrite orb_false_r, andb_true_r in Hc. apply Z.ltb_lt in Hc. lia.
Qed.

Lemma slot_ok_mono now now' c c' x : now <= now' -> (c' = true -> c = true) -> slot_ok now c x -> slot_ok now' c' x.
Proof.
  intros Hn Hc (? & ? & ? & ? & ? & Hd). unfold slot_ok. split_and!; try done.
  intros Hp Hcl. specialize (Hd Hp (Hc Hcl)). destruct (0 <? bo_duration o); [lia|done].
Qed.

Lemma bench_inv_step s s' : bench_step s s' -> bench_inv s -> bench_inv s'.
Proof.
  intros Hst [R S]. destruct Hst as [s s' Hw|s t Ht].
  2:{ split; [done|]. intros k x Hx. eapply slot_ok_mono; [| |by eapply S]; cbn; [lia|done]. }
  destruct Hw as [s k x generated answer reused elapsed draw Hx Hp Hc|s k x e Hx Hp Hl|s k x Hx Hp Hc].
  - pose proof (mcount_insert_old busy _ k (bench_turn generated answer reused elapsed draw x) x Hx) as Hm.
    assert (busy x = true) as Hb by (unfold busy; by rewrite Hp).
    assert (busy (bench_turn generated answer reused elapsed draw x) = true) as Hb'.
    { unfold bench_turn. destruct (transfer _ _ _ _ _ _ _ _) as [[|] ?]; done. }
    rewrite Hb, Hb' in Hm. split; cbn [set_slot rn_errs rn_workers rn_now]; [lia|].
    intros j y [[<- <-]|[_ Hy]]%lookup_insert_Some; [|by eapply S]. eapply bench_turn_ok; eauto.
  - pose proof (mcount_insert_old busy _ k (mkBSlot (sl_i x) (sl_worker x) BDone) x Hx) as Hm.
    assert (busy x = true) as Hb by (unfold busy; by rewrite Hp). rewrite Hb in Hm. cbn in Hm.
    assert (integrity (report_failure k e x s) = false) as Hint.
    { unfold integrity. apply bool_decide_eq_false. cbn. by destruct (rn_errs s). }
    split; cbn [report_failure rn_errs rn_workers rn_now]; [rewrite length_app; cbn; lia|].
    fold (report_failure k e x s). rewrite Hint.
    intros j y [[<- <-]|[_ Hy]]%lookup_insert_Some; [|apply (slot_ok_mono (rn_now s) (rn_now s) (integrity s)); [lia|done|by eapply S]].
    destruct (S k x Hx) as (? & ? & ? & ? & ? & _). unfold slot_ok. cbn. by split_and!.
  - pose proof (mcount_insert_old busy _ k (mkBSlot (sl_i x) (sl_worker x) BDone) x Hx) as Hm.
    assert (busy x = true) as Hb by (unfold busy; by rewrite Hp). rewrite Hb in Hm. cbn in Hm.
    split; cbn [set_slot rn_errs rn_workers rn_now]; [lia|].
    intros j y [[<- <-]|[_ Hy]]%lookup_insert_Some; [|by eapply S].
    destruct (S k x Hx) as (? & ? & ? & ? & Hm2 & _). unfold slot_ok. cbn. split_and!; try done. intros _ _.
    unfold continues in Hc. destruct (Z.ltb_spec 0 (bo_duration o)) as [Hd|Hd].
    + rewrite orb_true_r in Hc. cbn in Hc. apply negb_false_iff, andb_true_iff in Hc as [?%Z.ltb_lt ?%negb_true_iff%Z.ltb_ge]. lia.
    + rewrite orb_false_r, andb_true_r in Hc. apply Z.ltb_ge in Hc. specialize (Hm2 Hd). lia.
Qed.

Lemma bench_step_size s s' : bench_step s s' -> size (rn_workers s') = size (rn_workers s).
Proof. intros [s0 s0' Hw|]; [|done]. destruct Hw; cbn; apply map_size_insert_Some; by eexists. Qed.

(** Work left when the number of requests is fixed. *)
Definition slot_left (x : bslot) : nat :=
  match sl_phase x with BLoop => Z.to_nat (2 + (bo_repeats o - sl_i x)) | BSend _ => 1 | BDone => 0 end.
Definition bench_left (s : brun) : nat := map_fold (fun _ x n => slot_left x + n)%nat 0%nat (rn_workers s).

Lemma left_insert (m : gmap nat bslot) k x y : m !! k = Some x ->
  (map_fold (fun _ z n => slot_left z + n) 0 (<[k := y]> m) + slot_left x = map_fold (fun _ z n => slot_left z + n) 0 m + slot_left y)%nat.
Proof.
  intros Hk. rewrite <- (insert_delete_id m k x Hk) at 2. rewrite <- (insert_delete_eq m k y).
  rewrite !map_fold_insert_L by (apply lookup_delete_eq || (intros; lia)). lia.
Qed.

Lemma bench_work_less s s' : bench_inv s -> bo_duration o <= 0 -> bench_work s s' -> (bench_left s' < bench_left s)%nat.
Proof.
  intros [_ S] Hd Hw. unfold bench_left. destruct Hw as [s k x generated answer reused elapsed draw Hx Hp Hc|s k x e Hx Hp Hl|s k x Hx Hp Hc];
    cbn [set_slot report_failure rn_workers].
  - pose proof (left_insert _ k x (bench_turn generated answer reused elapsed draw x) Hx) as HL.
    destruct (S k x Hx) as (_ & _ & _ & _ & Hm & _). specialize (Hm Hd). unfold continues in Hc. rewrite (proj2 (Z.ltb_ge 0 _) Hd) in Hc.
    cbn in Hc. rewrite orb_false_r, andb_true_r in Hc. apply Z.ltb_lt in Hc.
    assert (slot_left x = Z.to_nat (2 + (bo_repeats o - sl_i x))) as E by (unfold slot_left; by rewrite Hp).
    assert (slot_left (bench_turn generated answer reused elapsed draw x) < slot_left x)%nat; [|lia].
    rewrite E. unfold bench_turn, slot_left. destruct (transfer _ _ _ _ _ _ _ _) as [[|] ?]; cbn [sl_phase sl_i]; lia.
  - pose proof (left_insert _ k x (mkBSlot (sl_i x) (sl_worker x) BDone) Hx) as HL. unfold slot_left in HL at 2 4. rewrite Hp in HL. cbn in HL. lia.
  - pose proof (left_insert _ k x (mkBSlot (sl_i x) (sl_worker x) BDone) Hx) as HL.
    destruct (S k x Hx) as (_ & _ & _ & _ & Hm & _). specialize (Hm Hd). unfold slot_left in HL at 2 4. rewrite Hp in HL. cbn in HL. lia.
Qed.

Lemma total_insert f (m : gmap nat bslot) k x : m !! k = None ->
  map_fold (fun _ x acc => f (sl_worker x) + acc) 0 (<[k := x]> m) = f (sl_worker x) + map_fold (fun _ x acc => f (sl_worker x) + acc) 0 m.
Proof. intros Hk. by rewrite map_fold_insert_L by (done || (intros; lia)). Qed.

Lemma total_lower f lo (m : gmap nat bslot) : (forall k x, m !! k = Some x -> lo <= f (sl_worker x)) ->
  Z.of_nat (size m) * lo <= map_fold (fun _ x acc => f (sl_worker x) + acc) 0 m.
Proof.
  induction m as [|k x m Hk Hf IH] using map_first_key_ind; intros Hc; [done|].
  rewrite total_insert, map_size_insert_None by done. pose proof (Hc k x (lookup_insert_eq _ _ _)) as Hx.
  assert (forall k x, m !! k = Some x -> lo <= f (sl_worker x)) as Hm; [|specialize (IH Hm); lia].
  intros j y Hy. apply (Hc j y). rewrite lookup_insert_ne; [done|]. congruence.
Qed.

Lemma total_opp f (m : gmap nat bslot) : map_fold (fun _ x acc => - f (sl_worker x) + acc) 0 m = - map_fold (fun _ x acc => f (sl_worker x) + acc) 0 m.
Proof.
  induction m as [|k x m Hk Hf IH] using map_first_key_ind; [done|].
  rewrite total_insert, (total_insert (fun w => - f w)) by done. lia.
Qed.

Lemma total_sum f c (m : gmap nat bslot) : (forall k x, m !! k = Some x -> f (sl_worker x) = c) ->
  map_fold (fun _ x acc => f (sl_worker x) + acc) 0 m = Z.of_nat (size m) * c.
Proof.
  intros Hc. pose proof (total_opp f m) as HO. pose proof (total_lower f c m) as H1. pose proof (total_lower (fun w => - f w) (- c) m) as H2.
  cbv beta in H2. rewrite HO in H2.
  assert (forall k x, m !! k = Some x -> c <= f (sl_worker x)) as Hlo by (intros k x Hx; pose proof (Hc k x Hx); lia).
  assert (forall k x, m !! k = Some x -> - c <= - f (sl_worker x)) as Hhi by (intros k x Hx; pose proof (Hc k x Hx); lia).
  specialize (H1 Hlo). specialize (H2 Hhi). lia.
Qed.
End measurement.

(** What [run] is promised when it starts to measure: its limits hold, and there is one
    worker per connection with nothing counted. *)
Definition fresh_worker (w : bworker) : Prop := bw_requests w = 0 /\ bw_bytes w = 0 /\ bw_samples w = [].

Lemma map_seq_size {A} start (xs : list A) : size (map_seq start xs : gmap nat A) = length xs.
Proof.
  revert start. induction xs as [|x xs IH]; intros start; [done|]. rewrite map_seq_cons, map_size_insert_None; [by rewrite IH|].
  apply lookup_map_seq_None. lia.
Qed.

Section run.
Context (digest : bytes -> bytes) (o : bench_options) (body : bytes).

Lemma warm_worker_fresh p w w' : warm_worker digest o body p w = Ok w' -> fresh_worker w -> fresh_worker w'.
Proof.
  unfold warm_worker, fresh_worker. intros (w1 & Ha & Hw)%bind_Ok Hf.
  assert (fresh_worker w1) as Hf1.
  { destruct (0 <? bo_abortAfter o); [|by injection Ha as <-].
    destruct (transfer _ _ _ _ _ _ _ _) as [[e|] w2] eqn:Et; [|done]. apply transfer_keeps in Et as (E1 & E2 & E3 & _).
    destruct (errors_Is _ _); [|done]. injection Ha as <-. unfold fresh_worker. by rewrite E1, E2, E3. }
  destruct (bo_warm o); [|by injection Hw as <-].
  destruct (finite_transfer _ _ _ _ _ _ _) as [[e|] w2] eqn:Et; [done|]. apply finite_transfer_keeps in Et as (E1 & E2 & E3 & _).
  injection Hw as <-. by rewrite E1, E2, E3.
Qed.

Lemma new_workers_fresh bad ps ws : new_workers bad ps = Ok ws -> length ws = length ps /\ Forall fresh_worker ws.
Proof.
  revert ws. induction ps as [|p ps IH]; intros ws; cbn [new_workers]; [by intros [= <-]|].
  intros (w & Hw & (ws' & Hws & [= <-])%bind_Ok)%bind_Ok. destruct (IH _ Hws) as [HL HF]. split; [cbn; lia|]. constructor; [|done].
  unfold newWorker in Hw. destruct bad; [done|]. destruct (pr_ping p); [|done]. destruct (_ || _); [done|]. by injection Hw as <-.
Qed.

Lemma warm_workers_fresh ps ws ws' : warm_workers digest o body ps ws = Ok ws' -> length ws = length ps -> Forall fresh_worker ws ->
  length ws' = length ps /\ Forall fresh_worker ws'.
Proof.
  revert ws ws'. induction ps as [|p ps IH]; intros [|w ws] ws'; cbn [warm_workers length]; try done; [by intros [= <-]|].
  intros (w1 & Hw & (ws1 & Hws & [= <-])%bind_Ok)%bind_Ok HL [Hf HF]%Forall_cons.
  destruct (IH _ _ Hws) as [HL' HF']; [lia|done|]. split; [cbn; lia|]. constructor; [|done]. by eapply warm_worker_fresh.
Qed.

Lemma run_setup_fresh bad ps ws : run_setup digest o body bad ps = Ok ws ->
  check_options o = None /\ Z.of_nat (length ws) = bo_concurrency o /\ Forall fresh_worker ws.
Proof.
  unfold run_setup. destruct (check_options o) as [e|] eqn:Ec; [done|]. intros (ws0 & Hn & Hw)%bind_Ok.
  apply new_workers_fresh in Hn as [HL HF]. apply warm_workers_fresh in Hw as [HL' HF']; [|done..].
  split_and!; try done. rewrite HL', length_map, length_seq.
  unfold check_options in Ec. destruct (Z.ltb_spec (bo_concurrency o) 1); [|lia].
  rewrite !orb_true_r in Ec. by cbn in Ec.
Qed.

Lemma bench_start_inv now ws : 0 <= bo_repeats o -> Forall fresh_worker ws ->
  bench_inv o body (now + bo_duration o) (length ws) (bench_start now ws).
Proof.
  intros Hr HF. split; unfold bench_start; cbn [rn_errs rn_workers rn_now length].
  - unfold mcount. rewrite map_size_filter, map_size_fmap, map_seq_size. cbn. lia.
  - intros k x. rewrite lookup_fmap, lookup_map_seq_0. intros (w & Hw & ->)%fmap_Some.
    destruct (Forall_lookup_1 _ _ _ _ HF Hw) as (E1 & E2 & E3). unfold slot_ok. cbn. rewrite E1, E2, E3. by split_and!.
Qed.

Definition all_done (s : brun) : Prop := forall k x, rn_workers s !! k = Some x -> sl_phase x = BDone.

Lemma check_options_facts : check_options o = None ->
  1 <= bo_repeats o /\ 1 <= bo_concurrency o <= 16 /\ 0 <= bo_duration o /\ (bo_streaming o = true -> 0 < bo_duration o).
Proof.
  unfold check_options. destruct (_ || _) eqn:E; [done|]. repeat apply orb_false_iff in E as [E ?]. intros Hc.
  repeat match goal with H : (_ <? _) = false |- _ => apply Z.ltb_ge in H end. split_and!; try lia.
  intros Hst. rewrite Hst in Hc. destruct (Z.leb_spec (bo_duration o) 0); [|lia]. cbn in Hc.
  destruct (negb _); [done|]. destruct (negb _); [done|]. by destruct (_ || _).
Qed.

Lemma busy_room deadline cap s k x : bench_inv o body deadline cap s -> rn_workers s !! k = Some x -> busy x = true ->
  (length (rn_errs s) < cap)%nat.
Proof.
  intros [HR _] Hx Hb. pose proof (mcount_insert_old busy _ k (mkBSlot (sl_i x) (sl_worker x) BDone) x Hx) as Hm. rewrite Hb in Hm. cbn in Hm. lia.
Qed.

Lemma bench_progress deadline cap s : bench_inv o body deadline cap s -> all_done s \/ exists s', bench_work digest o body deadline cap s s'.
Proof.
  intros HI. destruct (decide (map_Forall (fun _ x => busy x = false) (rn_workers s))) as [HF|HF].
  - left. intros k x Hx. specialize (HF k x Hx). cbn in HF. unfold busy in HF. by destruct (sl_phase x).
  - right. apply map_not_Forall in HF as (k & x & Hx & Hb%not_false_is_true); [|solve_decision].
    pose proof (busy_room _ _ _ _ _ HI Hx Hb) as Hroom. unfold busy in Hb. destruct (sl_phase x) as [|e|] eqn:Hp; [| |done].
    + destruct (continues o deadline (rn_now s) (sl_i x)) eqn:Hcont; eexists; [eapply (b_turn _ _ _ _ _ _ _ _ newTimedFixture (Err EOF) false 0 0)|eapply b_end]; eauto.
    + eexists. by eapply b_report.
Qed.

Lemma bench_work_bounded deadline cap s n s' : bo_duration o <= 0 -> bench_inv o body deadline cap s ->
  nsteps (bench_work digest o body deadline cap) n s s' -> (n <= bench_left o s)%nat.
Proof.
  intros Hd HI Hn. induction Hn as [|n s s1 s2 H1 _ IH]; [lia|]. pose proof (bench_work_less _ _ _ _ _ _ _ HI Hd H1).
  assert (n <= bench_left o s1)%nat; [|lia]. apply IH. eapply bench_inv_step; [by constructor|done].
Qed.

#[local] Notation step now ws := (bench_step digest o body (now + bo_duration o) (length ws)).
#[local] Notation work now ws := (bench_work digest o body (now + bo_duration o) (length ws)).

Lemma bench_reach now ws s : 0 <= bo_repeats o -> Forall fresh_worker ws -> rtc (step now ws) (bench_start now ws) s ->
  bench_inv o body (now + bo_duration o) (length ws) s /\ size (rn_workers s) = length ws.
Proof.
  intros Hr HF Hst. assert (size (rn_workers (bench_start now ws)) = length ws) as Hsz by (cbn; rewrite map_size_fmap; apply map_seq_size).
  revert Hsz. generalize (bench_start_inv now ws Hr HF). induction Hst as [s|s s1 s2 H1 _ IH]; intros HI Hsz; [done|].
  apply IH; [by eapply bench_inv_step|]. by rewrite (bench_step_size _ _ _ _ _ _ _ H1).
Qed.

(** The measurement of [run].  Once the set-up succeeds there is one worker per
    connection, and from then on, whatever the origin answers and in whatever order the
    workers run: a worker that failed can always report (the channel has room), some
    worker can move until all are done, and no worker keeps more than 4096 latencies.
    With a fixed number of requests only boundedly many steps of work remain.  When all
    are done without a failure, a fixed number of requests means exactly
    [repeats * concurrency] of them and as many times the body's length transferred; a
    duration means that it has passed and every worker made a request. *)
Theorem measurement bad ps ws now s : run_setup digest o body bad ps = Ok ws -> rtc (step now ws) (bench_start now ws) s ->
  Z.of_nat (length ws) = bo_concurrency o /\
  (forall k x e, rn_workers s !! k = Some x -> sl_phase x = BSend e -> work now ws s (report_failure k e x s)) /\
  (all_done s \/ exists s', work now ws s s') /\
  (forall k x, rn_workers s !! k = Some x -> (length (bw_samples (sl_worker x)) <= 4096)%nat) /\
  (bo_duration o = 0 -> forall n s', nsteps (work now ws) n s s' -> (n <= bench_left o s)%nat) /\
  (all_done s -> integrity s = true ->
     if 0 <? bo_duration o then now + bo_duration o <= rn_now s /\ bo_concurrency o <= bench_total bw_requests s
     else bench_total bw_requests s = bo_repeats o * bo_concurrency o /\
          bench_total bw_bytes s = bo_repeats o * bo_concurrency o * Z.of_nat (length body)).
Proof.
  intros Hset Hst. destruct (run_setup_fresh _ _ _ Hset) as (Hc & HL & HF).
  destruct (check_options_facts Hc) as (Hrep & Hconc & Hdur & Hstr).
  destruct (bench_reach _ _ _ ltac:(lia) HF Hst) as [HI Hsz]. pose proof (bi_slots _ _ _ _ _ HI) as HS. split_and!; [done|..].
  - intros k x e Hx Hp. constructor; [done..|]. eapply busy_room; [done|done|]. unfold busy. by rewrite Hp.
  - by apply bench_progress.
  - intros k x Hx. destruct (HS _ _ Hx) as (_ & _ & _ & Hs & _). lia.
  - intros Hd n s' Hn. eapply bench_work_bounded; [lia|done|done].
  - intros Hfin Hint. unfold bench_total.
    assert (forall k x, rn_workers s !! k = Some x -> if 0 <? bo_duration o then 0 < sl_i x /\ now + bo_duration o <= rn_now s else sl_i x = bo_repeats o) as HE.
    { intros k x Hx. destruct (HS k x Hx) as (_ & _ & _ & _ & _ & Hdone). apply Hdone; eauto. }
    destruct (Z.ltb_spec 0 (bo_duration o)) as [Hd|Hd].
    + split.
      * destruct (map_choose (rn_workers s)) as (k & x & Hx); [intros E0; rewrite E0, map_size_empty in Hsz; lia|]. by destruct (HE k x Hx).
      * rewrite <- HL, <- Hsz. rewrite <- (Z.mul_1_r (Z.of_nat _)). apply total_lower. intros k x Hx. destruct (HS k x Hx) as (-> & _), (HE k x Hx). lia.
    + rewrite <- HL, <- Hsz. assert (bo_streaming o = false) as Hns by (destruct (bo_streaming o); [lia|done]).
      rewrite !(Z.mul_comm (bo_repeats o)), <- !Z.mul_assoc. split; apply total_sum; intros k x Hx; destruct (HS k x Hx) as (Er & _ & Eb & _).
      * rewrite Er. by apply (HE k).
      * rewrite (Eb Hns). by rewrite (HE k x Hx).
Qed.
End run.

(** ** Quantiles *)

(** Rounding a non-negative integer to the 53 bits of a float64, to nearest, ties to
    even. *)
Definition round53 (p : Z) : Z :=
  let s := Z.log2 p - 52 in
  if s <=? 0 then p
  else let hi := p / 2 ^ s in let lo := p mod 2 ^ s in
       (if (2 ^ (s - 1) <? lo) || ((lo =? 2 ^ (s - 1)) && Z.odd hi) then hi + 1 else hi) * 2 ^ s.

(** [int(float64(n) * q)] for [q = m / 2^53]: the product is rounded, then truncated. *)
Definition float_index (n m : Z) : Z := round53 (n * m) / 2 ^ 53.

(** The constants .5, .95 and .99 as float64. *)
Definition q50 : Z := 4503599627370496.
Definition q95 : Z := 8556839292003942.
Definition q99 : Z := 8917127262193582.

Definition quantile (v : list Z) (m : Z) : option Z :=
  if bool_decide (v = []) then Some 0 else v !! Z.to_nat (float_index (Z.of_nat (length v) - 1) m).

Lemma round53_le p n : 0 <= p -> 0 <= n < 2 ^ 53 -> p <= n * 2 ^ 53 -> 0 <= round53 p <= n * 2 ^ 53.
Proof.
  intros Hp Hn Hle. unfold round53. set (s := Z.log2 p - 52). destruct (Z.leb_spec s 0) as [|Hs]; [lia|].
  assert (s <= 53) as Hs2.
  { unfold s. assert (Z.log2 p < 106) as HL; [|lia]. destruct (Z.eq_dec p 0) as [->|]; [done|].
    apply Z.log2_lt_pow2; [lia|]. apply Z.le_lt_trans with (n * 2 ^ 53); [done|]. change (2 ^ 106) with (2 ^ 53 * 2 ^ 53). lia. }
  assert (0 < 2 ^ s) as Hpos by (apply Z.pow_pos_nonneg; lia).
  assert (2 ^ 53 = 2 ^ (53 - s) * 2 ^ s) as E by (rewrite <- Z.pow_add_r by lia; f_equal; lia).
  set (N := n * 2 ^ (53 - s)). assert (n * 2 ^ 53 = N * 2 ^ s) as EN by (unfold N; rewrite E; ring). rewrite EN in *.
  pose proof (Z.div_mod p (2 ^ s) ltac:(lia)) as Hdm. pose proof (Z.mod_pos_bound p (2 ^ s) Hpos) as Hmod.
  set (hi := p / 2 ^ s) in *. set (lo := p mod 2 ^ s) in *.
  assert (0 <= hi) by (apply Z.div_pos; lia). assert (0 < 2 ^ (s - 1)) by (apply Z.pow_pos_nonneg; lia).
  assert (hi <= N) as Hhi by nia.
  assert (0 < lo -> hi + 1 <= N) as Hup by nia.
  destruct (_ || _) eqn:Eb; [|nia].
  assert (0 < lo) as Hlo.
  { apply orb_true_iff in Eb as [?%Z.ltb_lt|[?%Z.eqb_eq _]%andb_true_iff]; lia. }
  specialize (Hup Hlo). nia.
Qed.

Lemma round53_exponent p : 0 < p -> 2 ^ Z.log2 p <= round53 p <= 2 ^ (Z.log2 p + 1).
Proof.
  intros Hp. pose proof (Z.log2_spec p Hp) as [H1 H2]. rewrite <- Z.add_1_r in H2. unfold round53. set (s := Z.log2 p - 52).
  destruct (Z.leb_spec s 0) as [|Hs]; [lia|]. assert (0 < 2 ^ s) as Hpos by (apply Z.pow_pos_nonneg; lia).
  assert (2 ^ Z.log2 p = 2 ^ 52 * 2 ^ s) as E1 by (rewrite <- Z.pow_add_r by lia; f_equal; lia).
  assert (2 ^ (Z.log2 p + 1) = 2 ^ 53 * 2 ^ s) as E2 by (rewrite <- Z.pow_add_r by lia; f_equal; lia). rewrite E1, E2 in *.
  pose proof (Z.div_mod p (2 ^ s) ltac:(lia)) as Hdm. pose proof (Z.mod_pos_bound p (2 ^ s) Hpos) as Hmod.
  set (hi := p / 2 ^ s) in *. assert (2 ^ 52 <= hi < 2 ^ 53) by nia. destruct (_ || _); nia.
Qed.

Lemma round53_mono p q : 0 <= p <= q -> round53 p <= round53 q.
Proof.
  intros [Hp Hpq]. destruct (Z.eq_dec p 0) as [->|Hp0].
  { change (round53 0) with 0. destruct (Z.eq_dec q 0) as [->|]; [done|].
    pose proof (round53_exponent q ltac:(lia)). pose proof (Z.pow_nonneg 2 (Z.log2 q)). lia. }
  pose proof (Z.log2_le_mono p q Hpq) as HL. pose proof (Z.log2_nonneg p).
  destruct (Z.eq_dec (Z.log2 p) (Z.log2 q)) as [E|Hne].
  - unfold round53. rewrite <- E. set (s := Z.log2 p - 52). destruct (Z.leb_spec s 0) as [|Hs]; [done|].
    assert (0 < 2 ^ s) as Hpos by (apply Z.pow_pos_nonneg; lia).
    pose proof (Z.div_mod p (2 ^ s) ltac:(lia)) as Dp. pose proof (Z.mod_pos_bound p (2 ^ s) Hpos) as Mp.
    pose proof (Z.div_mod q (2 ^ s) ltac:(lia)) as Dq. pose proof (Z.mod_pos_bound q (2 ^ s) Hpos) as Mq.
    pose proof (Z.div_le_mono p q (2 ^ s) Hpos Hpq) as HD. apply Z.mul_le_mono_nonneg_r; [lia|].
    destruct (Z.eq_dec (p / 2 ^ s) (q / 2 ^ s)) as [Eh|]; [|destruct (_ || _), (_ || _); lia]. rewrite <- Eh.
    assert (p mod 2 ^ s <= q mod 2 ^ s) as Hlo by (rewrite Eh in Dp; lia).
    destruct (Z.ltb_spec (2 ^ (s - 1)) (p mod 2 ^ s)), (Z.ltb_spec (2 ^ (s - 1)) (q mod 2 ^ s)); cbn [orb]; try lia.
    + destruct (_ && _); lia.
    + destruct (Z.eqb_spec (p mod 2 ^ s) (2 ^ (s - 1))), (Z.eqb_spec (q mod 2 ^ s) (2 ^ (s - 1))), (Z.odd (p / 2 ^ s)); cbn; lia.
  - pose proof (round53_exponent p ltac:(lia)) as [_ H1]. pose proof (round53_exponent q ltac:(lia)) as [H2 _].
    pose proof (Z.pow_le_mono_r 2 (Z.log2 p + 1) (Z.log2 q) ltac:(lia) ltac:(lia)). lia.
Qed.

Lemma float_index_range n m : 0 <= n < 2 ^ 53 -> 0 <= m <= 2 ^ 53 -> 0 <= float_index n m <= n.
Proof.
  intros Hn Hm. unfold float_index. destruct (round53_le (n * m) n) as [H1 H2]; [nia..|]. split; [by apply Z.div_pos|].
  apply Z.div_le_upper_bound; lia.
Qed.

Lemma float_index_mono n m m' : 0 <= n -> 0 <= m <= m' -> float_index n m <= float_index n m'.
Proof. intros Hn Hm. unfold float_index. apply Z.div_le_mono; [lia|]. apply round53_mono. nia. Qed.

Lemma sorted_lookup (v : list Z) i j x y : Sorted Z.le v -> v !! i = Some x -> v !! j = Some y -> (i < j)%nat -> x <= y.
Proof.
  intros Hs Hx Hy Hij. apply (Sorted_StronglySorted Z.le) in Hs. rewrite <- (take_drop (S i) v) in Hs.
  eapply StronglySorted_app_1_elem_of; [done|apply list_elem_of_lookup; exists i; by rewrite lookup_take_lt by lia|].
  apply list_elem_of_lookup. exists (j - S i)%nat. rewrite lookup_drop. by replace (S i + (j - S i))%nat with j by lia.
Qed.

(** With the rounding of float64 the index never leaves the list, even at 1; on a sorted
    list a higher quantile is never below a lower one. *)
Lemma quantile_ok v m m' : Sorted Z.le v -> Z.of_nat (length v) <= 2 ^ 53 -> 0 <= m <= m' -> m' <= 2 ^ 53 ->
  exists x y, quantile v m = Some x /\ quantile v m' = Some y /\ x <= y /\ (v <> [] -> x ∈ v /\ y ∈ v).
Proof.
  intros Hs Hl Hm Hm'. unfold quantile. case_bool_decide as Hv; [by exists 0, 0|].
  assert (0 < length v)%nat as Hpos by (destruct v; [done|cbn; lia]).
  set (n := Z.of_nat (length v) - 1). assert (0 <= n < 2 ^ 53) as Hn by lia.
  pose proof (float_index_range n m Hn ltac:(lia)) as R1. pose proof (float_index_range n m' Hn ltac:(lia)) as R2.
  pose proof (float_index_mono n m m' ltac:(lia) Hm) as HM.
  destruct (lookup_lt_is_Some_2 v (Z.to_nat (float_index n m))) as [x Hx]; [lia|].
  destruct (lookup_lt_is_Some_2 v (Z.to_nat (float_index n m'))) as [y Hy]; [lia|].
  exists x, y. split_and!; [done..| |intros _; split; by eapply list_elem_of_lookup_2].
  destruct (decide (Z.to_nat (float_index n m) = Z.to_nat (float_index n m'))) as [E|]; [rewrite E in Hx; by simplify_eq|].
  eapply sorted_lookup; [done..|]. lia.
Qed.

(** ** The report *)

(** The end of [run]: the sums, the verdict and the quantiles of all latencies, sorted;
    [None] is an index out of range. *)
Record bench_report := mkReport {
  rp_bytes : Z; rp_requests : Z; rp_reused : bool; rp_closed : bool; rp_p50 : Z; rp_p95 : Z; rp_p99 : Z;
  rp_latency_samples : nat; rp_error : option error;
}.
Definition all_samples (s : brun) : list Z := concat ((fun kx => bw_samples (sl_worker (snd kx))) <$> map_to_list (rn_workers s)).
Definition report (s : brun) : option bench_report :=
  let samples := merge_sort Z.le (all_samples s) in
  let workers := (fun kx => sl_worker (snd kx)) <$> map_to_list (rn_workers s) in
  p50 ← quantile samples q50; p95 ← quantile samples q95; p99 ← quantile samples q99;
  Some (mkReport (bench_total bw_bytes s) (bench_total bw_requests s) (forallb bw_reused workers) (existsb bw_closed workers)
    p50 p95 p99 (length samples) (head (rn_errs s))).

Lemma all_samples_length s : (forall k x, rn_workers s !! k = Some x -> (length (bw_samples (sl_worker x)) <= 4096)%nat) ->
  (length (all_samples s) <= size (rn_workers s) * 4096)%nat.
Proof.
  intros Hs. unfold all_samples. rewrite <- length_map_to_list.
  assert (Forall (fun kx => length (bw_samples (sl_worker (snd kx))) <= 4096)%nat (map_to_list (rn_workers s))) as HF.
  { apply Forall_forall. intros [k x] Hx%elem_of_map_to_list. by eapply Hs. }
  induction HF as [|kx l Hk _ IH]; [done|]. cbn [fmap list_fmap concat length]. rewrite length_app. lia.
Qed.

(** The report of a run.  In whatever state the workers stop, [run] can print its report:
    no quantile reads outside the list although its index goes through float64, at most
    65536 latencies are held, and p50 <= p95 <= p99.  The report names an error exactly
    when some worker reported one. *)
Theorem report_bounds digest o body bad ps ws now s : run_setup digest o body bad ps = Ok ws ->
  rtc (bench_step digest o body (now + bo_duration o) (length ws)) (bench_start now ws) s ->
  exists r, report s = Some r /\ rp_p50 r <= rp_p95 r <= rp_p99 r /\ Z.of_nat (rp_latency_samples r) <= 65536 /\
    (rp_error r = None <-> integrity s = true) /\ rp_requests r = bench_total bw_requests s.
Proof.
  intros Hset Hst. destruct (run_setup_fresh _ _ _ _ _ _ Hset) as (Hc & HL & HF).
  destruct (check_options_facts _ Hc) as (Hrep & Hconc & Hdur & _).
  destruct (bench_reach digest o body now ws s ltac:(lia) HF Hst) as [HI Hsz].
  assert (Z.of_nat (length (all_samples s)) <= 65536) as Hlen.
  { enough (length (all_samples s) <= size (rn_workers s) * 4096)%nat by (rewrite Hsz in *; lia). apply all_samples_length.
    intros k x Hx. destruct (bi_slots _ _ _ _ _ HI _ _ Hx) as (_ & _ & _ & Hs & _). lia. }
  assert (Z.of_nat (length (merge_sort Z.le (all_samples s))) <= 65536) as Hlen' by (by rewrite (merge_sort_Permutation Z.le)).
  unfold report. set (v := merge_sort Z.le (all_samples s)) in *.
  assert (Sorted Z.le v) as Hsort by (apply (Sorted_merge_sort Z.le)). clearbody v.
  destruct (quantile_ok v q50 q95 Hsort) as (x & y & -> & Hy & Hxy & _); [lia|by vm_compute..|].
  destruct (quantile_ok v q95 q99 Hsort) as (y' & z & Hy' & -> & Hyz & _); [lia|by vm_compute..|].
  rewrite Hy in Hy' |- *. injection Hy' as <-. eexists. split; [reflexivity|]. cbn. split_and!; try done.
  unfold integrity. rewrite bool_decide_eq_true. by destruct (rn_errs s).
Qed.

(** ** Facts about fixtures *)

Lemma log_line_nonempty d : log_line d <> [].
Proof. done. Qed.

Lemma fill_text_length draws fuel i n out : (n <= length out + fuel)%nat -> (n <= length (fill_text draws fuel i n out))%nat.
Proof.
  revert i out. induction fuel as [|fuel IH]; intros i out Hf; cbn [fill_text]; [lia|].
  case_bool_decide; [|lia]. apply IH. rewrite length_app.
  pose proof (log_line_nonempty (draws i)) as Hne. destruct (log_line (draws i)); [done|]. cbn. lia.
Qed.

Lemma data_text_length random draws gzip n : length (data random draws gzip (bs "text") n) = n.
Proof.
  pose proof (fill_text_length draws n 0 n [] ltac:(cbn; lia)) as HL. unfold data.
  change (bool_decide (bs "text" = bs "gzip")) with false. change (bool_decide (bs "text" = bs "text")) with true.
  cbn [orb]. cbv zeta iota. rewrite length_take. lia.
Qed.

Lemma fixture_key_inj k k' n n' : k ∈ kinds -> k' ∈ kinds -> 0 <= n < 2 ^ 64 -> 0 <= n' < 2 ^ 64 ->
  fixture_key k n = fixture_key k' n' -> k = k' /\ n = n'.
Proof.
  intros Hk Hk' Hn Hn' E. assert (forall x, x ∈ kinds -> ContainsByte x (ch ":") = false) as Hno.
  { intros x Hx. unfold kinds in Hx. rewrite !elem_of_cons in Hx. destruct Hx as [->|[->|[->|[]%elem_of_nil]]]; reflexivity. }
  unfold fixture_key in E. apply (sep_inj k k' (ch ":")) in E as [-> E]; [|by apply Hno..]. split; [done|]. by apply Itoa_inj.
Qed.

Section honest.
Context (random : nat -> bytes) (draws : nat -> draw) (gzip : bytes -> bytes) (digest : bytes -> bytes).
#[local] Notation dat := (data random draws gzip).

(** A map of fixtures holds the right text under the keys of these sizes. *)
Definition holds (m : gmap bytes (bytes * bytes)) (n : Z) : Prop :=
  forall k, k ∈ kinds -> m !! fixture_key k n = Some (dat k (Z.to_nat n), digest (dat k (Z.to_nat n))).

Lemma add_kinds_lookup (ks : list bytes) (n : Z) (m : gmap bytes (bytes * bytes)) : (forall k, k ∈ ks -> k ∈ kinds) -> 0 <= n < 2 ^ 64 ->
  let m' := fold_left (fun m kind => let b := dat kind (Z.to_nat n) in <[fixture_key kind n := (b, digest b)]> m) ks m in
  (forall k, k ∈ ks -> m' !! fixture_key k n = Some (dat k (Z.to_nat n), digest (dat k (Z.to_nat n)))) /\
  (forall k, k ∈ kinds -> m !! fixture_key k n = Some (dat k (Z.to_nat n), digest (dat k (Z.to_nat n))) ->
     m' !! fixture_key k n = Some (dat k (Z.to_nat n), digest (dat k (Z.to_nat n)))) /\
  (forall k n', k ∈ kinds -> 0 <= n' < 2 ^ 64 -> n' <> n -> m' !! fixture_key k n' = m !! fixture_key k n').
Proof.
  revert m. induction ks as [|k0 ks IH]; intros m Hks Hn; cbn [fold_left]; [split_and!; [set_solver|done|done]|].
  destruct (IH (<[fixture_key k0 n := (dat k0 (Z.to_nat n), digest (dat k0 (Z.to_nat n)))]> m)) as (H1 & H2 & H3); [set_solver|done|].
  split_and!.
  - intros k [->|Hk]%elem_of_cons; [apply H2; [apply Hks; set_solver|apply lookup_insert_eq]|by apply H1].
  - intros k Hk Hm. apply H2; [done|]. destruct (decide (k0 = k)) as [->|Hne]; [apply lookup_insert_eq|].
    rewrite lookup_insert_ne; [done|]. intros E. apply fixture_key_inj in E as [? _]; [done|apply Hks; set_solver|done..].
  - intros k n' Hk Hn' Hne. rewrite H3 by done. apply lookup_insert_ne. intros E.
    apply fixture_key_inj in E as [_ ?]; [congruence|apply Hks; set_solver|done..].
Qed.

Lemma fixtures_hold sizes m : fixtures random draws gzip digest sizes = Ok m -> forall n, n ∈ sizes -> holds m n.
Proof.
  unfold fixtures. intros (u & Hc & [= <-])%bind_Ok. destruct u.
  assert (Forall (fun n => 0 <= n < 2 ^ 64) sizes) as Hr.
  { enough (forall sum, check_sizes sum sizes = Ok tt -> Forall (fun n => 0 <= n < 2 ^ 64) sizes) as HF by (by eapply HF).
    clear Hc. induction sizes as [|n sizes IH]; intros sum; cbn [check_sizes]; [done|].
    destruct (Z.ltb_spec n 1), (Z.ltb_spec fixtureLimit n); cbn [orb]; try done. destruct (_ <? _); [done|]. intros E.
    constructor; [|by eapply IH]. unfold fixtureLimit in *. lia. }
  assert (forall m, (forall n, n ∈ sizes -> holds (fold_left (add_size random draws gzip digest) sizes m) n) /\
    (forall n, 0 <= n < 2 ^ 64 -> holds m n -> holds (fold_left (add_size random draws gzip digest) sizes m) n)) as HH; [|by apply HH].
  clear Hc. induction Hr as [|n sizes Hn _ IH]; intros m; cbn [fold_left]; [split; [set_solver|done]|].
  destruct (add_kinds_lookup kinds n m ltac:(done) Hn) as (H1 & H2 & H3). fold (add_size random draws gzip digest m n) in *.
  destruct (IH (add_size random draws gzip digest m n)) as [I1 I2]. split.
  - intros n' [->|Hin]%elem_of_cons; [|by apply I1]. apply I2; [done|]. intros k Hk. by apply H1.
  - intros n' Hn' Hm. apply I2; [done|]. intros k Hk. destruct (decide (n' = n)) as [->|]; [by apply H1|]. rewrite H3 by done. by apply Hm.
Qed.

(** An honest benchmark succeeds, and a success means integrity.  Against the tool's own
    origin, every transfer of a prebuilt fixture, in either direction, counts as a success
    of exactly the fixture's length; and whatever a proxy in between delivers, a transfer
    counts as a success only if the status is 200 and the bytes downloaded (or the bytes
    the origin says it received) have the fixture's length and digest. *)
Theorem benchmark_transfer sizes f o generated now writes reused w : fixtures random draws gzip digest sizes = Ok f -> bo_n o ∈ sizes ->
  bo_streaming o = false -> bo_kind o ∈ kinds -> bo_direction o = bs "GET" \/ bo_direction o = bs "POST" ->
  let body := dat (bo_kind o) (Z.to_nat (bo_n o)) in
  Z.of_nat (length body) <= uploadLimit ->
  (exists w', transfer digest o body generated 0 (Ok (originHandler digest f now writes (transfer_request o body))) reused w = (None, w') /\
     bw_lastBytes w' = Z.of_nat (length body)) /\
  (forall answer w', transfer digest o body generated 0 answer reused w = (None, w') -> exists p, answer = Ok p /\ bp_status p = 200 /\ bp_err p = None /\
     (bo_direction o = bs "GET" -> length (bp_body p) = length body /\ digest (bp_body p) = digest body) /\
     (bo_direction o = bs "POST" -> bp_json p = Ok (Z.of_nat (length body), digest body))).
Proof.
  intros Hf Hn Hns Hk Hdir. unfold transfer. rewrite Hns. cbv zeta. set (body := dat (bo_kind o) (Z.to_nat (bo_n o))). intros Hlen. split.
  - pose proof (fixtures_hold _ _ Hf _ Hn _ Hk) as Hl. fold body in Hl. unfold originHandler, transfer_request. cbn [bq_path].
    change (bool_decide (bs "/transfer" = bs "/stream")) with false. change (bool_decide (bs "/transfer" = bs "/ping")) with false. change (bool_decide (bs "/transfer" = bs "/transfer")) with true. cbv iota.
    unfold serve_transfer. cbn [bq_method bq_kind bq_bytes bq_body bq_body_err].
    destruct Hdir as [E|E]; rewrite E.
    + change (bool_decide (bs "GET" = bs "POST")) with false. change (bool_decide (bs "GET" = bs "GET")) with true. cbn [negb].
      change (bo_kind o ++ bs ":" ++ Itoa (bo_n o)) with (fixture_key (bo_kind o) (bo_n o)). rewrite Hl.
      unfold finite_transfer, check_transfer. cbn [bp_status bp_sha bp_body bp_err bp_json bp_close]. rewrite E.
      change (bool_decide (bs "GET" = bs "GET")) with true. cbn. rewrite Z.eqb_refl, bool_decide_eq_true_2 by done. cbn. eauto.
    + change (bool_decide (bs "POST" = bs "POST")) with true. cbv iota. unfold origin_post.
      rewrite (proj2 (Z.leb_gt (uploadLimit + 1) _)), (proj2 (Z.ltb_ge uploadLimit _)) by lia.
      unfold finite_transfer, check_transfer. cbn [bp_status bp_sha bp_body bp_err bp_json bp_close]. rewrite E.
      change (bool_decide (bs "POST" = bs "GET")) with false. cbn. rewrite Z.eqb_refl, bool_decide_eq_true_2 by done. cbn. eauto.
  - intros answer w'. unfold finite_transfer. destruct answer as [p|]; [|done]. change (0 <? 0) with false. cbv iota.
    destruct (if bool_decide _ then _ else _) as [[count got] err] eqn:Ec.
    unfold check_transfer. destruct (Z.eqb_spec (bp_status p) 200); cbn [negb]; [|done]. destruct (_ && _); [done|].
    destruct err; [done|]. destruct (Z.eqb_spec count (Z.of_nat (length body))) as [->|]; cbn [negb orb]; [|done].
    destruct (bool_decide_reflect (got = digest body)) as [->|]; cbn [negb]; [|done]. intros _. exists p.
    destruct Hdir as [E|E]; rewrite E in Ec |- *.
    + change (bool_decide (bs "GET" = bs "GET")) with true in Ec. injection Ec as E1 E2 E3. split_and!; try done. intros _. split; [lia|done].
    + change (bool_decide (bs "POST" = bs "GET")) with false in Ec. destruct (bp_json p) as [[n h]|]; [|done]. injection Ec as -> -> ->.
      by split_and!.
Qed.
End honest.

(** ** Witnesses *)

Definition toy_options : bench_options :=
  mkBOpt false (bs "random") (bs "GET") 3 1 1 0 false 0 (30 * second) 0 0.
Definition toy_body : bytes := bs "abc".
Definition toy_fixture : bench_response := mkBResp 200 toy_body toy_body None None (Err (ErrNew "json")) false.
Definition toy_prep : preparation := mkPrep (Ok (plain 200 (bs "ok"))) (Err EOF) (Err EOF) (false, false).
Definition toy_slot0 : bslot := mkBSlot 0 newBWorker BLoop.
Definition toy_slot1 : bslot := bench_turn (fun b => b) toy_options toy_body newTimedFixture (Ok toy_fixture) true 7 0 toy_slot0.
Definition toy_done : brun := mkBRun 0 false {[0%nat := mkBSlot 1 (sl_worker toy_slot1) BDone]} [].

Lemma toy_run : rtc (bench_step (fun b => b) toy_options toy_body (0 + bo_duration toy_options) 1) (bench_start 0 [newBWorker]) toy_done.
Proof.
  eapply rtc_l; [apply b_work, (b_turn _ _ _ _ _ _ 0%nat toy_slot0 newTimedFixture (Ok toy_fixture) true 7 0); reflexivity|].
  eapply rtc_l; [apply b_work; eapply (b_end _ _ _ _ _ _ 0%nat toy_slot1); reflexivity|]. match goal with |- rtc _ ?a ?b => replace a with b by (vm_compute; reflexivity) end. apply rtc_refl.
Defined.

Lemma measurement_witness : exists ws, run_setup (fun b => b) toy_options toy_body false (fun _ => toy_prep) = Ok ws /\
  bench_total bw_requests toy_done = 1 /\ bench_total bw_bytes toy_done = 3.
Proof.
  exists [newBWorker]. split; [reflexivity|].
  destruct (measurement (fun b => b) toy_options toy_body false (fun _ => toy_prep) [newBWorker] 0 toy_done eq_refl toy_run)
    as (_ & _ & _ & _ & _ & HT).
  apply (HT ltac:(unfold toy_done; intros k x; cbn [rn_workers]; intros [_ <-]%lookup_singleton_Some; reflexivity) eq_refl).
Defined.

Lemma report_bounds_witness : exists r, report toy_done = Some r /\ rp_p50 r <= rp_p95 r <= rp_p99 r /\ rp_error r = None.
Proof.
  destruct (report_bounds (fun b => b) toy_options toy_body false (fun _ => toy_prep) [newBWorker] 0 toy_done eq_refl toy_run)
    as (r & Hr & Hq & _ & He & _). exists r. split_and!; [done|apply Hq..|by apply He].
Defined.

Lemma benchmark_transfer_witness : exists f w',
  fixtures (fun n => replicate n Byte.x61) (fun _ => mkDraw 0 0 0 0 0 0 0) (fun b => b) (fun b => b) [3] = Ok f /\
  transfer (fun b => b) toy_options (replicate 3 Byte.x61) newTimedFixture 0
    (Ok (originHandler (fun b => b) f 0 [] (transfer_request toy_options (replicate 3 Byte.x61)))) true newBWorker = (None, w') /\ bw_lastBytes w' = 3.
Proof.
  eexists. assert (forall f, fixtures (fun n => replicate n Byte.x61) (fun _ => mkDraw 0 0 0 0 0 0 0) (fun b => b) (fun b => b) [3] = Ok f ->
    exists w', transfer (fun b => b) toy_options (replicate 3 Byte.x61) newTimedFixture 0
    (Ok (originHandler (fun b => b) f 0 [] (transfer_request toy_options (replicate 3 Byte.x61)))) true newBWorker = (None, w') /\ bw_lastBytes w' = 3) as H.
  { intros f Hf. destruct (benchmark_transfer (fun n => replicate n Byte.x61) (fun _ => mkDraw 0 0 0 0 0 0 0) (fun b => b) (fun b => b) [3] f toy_options
      newTimedFixture 0 [] true newBWorker Hf) as [H _]; [apply list_elem_of_here|reflexivity|apply list_elem_of_further, list_elem_of_here|by left|vm_compute; discriminate|].
    exact H. }
  destruct (H _ eq_refl) as (w' & ? & ?). exists w'. by split_and!.
Defined.
