(* ===== verification/BenchMain.v ===== *)
(** * The benchmark tool: slow readers and main

    Completes [tools/wanbench/main.go] around [Bench] and [BenchRun]: [delayedReader], which
    slows a transfer down, and [main] with its three modes: waiting, serving the fixtures,
    and one measurement between its optional profiles.  Flag parsing, the profiler and the
    HTTP server are libraries; what they answer is an argument. *)
From S2P Require Import Prelude GoStd GoNet Bench BenchRun.

(** ** delayedReader *)

(** [Read] into a buffer of [len] bytes; [cancelled] is the error of the context if its end
    was chosen by the select.  The last part counts the delays that passed in full. *)
Definition delayed_Read {R} (delay : Z) (cancelled : option error) (read : nat -> R -> bytes * option error * R) (len : nat) (r : R)
    : bytes * option error * R * nat :=
  let len := Nat.min len (Z.to_nat 8192) in
  if 0 <? delay
  then match cancelled with
       | Some e => ([], Some e, r, 0%nat)
       | None => (read len r, 1%nat)
       end
  else (read len r, 0%nat).

(** A body on the network: what is left of it, and how much the next reads would deliver
    (at least a byte each). *)
Definition body_Read (len : nat) (r : bytes * list nat) : bytes * option error * (bytes * list nat) :=
  match r.1 with
  | [] => ([], Some EOF, r)
  | _ => let n := Nat.min len (match r.2 with h :: _ => S h | [] => len end) in (take n r.1, None, (drop n r.1, tail r.2))
  end.

(** [io.Copy] with its buffer of [len] bytes; [fuel] bounds the turns.  The result is
    everything copied, the error other than the end of the file, and the number of delays. *)
Fixpoint slow_copy (fuel : nat) (delay : Z) (cancelled : list (option error)) (len : nat) (r : bytes * list nat) (out : bytes) (waits : nat)
    : option (bytes * option error * nat) :=
  match fuel with
  | O => None
  | S fuel =>
      let '(b, e, r', n) := delayed_Read delay (default None (head cancelled)) body_Read len r in
      match e with
      | None => slow_copy fuel delay (tail cancelled) len r' (out ++ b) (waits + n)
      | Some e => Some (out ++ b, if errors_Is e EOF then None else Some e, (waits + n)%nat)
      end
  end.

(** ** main *)

(** How the process ends: asleep for an hour and then returning, in a panic, or with what
    it prints to standard output and to standard error, and its status. *)
Inductive main_end := EndSlept | EndPanic (e : error) | EndExit (printed : option bench_report) (stderr : option error) (status : Z).

(** The sizes to serve: those of the flag, or the one of a transfer. *)
Definition fixture_sizes (n : Z) (sizes : bytes) : res (list Z) :=
  if bool_decide (sizes = []) then Ok [n]
  else foldr (fun x rest => v ← Atoi x; vs ← rest; Ok (v :: vs)) (Ok []) (Split sizes (ch ",")).

Section main.
Context (random : nat -> bytes) (draws : nat -> draw) (gzip : bytes -> bytes) (digest : bytes -> bytes).

(** The origin's fixtures, or what makes [main] panic. *)
Definition origin_fixtures (n : Z) (sizes : bytes) : res (gmap bytes (bytes * bytes)) :=
  ns ← fixture_sizes n sizes; fixtures random draws gzip digest ns.

Definition main_serve (n : Z) (sizes : bytes) (listen : option error) : main_end :=
  match origin_fixtures n sizes with
  | Err e => EndPanic e
  | Ok _ => match listen with Some e => EndPanic e | None => EndExit None None 0 end
  end.

(** What [run] returns: nothing but the error of the checks and the set-up, or the report
    of the measurement that ended in [s] with the first failure; [None]: it panics. *)
Definition run_result (setup : res (list bworker)) (s : brun) : option (option bench_report * option error) :=
  match setup with
  | Err e => Some (None, Some e)
  | Ok _ => r ← report s; Some (Some r, head (rn_errs s))
  end.

(** A profile is [None] without its flag, and otherwise the error of creating (or starting)
    it, if any. *)
Definition main_measure (cpu : option (option error)) (run : option bench_report * option error) (mem : option (option error)) : main_end :=
  match cpu with
  | Some (Some e) => EndPanic e
  | _ => match mem with
         | Some (Some e) => EndPanic e
         | _ => EndExit run.1 run.2 (if run.2 then 1 else 0)
         end
  end.

Definition bench_main (hold serve : bool) (n : Z) (sizes : bytes) (listen : option error) (cpu : option (option error))
    (run : option bench_report * option error) (mem : option (option error)) : main_end :=
  if hold then EndSlept else if serve then main_serve n sizes listen else main_measure cpu run mem.
End main.

(** ** Lemmas *)

Lemma Split_Join ps sep : ps <> [] -> (forall p, p ∈ ps -> ContainsByte p sep = false) -> Split (Join ps sep) sep = ps.
Proof.
  assert (forall p, ContainsByte p sep = false -> Split p sep = [p]) as H1.
  { intros p Hp%bool_decide_eq_false. induction p as [|c p IH]; [done|]. cbn. destruct (beq c sep) eqn:E.
    - apply beq_true in E as ->. set_solver.
    - rewrite IH by set_solver. done. }
  intros Hne H. induction ps as [|p ps IH]; [done|]. destruct ps as [|q ps]; [apply H1, H; set_solver|].
  change (Join (p :: q :: ps) sep) with (p ++ sep :: Join (q :: ps) sep). rewrite Split_app, H1, IH; [done|done|..]; set_solver.
Qed.

Lemma Atoi_Itoa n : 0 <= n < 2 ^ 63 -> Atoi (Itoa n) = Ok n.
Proof.
  intros Hn. destruct (Itoa_spec n ltac:(lia)) as (Hne & Hd & Hv). unfold Atoi.
  destruct (Itoa n) as [|c ds] eqn:E; [done|]. cbn in Hd. apply andb_true_iff in Hd as [Hc _].
  destruct (beq c (ch "-")) eqn:E1; [apply beq_true in E1 as ->; done|]. destruct (beq c (ch "+")) eqn:E2; [apply beq_true in E2 as ->; done|].
  rewrite Hv. cbv zeta iota. rewrite (proj2 (Z.leb_le _ _)), (proj2 (Z.ltb_lt _ _)) by lia. done.
Qed.

Lemma Itoa_no_comma n : 0 <= n < 2 ^ 64 -> ContainsByte (Itoa n) (ch ",") = false.
Proof.
  intros Hn. destruct (Itoa_spec n Hn) as (_ & Hd & _). apply bool_decide_eq_false. intros Hin.
  rewrite forallb_forall in Hd. apply list_elem_of_In, Hd in Hin. done.
Qed.

Lemma fixture_sizes_Join n ns : ns <> [] -> Forall (fun n => 0 <= n < 2 ^ 63) ns ->
  fixture_sizes n (Join (Itoa <$> ns) (ch ",")) = Ok ns.
Proof.
  intros Hne HF. unfold fixture_sizes. assert (Split (Join (Itoa <$> ns) (ch ",")) (ch ",") = Itoa <$> ns) as HS.
  { apply Split_Join; [by destruct ns|]. intros p (m & -> & Hm)%list_elem_of_fmap. rewrite Forall_forall in HF. apply HF in Hm. apply Itoa_no_comma. lia. }
  rewrite bool_decide_eq_false_2, HS.
  2: { intros E. rewrite E in HS. destruct ns as [|m [|]]; [done| |done]. injection HS as HS.
       apply Forall_cons in HF as [Hm _]. destruct (Itoa_spec m ltac:(lia)) as [? _]. done. }
  clear Hne HS. induction HF as [|m ns Hm _ IH]; [done|]. cbn [fmap list_fmap foldr]. by rewrite Atoi_Itoa, IH.
Qed.

Lemma delayed_Read_None {R} delay read len (r : R) :
  delayed_Read delay None read len r = (read (Nat.min len (Z.to_nat 8192)) r, if 0 <? delay then 1%nat else 0%nat).
Proof. unfold delayed_Read. by destruct (0 <? delay). Qed.

Lemma slow_copy_spec fuel delay len r out waits : (0 < len)%nat -> (length r.1 < fuel)%nat ->
  exists n, slow_copy fuel delay [] len r out waits = Some (out ++ r.1, None, (waits + n)%nat) /\
    (0 < delay -> (length r.1 <= n * Nat.min len (Z.to_nat 8192) /\ 0 < n)%nat) /\ (delay <= 0 -> n = 0%nat).
Proof.
  intros Hl. revert r out waits. induction fuel as [|fuel IH]; intros [d hs] out waits Hf; [lia|]. cbn [fst] in *.
  cbn [slow_copy head tail default]. rewrite delayed_Read_None. set (L := Nat.min len (Z.to_nat 8192)) in *. assert (0 < L)%nat as HL by (subst L; lia).
  clearbody L. set (w := if 0 <? delay then 1%nat else 0%nat).
  destruct d as [|c d].
  - cbn. exists w. rewrite app_nil_r. subst w. destruct (Z.ltb_spec 0 delay); split_and!; auto; lia.
  - unfold body_Read at 1. cbn [fst snd]. set (m := Nat.min L _) in *. assert (0 < m <= L)%nat as Hm by (subst m; destruct hs; lia).
    destruct (IH (drop m (c :: d), tail hs) (out ++ take m (c :: d)) (waits + w)%nat) as (n & E & Hp & Hz).
    { cbn [fst]. rewrite length_drop. cbn [length] in *. lia. }
    exists (w + n)%nat. subst w. split; [|split].
    + etransitivity; [exact E|]. cbn [fst]. rewrite <- app_assoc, take_drop, <- Nat.add_assoc. done.
    + intros Hd. destruct (Hp Hd) as [H1 _]. cbn [fst] in H1. rewrite length_drop in H1. rewrite (proj2 (Z.ltb_lt _ _)) by done. split; [|lia].
      rewrite Nat.mul_add_distr_r. cbn [fst length] in *. lia.
    + intros Hd. rewrite (Hz Hd). rewrite (proj2 (Z.ltb_ge _ _)) by done. done.
Qed.

(** ** Failed transfers *)

Section failures.
Context (digest : bytes -> bytes) (o : bench_options) (body : bytes) (deadline : Z) (cap : nat).
#[local] Notation step := (bench_step digest o body deadline cap).

(** A turn of some worker whose transfer returns an error. *)
Definition failing_turn (s s' : brun) : Prop := step s s' /\ exists k x generated answer reused elapsed draw e w,
  rn_workers s !! k = Some x /\ sl_phase x = BLoop /\
  transfer digest o body generated 0 answer reused (sl_worker x) = (Some e, w) /\
  s' = set_slot k (bench_turn digest o body generated answer reused elapsed draw x) s.
(** A transfer failed on the way from [s0] to [s]. *)
Definition transfer_failed (s0 s : brun) : Prop := exists s1 s2, rtc step s0 s1 /\ failing_turn s1 s2 /\ rtc step s2 s.

(** A failure that was reported, or is on its way to the channel. *)
Definition failure_held (s : brun) : Prop :=
  rn_errs s <> [] \/ exists k x e, rn_workers s !! k = Some x /\ sl_phase x = BSend e.

Lemma failure_kept s s' : step s s' -> failure_held s -> failure_held s'.
Proof.
  intros Hst Hf. destruct Hst as [s s' Hw|s t Ht]; [|exact Hf].
  destruct Hw as [s k x generated answer reused elapsed draw Hx Hp Hc|s k x e Hx Hp Hl|s k x Hx Hp Hc].
  - destruct Hf as [?|(j & y & e & Hy & He)]; [by left|right]. exists j, y, e. cbn. rewrite lookup_insert_ne; [done|congruence].
  - left. cbn. by destruct (rn_errs s).
  - destruct Hf as [?|(j & y & e & Hy & He)]; [by left|right]. exists j, y, e. cbn. rewrite lookup_insert_ne; [done|congruence].
Qed.

Lemma failing_turn_held s s' : failing_turn s s' -> failure_held s'.
Proof.
  intros (_ & k & x & generated & answer & reused & elapsed & draw & e & w & Hx & Hp & Ht & ->). right.
  exists k, (mkBSlot (sl_i x) w (BSend e)), e. cbn. unfold bench_turn. by rewrite Ht, lookup_insert_eq.
Qed.

Lemma failure_new s s' : step s s' -> failure_held s' -> failure_held s \/ failing_turn s s'.
Proof.
  intros Hst. pose proof Hst as Hst0. destruct Hst as [s s' Hw|s t Ht]; [|by left].
  destruct Hw as [s k x generated answer reused elapsed draw Hx Hp Hc|s k x e Hx Hp Hl|s k x Hx Hp Hc].
  - intros [?|(j & y & e & Hy & He)]; [by left; left|]. cbn in Hy. apply lookup_insert_Some in Hy as [[<- <-]|[_ Hy]]; [|left; right; eauto].
    right. split; [done|]. unfold bench_turn in He. destruct (transfer _ _ _ _ _ _ _ _) as [[e'|] w] eqn:Et; [|done]. by eauto 15.
  - intros _. left. right. eauto.
  - intros [?|(j & y & e & Hy & He)]; [by left; left|]. cbn in Hy. apply lookup_insert_Some in Hy as [[<- <-]|[_ Hy]]; [done|left; right; eauto].
Qed.

Lemma failure_iff now ws s : rtc step (bench_start now ws) s -> (failure_held s <-> transfer_failed (bench_start now ws) s).
Proof.
  intros HR. split.
  - revert s HR. apply (rtc_ind_r (fun s => failure_held s -> transfer_failed (bench_start now ws) s)).
    + intros [?|(k & x & e & Hx & He)]; [done|]. cbn in Hx. rewrite lookup_fmap in Hx. apply fmap_Some in Hx as (w & _ & ->). done.
    + intros s s' HR Hst IH Hf. destruct (failure_new s s' Hst Hf) as [Hs|Hs].
      * destruct (IH Hs) as (s1 & s2 & H1 & H2 & H3). exists s1, s2. split_and!; [done|done|by eapply rtc_r].
      * exists s, s'. split_and!; [done|done|apply rtc_refl].
  - intros (s1 & s2 & _ & H2 & H3). apply failing_turn_held in H2. clear -H2 H3.
    induction H3 as [|s s1 s2 Hst _ IH]; [done|]. by eapply IH, failure_kept.
Qed.

(** When all workers are done, the verdict of [run] is that no transfer failed. *)
Lemma integrity_iff now ws s : rtc step (bench_start now ws) s -> all_done s ->
  (integrity s = true <-> ~ transfer_failed (bench_start now ws) s).
Proof.
  intros HR Hd. rewrite <- (failure_iff now ws s HR). unfold integrity. rewrite bool_decide_eq_true. split.
  - intros E [?|(k & x & e & Hx & He)]; [done|]. rewrite (Hd k x Hx) in He. done.
  - intros Hn. destruct (rn_errs s) eqn:E; [done|]. destruct Hn. left. by rewrite E.
Qed.
End failures.

(** The first of the two profiles that cannot be created. *)
Definition profile_failure (cpu mem : option (option error)) : option error :=
  match cpu with Some (Some e) => Some e | _ => match mem with Some (Some e) => Some e | _ => None end end.

Lemma main_measure_profiles cpu run mem : main_measure cpu run mem =
  match profile_failure cpu mem with Some e => EndPanic e | None => EndExit run.1 run.2 (if run.2 then 1 else 0) end.
Proof. by destruct cpu as [[]|], mem as [[]|]. Qed.

(** ** Properties *)

(** C40: the benchmark as a process.  Served sizes are read back exactly as a list of sizes is
    written, and the origin then holds every kind of fixture of every size listed.  A
    profile that cannot be created ends the process in a panic: the CPU profile before the
    measurement, the heap profile after it and before anything is printed.  Otherwise a
    measurement whose set-up failed prints nothing but its error and ends with status 1; and
    one whose workers are all done is reported, whatever they met (no quantile is out of
    range), with p50 <= p95 <= p99 of at most 65536 latencies, and the error of the first
    failure if there is one; the status is 0 exactly when no transfer failed.  Slowing a
    transfer down changes neither its bytes nor its end, and puts at least one delay on
    every 8 KiB. *)
Theorem bench_process random draws gzip digest :
  (forall n sizes f listen, sizes <> [] -> Forall (fun n => 0 <= n < 2 ^ 63) sizes ->
     origin_fixtures random draws gzip digest n (Join (Itoa <$> sizes) (ch ",")) = Ok f ->
     (forall m, m ∈ sizes -> holds random draws gzip digest f m) /\
     bench_main random draws gzip digest false true n (Join (Itoa <$> sizes) (ch ",")) (Some listen) None (None, None) None = EndPanic listen) /\
  (forall o body bad ps now s n sizes cpu mem,
     let main r := bench_main random draws gzip digest false false n sizes None cpu r mem in
     match run_setup digest o body bad ps with
     | Err e => exists r, run_result (Err e) s = Some r /\
         main r = match profile_failure cpu mem with Some e' => EndPanic e' | None => EndExit None (Some e) 1 end
     | Ok ws =>
         let step := bench_step digest o body (now + bo_duration o) (length ws) in
         let failed := transfer_failed digest o body (now + bo_duration o) (length ws) (bench_start now ws) s in
         rtc step (bench_start now ws) s -> all_done s ->
         exists r p status, run_result (Ok ws) s = Some r /\ r.1 = Some p /\
           main r = match profile_failure cpu mem with Some e => EndPanic e | None => EndExit (Some p) (rp_error p) status end /\
           (status = 0 <-> ~ failed) /\ (status = 0 \/ status = 1) /\ (rp_error p = None <-> ~ failed) /\
           rp_p50 p <= rp_p95 p <= rp_p99 p /\ Z.of_nat (rp_latency_samples p) <= 65536
     end) /\
  (forall delay len body hints, (0 < len)%nat -> exists waits,
     slow_copy (S (length body)) delay [] len (body, hints) [] 0 = Some (body, None, waits) /\
     (0 < delay -> (length body <= waits * Z.to_nat 8192)%nat)).
Proof.
  split_and!.
  - intros n sizes f listen Hne HF Hf. split.
    + unfold origin_fixtures in Hf. rewrite fixture_sizes_Join in Hf by done. by apply fixtures_hold.
    + unfold bench_main, main_serve. by rewrite Hf.
  - intros o body bad ps now s n sizes cpu mem. cbv zeta. unfold bench_main. destruct (run_setup digest o body bad ps) as [ws|e] eqn:Es.
    2: { eexists. split; [reflexivity|]. by rewrite main_measure_profiles. }
    intros Hst Hd. destruct (report_bounds _ _ _ _ _ _ _ _ Es Hst) as (p & Hp & H1 & H2 & H3 & _).
    pose proof (integrity_iff _ _ _ _ _ _ _ _ Hst Hd) as HI.
    assert (rp_error p = head (rn_errs s)) as He.
    { unfold report in Hp. apply bind_Some in Hp as (? & _ & Hp). apply bind_Some in Hp as (? & _ & Hp).
      apply bind_Some in Hp as (? & _ & Hp). by injection Hp as <-. }
    eexists _, p, (if integrity s then 0 else 1). unfold run_result. rewrite Hp. split; [reflexivity|]. rewrite <- HI, H3.
    split_and!; try done; try tauto; [|by destruct (integrity s)|by destruct (integrity s); [left|right]].
    rewrite main_measure_profiles. destruct (profile_failure cpu mem); [done|]. cbn. rewrite He. unfold integrity.
    destruct (rn_errs s); [done|by rewrite bool_decide_eq_false_2].
  - intros delay len body hints Hl. destruct (slow_copy_spec (S (length body)) delay len (body, hints) [] 0 Hl ltac:(cbn; lia)) as (w & E & H1 & _).
    exists w. split; [exact E|]. intros Hd. destruct (H1 Hd) as [H _]. cbn [fst] in H. etransitivity; [exact H|]. apply Nat.mul_le_mono_l. lia.
Qed.

Lemma toy_all_done : all_done toy_done.
Proof. unfold toy_done. intros k x. cbn [rn_workers]. intros [_ <-]%lookup_singleton_Some. reflexivity. Qed.

Lemma bench_process_witness : exists r p status, run_result (Ok [newBWorker]) toy_done = Some r /\ r.1 = Some p /\
  bench_main (fun n => replicate n Byte.x61) (fun _ => mkDraw 0 0 0 0 0 0 0) (fun b => b) (fun b => b) false false 3 [] None None
    r (Some None) = EndExit (Some p) (rp_error p) status /\ (status = 0 \/ status = 1) /\ rp_p50 p <= rp_p95 p <= rp_p99 p.
Proof.
  destruct (bench_process (fun n => replicate n Byte.x61) (fun _ => mkDraw 0 0 0 0 0 0 0) (fun b => b) (fun b => b)) as (_ & H & _).
  pose proof (H toy_options toy_body false (fun _ => toy_prep) 0 toy_done 3 [] None (Some None) toy_run toy_all_done)
    as (r & p & status & Hr & Hp & Hm & _ & Hs & _ & Hq & _).
  exists r, p, status. split; [exact Hr|]. split; [exact Hp|]. split; [exact Hm|]. split; [exact Hs|exact Hq].
Defined.
