(* ===== verification/EndToEnd.v ===== *)
(** * The components together

    The two ends of the tunnel composed: opening a stream ([OpenTCP] against
    [handleProxy]), mutual authentication ([dialAuth] against the gate and
    [Authenticate]), the heartbeat ([runHeartbeat] against the control loop), the relay
    through both processes, and a UDP packet from a SOCKS client to the server's NAT and
    back. *)
From S2P Require Import Prelude GoStd GoNet Protocol Admission Compress Relay Tunnel UdpNat Server ServerConns Client ClientState Socks Proxy.

(** ** Opening a stream *)

Lemma WriteTo_good rq out : valid_address (Addr rq) ->
  WriteTo rq (Writer out []) = (length (request_bytes rq), None, Writer (out ++ request_bytes rq) []).
Proof. intros [Hv _]. unfold WriteTo. by rewrite Hv, write_checked_good. Qed.

(** The request the client writes, given its codec. *)
Definition open_request (codec : option nat) (target : Address) : StreamRequest :=
  mkStreamRequest CmdTCPConnect (if codec then FlagCompress else Byte.x00) target.

Lemma negotiate_reply codec target a st fl e : valid_address target ->
  op_writer a = Writer [] [] -> op_ctx a = None -> op_reader a = Reader (reply st fl) e ->
  negotiate target (Flags (open_request codec target)) a =
    ((if negb (bool_decide (st = StatusOK)) then Err (DialError (b2z st))
      else if bad_flags fl (Flags (open_request codec target)) then Err (ErrNew "tunnel: unrequested stream flags")
      else Ok fl), Writer (request_bytes (open_request codec target)) []).
Proof.
  intros Ha Hw Hc Hr. unfold negotiate. rewrite Hw. change (mkStreamRequest _ _ target) with (open_request codec target).
  rewrite WriteTo_good by done. rewrite Hr. change (fst (ReadReply (Reader (reply st fl) e))) with (Ok (st, fl)).
  cbn [fst]. rewrite Hc. done.
Qed.

Section open.
Context {B B2 : Type} `{AdmissionLaws B} `{AdmissionLaws B2}.

(** The server's side for a request the client wrote. *)
Lemma handleProxy_open scomp codec target rest e dial (sc : B2) : ad_wf sc -> valid_address target ->
  let '(sout, sc') := handleProxy scomp (Reader (request_bytes (open_request codec target) ++ rest) e) (Writer [] [])
                        dial false sc in
  match dial (wire_form target) with
  | Some err => wr_out (px_reply sout) = reply (failure_status err) Byte.x00 /\ px_end sout = ProxyDone
  | None => exists u, wr_out (px_reply sout) = reply StatusOK (if u : bool then FlagCompress else Byte.x00) /\
      px_end sout = ProxyPipe u /\
      (u = true <-> scomp = true /\ is_Some codec /\ (size (ad_held sc) < ad_limit sc)%nat)
  end.
Proof.
  intros Hwf Ha. unfold handleProxy. rewrite ReadStreamRequest_bytes by done. cbn [Cmd Addr Flags open_request].
  rewrite bool_decide_eq_true_2 by done. cbn [negb]. destruct (dial (wire_form target)) as [err|].
  { rewrite WriteReply_good. done. }
  assert (negb (Z.land (b2z (if codec then FlagCompress else Byte.x00)) (b2z FlagCompress) =? 0) = bool_decide (is_Some codec)) as ->.
  { by destruct codec. }
  destruct (if scomp && _ then ad_try sc else _) as [lease b1] eqn:El.
  rewrite WriteReply_good. exists (bool_decide (is_Some lease)). split; [done|]. split; [done|].
  destruct (scomp && bool_decide (is_Some codec)) eqn:Ew.
  - apply andb_true_iff in Ew as [-> Hc%bool_decide_eq_true].
    destruct (ad_try_cases _ _ _ Hwf El) as [(l & -> & _ & _ & _ & _ & Hlt)|(-> & _ & Hf)].
    + split; [intros _; done|done].
    + split; [done|]. intros (_ & _ & ?). lia.
  - injection El as <- <-. split; [done|]. intros (-> & Hc & _). by rewrite bool_decide_eq_true_2 in Ew.
Qed.

(** Both ends of an opening stream, for every answer of the dialler. *)
Lemma open_agree ccomp want maxPending scomp target a dial rest (active codecs : B) (sc : B2) pending
    out act cod sout sc' :
  ad_wf active -> ad_wf codecs -> ad_wf sc -> valid_address target ->
  (size (ad_held active) < ad_limit active)%nat -> (pending < maxPending)%nat ->
  op_conn a = None -> openTunnelStream (op_stream a) ProxyAuthority = (None, false) ->
  op_writer a = Writer [] [] -> op_ctx a = None ->
  OpenTCP ccomp want maxPending target a active codecs pending = (out, act, cod) ->
  handleProxy scomp (Reader (wr_out (oo_writer out) ++ rest) EOF) (Writer [] []) dial false sc = (sout, sc') ->
  op_reader a = Reader (wr_out (px_reply sout)) EOF ->
  match dial (wire_form target) with
  | Some e => oo_result out = Err (DialError (b2z (failure_status e))) /\ px_end sout = ProxyDone
  | None => exists c, oo_result out = Ok c /\ px_end sout = ProxyPipe c /\
      (c = true <-> want = true /\ ccomp = true /\ scomp = true /\
         (size (ad_held codecs) < ad_limit codecs)%nat /\ (size (ad_held sc) < ad_limit sc)%nat)
  end.
Proof.
  intros Hwa Hwc Hws Ha Hcap Hp Hconn Hopen Hw Hctx HO HP Hr.
  destruct (ad_try_ok active Hwa Hcap) as (l & act0 & Etry & _).
  unfold OpenTCP in HO. rewrite Etry, bool_decide_eq_true_2 in HO by done. cbn [negb] in HO.
  destruct (open_pending _ _ _ _ _ _ _ _) as [[o act1] cod1] eqn:HO'. injection HO as <- <- <-.
  rename HO' into HO. cbn [leave_pending oo_writer oo_result] in *. rename o into out.
  unfold open_pending in HO. rewrite Hconn, Hopen in HO.
  destruct (if want && ccomp then ad_try codecs else _) as [codec cod0] eqn:Ec.
  assert (is_Some codec <-> want = true /\ ccomp = true /\ (size (ad_held codecs) < ad_limit codecs)%nat) as Hcodec.
  { destruct (want && ccomp) eqn:Ew.
    - apply andb_true_iff in Ew as [-> ->].
      destruct (ad_try_cases _ _ _ Hwc Ec) as [(k & -> & _ & _ & _ & _ & Hlt)|(-> & _ & Hf)].
      + split; [done|eauto].
      + split; [by intros []|]. intros (_ & _ & ?). lia.
    - injection Ec as <- <-. split; [by intros []|]. intros (-> & -> & _). done. }
  assert ((if bool_decide (is_Some codec) then FlagCompress else Byte.x00) = Flags (open_request codec target)) as Efl
    by (by destruct codec).
  rewrite Efl in HO.
  assert (oo_writer out = Writer (request_bytes (open_request codec target)) []) as Hout.
  { unfold negotiate in HO. rewrite Hw in HO. change (mkStreamRequest CmdTCPConnect _ target) with (open_request codec target) in HO.
    rewrite WriteTo_good in HO by done. rewrite app_nil_l in HO.
    destruct (match fst _ with Ok _ => _ | Err _ => _ end) as [fl|er] in HO; [destruct (has_flag fl) in HO|];
      apply pair_equal_spec in HO as [[<- _]%pair_equal_spec _]; done. }
  rewrite Hout in HP. cbn [wr_out] in HP.
  pose proof (handleProxy_open scomp codec target rest EOF dial sc Hws Ha) as HS. rewrite HP in HS.
  destruct (dial (wire_form target)) as [e|].
  - destruct HS as [Hrep Hend]. rewrite Hrep in Hr. rewrite (negotiate_reply codec target a _ _ EOF Ha Hw Hctx Hr) in HO.
    rewrite bool_decide_eq_false_2 in HO by (unfold failure_status, dialStatus; repeat case_match; done). cbn [negb] in HO.
    apply pair_equal_spec in HO as [[<- _]%pair_equal_spec _]. done.
  - destruct HS as (u & Hrep & Hend & Hu). rewrite Hrep in Hr.
    rewrite (negotiate_reply codec target a _ _ EOF Ha Hw Hctx Hr) in HO.
    rewrite bool_decide_eq_true_2 in HO by done. cbn [negb] in HO.
    assert (bad_flags (if u then FlagCompress else Byte.x00) (Flags (open_request codec target)) = false) as Hb.
    { destruct u; [|by destruct codec]. destruct (proj1 Hu eq_refl) as (_ & [k ->] & _). done. }
    rewrite Hb in HO. exists u. split; [|split; [done|]].
    + destruct u; change (has_flag _) with true in HO || change (has_flag _) with false in HO;
        apply pair_equal_spec in HO as [[<- _]%pair_equal_spec _]; done.
    + rewrite Hu, Hcodec. tauto.
Qed.

(** C1: opening a TCP stream through the tunnel.  When the client has capacity and a
    tunnel, it writes one request, and for every answer of the server's dialler the two
    ends agree: a dial error is what the caller gets, as the status the server chose and
    with no relay on either side; success starts a relay on both sides in the same mode,
    compressed exactly when the caller, both configurations and both codec budgets
    allow it. *)
Theorem open_end_to_end ccomp want maxPending scomp target a dial rest (active codecs : B) (sc : B2) pending
    out act cod sout sc' :
  ad_wf active -> ad_wf codecs -> ad_wf sc -> valid_address target ->
  (size (ad_held active) < ad_limit active)%nat -> (pending < maxPending)%nat ->
  op_conn a = None -> openTunnelStream (op_stream a) ProxyAuthority = (None, false) ->
  op_writer a = Writer [] [] -> op_ctx a = None ->
  OpenTCP ccomp want maxPending target a active codecs pending = (out, act, cod) ->
  handleProxy scomp (Reader (wr_out (oo_writer out) ++ rest) EOF) (Writer [] []) dial false sc = (sout, sc') ->
  op_reader a = Reader (wr_out (px_reply sout)) EOF ->
  match dial (wire_form target) with
  | Some e => oo_result out = Err (DialError (b2z (failure_status e))) /\ px_end sout = ProxyDone
  | None => exists c, oo_result out = Ok c /\ px_end sout = ProxyPipe c /\
      (c = true <-> want = true /\ ccomp = true /\ scomp = true /\
         (size (ad_held codecs) < ad_limit codecs)%nat /\ (size (ad_held sc) < ad_limit sc)%nat)
  end.
Proof. apply open_agree. Qed.
End open.

(** ** Establishing the tunnel *)

(** The client's request as the server sees it. *)
Definition as_request (q : connect_request) : request := mkRequest (cq_method q) (cq_host q) (cq_version q) true.

(** C2: establishing the tunnel.  On a connection whose control stream has not been used,
    the client's control request passes the gate; a client with the primary key, or the
    previous key before it expires, is authenticated by the server, which publishes the
    session under a digest it accepts before replying; and on that reply [dialAuth]
    succeeds, having written exactly the proof the server read. *)
Theorem connect_end_to_end `{CryptoLaws} {B} `{AdmissionLaws B} maxStreams (s : server B) c x k exporter a rest e :
  conns s !! c = Some x -> cn_phase x = NoControl ->
  Tunnel.active (clock s) (snap s) k ->
  (k = primary (snap s) \/ proof (primary (snap s)) exporter "client" <> proof k exporter "client") ->
  da_dial a = None -> da_stream a = mkH3 None (fun _ => None) (Ok 200) None ->
  da_exporter a = Ok exporter -> da_ctx a = None ->
  exists s1,
    serveHTTP maxStreams c (as_request (tunnel_request ControlAuthority)) s = (RControl, upd_conn c (with_phase Control) s) /\
    Authenticate (clock s) (snap s) (mkIO (Reader (proof k exporter "client" ++ rest) e) (Writer [] []) []) exporter
      (Some (fun _ => None)) = (None, s1) /\
    io_log s1 = [Ready (sha256 k); Wrote (proof k exporter "server")] /\ accepts s (sha256 k) = true /\
    (da_io a = mkIO (Reader (wr_out (io_out s1)) EOF) (Writer [] []) [] ->
     exists s2, dialAuth k a = (None, false, s2) /\ wr_out (io_out s2) = proof k exporter "client").
Proof.
  intros Hc Hx Hact Hne Hd Hs He Hctx.
  destruct (handshake_complete (clock s) (snap s) k exporter rest e [] EOF Hact Hne)
    as (c1 & s1 & c2 & K1 & K2 & K3 & _ & K4 & K5 & _ & K6).
  unfold ClientAuth_send in K1. rewrite writeProof_good in K1. injection K1 as <-. cbn [io_out wr_out] in *.
  exists s1. split.
  { unfold serveHTTP, as_request, tunnel_request. cbn [rq_method rq_host rq_version rq_http3 cq_method cq_host cq_version].
    rewrite !bool_decide_eq_true_2 by done. cbn [negb orb andb]. by rewrite Hc, Hx. }
  split; [done|]. split; [done|]. split; [done|]. intros Hio.
  unfold dialAuth. rewrite Hd, Hs, He, Hio. rewrite app_nil_r in K5. cbn -[ClientAuth]. rewrite K5, Hctx. eauto.
Qed.

(** ** The heartbeat *)

Lemma heartbeats_answered n out e :
  heartbeats n (Writer out []) (Reader (replicate n CtrlPong) e) = (n, Writer (out ++ replicate n CtrlPing) [], Reader [] e).
Proof.
  revert out. induction n as [|n IH]; intros out; [by rewrite app_nil_r|]. cbn [heartbeats].
  unfold heartbeat, Write. cbn [wr_plan wr_out].
  change (replicate (S n) CtrlPong) with ([CtrlPong] ++ replicate n CtrlPong). rewrite ReadFull_app by done.
  change (bool_decide (byte0 [CtrlPong] = CtrlPong)) with true. rewrite IH. by rewrite <- app_assoc.
Qed.

(** The heartbeat.  Any number of pings the client writes are all answered by the
    server's control loop, and with those answers every exchange of the client
    succeeds, nothing more being read or written on either side. *)
Theorem heartbeat_end_to_end n e :
  let '(sw, unread) := control_loop (replicate n CtrlPing) (Writer [] []) in
  unread = [] /\
  heartbeats n (Writer [] []) (Reader (wr_out sw) e) = (n, Writer (replicate n CtrlPing) [], Reader [] e).
Proof.
  pose proof (control_pongs (replicate n CtrlPing) [] []) as Hp. rewrite app_nil_r, length_replicate in Hp.
  rewrite Hp; [|by apply Forall_replicate|done]. split; [done|]. apply heartbeats_answered.
Qed.

(** ** The relay *)

(** C3: a stream through both processes is transparent in both directions and both
    modes.  What the application sends, read and cut in any way, arrives at the
    destination unchanged, and what the destination sends arrives at the application
    unchanged; a clean end in one direction only half-closes, so the other direction
    can finish, and neither side aborts. *)
Theorem tunnel_transparent `{FL : FlateLaws} compressed o1 o2 app dest up down pool1 pool2 w1 w2 :
  clean app -> clean dest -> clean up -> clean down -> reads_ok app -> reads_ok dest ->
  relay_up compressed o1 (Writer [] []) app pool1 = (w1, None) -> delivered up = wr_out w1 ->
  pipe_down compressed o2 (Writer [] []) dest pool2 = (w2, None) -> delivered down = wr_out w2 ->
  pipe_up compressed (Writer [] []) up = Some (Writer (delivered app) [], None) /\
  relay_down compressed (Writer [] []) down = Some (Writer (delivered dest) [], None) /\
  relay_report Proxy.CloseWriteRemote None None = ([Proxy.CloseWriteRemote], None) /\
  pipe_report CloseStream None None = ([CloseStream], None) /\
  relay_collect [None; None] = [] /\ pipe_collect [None; None] = [].
Proof.
  intros. split; [by eapply relay_chain|]. split; [by eapply relay_chain|]. done.
Qed.

(** ** UDP *)

(** C4: a UDP packet end to end.  A datagram accepted from the SOCKS client leaves the
    client as one tunnel datagram that the authenticated server takes up for the same
    session, target and payload; and a reply the server's NAT emits for a flow of that
    session reaches the same client at its pinned source, in an envelope that names the
    flow's target and carries the same bytes. *)
Theorem udp_end_to_end opt n peer zone req st from data target payload id f x answer :
  bad_source peer zone req (as_source st) from = false -> parseSOCKSUDP data = Ok (target, payload) ->
  0 <= id < 2 ^ 64 -> auth n = true -> ctx_done n = false ->
  Z.of_nat (length payload) <= MaxPayload opt ->
  fl_session x = id -> fl_target x = target -> (length answer <= MaxUDPPayload)%nat ->
  let dg := mkDatagram id target payload in
  let st' := assoc_receive peer zone req from data st in
  as_sent st' = as_sent st ++ [(from, target, payload)] /\
  (exists d, Send id false None None target payload = (None, None, Some d) /\
     serve_datagram opt d n = set_rx (RxHave dg (flows n !! key_of dg)) (accept dg n)) /\
  exists out to,
    pump_send f x answer None n = upd_flow f (set_pump PTop) (add_down (f, out) n) /\
    dispatch_recv out = DHave (mkDatagram id target answer) /\
    as_source st' = Some to /\ (as_source st = None -> to = from) /\
    as_written (assoc_return (mkDatagram id target answer) None st') =
      as_written st' ++ [(to, buildSOCKSUDP target answer)] /\
    parseSOCKSUDP (buildSOCKSUDP target answer) = Ok (target, answer).
Proof.
  intros Hbad Hparse Hid Hauth Hctx Hmax Hses Htgt Hans. cbv zeta.
  destruct (parseSOCKSUDP_sound _ _ _ Hparse) as (_ & Hv & Hw & Hp & Hl).
  assert (forall p, (length p <= MaxUDPPayload)%nat ->
    (length (EncodeDatagram id target p) <= MaxUDPDatagramSize)%nat /\
    DecodeDatagram (EncodeDatagram id target p) = Ok (mkDatagram id target p)) as Henc.
  { intros p Hlp. pose proof (EncodeDatagram_length id target p Hv) as Hlen.
    assert (length (EncodeDatagram id target p) <= MaxUDPDatagramSize)%nat as Hs.
    { unfold MaxUDPPayload, MaxUDPDatagramSize in *. lia. }
    split; [done|]. rewrite DecodeDatagram_body, bool_decide_eq_false_2, Hw by (done || lia). done. }
  unfold assoc_receive. rewrite Hbad, Hparse. split; [done|]. split.
  - destruct (Henc payload Hl) as [Hs Hd]. exists (EncodeDatagram id target payload). split.
    + unfold Send. rewrite (va_valid _ Hv), (proj2 (Z.eqb_neq _ _) Hp), !bool_decide_eq_false_2 by lia. done.
    + unfold serve_datagram, forward. rewrite Hauth, Hctx, bool_decide_eq_false_2, Hd by lia. cbn [negb Payload].
      by rewrite (proj2 (Z.ltb_ge _ _)) by lia.
  - destruct (Henc answer Hans) as [Hs Hd]. exists (EncodeDatagram id target answer).
    exists (match as_source st with Some t => t | None => from end).
    split; [unfold pump_send; by rewrite Hses, Htgt, bool_decide_eq_false_2 by lia|].
    split; [unfold dispatch_recv; by rewrite Hd|]. cbn [as_source].
    split; [by destruct (as_source st)|]. split; [by intros ->|]. split.
    + unfold assoc_return. cbn [as_source Payload DgAddr]. destruct (as_source st); rewrite bool_decide_eq_false_2 by lia; done.
    + by rewrite parseSOCKSUDP_build, Hw.
Qed.

(** ** Concrete runs *)
#[local] Existing Instance toy_crypto.
#[local] Existing Instance toy_laws.
#[local] Existing Instance stored_flate.
#[local] Existing Instance stored_laws.

Lemma open_end_to_end_witness : exists out act cod sout sc',
  OpenTCP true true 1 Client.example_target example_open example_budget example_budget 0 = (out, act, cod) /\
  handleProxy true (Reader (wr_out (oo_writer out) ++ bs "data") EOF) (Writer [] []) (fun _ => None) false example_budget =
    (sout, sc') /\
  exists c, oo_result out = Ok c /\ px_end sout = ProxyPipe c.
Proof.
  do 5 eexists. split; [vm_compute; reflexivity|]. split; [vm_compute; reflexivity|].
  edestruct (open_end_to_end true true 1 true Client.example_target example_open (fun _ => None) (bs "data")
    example_budget example_budget example_budget 0) as (c & H1 & H2 & _);
    [exact client_budget_wf|exact client_budget_wf|exact client_budget_wf|split; [vm_compute; reflexivity|cbn; lia]
    |vm_compute; lia|lia|reflexivity|reflexivity|reflexivity|reflexivity
    |vm_compute; reflexivity|vm_compute; reflexivity|reflexivity|].
  exists c. split; [exact H1|exact H2].
Defined.

Definition example_server : server Budget :=
  mkServer example_snapshot (99 * second) 0 {[ 3%nat := mkConn true Registered NoControl 0 ]} example_budget example_budget ∅
    None ∅ false.

Lemma connect_end_to_end_witness : exists s1 s2,
  Authenticate (99 * second) example_snapshot
    (mkIO (Reader (proof old_key (bs "exporter") "client") EOF) (Writer [] []) []) (bs "exporter")
    (Some (fun _ => None)) = (None, s1) /\
  dialAuth old_key (mkAuth None example_h3 (Ok (bs "exporter"))
    (mkIO (Reader (wr_out (io_out s1)) EOF) (Writer [] []) []) None) = (None, false, s2).
Proof.
  edestruct (connect_end_to_end 1 example_server 3 (mkConn true Registered NoControl 0) old_key (bs "exporter")
    (mkAuth None example_h3 (Ok (bs "exporter"))
      (mkIO (Reader (proof old_key (bs "exporter") "server") EOF) (Writer [] []) []) None) [] EOF)
    as (s1 & _ & H1 & _ & _ & H2);
    [reflexivity|reflexivity|split; [discriminate|right; split; reflexivity]|right; vm_compute; discriminate
    |reflexivity|reflexivity|reflexivity|reflexivity|].
  exists s1. rewrite app_nil_r in H1. vm_compute in H1. injection H1 as <-.
  destruct H2 as (s2 & H2 & _); [vm_compute; reflexivity|]. exists s2. split; [vm_compute; reflexivity|exact H2].
Defined.

Definition example_up : list read_event :=
  [mkRead (wr_out (fst (relay_up true true (Writer [] []) example_reads 1))) (Some EOF) 0].
Definition example_down : list read_event :=
  [mkRead (wr_out (fst (pipe_down true false (Writer [] []) example_reads 0))) (Some EOF) 0].

Lemma example_one_clean data : clean [mkRead data (Some EOF) 0].
Proof. intros ev [->|[]%elem_of_nil]%elem_of_cons. right. reflexivity. Qed.

Lemma example_reads_ok : reads_ok example_reads.
Proof. repeat constructor; pose proof blockSize_Z; simpl; lia. Qed.

Lemma tunnel_transparent_witness :
  pipe_up true (Writer [] []) example_up = Some (Writer (bs "hello world") [], None) /\
  relay_down true (Writer [] []) example_down = Some (Writer (bs "hello world") [], None).
Proof.
  edestruct (tunnel_transparent true true false example_reads example_reads example_up example_down 1 0) as (H1 & H2 & _);
    [exact example_reads_clean|exact example_reads_clean|apply example_one_clean|apply example_one_clean
    |exact example_reads_ok|exact example_reads_ok
    |vm_compute; reflexivity|vm_compute; reflexivity|vm_compute; reflexivity|vm_compute; reflexivity|].
  split; [exact H1|exact H2].
Defined.

Definition example_peer : bytes := map z2b [127; 0; 0; 1].
Definition example_source_addr : UDPAddr := mkUDPAddr example_peer 5000 [].

Lemma udp_end_to_end_witness : exists d,
  Send 7 false None None UdpNat.example_target (bs "query") = (None, None, Some d) /\
  serve_datagram eopt d run_1 = set_rx (RxHave example_dg None) (accept example_dg run_1).
Proof.
  destruct (udp_end_to_end eopt run_1 example_peer [] any_source (mkAssocState None [] [] []) example_source_addr
    (buildSOCKSUDP UdpNat.example_target (bs "query")) UdpNat.example_target (bs "query") 7 0
    (mkFlow (key_of example_dg) 7 UdpNat.example_target 12 true PRead) (bs "answer")) as (_ & H1 & _);
    [reflexivity|reflexivity|lia|reflexivity|reflexivity|vm_compute; discriminate|reflexivity|reflexivity
    |vm_compute; lia|].
  exact H1.
Defined.
