(* ===== verification/ProxyChain.v ===== *)
(** * From the local proxies to the destination

    The whole path of a TCP session: the bytes an application writes to the SOCKS5 or
    the HTTP proxy ([internal/proxy]), the stream that [dialStream] opens
    ([internal/client]), the server's gate, dial and relay ([internal/server]), and what
    the application is told when any of them fails. *)
From S2P Require Import Prelude GoStd GoNet Protocol Admission Compress Relay Tunnel Server ServerConns Client Socks Proxy HttpProxy EndToEnd.

(** ** dialStream *)

Section dial_stream.
Context {B : Type} `{AdmissionOps B}.

(** [compressionEnabled], for a proxy with a client. *)
Definition compressionEnabled (compression : bool) : bool := compression.

(** The [dialStream] that [NewWithOptions] installs: [OpenTCP] of the client, asked for
    compression when it is enabled; only the error or the stream's mode is passed on. *)
Definition dialStream (compression : bool) (maxPending : nat) (target : Address) (a : open_answers)
    (active codecs : B) (pending : nat) : res bool * writer :=
  let '(out, _, _) := OpenTCP compression (compressionEnabled compression) maxPending target a active codecs pending in
  (oo_result out, oo_writer out).
End dial_stream.

(** What the SOCKS client is told about a failed dial of the server. *)
Definition connect_rep (e : error) : byte :=
  if errors_Is e ErrDenied then repNotAllowed
  else if errors_Is e DeadlineExceeded || is_timeout e then repHostUnreach
  else repGeneralFailure.

Lemma dialErrToRep_status e : dialErrToRep (DialError (b2z (failure_status e))) = connect_rep e.
Proof. unfold failure_status, dialStatus, connect_rep. by repeat case_match. Qed.

Lemma countDialErr_status e : countDialErr (DialError (b2z (failure_status e))) = negb (errors_Is e ErrDenied).
Proof. unfold failure_status, dialStatus. by repeat case_match. Qed.

Lemma wire_form_idem a : valid_address a -> wire_form (wire_form a) = wire_form a.
Proof. intros Ha. by apply (ReadAddress_sound _ _ _ (ReadAddress_Encode a [] EOF Ha)). Qed.

(** ** A session through the tunnel *)
Section session.
Context {B B2 : Type} `{AdmissionLaws B} `{AdmissionLaws B2} `{FL : FlateLaws}.
Context (ccomp scomp : bool) (maxPending pending : nat) (active codecs : B) (sc : B2) (a : open_answers).
Context (dial : Address -> option error).

(** The client has room for a stream, a live tunnel, and a stream that the server
    accepted. *)
Record ready : Prop := {
  rd_active : ad_wf active; rd_codecs : ad_wf codecs; rd_server : ad_wf sc;
  rd_room : (size (ad_held active) < ad_limit active)%nat; rd_pending : (pending < maxPending)%nat;
  rd_conn : op_conn a = None; rd_stream : openTunnelStream (op_stream a) ProxyAuthority = (None, false);
  rd_writer : op_writer a = Writer [] []; rd_ctx : op_ctx a = None;
}.

(** The exchange on the stream: the server read what the client wrote, and the client
    reads its reply. *)
Definition exchanged (target : Address) (r : res bool) (sout : proxy_out) : Prop :=
  exists w rest sc', dialStream ccomp maxPending target a active codecs pending = (r, w) /\
    handleProxy scomp (Reader (wr_out w ++ rest) EOF) (Writer [] []) dial false sc = (sout, sc') /\
    op_reader a = Reader (wr_out (px_reply sout)) EOF.

Lemma exchanged_agree target r sout : ready -> valid_address target -> exchanged target r sout ->
  match dial (wire_form target) with
  | Some e => r = Err (DialError (b2z (failure_status e))) /\ px_end sout = ProxyDone
  | None => exists c, r = Ok c /\ px_end sout = ProxyPipe c /\
      (c = true <-> ccomp = true /\ scomp = true /\
         (size (ad_held codecs) < ad_limit codecs)%nat /\ (size (ad_held sc) < ad_limit sc)%nat)
  end.
Proof.
  intros [] Ha (w & rest & sc' & HO & HP & Hr). unfold dialStream in HO.
  destruct (OpenTCP _ _ _ _ _ _ _ _) as [[out act] cod] eqn:EO. injection HO as <- <-.
  pose proof (open_agree ccomp ccomp maxPending scomp target a dial rest active codecs sc pending out act cod sout sc'
    rd_active0 rd_codecs0 rd_server0 Ha rd_room0 rd_pending0 rd_conn0 rd_stream0 rd_writer0 rd_ctx0 EO HP Hr) as HA.
  destruct (dial (wire_form target)); [done|]. destruct HA as (c & ? & ? & Hc). exists c. split_and!; [done..|]. rewrite Hc. tauto.
Qed.

(** What the application sends after its request reaches the destination: the client
    relays in the agreed mode, however the reads and the stream are cut. *)
Definition reaches (c : bool) (sent : bytes) : Prop := forall observing pool app up w,
  clean app -> reads_ok app -> delivered app = sent -> clean up ->
  relay_up c observing (Writer [] []) app pool = (w, None) -> delivered up = wr_out w ->
  pipe_up c (Writer [] []) up = Some (Writer sent [], None).

Lemma relay_reaches c sent : reaches c sent.
Proof. intros observing pool app up w Ha Hok <- Hu HR Hd. by eapply relay_chain. Qed.

(** C5: a SOCKS5 session, from the application's bytes to the destination's.  For a greeting
    that offers no authentication and a CONNECT to any valid address, the proxy takes up
    exactly that address and leaves the bytes behind the request unread; if the server
    cannot dial, the application gets one reply with the code of the server's error and
    no relay runs on either side; otherwise it gets success, both sides relay in the same
    mode, and the bytes behind the request are what the destination receives. *)
Theorem socks_session methods target early e r sout : ready ->
  (length methods < 256)%nat -> ContainsByte methods methodNoAuth = true -> valid_address target -> Port target <> 0 ->
  exchanged (wire_form target) r sout ->
  let hello := [socksVersion; methodNoAuth] in
  exists w1,
    handleSOCKS (Reader (greeting methods ++ socks_request cmdConnect target ++ early) e) (Writer [] []) =
      (SocksConnect (wire_form target), Reader early e, w1) /\
    match dial (wire_form target) with
    | Some err => socksConnect r w1 = (None, false, Writer (hello ++ socks_reply (connect_rep err) IPv4zero 0) []) /\
        px_end sout = ProxyDone
    | None => exists c, socksConnect r w1 = (Some c, false, Writer (hello ++ socks_reply repSuccess IPv4zero 0) []) /\
        px_end sout = ProxyPipe c /\ reaches c early
    end.
Proof.
  intros Hrd Hm Hna Ha Hp HX. cbv zeta. eexists. split.
  { unfold handleSOCKS. rewrite socksHandshake_greeting, Hna by done. rewrite readSOCKSRequest_request by done.
    rewrite beq_refl, wire_port, (proj2 (Z.eqb_neq _ _) Hp). reflexivity. }
  pose proof (exchanged_agree _ _ _ Hrd (wire_form_valid _ Ha) HX) as HA. rewrite wire_form_idem in HA by done.
  destruct (dial (wire_form target)) as [err|].
  - destruct HA as [-> Hend]. split; [|done]. unfold socksConnect. by rewrite dialErrToRep_status.
  - destruct HA as (c & -> & Hend & _). exists c. split; [done|]. split; [done|]. apply relay_reaches.
Qed.

(** C6: an HTTP CONNECT session.  A CONNECT without a body whose target is an address with a
    nonzero port is dialled there; a failed dial gives 502 and no relay on either side; a
    successful one is established, both sides relay in the same mode, and the
    destination receives the bytes buffered behind the request head and then the rest of
    the connection. *)
Theorem http_connect_session rq target r sout buffered conn : ready ->
  hr_method rq = bs "CONNECT" -> hr_body rq = false -> http_target (hr_host rq) (bs "443") = Some target ->
  exchanged target r sout ->
  match dial target with
  | Some err => httpHandler rq (fun _ => r) None = (Rejected 502 false, false) /\ px_end sout = ProxyDone
  | None => exists c, httpHandler rq (fun _ => r) None = (Established target c, false) /\ px_end sout = ProxyPipe c /\
      reaches c (delivered (connect_reader buffered conn)) /\
      delivered (connect_reader buffered conn) = buffered ++ delivered conn
  end.
Proof.
  intros Hrd Hm Hb Ht HX. unfold httpHandler, httpConnect. rewrite (bool_decide_eq_true_2 _ Hm), Ht, Hb.
  assert (valid_address target /\ wire_form target = target) as [Ha Hw].
  { unfold http_target in Ht. destruct (ParseAddress _) as [x|] eqn:E; [|done]. apply ParseAddress_sound in E as [? ?].
    destruct (Port x =? 0); [done|]. by injection Ht as <-. }
  pose proof (exchanged_agree _ _ _ Hrd Ha HX) as HA. rewrite Hw in HA. destruct (dial target) as [err|].
  - destruct HA as [-> Hend]. split; [|done]. unfold rejectHTTP, capacityHTTPStatus. rewrite Hb. by destruct (errors_Is _ _) eqn:E.
  - destruct HA as (c & -> & Hend & _). exists c. split_and!; [done..|apply relay_reaches|by destruct buffered].
Qed.
End session.

(** ** Failures *)

(** What the two proxies make of an error of [dialStream]: the SOCKS reply, the HTTP
    status, and whether it is counted as a dial error. *)
Definition verdict (e : error) : byte * Z * bool := (dialErrToRep e, capacityHTTPStatus e, countDialErr e).
Definition capacity_verdict : byte * Z * bool := (repGeneralFailure, 503, false).

(** The HTTP/3 layer delivers the server's answer to the CONNECT of a stream. *)
Definition answered (a : open_answers) (code : Z) : Prop :=
  h3_open (op_stream a) = None /\ h3_send (op_stream a) (tunnel_request ProxyAuthority) = None /\
  h3_response (op_stream a) = Ok code.

Lemma dialStream_full {B} `{AdmissionLaws B} comp maxPending target a (active codecs : B) pending : ad_wf active ->
  (ad_limit active <= size (ad_held active))%nat \/ (maxPending <= pending)%nat ->
  fst (dialStream comp maxPending target a active codecs pending) = Err ErrCapacity.
Proof.
  intros Hwf Hfull. unfold dialStream, OpenTCP. destruct (ad_try active) as [o act] eqn:E.
  destruct (ad_try_cases _ _ _ Hwf E) as [(l & -> & _ & _ & _ & _ & Hlt)|(-> & _)]; [|done].
  rewrite bool_decide_eq_false_2 by lia. done.
Qed.

Lemma dialStream_refused {B} `{AdmissionLaws B} comp maxPending target a (active codecs : B) pending code : ad_wf active ->
  (size (ad_held active) < ad_limit active)%nat -> (pending < maxPending)%nat -> op_conn a = None ->
  answered a code -> code <> 200 ->
  exists e, fst (dialStream comp maxPending target a active codecs pending) = Err e /\
    verdict e = if code =? 503 then capacity_verdict else (repGeneralFailure, 502, true).
Proof.
  intros Hwf Hroom Hp Hc (Ho & Hs & Hr) Hne. destruct (ad_try_ok active Hwf Hroom) as (l & act & E & _).
  unfold dialStream, OpenTCP. rewrite E, bool_decide_eq_true_2 by done. cbn [negb]. unfold open_pending. rewrite Hc.
  unfold openTunnelStream. rewrite Ho, Hs, Hr, (proj2 (Z.eqb_neq code 200) Hne). cbn [negb].
  destruct (code =? 503); eexists; by split.
Qed.

(** The answer of the server's gate to a stream of an authenticated connection. *)
Lemma gate_answer `{Crypto} {B} `{AdmissionLaws B} maxStreams c x id (s : server B) : ad_wf (active s) ->
  conns s !! c = Some x -> cn_phase x = Authed id ->
  let full := (ad_limit (active s) <= size (ad_held (active s)))%nat \/ (maxStreams <= cn_streams x)%nat in
  let answer := fst (serveHTTP maxStreams c (as_request (tunnel_request ProxyAuthority)) s) in
  (accepts s id = false -> answer = RStatus 403) /\ (accepts s id = true -> full -> answer = RStatus 503) /\
  (accepts s id = true -> ~ full -> exists sid, answer = RProxy sid).
Proof.
  intros Hwf Hc Hx. cbv zeta. unfold serveHTTP, as_request, tunnel_request.
  cbn [rq_method rq_host rq_version cq_method cq_host cq_version].
  change (negb (bool_decide (bs "CONNECT" = bs "CONNECT")) || _) with false.
  change (negb (bool_decide (Itoa (b2z Version) = Itoa (b2z Version)))) with false.
  change (bool_decide (ProxyAuthority = ControlAuthority)) with false. cbv iota. rewrite Hc. unfold serve_proxy. rewrite Hx.
  destruct (accepts s id); cbn [negb]; [split; [done|]|by split_and!]. destruct (ad_try (active s)) as [o act] eqn:E.
  destruct (ad_try_cases _ _ _ Hwf E) as [(l & -> & _ & _ & _ & _ & Hlt)|(-> & _ & Hf)].
  - destruct (bool_decide_reflect (cn_streams x < maxStreams)%nat); cbn [negb rq_http3 fst].
    + split; [intros _ [?|?]; lia|eauto].
    + split; [done|]. intros _ Hnf. exfalso. apply Hnf. right. lia.
  - split; [done|]. intros _ Hnf. exfalso. apply Hnf. left. lia.
Qed.

(** C7: how failures reach the application.  A client out of streams or pending requests, and
    a server out of streams (its own, or of the connection) behind a live tunnel, are
    both reported as capacity: SOCKS general failure and HTTP 503, not counted as dial
    errors; a connection whose key was revoked gives general failure and 502.  A dial the
    server's policy denies is "not allowed" to SOCKS and not counted; one that times out
    is "host unreachable", any other "general failure", both counted; HTTP gets 502 for
    all three. *)
Theorem failure_chain `{Crypto} {B B2} `{AdmissionLaws B} `{AdmissionLaws B2}
    comp maxPending target a (act codecs : B) pending maxStreams c x id (s : server B2) err : ad_wf act -> ad_wf (active s) ->
  conns s !! c = Some x -> cn_phase x = Authed id -> op_conn a = None ->
  let result := fst (dialStream comp maxPending target a act codecs pending) in
  let room := (size (ad_held act) < ad_limit act)%nat /\ (pending < maxPending)%nat in
  let server_full := (ad_limit (active s) <= size (ad_held (active s)))%nat \/ (maxStreams <= cn_streams x)%nat in
  let answer := fst (serveHTTP maxStreams c (as_request (tunnel_request ProxyAuthority)) s) in
  (~ room -> result = Err ErrCapacity /\ verdict ErrCapacity = capacity_verdict) /\
  (room -> accepts s id = true -> server_full -> answered a 503 ->
     answer = RStatus 503 /\ exists e, result = Err e /\ verdict e = capacity_verdict) /\
  (room -> accepts s id = false -> answered a 403 ->
     answer = RStatus 403 /\ exists e, result = Err e /\ verdict e = (repGeneralFailure, 502, true)) /\
  verdict (DialError (b2z (failure_status err))) = (connect_rep err, 502, negb (errors_Is err ErrDenied)).
Proof.
  intros Hwf Hws Hc Hx Hop. cbv zeta. destruct (gate_answer maxStreams c x id s Hws Hc Hx) as (G1 & G2 & _).
  split_and!.
  - intros Hroom. split; [|done]. apply dialStream_full; [done|].
    destruct (decide (pending < maxPending)%nat); [left|right; lia]. destruct (decide (size (ad_held act) < ad_limit act)%nat); [by destruct Hroom|lia].
  - intros [Hr Hp] Ha Hf Han. split; [by apply G2|]. by apply (dialStream_refused comp maxPending target a act codecs pending 503).
  - intros [Hr Hp] Ha Han. split; [by apply G1|]. by apply (dialStream_refused comp maxPending target a act codecs pending 403).
  - unfold verdict. rewrite dialErrToRep_status, countDialErr_status. done.
Qed.

(** ** Concrete runs *)
#[local] Existing Instance toy_crypto.
#[local] Existing Instance toy_laws.
#[local] Existing Instance stored_flate.
#[local] Existing Instance stored_laws.

(** A tunnel whose server answers with a status and flags. *)
Definition tunnel_answers (st fl : byte) : open_answers :=
  mkOpen None (mkH3 None (fun _ => None) (Ok 200) None) (Writer [] []) (Reader (reply st fl) EOF) None.

Lemma example_ready st fl : ready 1 0 example_budget example_budget example_budget (tunnel_answers st fl).
Proof. split; try exact client_budget_wf; try reflexivity; vm_compute; lia. Qed.

Lemma example_target_ok : valid_address Client.example_target /\ wire_form Client.example_target = Client.example_target.
Proof. split; [split; [vm_compute; reflexivity|cbn; lia]|vm_compute; reflexivity]. Qed.

Lemma socks_session_witness : exists w1,
  handleSOCKS (Reader (greeting [methodNoAuth] ++ socks_request cmdConnect Client.example_target ++ bs "GET") EOF) (Writer [] []) =
    (SocksConnect (wire_form Client.example_target), Reader (bs "GET") EOF, w1) /\
  socksConnect (Err (DialError (b2z StatusNotAllowed))) w1 =
    (None, false, Writer ([socksVersion; methodNoAuth] ++ socks_reply repNotAllowed IPv4zero 0) []).
Proof.
  set (ans := tunnel_answers StatusNotAllowed Byte.x00).
  set (t := wire_form Client.example_target).
  destruct (socks_session true true 1 0 example_budget example_budget example_budget ans
    (fun _ => Some ErrDenied) [methodNoAuth] Client.example_target (bs "GET") EOF (Err (DialError (b2z StatusNotAllowed)))
    (fst (handleProxy true (Reader (wr_out (snd (dialStream true 1 t ans example_budget example_budget 0)) ++ []) EOF)
       (Writer [] []) (fun _ => Some ErrDenied) false example_budget))) as (w1 & H1 & H2 & _);
    [apply example_ready|cbn; lia|reflexivity|apply example_target_ok|vm_compute; discriminate
    |exists (snd (dialStream true 1 t ans example_budget example_budget 0)), [];
     eexists; split; [vm_compute; reflexivity|split; [vm_compute; reflexivity|reflexivity]]|].
  exists w1. split; [exact H1|exact H2].
Defined.

Definition example_connect : hrequest := mkHRequest (bs "CONNECT") (bs "192.0.2.1:443") false [] [] false.

Lemma http_connect_session_witness : exists t c, http_target (hr_host example_connect) (bs "443") = Some t /\
  httpHandler example_connect (fun _ => Ok true) None = (Established t c, false).
Proof.
  set (t := mkAddress AtypIPv4 [] (map z2b [192; 0; 2; 1]) 443).
  set (ans := tunnel_answers StatusOK FlagCompress).
  destruct (http_connect_session true true 1 0 example_budget example_budget example_budget ans
    (fun _ => None) example_connect t (Ok true)
    (fst (handleProxy true (Reader (wr_out (snd (dialStream true 1 t ans example_budget example_budget 0)) ++ []) EOF)
       (Writer [] []) (fun _ => None) false example_budget)) (bs "x") []) as (c & H1 & _);
    [apply example_ready|reflexivity|reflexivity|vm_compute; reflexivity
    |exists (snd (dialStream true 1 t ans example_budget example_budget 0)), [];
     eexists; split; [vm_compute; reflexivity|split; [vm_compute; reflexivity|reflexivity]]|].
  exists t, c. split; [vm_compute; reflexivity|exact H1].
Defined.

Definition full_server : server Budget := mkServer example_snapshot (99 * second) 0
  {[ 3%nat := mkConn true Registered (Authed (sha256 old_key)) 1 ]} example_budget example_budget ∅ None ∅ false.

Lemma failure_chain_witness :
  fst (serveHTTP 1 3 (as_request (tunnel_request ProxyAuthority)) full_server) = RStatus 503 /\
  exists e, fst (dialStream true 1 Client.example_target
    (mkOpen None (mkH3 None (fun _ => None) (Ok 503) None) (Writer [] []) (Reader [] EOF) None) example_budget example_budget 0) = Err e /\
    verdict e = capacity_verdict.
Proof.
  apply (failure_chain true 1 Client.example_target
    (mkOpen None (mkH3 None (fun _ => None) (Ok 503) None) (Writer [] []) (Reader [] EOF) None)
    example_budget example_budget 0 1 3 (mkConn true Registered (Authed (sha256 old_key)) 1) (sha256 old_key) full_server ErrDenied);
    [exact client_budget_wf|exact client_budget_wf|reflexivity|reflexivity|reflexivity|split; vm_compute; lia
    |vm_compute; reflexivity|right; cbn; lia|repeat split].
Defined.
